(* ===== verification/_CoqProject ===== *)
-Q . S2P
Prelude.v
JsString.v
JsRegex.v
JsNumber.v
Json.v
JsonFacts.v
StatusCodes.v
ModelMapping.v
BillingExpr.v
BillingRules.v
TierExpr.v
TierFacts.v
Messages.v
MessageFacts.v
Playground.v
PlaygroundFacts.v
Channels.v
ChannelFacts.v
ChannelForm.v
ChannelFormFacts.v
Currency.v
CurrencyFacts.v
Pricing.v
PricingFacts.v
ParamOverride.v
OverrideEditor.v
OverrideFacts.v
OverrideInvariant.v
OverrideRoundtrip.v
OverrideForms.v
Navigation.v
NavigationFacts.v
TableUrl.v
TableUrlFacts.v
Utf8.v
UrlEncoding.v
Base64.v
Charts.v
ChartsFacts.v
TierEditor.v
TierEditorFacts.v
TierAgreement.v
UsageLogs.v
UsageLogFacts.v
SettingsJson.v
ModelRatios.v
ModelRatioFacts.v
RatioSync.v
RatioSyncFacts.v
GroupRatios.v
GroupRatioFacts.v
ChatLinks.v
ChannelDrawer.v
ChannelDrawerFacts.v
FetchModels.v
FloatBounds.v
Format.v
KeyForms.v
KeyStore.v
KeyDrawer.v
SettingsForm.v
