(* ===== verification/Prelude.v ===== *)
(** * Verification of the KittyVibe web console

    The repository is the KittyVibe gateway; its console, the TypeScript application under
    [web/default/src], is what this library models.  The console lets an administrator configure
    channels (upstream providers with their keys, models, mappings and status code rules), set
    prices as billing expressions, override request parameters, arrange the navigation, browse the
    price list and the charts of the dashboard, manage API keys, codes and users, and try models in a
    chat page.  The
    definitions follow the functions of the source by name; the theorems state what these
    functions compute on every input, or on the inputs a boolean predicate describes.

    ** How the parts interact

    The pages keep their state in forms, JSON texts and expression texts: a channel form writes
    and reads two JSON texts and a list of models; the price editors write a billing expression
    and read it back; the price list reads the same expression through the tier parser and the
    currency formatter; the chat page turns messages into a request payload and the chunks of a
    stream into the last message.  The dialogs keep React state next to what they report: their
    effects and handlers are steps on an explicit state.  Most theorems are about these boundaries:
    what is written is read back, what is shown is what the data say, an editor and its dialog stay
    in step, and one stream writes one message.

    ** The language

    - [Prelude]: lists, stable sorting by a comparator ([sort_by], [Array.prototype.sort]), sets
      in order of insertion ([dedup]), tactics, the option monad, the hint database [js].
    - [JsString]: strings as lists of UTF-16 code units, with [trim], [split], [join],
      [indexOf], ... .  [toLowerCase] and [localeCompare] depend on Unicode data and the locale;
      they are parameters, with the classes [LowerCase] and [Collation] for what is used of them.
    - [JsRegex]: the matcher of regular expressions of ECMAScript with greedy and lazy
      repetition, captures, anchors and backtracking; [match], [test], [exec], [replace] and
      [split]; lemmas that run a pattern over a text piece by piece.
    - [JsNumber]: IEEE 754 binary64, [Number(s)], [String(x)], [toFixed].
    - [Json], [JsonFacts]: [JSON.parse] and [JSON.stringify], compact and indented, the order of
      keys, reading and spreading properties, and the round trip of values.

    ** The components

    - [StatusCodes]: [lib/http-status-code-rules.ts] (Module [Rules]) and
      [features/channels/lib/status-code-risk-guard.ts] (Module [RiskGuard]).  Parsed rules cover
      exactly the codes of their segments, as separated ranges; normalized text parses to the
      same ranges; rejection is characterized; the guard reports exactly the risky redirects.
    - [ModelMapping]: [features/channels/lib/model-mapping-validation.ts] and
      [upstream-update-utils.ts].  Round trip of model lists; what is missing, exposed and
      redirected.
    - [BillingExpr], [BillingRules]: [features/pricing/lib/billing-expr.ts].  The variable
      registry, the tier parser, the reader and the printer of request rules.  Printed canonical
      rules are read back; a base combined with rules splits into the two; the loop that unwraps
      parentheses is complete; the conditions printed with a guard are not read back.
    - [TierExpr], [TierFacts]: [features/pricing/lib/tier-expr.ts], the visual editor.  The
      expression generated from a canonical configuration is read back as that configuration.
    - [TierEditor], [TierEditorFacts]: the dialog part around it,
      [features/system-settings/models/tiered-pricing-editor.tsx]: number fields, cards, presets
      and the component.  [commit] is a rendering with its effects, [settle] a bounded sequence of
      them.  The effects come to rest; through readable states the editor implements the direct
      editing of a configuration and its rules; presets; and what opening the editor does to an
      expression that its visual mode cannot read.
    - [Messages], [MessageFacts]: the messages of the playground ([types.ts], [constants.ts],
      [lib/message-utils.ts], [lib/payload-builder.ts] of [features/playground]).  The
      specification of think tags, the repair of stored messages, the payload of a request.
    - [Playground], [PlaygroundFacts]: the chat page as a state machine
      ([hooks/use-stream-request.ts], [hooks/use-chat-handler.ts],
      [hooks/use-message-action-guard.ts], [index.tsx] and
      [components/playground-input.tsx]).  One step per callback of the page or listener of the
      event source; the invariant of reachable states; the text, and the reasoning if there is any, that
      a stream leaves in the message however it is cut into chunks; the runs in which two requests overlap.
    - [Channels], [ChannelFacts]: [features/channels/types.ts], the tables of [constants.ts],
      [lib/channel-utils.ts] and [lib/multi-key-utils.ts].  The tag view as a grouping with its sums, the
      deduplication of keys, the mask of keys, the order of groups.
    - [ChannelForm], [ChannelFormFacts]: [features/channels/lib/channel-form.ts].  The two JSON
      texts of a channel survive writing and reading; the payloads.
    - [Currency], [CurrencyFacts]: [lib/currency.ts] and the currency part of
      [stores/system-config-store.ts].  [Intl.NumberFormat] is a parameter.  The configuration is
      well formed, small amounts are not shown as zero, prices are never shown in tokens.
    - [Pricing], [PricingFacts]: [lib/filters.ts], [lib/price.ts], [lib/dynamic-price.ts],
      [lib/model-helpers.ts] and [lib/description.ts] of [features/pricing].  What the list
      shows and in which order, the offered tags, the ratio of a group, the dynamic summary.
    - [ParamOverride], [OverrideEditor]: the rules and the dialog of
      [features/channels/components/dialogs/param-override-editor-dialog.tsx], with a monad for the
      counter behind identifiers and a step relation for the dialog.  [OverrideFacts]: identifiers
      and the order of rules; [OverrideInvariant]: the invariant of reachable states and what is
      saved; [OverrideRoundtrip]: what a saved text keeps; [OverrideForms]: the forms that keep
      their fields in a text.
    - [Navigation], [NavigationFacts]: the sidebar and the header
      ([hooks/use-sidebar-config.ts], [hooks/use-sidebar-data.ts], [hooks/use-top-nav-links.ts],
      [features/system-settings/maintenance], [features/profile/components/sidebar-modules-card.tsx])
      and [lib/billing-visibility.ts].  The links that are shown under the settings of the
      administrator and the card of the user; a user only hides; who sees internal billing.
    - [TableUrl], [TableUrlFacts]: [hooks/use-table-url-state.ts].  Filters and pages survive in the
      url; the page comes into range.
    - [Utf8], [UrlEncoding], [Base64]: UTF-8, [encodeURIComponent], [btoa] and [atob], and the base64url
      texts of [lib/passkey.ts], which are read back.
    - [Charts], [ChartsFacts]: [features/dashboard/lib/charts.ts].  The charts add up to the totals,
      rankings keep the largest, tooltips add up, and when usage is missing from a chart.
    - [TierAgreement]: the tier parser of the price list reads the expression of a configuration as
      the tiers of this configuration.
    - [UsageLogs], [UsageLogFacts]: [features/usage-logs] (filters, links, requests, and the details of
      an entry in [lib/format.ts]).  A log shows the prices of the first tier with the label it names, the
      filters of the bar survive in the link and in the request, and the request of a user goes to the
      own logs with the parameters of its category only.
    - [SettingsJson]: settings that are JSON texts ([features/system-settings/utils] and the saves of
      [models/ratio-settings-card.tsx]).  Only what changed is sent.
    - [SettingsForm]: the hook of the settings forms ([hooks/use-settings-form.ts]): dotted names become a
      nested form and are found again, and exactly the changed settings are sent.
    - [ModelRatios], [ModelRatioFacts]: the model ratio editor over ten maps ([model-ratio-visual-editor.tsx],
      [model-ratio-dialog.tsx], [model-ratio-form.tsx]).  The dialog shows [TierEditor] for a tiered model
      ([show_editor]).  What a save writes for each mode; that saving a row as it was opened changes
      nothing when its expression is one the tier editor prints; and that it loses an expression the
      visual mode cannot read.
    - [RatioSync], [RatioSyncFacts]: the synchronization with upstream prices ([upstream-ratio-sync*]).
      The choices of reachable pages, what is written, and when a change between a fixed price and
      ratios is asked about.
    - [GroupRatios], [GroupRatioFacts]: [group-ratio-visual-editor.tsx].  The five texts follow the
      editing of five maps.
    - [ChatLinks]: [features/chat/lib/chat-links.ts] and the handler that opens a link.  Tokens are
      replaced where they stand, and a configuration in a link can be read back.
    - [ChannelDrawer], [ChannelDrawerFacts]: the drawer that creates and edits channels
      ([features/channels/components/drawers/channel-mutate-drawer.tsx], with its provider and two
      dialogs), which composes [ChannelForm], [ModelMapping] and [StatusCodes].  One event per click,
      answer or result of a query; what was checked and confirmed before any request; saving a channel
      as it was loaded; warnings and checks agree; input that is lost.
    - [FetchModels]: the dialog with the models of an upstream ([fetch-models-dialog.tsx]).
    - [FloatBounds]: the rounding of binary64 products and quotients in real numbers, exact integers,
      [Math.round] and chains of roundings.
    - [Format]: [lib/format.ts].  A quota shown in the unit of the display and read back is the same
      integer up to [2^48]; times in seconds survive a [Date]; the colours of tags are in range.
    - [KeyForms]: the forms of keys, redemption codes and users ([features/keys/lib],
      [features/redemption-codes/lib], [features/users/lib]) and the quota dialog of a user.  What a
      record saved as it was opened sends: what it had, but for the fields the form derives.
    - [KeyStore]: the cache of real keys ([features/keys/components/api-keys-provider.tsx]) as a step
      relation over calls and answers, and the copying of selected keys.
    - [KeyDrawer]: the drawer of a key ([api-keys-mutate-drawer.tsx]): which key the form shows when
      answers come in order or late, and the loop that creates several keys.

    ** Fuel

    Loops that are not structural carry fuel.  A starred pattern and [exec] consume a character
    per iteration, so the length of the text is enough ([iterate], [exec_all]); each round of
    [unwrap_loop] removes two characters ([unwrap_complete] shows that nothing is left to
    unwrap); each round of [think_loop] passes a tag ([parseThinkTags_spec] is an equation for
    every text); [parse_value] spends one unit per character at most, which [JsonFacts] uses to
    prove that printed values parse; the digits of a number are bounded by its size.  [settle 5]
    stands for rendering until nothing changes: [editor_settles] shows that five are enough, and
    [drawer_settles] that two are for the channel drawer ([settle]).  [create_loop] spends one unit per
    key: [submit_creates] shows that more fuel than keys gives a result.

    ** Canonical inputs

    The round trips of expressions are stated for inputs whose texts stay clear of the syntax
    around them: [canonical_group] (no unescaped separators in paths, numbers in the notation of
    the reader) and [canonical_config] (labels without quotes, costs that print in the characters
    the reader accepts, a condition on every tier but the last).  Both are boolean functions, and
    every such theorem has an instance evaluated on a concrete input.

    ** What is not modelled

    Rendering (components, routes), HTTP clients and query caches other than what the drawer reads
    from them, translations, calendars and the texts of dates ([dayjs], [Intl]),
    [replaceModelInPath] and [evalExprLocally], which compiles text with [new Function]; the
    credential objects of the passkeys; the layout and the colours of charts; tables (sorting,
    paging) that are a library's; and the Go server. React Hook Form, React Query and the dialog
    components are libraries: of them the models keep the values of a form, the cached answers and
    which dialog is open. *)

From stdpp Require Export base tactics list numbers sets sorting strings.
From Stdlib Require Export Lia ZifyBool ZifyN ZifyNat.
#[global] Open Scope nat_scope.

(** ** Tactics *)

(** Case analysis on every [match] or [if] of the goal, closing the easy cases. *)
Ltac split_match :=
  repeat (case_match; simplify_eq/=; try done).

(** Turns boolean tests in the context into propositions. *)
Ltac bool_to_prop :=
  repeat match goal with
  | H : andb _ _ = true |- _ => apply andb_prop in H as [? ?]
  | H : orb _ _ = false |- _ => apply orb_false_iff in H as [? ?]
  | H : negb _ = true |- _ => apply negb_true_iff in H
  | H : negb _ = false |- _ => apply negb_false_iff in H
  | H : (_ =? _)%N = true |- _ => apply N.eqb_eq in H
  | H : (_ =? _)%N = false |- _ => apply N.eqb_neq in H
  | H : (_ <=? _)%N = true |- _ => apply N.leb_le in H
  | H : (_ <=? _)%N = false |- _ => apply N.leb_gt in H
  | H : (_ <? _)%N = true |- _ => apply N.ltb_lt in H
  | H : (_ <? _)%N = false |- _ => apply N.ltb_ge in H
  | H : (_ =? _)%Z = true |- _ => apply Z.eqb_eq in H
  | H : (_ =? _)%Z = false |- _ => apply Z.eqb_neq in H
  | H : (_ <=? _)%Z = true |- _ => apply Z.leb_le in H
  | H : (_ <=? _)%Z = false |- _ => apply Z.leb_gt in H
  | H : (_ <? _)%Z = true |- _ => apply Z.ltb_lt in H
  | H : (_ <? _)%Z = false |- _ => apply Z.ltb_ge in H
  end.

(** The development's hint database: facts on lists and strings that close side
    conditions. *)
Create HintDb js discriminated.

(** ** Lists *)

(** [xs.filter(f)] with a boolean callback. *)
Abbreviation jfilter := List.filter.

Section Lists.
Context {A : Type}.
Implicit Types (f g : A -> bool) (l k : list A).

Lemma jfilter_app f l k : jfilter f (l ++ k) = jfilter f l ++ jfilter f k.
Proof. apply List.filter_app. Qed.

Lemma jfilter_all f l : Forall (fun x => f x = true) l -> jfilter f l = l.
Proof. induction 1 as [|x l Hx _ IH]; simpl; [done|]. by rewrite Hx, IH. Qed.

Lemma jfilter_elem_of f l x : x ∈ jfilter f l <-> f x = true /\ x ∈ l.
Proof. rewrite !list_elem_of_In, List.filter_In. tauto. Qed.

Lemma jfilter_length f l : length (jfilter f l) <= length l.
Proof. apply List.filter_length_le. Qed.

Lemma forallb_Forall f l : forallb f l = true <-> Forall (fun x => f x = true) l.
Proof. rewrite List.forallb_forall, Forall_forall. by setoid_rewrite list_elem_of_In. Qed.

Lemma forallb_app f l k : forallb f (l ++ k) = forallb f l && forallb f k.
Proof. apply List.forallb_app. Qed.

Lemma forallb_impl f g l :
  (forall x, f x = true -> g x = true) -> forallb f l = true -> forallb g l = true.
Proof. rewrite !forallb_Forall. intros Hfg Hl. eapply Forall_impl; eauto. Qed.

(** The longest prefix satisfying [f], and what follows it. *)
Fixpoint span f l : list A * list A :=
  match l with
  | x :: t => if f x then let '(a, b) := span f t in (x :: a, b) else ([], l)
  | [] => ([], [])
  end.

Lemma span_spec f l a b :
  span f l = (a, b) -> l = a ++ b /\ forallb f a = true /\ forall x t, b = x :: t -> f x = false.
Proof.
  revert a b. induction l as [|x l IH]; intros a b; simpl; [by intros [= <- <-]|].
  destruct (f x) eqn:Hx; [|by intros [= <- <-]; split_and!; [..|intros ?? [= <- <-]]].
  destruct (span f l) as [a' b'] eqn:Hs. intros [= <- <-].
  destruct (IH a' b' eq_refl) as (-> & Ha & Hb). simpl. by rewrite Hx.
Qed.

Lemma span_app f a b :
  forallb f a = true -> (forall x t, b = x :: t -> f x = false) -> span f (a ++ b) = (a, b).
Proof.
  intros Ha Hb. induction a as [|x a IH]; simpl in *.
  - destruct b as [|y b]; simpl; [done|]. by rewrite (Hb y b).
  - bool_to_prop. rewrite H, IH by done. done.
Qed.

(** The last element, as [xs\[xs.length - 1\]]. *)
Lemma last_app_one l x : last (l ++ [x]) = Some x.
Proof. apply last_snoc. Qed.

End Lists.

(** The first success of a partial function on a list. *)
Fixpoint first_some {A B} (g : A -> option B) (l : list A) : option B :=
  match l with
  | [] => None
  | x :: t => match g x with Some y => Some y | None => first_some g t end
  end.

Lemma first_some_app {A B} (g : A -> option B) (l k : list A) :
  first_some g (l ++ k) =
    match first_some g l with Some y => Some y | None => first_some g k end.
Proof. induction l as [|x l IH]; simpl; [done|]. by destruct (g x). Qed.

Lemma first_some_flat_map {A B C} (h : C -> list A) (g : A -> option B) (l : list C) :
  first_some g (flat_map h l) = first_some (fun c => first_some g (h c)) l.
Proof.
  induction l as [|x l IH]; simpl; [done|].
  rewrite first_some_app, IH. done.
Qed.

Lemma first_some_ext {A B} (g h : A -> option B) (l : list A) :
  (forall x, g x = h x) -> first_some g l = first_some h l.
Proof. intros Hgh. induction l as [|x l IH]; simpl; [done|]. by rewrite Hgh, IH. Qed.

Lemma jfilter_none {A} (p : A -> bool) l : (forall x, x ∈ l -> p x = false) -> jfilter p l = [].
Proof.
  induction l as [|x l IH]; intros H; [done|]. cbn. rewrite (H x) by by left. apply IH. intros y Hy. apply H. by right.
Qed.

Lemma jfilter_map_NoDup {A B} (g : A -> B) (p : A -> bool) l : NoDup (map g l) -> NoDup (map g (jfilter p l)).
Proof.
  induction l as [|x l IH]; [done|]. cbn [map]. intros [Hx Hl]%NoDup_cons. cbn. destruct (p x); [|by apply IH].
  cbn [map]. constructor; [|by apply IH]. intros (y & E & [_ Hy]%jfilter_elem_of)%list_elem_of_fmap.
  destruct Hx. apply list_elem_of_fmap. by exists y.
Qed.

Lemma NoDup_map_inj {A B} (g : A -> B) l x y : NoDup (map g l) -> x ∈ l -> y ∈ l -> g x = g y -> x = y.
Proof.
  induction l as [|z l IH]; [by intros _ ?%elem_of_nil|]. cbn [map]. intros [Hz Hl]%NoDup_cons.
  intros [->|Hx]%elem_of_cons [->|Hy]%elem_of_cons E; [done| | |by apply IH];
    destruct Hz; apply list_elem_of_fmap; eauto.
Qed.

(** ** Exceptions *)

(** Code that may throw: [Throw] stands for an exception that reaches the caller. *)
Inductive outcome (A : Type) : Type :=
| Ret (a : A)
| Throw.
Arguments Ret {A} a.
Arguments Throw {A}.

Definition obind {A B} (c : outcome A) (k : A -> outcome B) : outcome B :=
  match c with Ret a => k a | Throw => Throw end.

Notation "'bind!' x := c 'in' k" := (obind c (fun x => k))
  (at level 10, x pattern, c at level 200, k at level 200).

(** ** Sets as insertion-ordered lists *)

(** [Array.from(new Set(xs))]: the first occurrence of each element, in order. *)
Section Dedup.
Context {A : Type} `{EqDecision A}.
Implicit Types l k seen : list A.

Fixpoint dedup_from seen l : list A :=
  match l with
  | [] => []
  | x :: t => if decide (x ∈ seen) then dedup_from seen t else x :: dedup_from (x :: seen) t
  end.

Definition dedup l : list A := dedup_from [] l.

Lemma elem_of_dedup_from seen l x : x ∈ dedup_from seen l <-> x ∈ l /\ x ∉ seen.
Proof.
  revert seen. induction l as [|y l IH]; intros seen; simpl; [set_solver|].
  case_decide; rewrite ?elem_of_cons, IH; [|destruct (decide (x = y))]; set_solver.
Qed.

Lemma elem_of_dedup l x : x ∈ dedup l <-> x ∈ l.
Proof. unfold dedup. rewrite elem_of_dedup_from. set_solver. Qed.

Lemma NoDup_dedup_from seen l : NoDup (dedup_from seen l).
Proof.
  revert seen. induction l as [|y l IH]; intros seen; simpl; [constructor|].
  case_decide; [done|]. constructor; [|done]. rewrite elem_of_dedup_from. set_solver.
Qed.

Lemma NoDup_dedup l : NoDup (dedup l).
Proof. apply NoDup_dedup_from. Qed.

Lemma dedup_from_id seen l :
  NoDup l -> (forall x, x ∈ l -> x ∉ seen) -> dedup_from seen l = l.
Proof.
  intros Hl. revert seen. induction Hl as [|y l Hy Hl IH]; intros seen Hseen; simpl; [done|].
  case_decide; [exfalso; set_solver|]. f_equal. apply IH. set_solver.
Qed.

Lemma dedup_id l : NoDup l -> dedup l = l.
Proof. intros. apply dedup_from_id; set_solver. Qed.

Lemma dedup_idemp l : dedup (dedup l) = dedup l.
Proof. apply dedup_id, NoDup_dedup. Qed.

Lemma dedup_from_sublist seen l : sublist (dedup_from seen l) l.
Proof.
  revert seen. induction l as [|y l IH]; intros seen; simpl; [constructor|].
  case_decide; by constructor.
Qed.

Lemma dedup_length l : length (dedup l) <= length l.
Proof. apply sublist_length, dedup_from_sublist. Qed.

Lemma dedup_from_snoc seen l x :
  dedup_from seen (l ++ [x])
  = dedup_from seen l ++ (if decide (x ∈ l ++ seen) then [] else [x]).
Proof.
  revert seen. induction l as [|y l IH]; intros seen; simpl.
  - by case_decide.
  - case_decide as Hy.
    + rewrite IH. f_equal. repeat case_decide; set_solver.
    + cbn [app]. f_equal. rewrite IH. f_equal. repeat case_decide; set_solver.
Qed.

Lemma dedup_snoc l x : dedup (l ++ [x]) = dedup l ++ (if decide (x ∈ l) then [] else [x]).
Proof. unfold dedup. rewrite dedup_from_snoc, app_nil_r. done. Qed.

Lemma Forall_dedup (P : A -> Prop) l : Forall P l -> Forall P (dedup l).
Proof. rewrite !Forall_forall. intros H x Hx. apply H. by apply elem_of_dedup. Qed.
End Dedup.

#[export] Hint Resolve NoDup_dedup : js.

(** ** Sorting *)

(** [xs.sort(cmp)]: stable insertion sort, [gt y x] standing for [cmp(y, x) > 0].
    ECMAScript fixes the result of [sort] only for a consistent comparator, which
    [ConsistentCmp] states; a sorted list is then a fixed point ([sort_by_id]). *)
Section Sort.
Context {A : Type} (gt : A -> A -> bool).

(** Places [x] after every element that does not compare greater. *)
Fixpoint sort_insert (x : A) (l : list A) : list A :=
  match l with
  | [] => [x]
  | y :: t => if gt y x then x :: l else y :: sort_insert x t
  end.

Definition sort_by (l : list A) : list A := fold_left (fun acc x => sort_insert x acc) l [].

Definition gt_le (x y : A) : Prop := gt x y = false.

Lemma sort_insert_perm x l : sort_insert x l ≡ₚ x :: l.
Proof.
  induction l as [|y l IH]; simpl; [done|]. case_match; [done|].
  rewrite IH. apply perm_swap.
Qed.

Lemma sort_by_perm_acc l acc : fold_left (fun acc x => sort_insert x acc) l acc ≡ₚ acc ++ l.
Proof.
  revert acc. induction l as [|x l IH]; intros acc; simpl; [by rewrite app_nil_r|].
  rewrite IH, sort_insert_perm. by rewrite <- Permutation_middle.
Qed.

Lemma sort_by_perm l : sort_by l ≡ₚ l.
Proof. apply (sort_by_perm_acc l []). Qed.

Lemma sort_by_length l : length (sort_by l) = length l.
Proof. by rewrite sort_by_perm. Qed.

(** A total preorder: what a consistent comparator gives. *)
Class ConsistentCmp : Prop := {
  cmp_trans : forall x y z, gt_le x y -> gt_le y z -> gt_le x z;
  cmp_total : forall x y, gt x y = true -> gt_le y x;
}.

(** The same on the elements of [P]. *)
Record consistent_on (P : A -> Prop) : Prop := {
  on_trans : forall x y z, P x -> P y -> P z -> gt_le x y -> gt_le y z -> gt_le x z;
  on_total : forall x y, P x -> P y -> gt x y = true -> gt_le y x;
}.

Lemma sort_insert_sorted P x l : consistent_on P -> P x -> Forall P l ->
  StronglySorted gt_le l -> StronglySorted gt_le (sort_insert x l).
Proof.
  intros HP Hx Hl H. revert Hl. induction H as [|y l Hl IH Hy]; simpl; [by repeat constructor|].
  intros [HPy HPl]%Forall_cons. destruct (gt y x) eqn:Hyx.
  - repeat constructor; [done|done|by apply (on_total P HP)|].
    rewrite Forall_forall in *. intros z Hz.
    apply (on_trans P HP x y z); auto. by apply (on_total P HP).
  - constructor; [by apply IH|]. rewrite sort_insert_perm. by constructor.
Qed.

Lemma sort_by_sorted_on P l : consistent_on P -> Forall P l -> StronglySorted gt_le (sort_by l).
Proof.
  intros HP Hl. unfold sort_by.
  assert (StronglySorted gt_le [] /\ Forall P []) as Hnil by (split; constructor). revert Hnil.
  generalize (@nil A) as acc. induction Hl as [|x l Hx _ IH]; intros acc [Hs Ha]; simpl; [done|].
  apply IH. split; [by eapply sort_insert_sorted|]. rewrite sort_insert_perm. by constructor.
Qed.

Lemma sort_by_sorted `{!ConsistentCmp} l : StronglySorted gt_le (sort_by l).
Proof.
  apply (sort_by_sorted_on (fun _ => True)); [|by apply Forall_true].
  split; intros; [by eapply cmp_trans|by apply cmp_total].
Qed.

(** The comparator is consistent on the elements of a list, by trying them all. *)
Definition consistent_list (l : list A) : bool :=
  forallb (fun x => forallb (fun y =>
    negb (gt x y && gt y x) && forallb (fun z => gt x y || gt y z || negb (gt x z)) l) l) l.

Lemma consistent_list_on l : consistent_list l = true -> consistent_on (fun x => x ∈ l).
Proof.
  unfold consistent_list, gt_le. rewrite forallb_Forall, Forall_forall. intros H.
  assert (forall x y, x ∈ l -> y ∈ l -> negb (gt x y && gt y x) = true /\
            forall z, z ∈ l -> gt x y || gt y z || negb (gt x z) = true) as H'.
  { intros x y Hx Hy. specialize (H x Hx). cbn beta in H.
    rewrite forallb_Forall, Forall_forall in H.
    specialize (H y Hy). cbn beta in H. apply andb_prop in H as [H1 H2].
    rewrite forallb_Forall, Forall_forall in H2. done. }
  split.
  - unfold gt_le. intros x y z Hx Hy Hz H1 H2. destruct (H' x y Hx Hy) as [_ H3].
    specialize (H3 z Hz). rewrite H1, H2 in H3. by apply negb_true_iff in H3.
  - unfold gt_le. intros x y Hx Hy H1. destruct (H' x y Hx Hy) as [H2 _].
    rewrite H1 in H2. by apply negb_true_iff in H2.
Qed.

(** Sorting a sorted list changes nothing. *)
Lemma sort_insert_last x l : Forall (fun y => gt_le y x) l -> sort_insert x l = l ++ [x].
Proof. induction 1 as [|y l Hy _ IH]; simpl; [done|]. by rewrite Hy, IH. Qed.

Lemma sort_by_sorted_id_acc l acc :
  StronglySorted gt_le (acc ++ l) ->
  fold_left (fun acc x => sort_insert x acc) l acc = acc ++ l.
Proof.
  revert acc. induction l as [|x l IH]; intros acc H; simpl; [by rewrite app_nil_r|].
  rewrite sort_insert_last, IH; rewrite <- ?(assoc_L (++)); [done|done|].
  clear IH. induction acc as [|y acc IH]; [constructor|].
  inversion_clear H as [|?? H1 H2]. constructor; [|by apply IH].
  rewrite Forall_app in H2. destruct H2 as [_ H2]. by inversion H2.
Qed.

Lemma sort_by_id l : StronglySorted gt_le l -> sort_by l = l.
Proof. apply (sort_by_sorted_id_acc l []). Qed.
End Sort.

Lemma sorted_impl {A} (R S : A -> A -> Prop) l :
  (forall x y, R x y -> S x y) -> StronglySorted R l -> StronglySorted S l.
Proof.
  intros H Hl. induction Hl as [|x l _ IH Hx]; constructor; [done|].
  eapply Forall_impl; [exact Hx|]. auto.
Qed.

(** ** Options *)

(** [o ?? d] *)
Definition option_or {A} (o : option A) (d : A) : A := match o with Some x => x | None => d end.

(** The positions of a list, with their elements. *)
Fixpoint enum_from {A} (i : nat) (l : list A) : list (nat * A) :=
  match l with
  | [] => []
  | x :: t => (i, x) :: enum_from (S i) t
  end.

Lemma enum_from_length {A} i (l : list A) : length (enum_from i l) = length l.
Proof. revert i. induction l as [|x l IH]; intros i; simpl; [done|]. by rewrite IH. Qed.
