(* ===== verification/JsString.v ===== *)
(** * JavaScript strings

    A JavaScript string is a sequence of UTF-16 code units, here [jstr := list N].  This
    file has the operations of [String.prototype] the console uses and their lemmas. *)

From S2P Require Import Prelude.
Open Scope N_scope.

Abbreviation jstr := (list N).

(** ** Literals *)

(** Code units of a UTF-8 encoded literal; [`] stands for the double quote, so that a
    source text such as [tier("a")] is written [u "tier(`a`)"]. *)
Fixpoint utf16 (bs : list N) : jstr :=
  match bs with
  | [] => []
  | b :: t =>
      if b <? 128 then (if b =? 96 then 34 else b) :: utf16 t else
      match t with
      | b1 :: t1 =>
          if b <? 224 then ((b - 192) * 64 + (b1 - 128)) :: utf16 t1 else
          match t1 with
          | b2 :: t2 =>
              if b <? 240
              then ((b - 224) * 4096 + (b1 - 128) * 64 + (b2 - 128)) :: utf16 t2 else
              match t2 with
              | b3 :: t3 =>
                  let c := (b - 240) * 262144 + (b1 - 128) * 4096
                             + (b2 - 128) * 64 + (b3 - 128) - 65536 in
                  (55296 + c / 1024) :: (56320 + c mod 1024) :: utf16 t3
              | [] => []
              end
          | [] => []
          end
      | [] => []
      end
  end.

Fixpoint ascii_codes (s : string) : list N :=
  match s with
  | EmptyString => []
  | String a t => Ascii.N_of_ascii a :: ascii_codes t
  end.

Definition u (s : string) : jstr := utf16 (ascii_codes s).

(** A one-character literal. *)
Definition ch (s : string) : N := match u s with c :: _ => c | [] => 0 end.

Definition jeqb (s t : jstr) : bool := bool_decide (s = t).

Lemma jeqb_spec s t : jeqb s t = true <-> s = t.
Proof. apply bool_decide_eq_true. Qed.

Lemma jeqb_refl s : jeqb s s = true.
Proof. by apply jeqb_spec. Qed.

Lemma jeqb_neq s t : jeqb s t = false <-> s <> t.
Proof. apply bool_decide_eq_false. Qed.

(** [Boolean(s)] *)
Definition truthy (s : jstr) : bool := match s with [] => false | _ => true end.

Lemma truthy_spec s : truthy s = true <-> s <> [].
Proof. by destruct s. Qed.

(** ** Characters *)

Definition in_range (lo hi c : N) : bool := (lo <=? c) && (c <=? hi).

(** WhiteSpace and LineTerminator: what [trim] removes and [\s] matches. *)
Definition is_space (c : N) : bool :=
  in_range 9 13 c || (c =? 32) || (c =? 160) || (c =? 5760) || in_range 8192 8202 c
  || (c =? 8232) || (c =? 8233) || (c =? 8239) || (c =? 8287) || (c =? 12288) || (c =? 65279).

Definition is_digit (c : N) : bool := in_range 48 57 c.

(** [\w] *)
Definition is_word (c : N) : bool :=
  in_range 48 57 c || in_range 65 90 c || in_range 97 122 c || (c =? 95).

Definition is_newline (c : N) : bool := (c =? 10) || (c =? 13) || (c =? 8232) || (c =? 8233).

(** ** trim *)

Fixpoint trim_start (s : jstr) : jstr :=
  match s with
  | c :: t => if is_space c then trim_start t else s
  | [] => []
  end.

Definition trim_end (s : jstr) : jstr := rev (trim_start (rev s)).

Definition trim (s : jstr) : jstr := trim_end (trim_start s).

(** No white space at either end. *)
Definition trimmed (s : jstr) : Prop :=
  (forall c t, s = c :: t -> is_space c = false) /\
  (forall c t, s = t ++ [c] -> is_space c = false).

Lemma trim_start_head s c t : trim_start s = c :: t -> is_space c = false.
Proof.
  induction s as [|d s IH]; simpl; [done|]. destruct (is_space d) eqn:Hd; [done|].
  by intros [= <- <-].
Qed.

Lemma trim_start_id s : (forall c t, s = c :: t -> is_space c = false) -> trim_start s = s.
Proof. destruct s as [|c s]; simpl; [done|]. intros H. by rewrite (H c s). Qed.

Lemma trim_start_suffix s : exists p, s = p ++ trim_start s /\ forallb is_space p = true.
Proof.
  induction s as [|c s [p [IH Hp]]]; simpl; [by exists []|].
  destruct (is_space c) eqn:Hc; [|by exists []].
  exists (c :: p). simpl. rewrite Hc, Hp. split; [by f_equal|done].
Qed.

Lemma trim_id s : trimmed s -> trim s = s.
Proof.
  intros [Hl Hr]. unfold trim, trim_end. rewrite (trim_start_id s) by done.
  rewrite trim_start_id, rev_involutive; [done|].
  intros c t Ht. apply (Hr c (rev t)). by rewrite <- (rev_involutive s), Ht.
Qed.

Lemma trim_trimmed s : trimmed (trim s).
Proof.
  unfold trim, trim_end. split; intros c t Ht.
  - destruct (trim_start_suffix (rev (trim_start s))) as [p [Hp _]].
    apply (f_equal (@rev N)) in Hp. rewrite rev_involutive, rev_app_distr, Ht in Hp.
    simpl in Hp. by eapply trim_start_head.
  - apply (f_equal (@rev N)) in Ht. rewrite rev_involutive, rev_app_distr in Ht.
    simpl in Ht. by eapply trim_start_head.
Qed.

Lemma chars_trimmed s : forallb (fun c => negb (is_space c)) s = true -> trimmed s.
Proof.
  intros H. split; intros c t ->; [|rewrite forallb_app in H]; simpl in H; bool_to_prop; done.
Qed.

Lemma trim_no_space s : forallb (fun c => negb (is_space c)) s = true -> trim s = s.
Proof. intros H. by apply trim_id, chars_trimmed. Qed.

Lemma trim_idemp s : trim (trim s) = trim s.
Proof. apply trim_id, trim_trimmed. Qed.

Lemma trimmed_nil : trimmed [].
Proof. split; [done|]. by intros ? []. Qed.

#[export] Hint Resolve trim_trimmed trimmed_nil : js.

(** ** slice, startsWith, endsWith, includes, indexOf *)

Fixpoint starts_with (p s : jstr) : bool :=
  match p, s with
  | [], _ => true
  | a :: p', b :: s' => (a =? b) && starts_with p' s'
  | _ :: _, [] => false
  end.

Definition ends_with (p s : jstr) : bool := starts_with (rev p) (rev s).

(** [s.indexOf(p)], [None] for [-1]. *)
Fixpoint index_of (p s : jstr) : option nat :=
  if starts_with p s then Some O else
  match s with
  | [] => None
  | _ :: t => option_map S (index_of p t)
  end.

Definition includes (p s : jstr) : bool :=
  match index_of p s with Some _ => true | None => false end.

(** [s.indexOf(p, from)] *)
Definition index_of_from (p s : jstr) (from : nat) : option nat :=
  option_map (Nat.add from) (index_of p (drop from s)).

(** [s.substring(i, j)] for [i <= j]. *)
Definition substring (i j : nat) (s : jstr) : jstr := take (j - i) (drop i s).

(** [s.slice(-n)] *)
Definition slice_last (n : nat) (s : jstr) : jstr := drop (length s - n) s.

Lemma starts_with_spec p s : starts_with p s = true <-> exists t, s = p ++ t.
Proof.
  revert s. induction p as [|a p IH]; intros s; simpl; [naive_solver|].
  destruct s as [|b s]; [naive_solver|]. rewrite andb_true_iff, N.eqb_eq, IH. naive_solver.
Qed.

Lemma starts_with_app p t : starts_with p (p ++ t) = true.
Proof. apply starts_with_spec. eauto. Qed.

Lemma index_of_Some p s n :
  index_of p s = Some n ->
  s = take n s ++ p ++ drop (n + length p) s /\ (n + length p <= length s)%nat.
Proof.
  revert n. induction s as [|c s IH]; intros n; simpl.
  - destruct p; simpl; [by intros [= <-]|done].
  - destruct (starts_with p (c :: s)) eqn:Hp.
    + intros [= <-]. apply starts_with_spec in Hp as [t Ht]. split.
      * rewrite Ht. simpl. by rewrite drop_app_length.
      * apply (f_equal length) in Ht. rewrite length_app in Ht. simpl in *. lia.
    + destruct (index_of p s) as [m|]; [|done]. simpl. intros [= <-].
      destruct (IH m eq_refl) as [Hs Hlen]. simpl. split; [by f_equal|lia].
Qed.

Lemma index_of_None p s : index_of p s = None -> forall a b, s <> a ++ p ++ b.
Proof.
  induction s as [|c s IH]; simpl; destruct (starts_with p _) eqn:Hp; try done; intros HN a b Hs.
  - destruct a, p; simplify_eq/=.
  - destruct (index_of p s) eqn:Hi; [done|]. destruct a as [|x a]; simplify_eq/=.
    + rewrite Hs, starts_with_app in Hp. done.
    + by eapply IH.
Qed.

(** The index found is the first one. *)
Lemma index_of_least p s n a b : index_of p s = Some n -> s = a ++ p ++ b -> (n <= length a)%nat.
Proof.
  revert n a. induction s as [|c s IH]; intros n a; simpl.
  - destruct p; simpl; [intros [= <-]; lia|done].
  - destruct (starts_with p (c :: s)) eqn:Hp; [intros [= <-]; lia|].
    destruct (index_of p s) as [m|] eqn:Hm; [|done]. intros [= <-] Hs.
    destruct a as [|x a]; simplify_eq/=.
    + rewrite Hs, starts_with_app in Hp. done.
    + specialize (IH m a eq_refl eq_refl). lia.
Qed.

Lemma includes_spec p s : includes p s = true <-> exists a b, s = a ++ p ++ b.
Proof.
  unfold includes. destruct (index_of p s) eqn:H; split; try done.
  - intros _. apply index_of_Some in H as [-> _]. eauto.
  - intros (a & b & Hs). by destruct (index_of_None p s H a b).
Qed.

(** The text before the first occurrence does not hold the pattern. *)
Lemma index_of_split p s n :
  p <> [] -> index_of p s = Some n ->
  s = take n s ++ p ++ drop (n + length p) s /\ includes p (take n s) = false.
Proof.
  intros Hp Hn. destruct (index_of_Some p s n Hn) as [Hs Hlen]. split; [done|].
  destruct (includes p (take n s)) eqn:Hi; [|done].
  apply includes_spec in Hi as (a & b & Hab).
  assert (n <= length a)%nat.
  { apply (index_of_least p s n a (b ++ p ++ drop (n + length p) s)); [done|].
    rewrite Hs at 1. rewrite Hab. by rewrite <- !(assoc_L (++)). }
  apply (f_equal length) in Hab. rewrite length_take, !length_app in Hab.
  destruct p; [done|]. simpl in *. lia.
Qed.

(** A pattern whose first character does not occur again in it is found where it is put. *)
Lemma starts_with_overlap p w s :
  starts_with p (w ++ s) = true ->
  starts_with p w = true \/ exists p2, p = w ++ p2 /\ starts_with p2 s = true.
Proof.
  revert p. induction w as [|c w IH]; intros p; simpl; [by right; exists p|].
  destruct p as [|a p]; simpl; [by left|]. intros [->%N.eqb_eq H]%andb_prop.
  rewrite N.eqb_refl. destruct (IH p H) as [|(p2 & -> & ?)]; [by left|]. right. by exists p2.
Qed.

Lemma index_of_after c q v t :
  forallb (fun d => negb (d =? c)) q = true -> includes (c :: q) v = false ->
  index_of (c :: q) (v ++ (c :: q) ++ t) = Some (length v).
Proof.
  intros Hq. induction v as [|a v IH]; intros Hv.
  - cbn [app]. change (c :: q ++ t) with ((c :: q) ++ t).
    destruct ((c :: q) ++ t) eqn:E; [done|]. cbn [index_of]. by rewrite <- E, starts_with_app.
  - assert (includes (c :: q) v = false) as Hv'.
    { destruct (includes (c :: q) v) eqn:Hi; [|done]. apply includes_spec in Hi as (x & y & ->).
      assert (includes (c :: q) (a :: x ++ (c :: q) ++ y) = true) as E
        by (apply includes_spec; by exists (a :: x), y). congruence. }
    specialize (IH Hv'). cbn [app] in *. cbn [index_of]. rewrite IH.
    destruct (starts_with (c :: q) (a :: v ++ c :: q ++ t)) eqn:Hs; [|done]. exfalso.
    destruct (starts_with_overlap (c :: q) (a :: v) (c :: q ++ t) Hs) as [H|(p2 & Hp & H2)].
    + apply starts_with_spec in H as (y & Hy).
      assert (includes (c :: q) (a :: v) = true) as E by (apply includes_spec; by exists [], y).
      congruence.
    + simplify_eq/=. rewrite forallb_app in Hq. apply andb_prop in Hq as [_ Hq].
      destruct p2 as [|d p2]; [|simpl in H2, Hq; lia].
      rewrite app_nil_r in *. assert (includes (a :: v) (a :: v) = true) as E
        by (apply includes_spec; exists [], []; by rewrite app_nil_r). congruence.
Qed.

Lemma includes_char c s : includes [c] s = existsb (N.eqb c) s.
Proof.
  unfold includes. induction s as [|d s IH]; [done|]. cbn [index_of starts_with existsb].
  destruct (c =? d); [done|]. rewrite <- IH. by destruct (index_of [c] s).
Qed.

(** [s < t]: the order of code units, which [sort()] uses. *)
Fixpoint str_lt (s t : jstr) : bool :=
  match s, t with
  | _, [] => false
  | [], _ :: _ => true
  | a :: s', b :: t' => (a <? b) || ((a =? b) && str_lt s' t')
  end.

(** [xs.sort()] on strings *)
Definition sort_strings (l : list jstr) : list jstr := sort_by (fun a b => str_lt b a) l.

Lemma str_lt_irrefl s : str_lt s s = false.
Proof. induction s as [|a s IH]; simpl; [done|]. rewrite IH. lia. Qed.

Lemma str_lt_trans s t r : str_lt s t = true -> str_lt t r = true -> str_lt s r = true.
Proof.
  revert t r. induction s as [|a s IH]; intros [|b t] [|c r]; simpl; try done.
  specialize (IH t r). destruct (str_lt s t), (str_lt t r), (str_lt s r); lia.
Qed.

Lemma str_lt_total s t : s <> t -> str_lt s t = false -> str_lt t s = true.
Proof.
  revert t. induction s as [|a s IH]; intros [|b t] Hne; simpl; try done.
  destruct (decide (s = t)) as [->|Hst]; [rewrite str_lt_irrefl; assert (a <> b) by congruence; lia|].
  specialize (IH t Hst). destruct (str_lt s t), (str_lt t s); lia.
Qed.

#[export] Instance str_lt_consistent : ConsistentCmp (fun a b : jstr => str_lt b a).
Proof.
  split; unfold gt_le.
  - intros x y z Hyx Hzy. apply not_true_iff_false. intros Hzx.
    destruct (decide (x = y)) as [->|Hne]; [congruence|].
    apply str_lt_total in Hyx; [|done]. rewrite (str_lt_trans z x y) in Hzy; done.
  - intros x y Hyx. apply not_true_iff_false. intros Hxy.
    pose proof (str_lt_trans _ _ _ Hyx Hxy) as H. by rewrite str_lt_irrefl in H.
Qed.

(** ** split and join *)

(** [s.split(c)] for a one-character separator. *)
Fixpoint split_on (c : N) (s : jstr) : list jstr :=
  match s with
  | [] => [[]]
  | d :: t =>
      if d =? c then [] :: split_on c t
      else match split_on c t with
           | w :: ws => (d :: w) :: ws
           | [] => [[d]]
           end
  end.

(** [xs.join(sep)] *)
Fixpoint join (sep : jstr) (l : list jstr) : jstr :=
  match l with
  | [] => []
  | [x] => x
  | x :: t => x ++ sep ++ join sep t
  end.

Lemma join_cons sep x y t : join sep (x :: y :: t) = x ++ sep ++ join sep (y :: t).
Proof. done. Qed.

Lemma split_on_nonempty c s : split_on c s <> [].
Proof. induction s as [|d s IH]; simpl; [done|]. case_match; [done|]. by destruct (split_on c s). Qed.

Lemma split_on_plain c w : forallb (fun d => negb (d =? c)) w = true -> split_on c w = [w].
Proof.
  induction w as [|d w IH]; simpl; [done|]. intros H. bool_to_prop.
  rewrite (IH H0). by destruct (N.eqb_spec d c).
Qed.

Lemma split_on_app c w s :
  forallb (fun d => negb (d =? c)) w = true -> split_on c (w ++ c :: s) = w :: split_on c s.
Proof.
  induction w as [|d w IH]; simpl; [by rewrite N.eqb_refl|]. intros H. bool_to_prop.
  rewrite (IH H0). by destruct (N.eqb_spec d c).
Qed.

(** Splitting what [join] built gives the parts back. *)
Lemma split_on_join c l :
  l <> [] -> Forall (fun w => forallb (fun d => negb (d =? c)) w = true) l ->
  split_on c (join [c] l) = l.
Proof.
  intros Hne. induction 1 as [|w l Hw Hl IH]; [done|].
  destruct l as [|w' l]; [by apply split_on_plain|].
  rewrite join_cons. simpl app. rewrite split_on_app by done. f_equal. by apply IH.
Qed.

(** A text is cut at a separator. *)
Lemma split_on_cut c a b : split_on c (a ++ c :: b) = split_on c a ++ split_on c b.
Proof.
  induction a as [|d a IH]; simpl; [by rewrite N.eqb_refl|].
  destruct (d =? c)%N; [by rewrite IH|]. rewrite IH.
  by destruct (split_on c a) eqn:E; [by apply split_on_nonempty in E|].
Qed.

Lemma split_on_parts c s : Forall (fun w => forallb (fun d => negb (d =? c)) w = true) (split_on c s).
Proof.
  induction s as [|d s IH]; simpl; [by repeat constructor|].
  destruct (N.eqb_spec d c) as [->|Hd]; [by constructor|].
  destruct (split_on c s) as [|w ws] eqn:Hs.
  - by apply split_on_nonempty in Hs.
  - inversion_clear IH as [|?? Hw Hws]. constructor; [|done]. simpl.
    apply N.eqb_neq in Hd. by rewrite Hd.
Qed.

Lemma join_split_on c s : join [c] (split_on c s) = s.
Proof.
  induction s as [|d s IH]; simpl; [done|].
  pose proof (split_on_nonempty c s) as Hne.
  destruct (N.eqb_spec d c) as [->|Hd]; destruct (split_on c s) as [|w ws]; try done.
  - by rewrite join_cons, IH.
  - rewrite <- IH. by destruct ws.
Qed.

(** [s.split(',').map(trim).filter(Boolean)], a shape many parsers share. *)
Definition split_trim (c : N) (s : jstr) : list jstr := jfilter truthy (map trim (split_on c s)).

Lemma split_trim_spec c s :
  Forall (fun w => w <> [] /\ trimmed w /\ forallb (fun d => negb (d =? c)) w = true)
    (split_trim c s).
Proof.
  unfold split_trim. rewrite Forall_forall. intros w Hw.
  apply jfilter_elem_of in Hw as [Ht Hw]. apply truthy_spec in Ht.
  apply list_elem_of_fmap in Hw as (v & -> & Hv). split_and!; auto with js.
  pose proof (split_on_parts c s) as HF. rewrite Forall_forall in HF. specialize (HF v Hv).
  unfold trim, trim_end. destruct (trim_start_suffix v) as [p [Hp _]].
  rewrite Hp in HF. rewrite forallb_app in HF. bool_to_prop.
  destruct (trim_start_suffix (rev (trim_start v))) as [p' [Hp' _]].
  rewrite <- (rev_involutive (trim_start v)), Hp', rev_app_distr, forallb_app in H0.
  by bool_to_prop.
Qed.

Lemma split_trim_join c l :
  Forall (fun w => w <> [] /\ trimmed w /\ forallb (fun d => negb (d =? c)) w = true) l ->
  split_trim c (join [c] l) = l.
Proof.
  intros Hl. destruct (decide (l = [])) as [->|Hne]; [done|].
  unfold split_trim. rewrite split_on_join by (try done; eapply Forall_impl; naive_solver).
  replace (map trim l) with l; [apply jfilter_all; eapply Forall_impl; [done|]|].
  - intros w (? & _). by apply truthy_spec.
  - clear Hne. induction Hl as [|w l (Hw & Ht & _) _ IH]; simpl; [done|].
    rewrite trim_id by done. by f_equal.
Qed.

(** ** replace *)

(** [s.replace(/c/g, d)] on single characters. *)
Definition replace_char (c d : N) (s : jstr) : jstr := map (fun x => if x =? c then d else x) s.

(** [s.replace(/[p]/g, '')] *)
Definition remove_chars (p : N -> bool) (s : jstr) : jstr := jfilter (fun c => negb (p c)) s.

(** ** Case *)

(** [toLowerCase] follows the Unicode tables, so it is a parameter of what uses it; of the
    tables the code relies on this: a lower-case text has no upper-case letter left. *)
Class LowerCase (toLowerCase : jstr -> jstr) : Prop :=
  lower_idemp : forall s, toLowerCase (toLowerCase s) = toLowerCase s.

(** The tables on ASCII and Latin-1. *)
Definition is_upper (c : N) : bool :=
  in_range 65 90 c || (in_range 192 222 c && negb (c =? 215)).

Definition latin_lower (s : jstr) : jstr := map (fun c => if is_upper c then c + 32 else c) s.

#[export] Instance latin_lower_case : LowerCase latin_lower.
Proof.
  intros s. unfold latin_lower. rewrite map_map. apply map_ext. intros c.
  destruct (is_upper c) eqn:Hc; [|by rewrite Hc].
  assert (is_upper (c + 32) = false) as ->; [|done].
  revert Hc. unfold is_upper, in_range. lia.
Qed.

(** ** Collation *)

(** [localeCompare] depends on the locale of the browser; it promises a total preorder. *)
Class Collation (localeCompare : jstr -> jstr -> Z) : Prop := {
  collate_trans : forall a b c,
    (localeCompare a b <= 0)%Z -> (localeCompare b c <= 0)%Z -> (localeCompare a c <= 0)%Z;
  collate_total : forall a b, (0 < localeCompare a b)%Z -> (localeCompare b a <= 0)%Z
}.

(** A collation by code units. *)
Definition unit_compare (a b : jstr) : Z :=
  (if str_lt b a then 1 else if str_lt a b then -1 else 0)%Z.

#[export] Instance unit_collation : Collation unit_compare.
Proof.
  split; unfold unit_compare; intros a b.
  - intros c. destruct (str_lt b a) eqn:H1; [lia|]. destruct (str_lt c b) eqn:H2; [lia|]. intros _ _.
    destruct (str_lt c a) eqn:H3; [|repeat case_match; lia]. exfalso.
    destruct (decide (b = c)) as [->|Hne]; [congruence|].
    pose proof (str_lt_total c b ltac:(congruence) H2) as H4.
    by rewrite (str_lt_trans b c a) in H1.
  - destruct (str_lt b a) eqn:H1; [|by destruct (str_lt a b)]. intros _.
    destruct (str_lt a b) eqn:H2; [|repeat case_match; lia]. exfalso.
    pose proof (str_lt_trans a b a H2 H1) as H3. by rewrite str_lt_irrefl in H3.
Qed.

(** ** Decimal integers *)

(** [parseInt(s, 10)] on a string of digits. *)
Definition digits_value (s : jstr) : Z := fold_left (fun a c => (a * 10 + Z.of_N (c - 48))%Z) s 0%Z.

(** [String(n)] for a natural number below the exponent notation (below [10^21]). *)
Fixpoint digits_fuel (fuel : nat) (n : N) (acc : jstr) : jstr :=
  match fuel with
  | O => acc
  | S f =>
      let acc' := (48 + n mod 10) :: acc in
      if n <? 10 then acc' else digits_fuel f (n / 10) acc'
  end.

Definition string_of_N (n : N) : jstr := digits_fuel (S (N.to_nat (N.size n))) n [].

Definition string_of_int (z : Z) : jstr :=
  match z with
  | Zneg p => 45 :: string_of_N (Npos p)
  | _ => string_of_N (Z.to_N z)
  end.

Lemma digits_value_snoc s c : digits_value (s ++ [c]) = (digits_value s * 10 + Z.of_N (c - 48))%Z.
Proof. unfold digits_value. by rewrite fold_left_app. Qed.

Lemma digits_fuel_app fuel n acc : digits_fuel fuel n acc = digits_fuel fuel n [] ++ acc.
Proof.
  revert n acc. induction fuel as [|f IH]; intros n acc; cbn [digits_fuel]; [done|].
  case_match; [done|]. rewrite IH, (IH _ [_]), <- (assoc_L (++)). done.
Qed.

Lemma digits_fuel_value fuel n :
  n < 10 ^ N.of_nat fuel -> digits_value (digits_fuel fuel n []) = Z.of_N n.
Proof.
  revert n. induction fuel as [|f IH]; intros n Hn; cbn [digits_fuel].
  - change (10 ^ N.of_nat 0) with 1 in Hn. replace n with 0 by lia. done.
  - rewrite Nat2N.inj_succ, N.pow_succ_r' in Hn.
    pose proof (N.div_mod n 10 ltac:(lia)) as Hdm.
    pose proof (N.mod_lt n 10 ltac:(lia)) as Hm.
    destruct (N.ltb_spec n 10).
    + rewrite N.mod_small by done. unfold digits_value. cbn [fold_left]. lia.
    + rewrite digits_fuel_app, digits_value_snoc, IH by (apply N.Div0.div_lt_upper_bound; lia). lia.
Qed.

Lemma string_of_N_value n : digits_value (string_of_N n) = Z.of_N n.
Proof.
  apply digits_fuel_value. rewrite Nat2N.inj_succ, N2Nat.id, N.pow_succ_r'.
  pose proof (N.size_gt n) as Hs.
  pose proof (N.pow_le_mono_l 2 10 (N.size n) ltac:(lia)). lia.
Qed.

Lemma digits_fuel_digits fuel n : forallb is_digit (digits_fuel fuel n []) = true.
Proof.
  revert n. induction fuel as [|f IH]; intros n; cbn [digits_fuel]; [done|].
  assert (is_digit (48 + n mod 10) = true) as Hd.
  { pose proof (N.mod_lt n 10 ltac:(lia)). unfold is_digit, in_range. lia. }
  case_match; [cbn [forallb]; by rewrite Hd|].
  rewrite digits_fuel_app, forallb_app, IH. cbn [forallb]. by rewrite Hd.
Qed.

Lemma string_of_N_digits n : forallb is_digit (string_of_N n) = true.
Proof. apply digits_fuel_digits. Qed.

Lemma string_of_N_nonempty n : string_of_N n <> [].
Proof.
  unfold string_of_N. cbn [digits_fuel]. case_match; [done|].
  rewrite digits_fuel_app. by intros [_ ?]%app_nil.
Qed.

Lemma string_of_N_inj m n : string_of_N m = string_of_N n -> m = n.
Proof. intros H%(f_equal digits_value). rewrite !string_of_N_value in H. lia. Qed.
