(* ===== verification/JsRegex.v ===== *)
(** * JavaScript regular expressions

    The backtracking matcher of ECMAScript, as the ordered list of the states in which a
    pattern can end ([results], the first one being the match), a continuation-passing
    matcher proved equal to it ([backtrack_results]), and the methods of strings and
    [RegExp] the console calls: [match], [test], [exec] with the [g] flag, [replace] and
    [split]. *)

From S2P Require Import Prelude JsString.
Open Scope N_scope.

Inductive regex : Type :=
| REps
| RSet (p : N -> bool)               (* a character class *)
| RSeq (a b : regex)
| RAlt (a b : regex)                 (* a|b *)
| RStar (greedy : bool) (a : regex)  (* a* or a*? *)
| ROpt (a : regex)                   (* a? *)
| RGroup (i : nat) (a : regex)       (* the i-th capturing group *)
| RBackref (i : nat)
| RBol
| REol
| RWordB.

(** Pattern constructors. *)
Fixpoint rlit (s : jstr) : regex :=
  match s with
  | [] => REps
  | c :: t => RSeq (RSet (N.eqb c)) (rlit t)
  end.

Definition rl (s : string) : regex := rlit (u s).

Fixpoint rseq (l : list regex) : regex :=
  match l with
  | [] => REps
  | r :: t => RSeq r (rseq t)
  end.

Fixpoint ralt (l : list regex) : regex :=
  match l with
  | [] => RSet (fun _ => false)
  | [r] => r
  | r :: t => RAlt r (ralt t)
  end.

Definition rplus (a : regex) : regex := RSeq a (RStar true a).

(** [\[s\]] and [\[^s\]] for the characters of [s]. *)
Definition one_of (s : jstr) (c : N) : bool := existsb (N.eqb c) s.
Definition none_of (s : jstr) (c : N) : bool := negb (one_of s c).

(** [.] without and with the [s] flag. *)
Definition rdot : regex := RSet (fun c => negb (is_newline c)).
Definition rany : regex := RSet (fun _ => true).

Definition rspaces : regex := RStar true (RSet is_space).

(** ** Matching *)

Record mstate := MState {
  m_prev : option N;          (* the character before, [None] at the start *)
  m_rest : jstr;              (* the input that is left *)
  m_caps : list (nat * jstr)  (* the captures, one entry per group that took part *)
}.

Definition cap (i : nat) (caps : list (nat * jstr)) : option jstr :=
  option_map snd (find (fun e => (e.1 =? i)%nat) caps).

Definition clear_caps (ids : list nat) (caps : list (nat * jstr)) : list (nat * jstr) :=
  jfilter (fun e => negb (existsb (Nat.eqb e.1) ids)) caps.

Definition set_cap (i : nat) (s : jstr) (caps : list (nat * jstr)) : list (nat * jstr) :=
  (i, s) :: clear_caps [i] caps.

Fixpoint groups (r : regex) : list nat :=
  match r with
  | RSeq a b | RAlt a b => groups a ++ groups b
  | RStar _ a | ROpt a => groups a
  | RGroup i a => i :: groups a
  | _ => []
  end.

Definition reset (r : regex) (x : mstate) : mstate :=
  MState (m_prev x) (m_rest x) (clear_caps (groups r) (m_caps x)).

Definition prev_after (p : option N) (s : jstr) : option N :=
  match last s with Some c => Some c | None => p end.

Definition advance (s t : jstr) (x : mstate) : mstate :=
  MState (prev_after (m_prev x) s) t (m_caps x).

Definition word_at (o : option N) : bool := match o with Some c => is_word c | None => false end.

(** Ends group [i], opened in [x], in [y]. *)
Definition close_group (i : nat) (x y : mstate) : mstate :=
  MState (m_prev y) (m_rest y)
    (set_cap i (take (length (m_rest x) - length (m_rest y)) (m_rest x)) (m_caps y)).

(** The states after the iterations of a starred pattern, an iteration that consumes
    nothing being refused.  An iteration consumes input, so the length of the input bounds
    their number. *)
Section Iterate.
Context (step : mstate -> list mstate) (greedy : bool).

Fixpoint iterate (fuel : nat) (x : mstate) : list mstate :=
  match fuel with
  | O => [x]
  | S f =>
      let more := flat_map (fun y =>
        if (length (m_rest y) <? length (m_rest x))%nat then iterate f y else []) (step x) in
      if greedy then more ++ [x] else x :: more
  end.
End Iterate.

Fixpoint results (r : regex) (x : mstate) : list mstate :=
  match r with
  | REps => [x]
  | RSet p =>
      match m_rest x with
      | c :: t => if p c then [MState (Some c) t (m_caps x)] else []
      | [] => []
      end
  | RSeq a b => flat_map (results b) (results a x)
  | RAlt a b => results a x ++ results b x
  | RStar g a => iterate (fun y => results a (reset a y)) g (length (m_rest x)) x
  | ROpt a =>
      jfilter (fun y => (length (m_rest y) <? length (m_rest x))%nat) (results a (reset a x))
      ++ [x]
  | RGroup i a => map (close_group i x) (results a x)
  | RBackref i =>
      match cap i (m_caps x) with
      | None => [x]
      | Some s =>
          if starts_with s (m_rest x)
          then [advance s (drop (length s) (m_rest x)) x] else []
      end
  | RBol => match m_prev x with None => [x] | Some _ => [] end
  | REol => match m_rest x with [] => [x] | _ :: _ => [] end
  | RWordB => if xorb (word_at (m_prev x)) (word_at (head (m_rest x))) then [x] else []
  end.

(** The matcher as ECMAScript has it: a pattern takes a continuation and backtracks when the
    continuation fails. *)
Section Backtrack.
Context {B : Type}.

Section IterateBt.
Context (step : mstate -> (mstate -> option B) -> option B) (greedy : bool).

Fixpoint iterate_bt (fuel : nat) (x : mstate) (k : mstate -> option B) : option B :=
  match fuel with
  | O => k x
  | S f =>
      let more := fun _ : unit => step x (fun y =>
        if (length (m_rest y) <? length (m_rest x))%nat then iterate_bt f y k else None) in
      if greedy
      then match more tt with Some b => Some b | None => k x end
      else match k x with Some b => Some b | None => more tt end
  end.
End IterateBt.

Fixpoint backtrack (r : regex) (x : mstate) (k : mstate -> option B) : option B :=
  match r with
  | REps => k x
  | RSet p =>
      match m_rest x with
      | c :: t => if p c then k (MState (Some c) t (m_caps x)) else None
      | [] => None
      end
  | RSeq a b => backtrack a x (fun y => backtrack b y k)
  | RAlt a b => match backtrack a x k with Some v => Some v | None => backtrack b x k end
  | RStar g a =>
      iterate_bt (fun y => backtrack a (reset a y)) g (length (m_rest x)) x k
  | ROpt a =>
      match backtrack a (reset a x) (fun y =>
              if (length (m_rest y) <? length (m_rest x))%nat then k y else None) with
      | Some v => Some v
      | None => k x
      end
  | RGroup i a => backtrack a x (fun y => k (close_group i x y))
  | RBackref i =>
      match cap i (m_caps x) with
      | None => k x
      | Some s =>
          if starts_with s (m_rest x)
          then k (advance s (drop (length s) (m_rest x)) x) else None
      end
  | RBol => match m_prev x with None => k x | Some _ => None end
  | REol => match m_rest x with [] => k x | _ :: _ => None end
  | RWordB => if xorb (word_at (m_prev x)) (word_at (head (m_rest x))) then k x else None
  end.

Lemma iterate_bt_results step stepl g :
  (forall x k, step x k = first_some k (stepl x)) ->
  forall fuel x k, iterate_bt step g fuel x k = first_some k (iterate stepl g fuel x).
Proof.
  intros Hstep fuel. induction fuel as [|f IH]; intros x k; simpl; [by destruct (k x)|].
  assert (step x (fun y => if (length (m_rest y) <? length (m_rest x))%nat
                           then iterate_bt step g f y k else None)
          = first_some k (flat_map (fun y => if (length (m_rest y) <? length (m_rest x))%nat
                                     then iterate stepl g f y else []) (stepl x))) as ->.
  { rewrite Hstep, first_some_flat_map. apply first_some_ext. intros y. by case_match. }
  destruct g; simpl; [|done]. rewrite first_some_app. simpl. by repeat case_match.
Qed.

(** Backtracking finds the first of the ordered results the continuation accepts. *)
Lemma backtrack_results r x k : backtrack r x k = first_some k (results r x).
Proof.
  revert x k. induction r as [|p|a IHa b IHb|a IHa b IHb|g a IHa|a IHa|i a IHa|i| | |];
    intros x k; simpl.
  - by destruct (k x).
  - repeat case_match; simpl; try done; by case_match.
  - rewrite IHa, first_some_flat_map. by apply first_some_ext.
  - rewrite first_some_app, IHa, IHb. done.
  - apply iterate_bt_results. intros; apply IHa.
  - rewrite IHa, first_some_app. simpl.
    assert (first_some (fun y => if (length (m_rest y) <? length (m_rest x))%nat then k y else None)
              (results a (reset a x))
            = first_some k (jfilter (fun y => (length (m_rest y) <? length (m_rest x))%nat)
                              (results a (reset a x)))) as ->.
    { induction (results a (reset a x)) as [|y l IH]; simpl; [done|].
      rewrite IH. by destruct (length (m_rest y) <? length (m_rest x))%nat. }
    by repeat case_match.
  - rewrite IHa. induction (results a x) as [|y l IH]; simpl; [done|]. by rewrite IH.
  - repeat case_match; simpl; try done; by case_match.
  - repeat case_match; simpl; try done; by case_match.
  - repeat case_match; simpl; try done; by case_match.
  - repeat case_match; simpl; try done; by case_match.
Qed.
End Backtrack.

(** ** Methods *)

Definition start_state (prev : option N) (s : jstr) : mstate := MState prev s [].

(** The match at the current position. *)
Definition match_at (r : regex) (prev : option N) (s : jstr) : option mstate :=
  backtrack r (start_state prev s) Some.

(** The first match at or after the current position, with the text skipped before it. *)
Fixpoint search (r : regex) (prev : option N) (s : jstr) : option (jstr * mstate) :=
  match match_at r prev s with
  | Some y => Some ([], y)
  | None =>
      match s with
      | [] => None
      | c :: t =>
          match search r (Some c) t with
          | Some (skipped, y) => Some (c :: skipped, y)
          | None => None
          end
      end
  end.

(** [s.match(r)] without the [g] flag: the captures, [None] for [null]. *)
Definition rmatch (r : regex) (s : jstr) : option (list (nat * jstr)) :=
  match search r None s with Some (_, y) => Some (m_caps y) | None => None end.

(** [r.test(s)] *)
Definition rtest (r : regex) (s : jstr) : bool :=
  match search r None s with Some _ => true | None => false end.

(** A group of a match that took part in it; [""] where the code relies on it. *)
Definition group (i : nat) (caps : list (nat * jstr)) : jstr := option_or (cap i caps) [].

(** [while ((m = r.exec(s)) !== null)] for a pattern with the [g] flag that matches no empty
    text: the text before each match, its captures, and the matched text; then what is left. *)
Fixpoint exec_all (fuel : nat) (r : regex) (prev : option N) (s : jstr)
  : list (jstr * list (nat * jstr)) * jstr :=
  match fuel with
  | O => ([], s)
  | S f =>
      match search r prev s with
      | None => ([], s)
      | Some (skipped, y) =>
          let '(ms, rest) := exec_all f r (m_prev y) (m_rest y) in
          ((skipped, m_caps y) :: ms, rest)
      end
  end.

(** The captures of every match; each one consumes a character, so the length is fuel enough. *)
Definition rexec_all (r : regex) (s : jstr) : list (list (nat * jstr)) :=
  map snd (exec_all (S (length s)) r None s).1.

(** [s.replace(r, t)] for a pattern with the [g] flag. *)
Definition rreplace_all (r : regex) (t s : jstr) : jstr :=
  let '(ms, rest) := exec_all (S (length s)) r None s in
  flat_map (fun m => m.1 ++ t) ms ++ rest.

(** [s.replace(r, f)] without the [g] flag, [f] giving the replacement from the captures. *)
Definition rreplace_first (r : regex) (f : list (nat * jstr) -> jstr) (s : jstr) : jstr :=
  match search r None s with
  | Some (skipped, y) => skipped ++ f (m_caps y) ++ m_rest y
  | None => s
  end.

(** [s.split(r)] for a pattern without groups that matches no empty text. *)
Definition rsplit (r : regex) (s : jstr) : list jstr :=
  let '(ms, rest) := exec_all (S (length s)) r None s in
  map fst ms ++ [rest].

(** ** Reasoning about matches *)

Lemma match_at_results r p s : match_at r p s = head (results r (start_state p s)).
Proof. unfold match_at. rewrite backtrack_results. by destruct (results r _). Qed.

(** A pattern that starts with [^] is tried at the start only. *)
Lemma search_anchored_later l c t : search (rseq (RBol :: l)) (Some c) t = None.
Proof.
  revert c. induction t as [|d t IH]; intros c; [done|]. cbn [search]. rewrite IH. done.
Qed.

Lemma search_anchored l s :
  search (rseq (RBol :: l)) None s =
    match head (results (rseq l) (start_state None s)) with
    | Some y => Some ([], y)
    | None => None
    end.
Proof.
  assert (match_at (rseq (RBol :: l)) None s = head (results (rseq l) (start_state None s))) as Hm.
  { rewrite match_at_results. simpl. by rewrite app_nil_r. }
  destruct s as [|c t]; cbn [search]; rewrite Hm; [done|].
  by rewrite search_anchored_later.
Qed.

Lemma rmatch_anchored l s :
  rmatch (rseq (RBol :: l)) s =
    match results (rseq l) (start_state None s) with y :: _ => Some (m_caps y) | [] => None end.
Proof. unfold rmatch. rewrite search_anchored. by destruct (results _ _). Qed.

Lemma rtest_anchored l s :
  rtest (rseq (RBol :: l)) s =
    match results (rseq l) (start_state None s) with _ :: _ => true | [] => false end.
Proof. unfold rtest. rewrite search_anchored. by destruct (results _ _). Qed.

Lemma prev_after_nil p : prev_after p [] = p.
Proof. done. Qed.

Lemma prev_after_cons p c t : prev_after p (c :: t) = prev_after (Some c) t.
Proof. unfold prev_after. rewrite last_cons. by destruct (last t). Qed.

Lemma prev_after_app p a b : prev_after p (a ++ b) = prev_after (prev_after p a) b.
Proof.
  revert p. induction a as [|c a IH]; intros p; [done|].
  simpl app. by rewrite !prev_after_cons, IH.
Qed.

Lemma run_cons r l x : results (rseq (r :: l)) x = flat_map (results (rseq l)) (results r x).
Proof. done. Qed.

Lemma results_lit s t p cs :
  results (rlit s) (MState p (s ++ t) cs) = [MState (prev_after p s) t cs].
Proof.
  revert p. induction s as [|c s IH]; intros p; simpl; [done|].
  by rewrite N.eqb_refl; simpl; rewrite IH, app_nil_r, prev_after_cons.
Qed.

Lemma results_lit_fail s x : starts_with s (m_rest x) = false -> results (rlit s) x = [].
Proof.
  destruct x as [p r cs]. simpl. revert p r. induction s as [|c s IH]; intros p r; simpl; [done|].
  destruct r as [|d r]; simpl; [done|]. destruct (N.eqb_spec c d); simpl; [|done].
  intros H. by rewrite IH.
Qed.

Lemma run_lit s l t p cs :
  results (rseq (rlit s :: l)) (MState p (s ++ t) cs)
  = results (rseq l) (MState (prev_after p s) t cs).
Proof. rewrite run_cons, results_lit. simpl. by rewrite app_nil_r. Qed.

Lemma run_lit_fail s l x : starts_with s (m_rest x) = false -> results (rseq (rlit s :: l)) x = [].
Proof. intros H. by rewrite run_cons, results_lit_fail. Qed.

Lemma run_set q l p c t cs :
  results (rseq (RSet q :: l)) (MState p (c :: t) cs)
  = if q c then results (rseq l) (MState (Some c) t cs) else [].
Proof. rewrite run_cons. simpl. destruct (q c); [|done]. simpl. by rewrite app_nil_r. Qed.

Lemma run_set_nil q l p cs : results (rseq (RSet q :: l)) (MState p [] cs) = [].
Proof. done. Qed.

Lemma run_eol p cs : results (rseq [REol]) (MState p [] cs) = [MState p [] cs].
Proof. done. Qed.

(** The states a greedy run over a class goes through, the longest first. *)
Fixpoint class_states (q : N -> bool) (p : option N) (s : jstr) (cs : list (nat * jstr))
  : list mstate :=
  match s with
  | c :: t => if q c then class_states q (Some c) t cs ++ [MState p s cs] else [MState p s cs]
  | [] => [MState p [] cs]
  end.

Lemma clear_caps_nil cs : clear_caps [] cs = cs.
Proof. apply jfilter_all. by apply Forall_true. Qed.

Lemma results_star_set q p s cs :
  results (RStar true (RSet q)) (MState p s cs) = class_states q p s cs.
Proof.
  simpl. revert p. induction s as [|c s IH]; intros p; simpl; [done|].
  rewrite clear_caps_nil. destruct (q c); simpl; [|done].
  replace (length s <? S (length s))%nat with true by lia.
  by rewrite app_nil_r, IH.
Qed.

Lemma class_states_stop q p b cs :
  (forall c t, b = c :: t -> q c = false) -> class_states q p b cs = [MState p b cs].
Proof. destruct b as [|c b]; simpl; [done|]. intros H. by rewrite (H c b). Qed.

Lemma class_states_app q p a b cs :
  forallb q a = true ->
  class_states q p (a ++ b) cs =
    class_states q (prev_after p a) b cs
    ++ map (fun n => MState (prev_after p (take n a)) (drop n a ++ b) cs)
         (rev (seq 0 (length a))).
Proof.
  revert p. induction a as [|c a IH]; intros p Ha; [by rewrite app_nil_r|].
  cbn [forallb] in Ha. apply andb_prop in Ha as [Hc Ha].
  cbn [app class_states]. rewrite Hc, IH by done. rewrite prev_after_cons, <- (assoc_L (++)).
  f_equal. cbn [length seq rev]. rewrite map_app. simpl. f_equal.
  rewrite <- seq_shift, <- map_rev, map_map. apply map_ext. intros n. simpl. by rewrite prev_after_cons.
Qed.

(** Where the rest of the pattern cannot start with a character of the class, a greedy run
    takes exactly the longest prefix in the class. *)
Definition stuck (q : N -> bool) (l : list regex) : Prop :=
  forall p c t cs, q c = true -> results (rseq l) (MState p (c :: t) cs) = [].

Lemma stuck_lit q c s l : q c = false -> stuck q (rlit (c :: s) :: l).
Proof.
  intros Hc p d t cs Hd. apply run_lit_fail. simpl.
  destruct (N.eqb_spec c d) as [->|]; [congruence|done].
Qed.

Lemma stuck_eol q l : stuck q (REol :: l).
Proof. by intros p d t cs Hd. Qed.

Lemma stuck_nil_flat q l p n a b cs :
  stuck q l -> forallb q a = true -> (n < length a)%nat ->
  results (rseq l) (MState p (drop n a ++ b) cs) = [].
Proof.
  intros Hl Ha Hn. destruct (drop n a) as [|c t] eqn:Hd.
  - apply (f_equal length) in Hd. rewrite length_drop in Hd. simpl in Hd. lia.
  - apply Hl. rewrite <- (take_drop n a), Hd, forallb_app in Ha. simpl in Ha. by bool_to_prop.
Qed.

Lemma flat_map_all_nil {A B} (f : A -> list B) l :
  (forall x, x ∈ l -> f x = []) -> flat_map f l = [].
Proof.
  induction l as [|x l IH]; simpl; [done|]. intros H.
  rewrite (H x), IH; [done|..]; intros; try apply H; by constructor.
Qed.

Lemma run_star_class q l p a b cs :
  forallb q a = true -> (forall c t, b = c :: t -> q c = false) -> stuck q l ->
  results (rseq (RStar true (RSet q) :: l)) (MState p (a ++ b) cs)
  = results (rseq l) (MState (prev_after p a) b cs).
Proof.
  intros Ha Hb Hl. rewrite run_cons, results_star_set, class_states_app by done.
  rewrite class_states_stop by done. rewrite flat_map_app. simpl. rewrite app_nil_r.
  rewrite flat_map_all_nil; [by rewrite app_nil_r|].
  intros y [n [-> Hn]]%list_elem_of_fmap. rewrite list_elem_of_In, <- in_rev, in_seq in Hn.
  apply (stuck_nil_flat q); [done..|lia].
Qed.

Lemma take_app_minus (a b : jstr) : take (length (a ++ b) - length b) (a ++ b) = a.
Proof. rewrite length_app, Nat.add_sub. apply take_app_length. Qed.

Lemma close_group_split i p p' a b cs cs' :
  close_group i (MState p (a ++ b) cs) (MState p' b cs') = MState p' b (set_cap i a cs').
Proof. unfold close_group. cbn [m_rest m_prev m_caps]. by rewrite take_app_minus. Qed.

Lemma close_group_rest i x y : m_rest (close_group i x y) = m_rest y.
Proof. done. Qed.

(** [stuck] for a state given by its remaining input. *)
Lemma stuck_state q l y : stuck q l -> (exists c t, m_rest y = c :: t /\ q c = true) ->
  results (rseq l) y = [].
Proof. destruct y as [p r cs]. simpl. intros Hl (c & t & -> & Hc). by apply Hl. Qed.

Lemma class_states_tail q p a b cs y :
  forallb q a = true ->
  y ∈ map (fun n => MState (prev_after p (take n a)) (drop n a ++ b) cs) (rev (seq 0 (length a))) ->
  exists c t, m_rest y = c :: t /\ q c = true.
Proof.
  intros Ha [n [-> Hn]]%list_elem_of_fmap. rewrite list_elem_of_In, <- in_rev, in_seq in Hn.
  destruct (drop n a) as [|c t] eqn:Hd.
  - apply (f_equal length) in Hd. rewrite length_drop in Hd. simpl in Hd. lia.
  - exists c, (t ++ b). rewrite <- (take_drop n a), Hd, forallb_app in Ha. simpl in Ha.
    by bool_to_prop.
Qed.

Lemma run_group_states i q l x p a b cs :
  forallb q a = true -> (forall c t, b = c :: t -> q c = false) -> stuck q l ->
  flat_map (results (rseq l)) (map (close_group i x) (class_states q p (a ++ b) cs))
  = results (rseq l) (close_group i x (MState (prev_after p a) b cs)).
Proof.
  intros Ha Hb Hl. rewrite class_states_app, (class_states_stop _ _ b) by done.
  rewrite map_app, flat_map_app. simpl. rewrite app_nil_r, flat_map_all_nil; [by rewrite app_nil_r|].
  intros y [z [-> Hz]]%list_elem_of_fmap. apply (stuck_state q); [done|].
  rewrite close_group_rest. by eapply class_states_tail.
Qed.

Lemma run_group_star i q l p a b cs :
  forallb q a = true -> (forall c t, b = c :: t -> q c = false) -> stuck q l ->
  results (rseq (RGroup i (RStar true (RSet q)) :: l)) (MState p (a ++ b) cs)
  = results (rseq l) (MState (prev_after p a) b (set_cap i a cs)).
Proof.
  intros Ha Hb Hl. rewrite run_cons.
  change (results (RGroup i (RStar true (RSet q))) (MState p (a ++ b) cs))
    with (map (close_group i (MState p (a ++ b) cs))
            (results (RStar true (RSet q)) (MState p (a ++ b) cs))).
  rewrite results_star_set, run_group_states by done. by rewrite close_group_split.
Qed.

Lemma results_group_plus i q p c s cs :
  results (RGroup i (rplus (RSet q))) (MState p (c :: s) cs)
  = if q c then map (close_group i (MState p (c :: s) cs)) (class_states q (Some c) s cs) else [].
Proof.
  cbn [results rplus m_rest m_caps]. destruct (q c); [|done].
  cbn [flat_map]. rewrite app_nil_r.
  change (iterate _ _ _ _) with (results (RStar true (RSet q)) (MState (Some c) s cs)).
  by rewrite results_star_set.
Qed.

Lemma run_group_plus i q l p a b cs :
  a <> [] -> forallb q a = true -> (forall c t, b = c :: t -> q c = false) -> stuck q l ->
  results (rseq (RGroup i (rplus (RSet q)) :: l)) (MState p (a ++ b) cs)
  = results (rseq l) (MState (prev_after p a) b (set_cap i a cs)).
Proof.
  intros Hne Ha Hb Hl. destruct a as [|c a]; [done|]. cbn [forallb] in Ha.
  apply andb_prop in Ha as [Hc Ha]. simpl app. rewrite run_cons, results_group_plus, Hc.
  rewrite run_group_states by done.
  change (c :: a ++ b) with ((c :: a) ++ b).
  by rewrite close_group_split, prev_after_cons.
Qed.

Lemma run_group_plus_fail i q l p s cs :
  (forall c t, s = c :: t -> q c = false) ->
  results (rseq (RGroup i (rplus (RSet q)) :: l)) (MState p s cs) = [].
Proof.
  intros H. destruct s as [|c s]; [done|]. rewrite run_cons, results_group_plus.
  by rewrite (H c s).
Qed.

(** Where the rest of the pattern matches [b] but no proper suffix of it, a greedy run that
    could go on into [b] backtracks to stop before [b]. *)
Lemma class_states_last q p b cs :
  exists ys, class_states q p b cs = ys ++ [MState p b cs] /\
    Forall (fun y => exists b1, b1 <> [] /\ b = b1 ++ m_rest y) ys.
Proof.
  revert p. induction b as [|c b IH]; intros p; simpl; [by exists []|].
  destruct (q c); [|by exists []]. destruct (IH (Some c)) as (ys & -> & Hys).
  exists (ys ++ [MState (Some c) b cs]). split; [done|]. apply Forall_app. split.
  - eapply Forall_impl; [exact Hys|]. intros y (b1 & Hb1 & ->). by exists (c :: b1).
  - constructor; [|done]. by exists [c].
Qed.

Lemma run_group_plus_last i q l p a b cs z zs :
  a <> [] -> forallb q a = true ->
  (forall b1 b2 p cs, b = b1 ++ b2 -> b1 <> [] -> results (rseq l) (MState p b2 cs) = []) ->
  results (rseq l) (MState (prev_after p a) b (set_cap i a cs)) = z :: zs ->
  exists zs', results (rseq (RGroup i (rplus (RSet q)) :: l)) (MState p (a ++ b) cs) = z :: zs'.
Proof.
  intros Hne Ha Hb Hz. destruct a as [|c a]; [done|]. cbn [forallb] in Ha.
  apply andb_prop in Ha as [Hc Ha]. simpl app. rewrite run_cons, results_group_plus, Hc.
  rewrite class_states_app by done.
  destruct (class_states_last q (prev_after (Some c) a) b cs) as (ys & -> & Hys).
  rewrite !map_app, !flat_map_app, flat_map_all_nil.
  - cbn [map flat_map]. change (c :: a ++ b) with ((c :: a) ++ b).
    rewrite close_group_split, <- (prev_after_cons p), Hz. simpl. eauto.
  - intros y [[p' r' cs'] [-> Hw]]%list_elem_of_fmap. rewrite Forall_forall in Hys.
    destruct (Hys _ Hw) as (b1 & Hb1 & Hb2). eapply Hb; eauto.
Qed.

(** Equality of literals by computation on their first characters. *)
Lemma starts_with_ne_head c d s t : c <> d -> starts_with (c :: s) (d :: t) = false.
Proof. intros H. simpl. by apply N.eqb_neq in H as ->. Qed.

(** [^\[q\]+$] tests that every character of a non-empty text is in the class. *)
Lemma run_star_eol q p s cs :
  results (rseq [RStar true (RSet q); REol]) (MState p s cs)
  = if forallb q s then [MState (prev_after p s) [] cs] else [].
Proof.
  rewrite run_cons, results_star_set. revert p.
  induction s as [|c s IH]; intros p; [done|]. cbn [class_states forallb].
  destruct (q c); [|done]. rewrite flat_map_app, IH. simpl. rewrite prev_after_cons.
  by rewrite app_nil_r.
Qed.

Lemma rtest_class_plus q s :
  rtest (rseq [RBol; rplus (RSet q); REol]) s = truthy s && forallb q s.
Proof.
  rewrite rtest_anchored. destruct s as [|c s]; [done|].
  change (results (rseq [rplus (RSet q); REol]) (start_state None (c :: s)))
    with (flat_map (results (rseq [REol]))
            (flat_map (results (RStar true (RSet q))) (if q c then [MState (Some c) s []] else []))).
  cbn [truthy andb forallb]. destruct (q c); [|done]. cbn [flat_map andb]. rewrite app_nil_r.
  rewrite <- run_cons, run_star_eol. by destruct (forallb q s).
Qed.

(** Replacing every character of a class. *)
Lemma search_set q p s :
  search (RSet q) p s =
    match span (fun c => negb (q c)) s with
    | (a, c :: t) => Some (a, MState (Some c) t [])
    | (_, []) => None
    end.
Proof.
  revert p. induction s as [|c s IH]; intros p; [done|].
  cbn [search span]. unfold match_at. cbn [backtrack m_rest start_state m_caps].
  destruct (q c); cbn [negb]; [done|]. rewrite IH.
  by destruct (span _ s) as [a [|d b]].
Qed.

Lemma exec_all_set fuel q p t s :
  (length s < fuel)%nat ->
  flat_map (fun m => m.1 ++ t) (exec_all fuel (RSet q) p s).1 ++ (exec_all fuel (RSet q) p s).2
  = flat_map (fun c => if q c then t else [c]) s.
Proof.
  revert p s. induction fuel as [|f IH]; intros p s Hs; [lia|].
  cbn [exec_all]. rewrite search_set.
  destruct (span _ s) as [a b] eqn:E. apply span_spec in E as (-> & Ha & Hb).
  assert (flat_map (fun c => if q c then t else [c]) a = a) as Hfa.
  { clear -Ha. induction a as [|c a IH]; simpl in *; [done|]. bool_to_prop.
    rewrite H. simpl. by rewrite IH. }
  rewrite flat_map_app, Hfa. destruct b as [|c b]; [done|].
  specialize (IH (Some c) b). rewrite length_app in Hs. simpl in Hs.
  cbn [m_prev m_rest m_caps]. destruct (exec_all f (RSet q) (Some c) b) as [ms rest].
  simpl in *. rewrite <- IH by lia. specialize (Hb c b eq_refl).
  apply negb_false_iff in Hb. rewrite Hb. by rewrite !(assoc_L (++)).
Qed.

Lemma rreplace_all_set q t s :
  rreplace_all (RSet q) t s = flat_map (fun c => if q c then t else [c]) s.
Proof.
  unfold rreplace_all. rewrite <- (exec_all_set (S (length s)) q None t s) by lia.
  by destruct (exec_all _ _ _ _).
Qed.

Lemma rreplace_all_none q t s : forallb (fun c => negb (q c)) s = true -> rreplace_all (RSet q) t s = s.
Proof.
  rewrite rreplace_all_set. induction s as [|c s IH]; simpl; [done|]. intros [Hc Hs]%andb_prop.
  apply negb_true_iff in Hc. rewrite Hc. simpl. by rewrite IH.
Qed.

(** Patterns over a class: the characters they consume are in it. *)
Fixpoint over_class (q : N -> bool) (r : regex) : Prop :=
  match r with
  | REps | RBol | REol | RWordB => True
  | RSet p => forall c, p c = true -> q c = true
  | RSeq a b | RAlt a b => over_class q a /\ over_class q b
  | RStar _ a | ROpt a | RGroup _ a => over_class q a
  | RBackref _ => False
  end.

Definition consumed (q : N -> bool) (x y : mstate) : Prop :=
  exists a, m_rest x = a ++ m_rest y /\ forallb q a = true.

Lemma consumed_refl q x : consumed q x x.
Proof. by exists []. Qed.

Lemma consumed_trans q x y z : consumed q x y -> consumed q y z -> consumed q x z.
Proof.
  intros (a & Ha & Hqa) (b & Hb & Hqb). exists (a ++ b).
  by rewrite Ha, Hb, (assoc_L (++)), forallb_app, Hqa, Hqb.
Qed.

Lemma iterate_consumed q step g :
  (forall x y, y ∈ step x -> consumed q x y) ->
  forall fuel x y, y ∈ iterate step g fuel x -> consumed q x y.
Proof.
  intros Hstep fuel. induction fuel as [|f IH]; intros x y; cbn [iterate].
  - intros ->%list_elem_of_singleton. apply consumed_refl.
  - assert (y ∈ flat_map (fun z => if (length (m_rest z) <? length (m_rest x))%nat
              then iterate step g f z else []) (step x) -> consumed q x y) as Hmore.
    { rewrite list_elem_of_In, in_flat_map. intros (z & Hz & Hy).
      apply list_elem_of_In in Hz. case_match; [|done]. apply list_elem_of_In in Hy.
      eauto using consumed_trans. }
    destruct g.
    + intros [H| ->%list_elem_of_singleton]%elem_of_app; auto using consumed_refl.
    + intros [->|H]%elem_of_cons; auto using consumed_refl.
Qed.

Lemma results_consumed q r x y : over_class q r -> y ∈ results r x -> consumed q x y.
Proof.
  revert x y. induction r as [|p|a IHa b IHb|a IHa b IHb|g a IHa|a IHa|i a IHa|i| | |];
    intros x y Hq; cbn [results].
  - intros ->%list_elem_of_singleton. apply consumed_refl.
  - destruct (m_rest x) as [|c t] eqn:Hx; [by intros ?%elem_of_nil|].
    destruct (p c) eqn:Hc; [|by intros ?%elem_of_nil].
    intros ->%list_elem_of_singleton. exists [c]. rewrite Hx. simpl. by rewrite (Hq c).
  - rewrite list_elem_of_In, in_flat_map. intros (z & Hz & Hy). rewrite <- list_elem_of_In in Hz, Hy.
    destruct Hq as [Ha Hb]. eauto using consumed_trans.
  - rewrite elem_of_app. destruct Hq as [Ha Hb]. intros [H|H]; eauto.
  - apply iterate_consumed. intros w z Hz. destruct (IHa _ _ Hq Hz) as (s & Hs & Hqs). by exists s.
  - rewrite elem_of_app. intros [H| ->%list_elem_of_singleton]; [|apply consumed_refl].
    apply jfilter_elem_of in H as [_ H]. destruct (IHa _ _ Hq H) as (s & Hs & Hqs). by exists s.
  - intros (z & -> & Hz)%list_elem_of_fmap. destruct (IHa _ _ Hq Hz) as (s & Hs & Hqs). by exists s.
  - done.
  - case_match; [by intros ?%elem_of_nil|]. intros ->%list_elem_of_singleton. apply consumed_refl.
  - case_match; [|by intros ?%elem_of_nil]. intros ->%list_elem_of_singleton. apply consumed_refl.
  - case_match; [|by intros ?%elem_of_nil]. intros ->%list_elem_of_singleton. apply consumed_refl.
Qed.

(** A test anchored at both ends holds only of texts over the class. *)
Lemma rtest_over_class q l s :
  over_class q (rseq l) -> rtest (rseq (RBol :: l ++ [REol])) s = true -> forallb q s = true.
Proof.
  intros Hq. rewrite rtest_anchored.
  assert (forall x y, y ∈ results (rseq (l ++ [REol])) x ->
            exists a, m_rest x = a /\ forallb q a = true) as Hl.
  { induction l as [|r l IH]; intros x y.
    - simpl. case_match eqn:Hx; simpl; [|by intros ?%elem_of_nil]. intros _. by exists [].
    - change ((r :: l) ++ [REol]) with (r :: (l ++ [REol])). rewrite run_cons.
      rewrite list_elem_of_In, in_flat_map. intros (z & Hz & Hy).
      rewrite <- list_elem_of_In in Hz, Hy. destruct Hq as [Hr Hq'].
      destruct (results_consumed q r x z Hr Hz) as (a & Ha & Hqa).
      destruct (IH Hq' z y Hy) as (b & Hb & Hqb). exists (a ++ b).
      by rewrite Ha, Hb, forallb_app, Hqa, Hqb. }
  destruct (results _ _) as [|y ys] eqn:E; [done|]. intros _.
  destruct (Hl (start_state None s) y) as (a & <- & Ha); [rewrite E; by left|]. done.
Qed.

(** A group over alternative words, of which one is a prefix of the input. *)
Lemma results_ralt rs x : results (ralt rs) x = flat_map (fun r => results r x) rs.
Proof.
  induction rs as [|r rs IH]; [simpl; by destruct (m_rest x)|].
  destruct rs as [|r' rs]; [simpl; by rewrite app_nil_r|].
  change (ralt (r :: r' :: rs)) with (RAlt r (ralt (r' :: rs))). cbn [results]. by rewrite IH.
Qed.

Lemma flat_map_map {A B C} (f : B -> list C) (g : A -> B) l :
  flat_map f (map g l) = flat_map (fun a => f (g a)) l.
Proof. by rewrite !flat_map_concat_map, map_map. Qed.

Lemma flat_map_single {A B} `{EqDecision A} (f : A -> list B) l a :
  NoDup l -> a ∈ l -> (forall b, b ∈ l -> b <> a -> f b = []) -> flat_map f l = f a.
Proof.
  intros Hl. induction Hl as [|x l Hx Hl IH]; intros Ha Hf; [by apply elem_of_nil in Ha|].
  simpl. apply elem_of_cons in Ha as [->|Ha].
  - rewrite flat_map_all_nil; [by rewrite app_nil_r|]. intros b Hb. apply Hf; [by right|].
    by intros ->.
  - rewrite (Hf x), IH; [done|done|..]; try by left.
    + intros b Hb Hne. apply Hf; [by right|done].
    + by intros ->.
Qed.

Lemma run_group_words i ws w l p t cs :
  NoDup ws -> w ∈ ws -> (forall w', w' ∈ ws -> w' <> w -> starts_with w' (w ++ t) = false) ->
  results (rseq (RGroup i (ralt (map rlit ws)) :: l)) (MState p (w ++ t) cs)
  = results (rseq l) (MState (prev_after p w) t (set_cap i w cs)).
Proof.
  intros Hnd Hw Hother. rewrite run_cons. cbn [results]. rewrite results_ralt.
  rewrite (flat_map_map (fun r => results r _)).
  rewrite (flat_map_single _ ws w); [|done|done|].
  - rewrite results_lit. cbn [map flat_map]. by rewrite close_group_split, app_nil_r.
  - intros w' Hw' Hne. apply results_lit_fail. by apply Hother.
Qed.

Lemma run_group_words_fail i ws l x :
  (forall w, w ∈ ws -> starts_with w (m_rest x) = false) ->
  results (rseq (RGroup i (ralt (map rlit ws)) :: l)) x = [].
Proof.
  intros H. rewrite run_cons. cbn [results]. rewrite results_ralt.
  rewrite (flat_map_map (fun r => results r _)).
  rewrite (flat_map_all_nil (fun a => results (rlit a) x)); [done|].
  intros w Hw. by apply results_lit_fail, H.
Qed.

Lemma run_backref i s l p t cs :
  cap i cs = Some s ->
  results (rseq (RBackref i :: l)) (MState p (s ++ t) cs)
  = results (rseq l) (MState (prev_after p s) t cs).
Proof.
  intros Hc. rewrite run_cons. cbn [results m_caps m_rest]. rewrite Hc, starts_with_app.
  unfold advance. cbn [flat_map m_prev m_caps]. by rewrite app_nil_r, drop_app_length.
Qed.

Lemma reset_no_groups a x : groups a = [] -> reset a x = x.
Proof. intros H. unfold reset. rewrite H, clear_caps_nil. by destruct x. Qed.

(** A starred pattern on a text cut into chunks, each of which it reads in one iteration and
    none of which the rest of the pattern can start with. *)
Lemma run_star_chunks a q l p ws b cs :
  groups a = [] ->
  Forall (fun w => (exists c t, w = c :: t /\ q c = true) /\
    forall p t cs, results a (MState p (w ++ t) cs) = [MState (prev_after p w) t cs]) ws ->
  (forall p cs, results a (MState p b cs) = []) -> stuck q l ->
  results (rseq (RStar true a :: l)) (MState p (concat ws ++ b) cs)
  = results (rseq l) (MState (prev_after p (concat ws)) b cs).
Proof.
  intros Hg Hws Hstop Hl. rewrite run_cons. cbn [results m_rest].
  assert (forall n p, (length (concat ws) <= n)%nat ->
    flat_map (results (rseq l))
      (iterate (fun y => results a (reset a y)) true n (MState p (concat ws ++ b) cs))
    = results (rseq l) (MState (prev_after p (concat ws)) b cs)) as Hit.
  { induction Hws as [|w ws [(c & w' & -> & Hc) Hstep] Hws IH]; intros n p' Hn.
    - simpl. destruct n as [|n]; cbn [iterate];
        rewrite ?(reset_no_groups a (MState p' b cs)), ?Hstop by done; simpl; by rewrite app_nil_r.
    - cbn [concat] in *. rewrite length_app in Hn. simpl in Hn.
      destruct n as [|n]; [lia|]. cbn [iterate]. rewrite <- (assoc_L (++)).
      rewrite (reset_no_groups a (MState p' _ cs)), Hstep by done. cbn [flat_map m_rest].
      match goal with |- context [if ?t then _ else _] => replace t with true end.
      2: { rewrite !length_app. simpl. lia. }
      rewrite app_nil_r, flat_map_app, IH by lia. cbn [flat_map app].
      rewrite Hl by done. by rewrite !app_nil_r, <- prev_after_app. }
  apply Hit. rewrite length_app. lia.
Qed.

(** A group whose pattern has one result. *)
Lemma run_group_single i a l p p' w t cs cs' :
  results a (MState p (w ++ t) cs) = [MState p' t cs'] ->
  results (rseq (RGroup i a :: l)) (MState p (w ++ t) cs)
  = results (rseq l) (MState p' t (set_cap i w cs')).
Proof.
  intros H. rewrite run_cons. cbn [results]. rewrite H. cbn [map flat_map].
  by rewrite close_group_split, app_nil_r.
Qed.

Lemma cap_set_eq i s cs : cap i (set_cap i s cs) = Some s.
Proof. unfold cap, set_cap. cbn [find]. by rewrite Nat.eqb_refl. Qed.

(** The lemmas on literals for the patterns written [rl]. *)
Lemma run_rl s l t p cs :
  results (rseq (rl s :: l)) (MState p (u s ++ t) cs)
  = results (rseq l) (MState (prev_after p (u s)) t cs).
Proof. apply run_lit. Qed.

Lemma run_rl_fail s l x : starts_with (u s) (m_rest x) = false -> results (rseq (rl s :: l)) x = [].
Proof. apply run_lit_fail. Qed.

Lemma stuck_rl q s l :
  match u s with c :: _ => negb (q c) | [] => false end = true -> stuck q (rl s :: l).
Proof.
  unfold rl. destruct (u s) as [|c t]; [done|]. intros H. apply stuck_lit. by apply negb_true_iff.
Qed.

(** ** The first result *)

(** A match is the first result, so where only the match matters it is enough to follow the
    first result of each piece of a pattern. *)
Definition first (l : list regex) (x y : mstate) : Prop := head (results (rseq l) x) = Some y.

Lemma head_flat_map {A B} (f : A -> list B) l y z :
  head l = Some y -> head (f y) = Some z -> head (flat_map f l) = Some z.
Proof. destruct l as [|y' l]; [done|]. intros [= ->] H. simpl. by destruct (f y). Qed.

Lemma first_nil x : first [] x x.
Proof. done. Qed.

Lemma first_cons r l x y z : head (results r x) = Some y -> first l y z -> first (r :: l) x z.
Proof. unfold first. rewrite run_cons. apply head_flat_map. Qed.

Lemma results_rseq_app l k x :
  results (rseq (l ++ k)) x = flat_map (results (rseq k)) (results (rseq l) x).
Proof.
  revert x. induction l as [|r l IH]; intros x; [simpl; by rewrite app_nil_r|].
  cbn [app]. rewrite !run_cons. induction (results r x) as [|y ys IHy]; [done|].
  cbn [flat_map]. by rewrite flat_map_app, IH, IHy.
Qed.

Lemma first_app l k x y z : first l x y -> first k y z -> first (l ++ k) x z.
Proof. unfold first. rewrite results_rseq_app. apply head_flat_map. Qed.

Lemma head_lit s t p cs :
  head (results (rlit s) (MState p (s ++ t) cs)) = Some (MState (prev_after p s) t cs).
Proof. by rewrite results_lit. Qed.

Lemma head_class q p a b cs :
  forallb q a = true -> (forall c t, b = c :: t -> q c = false) ->
  head (class_states q p (a ++ b) cs) = Some (MState (prev_after p a) b cs).
Proof. intros Ha Hb. by rewrite class_states_app, class_states_stop. Qed.

Lemma head_star_class q p a b cs :
  forallb q a = true -> (forall c t, b = c :: t -> q c = false) ->
  head (results (RStar true (RSet q)) (MState p (a ++ b) cs)) = Some (MState (prev_after p a) b cs).
Proof. intros Ha Hb. rewrite results_star_set. by apply head_class. Qed.

Lemma head_plus q p a b cs :
  a <> [] -> forallb q a = true -> (forall c t, b = c :: t -> q c = false) ->
  head (results (rplus (RSet q)) (MState p (a ++ b) cs)) = Some (MState (prev_after p a) b cs).
Proof.
  intros Hne Ha Hb. destruct a as [|c a]; [done|]. cbn [forallb] in Ha. apply andb_prop in Ha as [Hc Ha].
  unfold rplus.
  cbn [results m_rest m_caps app]. rewrite Hc. cbn [flat_map]. rewrite app_nil_r.
  change (iterate _ _ _ _) with (results (RStar true (RSet q)) (MState (Some c) (a ++ b) cs)).
  rewrite head_star_class by done. by rewrite prev_after_cons.
Qed.

Lemma head_group i a p w t cs y :
  head (results a (MState p (w ++ t) cs)) = Some y -> m_rest y = t ->
  head (results (RGroup i a) (MState p (w ++ t) cs)) = Some (MState (m_prev y) t (set_cap i w (m_caps y))).
Proof.
  cbn [results]. destruct (results a _) as [|y' ys]; [done|]. intros [= ->] <-.
  cbn [map head]. unfold close_group. cbn [m_rest]. by rewrite take_app_minus.
Qed.

Lemma head_opt_take a x y :
  head (results a (reset a x)) = Some y -> (length (m_rest y) < length (m_rest x))%nat ->
  head (results (ROpt a) x) = Some y.
Proof.
  cbn [results]. destruct (results a _) as [|y' ys]; [done|]. intros [= ->] H. simpl.
  by replace (_ <? _)%nat with true by lia.
Qed.

Lemma head_opt_skip a x : results a (reset a x) = [] -> head (results (ROpt a) x) = Some x.
Proof. cbn [results]. by intros ->. Qed.

Lemma iterate_ne step g n x : iterate step g n x <> [].
Proof. destruct n; [done|]. cbn [iterate]. destruct g; [|done]. intros H. by apply app_nil in H as [_ ?]. Qed.

(** A starred pattern that reads chunk after chunk, until it does not match. *)
Lemma head_star_chunks a p ws b cs :
  groups a = [] ->
  (forall p u v, ws = u ++ v -> v <> [] -> head (results a (MState p (concat v ++ b) cs))
     = Some (MState (prev_after p (hd [] v)) (concat (tl v) ++ b) cs)) ->
  Forall (fun w => w <> []) ws -> (forall p, results a (MState p b cs) = []) ->
  head (results (RStar true a) (MState p (concat ws ++ b) cs))
  = Some (MState (prev_after p (concat ws)) b cs).
Proof.
  intros Hg Hstep Hne Hstop. cbn [results m_rest].
  assert (forall v u n p, ws = u ++ v -> (length (concat v) <= n)%nat ->
    head (iterate (fun y => results a (reset a y)) true n (MState p (concat v ++ b) cs))
    = Some (MState (prev_after p (concat v)) b cs)) as Hit.
  { induction v as [|w v IH]; intros pre n p' Hw Hn.
    - destruct n as [|n]; cbn [iterate concat app]; [done|].
      by rewrite (reset_no_groups a (MState p' b cs)), Hstop.
    - assert (w <> []) as Hwne.
      { rewrite Forall_forall in Hne. apply Hne. rewrite Hw. set_solver. }
      cbn [concat] in *. rewrite length_app in Hn.
      assert (0 < length w)%nat by (destruct w; [done|simpl; lia]).
      destruct n as [|n]; [lia|]. cbn [iterate].
      rewrite (reset_no_groups a (MState p' _ cs)) by done.
      specialize (Hstep p' pre (w :: v) Hw ltac:(done)). cbn [concat hd tl] in Hstep.
      destruct (results a _) as [|y ys]; [done|]. injection Hstep as ->. cbn [flat_map m_rest].
      match goal with |- context [if ?t then _ else _] => replace t with true end.
      2: { rewrite !length_app. symmetry. apply Nat.ltb_lt. lia. }
      specialize (IH (pre ++ [w]) n (prev_after p' w)). rewrite prev_after_app.
      rewrite <- IH; [|by rewrite <- (assoc_L (++))|lia].
      destruct (iterate _ true n _) as [|z zs] eqn:E; [by apply iterate_ne in E|done]. }
  apply (Hit ws []); [done|]. rewrite length_app. lia.
Qed.

Lemma cap_clear ids j cs :
  cap j (clear_caps ids cs) = if existsb (Nat.eqb j) ids then None else cap j cs.
Proof.
  unfold cap, clear_caps. induction cs as [|[k w] cs IH]; [by destruct (existsb _ _)|].
  cbn [List.filter find fst]. destruct (Nat.eqb_spec k j) as [->|Hkj].
  - destruct (existsb (Nat.eqb j) ids) eqn:E; cbn [negb find fst]; [done|by rewrite Nat.eqb_refl].
  - destruct (existsb (Nat.eqb k) ids); cbn [negb find fst]; [done|].
    by replace (k =? j)%nat with false by lia.
Qed.

Lemma cap_set i j s cs : cap j (set_cap i s cs) = if (i =? j)%nat then Some s else cap j cs.
Proof.
  unfold set_cap. transitivity (if (i =? j)%nat then Some s else cap j (clear_caps [i] cs)).
  - unfold cap. cbn [find fst]. by destruct (i =? j)%nat.
  - destruct (Nat.eqb_spec i j) as [|Hij]; [done|]. rewrite cap_clear. simpl.
    by replace (j =? i)%nat with false by lia.
Qed.

Lemma match_at_first l p s y : first l (start_state p s) y -> match_at (rseq l) p s = Some y.
Proof. intros H. by rewrite match_at_results. Qed.

(** A search skips the text where the pattern does not match. *)
Lemma search_skip r p a t y :
  (forall b c d, a = b ++ c :: d -> match_at r (prev_after p b) ((c :: d) ++ t) = None) ->
  match_at r (prev_after p a) t = Some y -> search r p (a ++ t) = Some (a, y).
Proof.
  revert p. induction a as [|c a IH]; intros p Hskip Hy.
  - rewrite prev_after_nil in Hy. cbn [app]. destruct t; cbn [search]; by rewrite Hy.
  - pose proof (Hskip [] c a eq_refl) as H0. rewrite prev_after_nil in H0. cbn [app] in H0 |- *.
    cbn [search]. rewrite H0.
    rewrite prev_after_cons in Hy. rewrite IH; [done| |done].
    intros b c' d Hb. rewrite <- (prev_after_cons p). apply (Hskip (c :: b)). by rewrite Hb.
Qed.

Lemma search_none r p a :
  (forall b d, a = b ++ d -> match_at r (prev_after p b) d = None) -> search r p a = None.
Proof.
  revert p. induction a as [|c a IH]; intros p H.
  - pose proof (H [] [] eq_refl) as H0. rewrite prev_after_nil in H0. cbn [search]. by rewrite H0.
  - pose proof (H [] _ eq_refl) as H0. rewrite prev_after_nil in H0. cbn [search]. rewrite H0, IH; [done|].
    intros b d Hb. rewrite <- (prev_after_cons p). apply (H (c :: b)). by rewrite Hb.
Qed.
