(* ===== verification/JsNumber.v ===== *)
(** * JavaScript numbers

    [Number] is IEEE 754 binary64: the executable specification of the Standard Library,
    [spec_float] at precision 53 and maximal exponent 1024.  This file adds what ECMAScript
    builds on it: [Number(string)], [Number.prototype.toString], [toFixed], [parseFloat],
    the comparisons and truthiness. *)

From S2P Require Import Prelude JsString.
From Stdlib Require Export SpecFloat.
Open Scope Z_scope.

Abbreviation num := spec_float.

#[export] Instance spec_float_eq_dec : EqDecision spec_float.
Proof. solve_decision. Defined.

Definition fadd : num -> num -> num := SFadd 53 1024.
Definition fsub : num -> num -> num := SFsub 53 1024.
Definition fmul : num -> num -> num := SFmul 53 1024.
Definition fdiv : num -> num -> num := SFdiv 53 1024.
Definition fopp : num -> num := SFopp.
Definition fabs : num -> num := SFabs.

(** [a < b], [a <= b], [a === b]; false when an operand is [NaN]. *)
Definition flt : num -> num -> bool := SFltb.
Definition fle : num -> num -> bool := SFleb.
Definition feq : num -> num -> bool := SFeqb.

Definition nan : num := S754_nan.
Definition infinity : num := S754_infinity false.
Definition zero : num := S754_zero false.

Definition is_nan (x : num) : bool := match x with S754_nan => true | _ => false end.

(** [Number.isFinite(x)] *)
Definition is_finite (x : num) : bool :=
  match x with S754_nan | S754_infinity _ => false | _ => true end.

(** [Boolean(x)] *)
Definition ftruthy (x : num) : bool :=
  match x with S754_nan | S754_zero _ => false | _ => true end.

(** [x || d] *)
Definition f_or (x d : num) : num := if ftruthy x then x else d.

(** The number nearest to an integer. *)
Definition num_of_Z (z : Z) : num := binary_normalize 53 1024 z 0 false.

(** The number nearest to [(-1)^neg * m * 10^e], ties to even. *)
Definition num_of_decimal (neg : bool) (m : N) (e : Z) : num :=
  match m with
  | N0 => S754_zero neg
  | Npos p =>
      let d := Z.of_nat (length (string_of_N m)) in
      if 310 <? d + e then S754_infinity neg
      else if d + e <? -330 then S754_zero neg
      else if 0 <=? e
      then binary_round 53 1024 neg (Z.to_pos (Zpos p * 10 ^ e)) 0
      else let '(q, e', l) := SFdiv_core_binary 53 1024 (Zpos p) 0 (10 ^ (- e)) 0 in
           binary_round_aux 53 1024 neg q e' l
  end.

(** ** Number(string) *)

Definition is_exp_char (c : N) : bool := ((c =? 101) || (c =? 69))%N.

(** The longest prefix that is a StrUnsignedDecimalLiteral without its exponent: its digits,
    the number of digits after the point, and what follows. *)
Definition scan_mantissa (s : jstr) : option (jstr * nat * jstr) :=
  let '(ip, r) := span is_digit s in
  match r with
  | 46%N :: r' =>
      let '(fp, r'') := span is_digit r' in
      match ip, fp with
      | [], [] => None
      | _, _ => Some (ip ++ fp, length fp, r'')
      end
  | _ => match ip with [] => None | _ => Some (ip, O, r) end
  end.

(** An exponent part, when one follows. *)
Definition scan_exponent (s : jstr) : option (Z * jstr) :=
  match s with
  | c :: t =>
      if is_exp_char c then
        let '(neg, t') :=
          match t with
          | 43%N :: t' => (false, t')
          | 45%N :: t' => (true, t')
          | _ => (false, t)
          end in
        match span is_digit t' with
        | ([], _) => None
        | (ds, r) => Some ((if neg then - digits_value ds else digits_value ds), r)
        end
      else None
  | [] => None
  end.

(** The longest prefix that is a StrDecimalLiteral, with its value. *)
Definition scan_number (s : jstr) : option (num * jstr) :=
  let '(neg, t) :=
    match s with
    | 43%N :: t => (false, t)
    | 45%N :: t => (true, t)
    | _ => (false, s)
    end in
  if starts_with (u "Infinity") t then Some (S754_infinity neg, drop 8 t) else
  match scan_mantissa t with
  | None => None
  | Some (ds, frac, r) =>
      let '(e, r') := match scan_exponent r with Some er => er | None => (0, r) end in
      Some (num_of_decimal neg (Z.to_N (digits_value ds)) (e - Z.of_nat frac), r')
  end.

(** Digits in a base up to 16. *)
Definition radix_digit (b c : N) : option N :=
  let v := if is_digit c then Some (c - 48)%N
           else if in_range 97 102 c then Some (c - 87)%N
           else if in_range 65 70 c then Some (c - 55)%N
           else None in
  match v with Some d => if (d <? b)%N then Some d else None | None => None end.

Fixpoint radix_value (b : N) (acc : N) (s : jstr) : option N :=
  match s with
  | [] => Some acc
  | c :: t =>
      match radix_digit b c with
      | Some d => radix_value b (acc * b + d)%N t
      | None => None
      end
  end.

(** [Number(s)] *)
Definition to_number (s : jstr) : num :=
  match trim s with
  | [] => zero
  | (48%N :: c :: _ :: _) as t =>
      let radix :=
        if ((c =? 120) || (c =? 88))%N then Some 16%N
        else if ((c =? 111) || (c =? 79))%N then Some 8%N
        else if ((c =? 98) || (c =? 66))%N then Some 2%N
        else None in
      match radix with
      | Some b =>
          match radix_value b 0%N (drop 2 t) with
          | Some n => num_of_Z (Z.of_N n)
          | None => nan
          end
      | None => match scan_number t with Some (x, []) => x | _ => nan end
      end
  | t => match scan_number t with Some (x, []) => x | _ => nan end
  end.

(** [parseFloat(s)] *)
Definition parse_float (s : jstr) : num :=
  match scan_number (trim_start s) with Some (x, _) => x | None => nan end.

(** ** toString and toFixed *)

(** [|x|] as a fraction. *)
Definition ratio (m : positive) (e : Z) : Z * Z :=
  if 0 <=? e then (Zpos m * 2 ^ e, 1) else (Zpos m, 2 ^ (- e)).

(** The least [j] with [a * 10^j >= b], from [j] on. *)
Fixpoint scale_up (fuel : nat) (a b j : Z) : Z :=
  match fuel with
  | O => j
  | S f => if b <=? a then j else scale_up f (a * 10) b (j + 1)
  end.

(** The [n] with [10^(n-1) <= a/b < 10^n]. *)
Definition decimal_exponent (a b : Z) : Z :=
  if b <=? a then Z.of_nat (length (string_of_N (Z.to_N (a / b))))
  else 1 - scale_up 330 a b 0.

(** The integers around [a/b * 10^(k-n)], the nearer one first. *)
Definition digit_candidates (a b k n : Z) : list Z :=
  let '(a', b') := if 0 <=? k - n then (a * 10 ^ (k - n), b) else (a, b * 10 ^ (n - k)) in
  let q := a' / b' in
  let r := a' mod b' in
  if 2 * r <? b' then [q; q + 1] else [q + 1; q].

(** The shortest digits that read back as the number, from [k] digits on, with their number
    and the decimal exponent. *)
Fixpoint shortest (fuel : nat) (x : num) (a b n k : Z) : Z * Z * Z :=
  match fuel with
  | O => (match digit_candidates a b k n with q :: _ => q | [] => 0 end, k, n)
  | S f =>
      match find (fun s => (10 ^ (k - 1) <=? s) && (s <=? 10 ^ k)
                           && bool_decide (num_of_decimal false (Z.to_N s) (n - k) = x))
                 (digit_candidates a b k n) with
      | Some s => if s =? 10 ^ k then (10 ^ (k - 1), k, n + 1) else (s, k, n)
      | None => shortest f x a b n (k + 1)
      end
  end.

Definition zeros (n : Z) : jstr := repeat 48%N (Z.to_nat n).

(** [Number::toString] of a positive finite number. *)
Definition string_of_pos (m : positive) (e : Z) : jstr :=
  let '(a, b) := ratio m e in
  let '(s, k, n) := shortest 16 (S754_finite false m e) a b (decimal_exponent a b) 1 in
  let ds := string_of_N (Z.to_N s) in
  if (k <=? n) && (n <=? 21) then ds ++ zeros (n - k)
  else if (0 <? n) && (n <=? 21) then take (Z.to_nat n) ds ++ u "." ++ drop (Z.to_nat n) ds
  else if (-6 <? n) && (n <=? 0) then u "0." ++ zeros (- n) ++ ds
  else
    let ex := if 0 <=? n - 1 then u "e+" ++ string_of_N (Z.to_N (n - 1))
              else u "e-" ++ string_of_N (Z.to_N (1 - n)) in
    if k =? 1 then ds ++ ex else take 1 ds ++ u "." ++ drop 1 ds ++ ex.

(** [String(x)] *)
Definition num_to_string (x : num) : jstr :=
  match x with
  | S754_nan => u "NaN"
  | S754_infinity false => u "Infinity"
  | S754_infinity true => u "-Infinity"
  | S754_zero _ => u "0"
  | S754_finite false m e => string_of_pos m e
  | S754_finite true m e => u "-" ++ string_of_pos m e
  end.

(** Decimal digits with a point before the last [f]. *)
Definition place_point (n : N) (f : nat) : jstr :=
  let ds := string_of_N n in
  match f with
  | O => ds
  | _ =>
      let ds' := repeat 48%N (S f - length ds) ++ ds in
      take (length ds' - f) ds' ++ u "." ++ drop (length ds' - f) ds'
  end.

(** [x.toFixed(f)]: the integer nearest to [|x| * 10^f], the larger one of two. *)
Definition to_fixed (f : nat) (x : num) : jstr :=
  match x with
  | S754_nan => u "NaN"
  | S754_infinity _ => num_to_string x
  | S754_zero _ => place_point 0 f
  | S754_finite s m e =>
      let '(a, b) := ratio m e in
      if 10 ^ 21 * b <=? a then num_to_string x
      else
        let n := (2 * a * 10 ^ Z.of_nat f + b) / (2 * b) in
        (if s then u "-" else []) ++ place_point (Z.to_N n) f
  end.

(** ** Math *)

(** [Math.floor(x)] of a finite number, as an integer. *)
Definition floor_Z (x : num) : Z :=
  match x with
  | S754_finite s m e =>
      let '(a, b) := ratio m e in if s then (- a) / b else a / b
  | _ => 0
  end.

Definition f_floor (x : num) : num :=
  match x with
  | S754_finite s m e =>
      match floor_Z x with Z0 => S754_zero s | z => num_of_Z z end
  | _ => x
  end.

(** [Math.min(x, y)] and [Math.max(x, y)] *)
Definition f_min (x y : num) : num :=
  if is_nan x || is_nan y then nan else
  match x, y with
  | S754_zero s, S754_zero t => S754_zero (s || t)
  | _, _ => if flt y x then y else x
  end.

Definition f_max (x y : num) : num :=
  if is_nan x || is_nan y then nan else
  match x, y with
  | S754_zero s, S754_zero t => S754_zero (s && t)
  | _, _ => if flt x y then y else x
  end.

(** ** The order of numbers *)

(** Sign, exponent and mantissa compare lexicographically. *)
Definition fkey (x : num) : Z * Z * Z :=
  match x with
  | S754_nan => (0, 0, 0)
  | S754_infinity true => (-2, 0, 0)
  | S754_infinity false => (2, 0, 0)
  | S754_zero _ => (0, 0, 0)
  | S754_finite true m e => (-1, - e, Zneg m)
  | S754_finite false m e => (1, e, Zpos m)
  end.

Definition key_lt (a b : Z * Z * Z) : Prop :=
  let '(a1, a2, a3) := a in
  let '(b1, b2, b3) := b in
  a1 < b1 \/ (a1 = b1 /\ (a2 < b2 \/ (a2 = b2 /\ a3 < b3))).

Lemma flt_key x y :
  flt x y = true <-> is_nan x = false /\ is_nan y = false /\ key_lt (fkey x) (fkey y).
Proof.
  unfold flt, SFltb.
  destruct x as [[]|[]| |[] m e], y as [[]|[]| |[] m' e']; simpl;
    try (split; [discriminate|lia]); try (split; [lia|done]);
    destruct (Z.compare_spec e e'); simpl; try (split; [discriminate|lia]); try (split; [lia|done]);
    change (Pos.compare_cont Eq m m') with (Pos.compare m m');
    destruct (Pos.compare_spec m m'); simpl; (split; [done||lia|lia||done]).
Qed.

Lemma fle_key x y :
  fle x y = true <-> is_nan x = false /\ is_nan y = false /\ ~ key_lt (fkey y) (fkey x).
Proof.
  unfold fle, SFleb.
  destruct x as [[]|[]| |[] m e], y as [[]|[]| |[] m' e']; simpl;
    try (split; [discriminate|lia]); try (split; [lia|done]);
    destruct (Z.compare_spec e e'); simpl; try (split; [discriminate|lia]); try (split; [lia|done]);
    change (Pos.compare_cont Eq m m') with (Pos.compare m m');
    destruct (Pos.compare_spec m m'); simpl; (split; [done||lia|lia||done]).
Qed.

Lemma key_lt_trans a b c : key_lt a b -> key_lt b c -> key_lt a c.
Proof. destruct a as [[??]?], b as [[??]?], c as [[??]?]. simpl. lia. Qed.

Lemma flt_trans x y z : flt x y = true -> flt y z = true -> flt x z = true.
Proof. rewrite !flt_key. intros (?&?&?) (?&?&?). split_and!; eauto using key_lt_trans. Qed.

Lemma flt_irrefl x : flt x x = false.
Proof.
  apply not_true_iff_false. rewrite flt_key. intros (_ & _ & H).
  destruct (fkey x) as [[??]?]. simpl in H. lia.
Qed.

(** Two comparable numbers. *)
Lemma flt_false_fle x y : is_nan x = false -> is_nan y = false -> flt x y = false -> fle y x = true.
Proof.
  intros Hx Hy H. apply fle_key. split_and!; [done..|]. intros Hk.
  apply not_true_iff_false in H. apply H, flt_key. done.
Qed.

Lemma fle_refl x : is_nan x = false -> fle x x = true.
Proof. intros H. apply flt_false_fle; [done..|]. apply flt_irrefl. Qed.

Lemma fle_trans x y z : fle x y = true -> fle y z = true -> fle x z = true.
Proof.
  rewrite !fle_key. intros (?&?&H1) (?&?&H2). split_and!; [done..|]. revert H1 H2.
  destruct (fkey x) as [[??]?], (fkey y) as [[??]?], (fkey z) as [[??]?]. simpl. lia.
Qed.

Lemma flt_fle x y : flt x y = true -> fle x y = true.
Proof.
  rewrite flt_key, fle_key. intros (?&?&H). split_and!; [done..|]. revert H.
  destruct (fkey x) as [[??]?], (fkey y) as [[??]?]. simpl. lia.
Qed.
