(* ===== verification/Json.v ===== *)
(** * JSON

    JSON values, [JSON.parse] and [JSON.stringify] on them, and the order of an object's own
    keys. *)

From S2P Require Import Prelude JsString JsNumber.
Open Scope N_scope.

Unset Elimination Schemes.
Inductive json : Type :=
| JNull
| JBool (b : bool)
| JNum (x : num)
| JStr (s : jstr)
| JArr (l : list json)
| JObj (fields : list (jstr * json)).
Set Elimination Schemes.

(** Induction through the lists of arrays and objects. *)
Fixpoint json_ind (P : json -> Prop)
    (Hnull : P JNull) (Hbool : forall b, P (JBool b)) (Hnum : forall x, P (JNum x))
    (Hstr : forall s, P (JStr s)) (Harr : forall l, Forall P l -> P (JArr l))
    (Hobj : forall f, Forall (fun kv => P kv.2) f -> P (JObj f)) (j : json) : P j :=
  let rec := json_ind P Hnull Hbool Hnum Hstr Harr Hobj in
  match j with
  | JNull => Hnull
  | JBool b => Hbool b
  | JNum x => Hnum x
  | JStr s => Hstr s
  | JArr l => Harr l ((fix go (l : list json) : Forall P l :=
      match l with [] => Forall_nil_2 _ | x :: t => Forall_cons_2 _ _ _ (rec x) (go t) end) l)
  | JObj f => Hobj f ((fix go (f : list (jstr * json)) : Forall (fun kv => P kv.2) f :=
      match f with [] => Forall_nil_2 _ | x :: t => Forall_cons_2 _ _ _ (rec x.2) (go t) end) f)
  end.

(** ** Objects *)

(** [obj\[k\] = v]: an existing key keeps its place. *)
Fixpoint obj_set {V} (k : jstr) (v : V) (f : list (jstr * V)) : list (jstr * V) :=
  match f with
  | [] => [(k, v)]
  | (k', v') :: t => if jeqb k' k then (k, v) :: t else (k', v') :: obj_set k v t
  end.

(** [obj\[k\]], [None] for [undefined]. *)
Fixpoint obj_get {V} (k : jstr) (f : list (jstr * V)) : option V :=
  match f with
  | [] => None
  | (k', v) :: t => if jeqb k' k then Some v else obj_get k t
  end.

(** [delete obj\[k\]] *)
Definition obj_delete {V} (k : jstr) (f : list (jstr * V)) : list (jstr * V) :=
  jfilter (fun kv => negb (jeqb kv.1 k)) f.

(** [k in obj], for own properties. *)
Definition obj_has {V} (k : jstr) (f : list (jstr * V)) : bool :=
  match obj_get k f with Some _ => true | None => false end.

(** An array index: canonical decimal below [2^32 - 1]. *)
Definition is_index (k : jstr) : bool :=
  match k with
  | [] => false
  | c :: t =>
      forallb is_digit k && (negb (c =? 48) || match t with [] => true | _ => false end)
      && (digits_value k <? 4294967295)%Z
  end.

(** The own properties in the order of [Object.keys]: array indices in ascending order,
    then the other keys in the order they were created. *)
Definition obj_order {V} (f : list (jstr * V)) : list (jstr * V) :=
  sort_by (fun a b => (digits_value b.1 <? digits_value a.1)%Z) (jfilter (fun kv => is_index kv.1) f)
  ++ jfilter (fun kv => negb (is_index kv.1)) f.

Definition obj_keys {V} (f : list (jstr * V)) : list jstr := map fst (obj_order f).
Definition obj_values {V} (f : list (jstr * V)) : list V := map snd (obj_order f).

Lemma obj_get_set_eq {V} k (v : V) f : obj_get k (obj_set k v f) = Some v.
Proof.
  induction f as [|[k' v'] f IH]; simpl; [by rewrite jeqb_refl|].
  destruct (jeqb k' k) eqn:Hk; simpl; [by rewrite jeqb_refl|by rewrite Hk].
Qed.

Lemma obj_get_set_ne {V} k k2 (v : V) f : k <> k2 -> obj_get k2 (obj_set k v f) = obj_get k2 f.
Proof.
  intros Hne. induction f as [|[k' v'] f IH]; simpl.
  - destruct (jeqb k k2) eqn:E; [|done]. by apply jeqb_spec in E.
  - destruct (jeqb k' k) eqn:Hk; simpl.
    + apply jeqb_spec in Hk as ->. destruct (jeqb k k2) eqn:E; [|done]. by apply jeqb_spec in E.
    + by rewrite IH.
Qed.

Lemma obj_get_delete_eq {V} k (f : list (jstr * V)) : obj_get k (obj_delete k f) = None.
Proof.
  induction f as [|[k' v'] f IH]; simpl; [done|].
  destruct (jeqb k' k) eqn:Hk; simpl; [done|by rewrite Hk].
Qed.

Lemma obj_get_delete_ne {V} k k2 (f : list (jstr * V)) :
  k <> k2 -> obj_get k2 (obj_delete k f) = obj_get k2 f.
Proof.
  intros Hne. induction f as [|[k' v'] f IH]; simpl; [done|].
  destruct (jeqb k' k) eqn:Hk; simpl.
  - apply jeqb_spec in Hk as ->. rewrite IH. by apply jeqb_neq in Hne as ->.
  - by rewrite IH.
Qed.

Lemma obj_order_perm {V} (f : list (jstr * V)) : obj_order f ≡ₚ f.
Proof.
  unfold obj_order. rewrite sort_by_perm.
  induction f as [|x f IH]; simpl; [done|]. destruct (is_index x.1); simpl.
  - by rewrite IH.
  - by rewrite <- Permutation_middle, IH.
Qed.

Lemma elem_of_obj_keys {V} k (f : list (jstr * V)) : k ∈ obj_keys f <-> k ∈ map fst f.
Proof. unfold obj_keys. by rewrite obj_order_perm. Qed.

(** ** JSON.stringify *)

Definition hex_digit (d : N) : N := if d <? 10 then 48 + d else 87 + d.

Definition unicode_escape (c : N) : jstr :=
  92 :: 117 :: hex_digit (c / 4096 mod 16) :: hex_digit (c / 256 mod 16)
  :: hex_digit (c / 16 mod 16) :: [hex_digit (c mod 16)].

Definition escape_char (c : N) : jstr :=
  if c =? 8 then [92; 98] else if c =? 9 then [92; 116] else if c =? 10 then [92; 110]
  else if c =? 12 then [92; 102] else if c =? 13 then [92; 114]
  else if c =? 34 then [92; 34] else if c =? 92 then [92; 92]
  else if c <? 32 then unicode_escape c else [c].

Definition is_high_surrogate (c : N) : bool := in_range 55296 56319 c.
Definition is_low_surrogate (c : N) : bool := in_range 56320 57343 c.

(** The quoted characters of a string; a surrogate outside a pair is escaped. *)
Fixpoint escape (s : jstr) : jstr :=
  match s with
  | [] => []
  | c :: t =>
      if is_high_surrogate c then
        match t with
        | d :: t' => if is_low_surrogate d then c :: d :: escape t' else unicode_escape c ++ escape t
        | [] => unicode_escape c
        end
      else if is_low_surrogate c then unicode_escape c ++ escape t
      else escape_char c ++ escape t
  end.

(** [JSON.stringify(s)] of a string *)
Definition quote (s : jstr) : jstr := 34 :: escape s ++ [34].

(** [JSON.stringify(j)] *)
Fixpoint stringify (j : json) : jstr :=
  match j with
  | JNull => u "null"
  | JBool true => u "true"
  | JBool false => u "false"
  | JNum x => if is_finite x then num_to_string x else u "null"
  | JStr s => quote s
  | JArr l => u "[" ++ join (u ",") (map stringify l) ++ u "]"
  | JObj f =>
      u "{" ++ join (u ",") (map (fun kv => quote kv.1 ++ u ":" ++ kv.2)
                               (obj_order (map (fun kv => (kv.1, stringify kv.2)) f)))
      ++ u "}"
  end.

(** [JSON.stringify(j, null, 2)], where [nl] is the line break with the indentation so far. *)
Fixpoint pretty (nl : jstr) (j : json) : jstr :=
  let nl' := nl ++ u "  " in
  match j with
  | JArr l =>
      match l with
      | [] => u "[]"
      | _ => u "[" ++ nl' ++ join (u "," ++ nl') (map (pretty nl') l) ++ nl ++ u "]"
      end
  | JObj f =>
      match f with
      | [] => u "{}"
      | _ => u "{" ++ nl' ++ join (u "," ++ nl') (map (fun kv => quote kv.1 ++ u ": " ++ kv.2)
                                 (obj_order (map (fun kv => (kv.1, pretty nl' kv.2)) f)))
             ++ nl ++ u "}"
      end
  | _ => stringify j
  end.

Definition stringify_indent (j : json) : jstr := pretty [10] j.

(** [String(v)] of a JSON value, as a template literal converts it. *)
Fixpoint json_to_string (j : json) : jstr :=
  match j with
  | JNull => u "null"
  | JBool true => u "true"
  | JBool false => u "false"
  | JNum x => num_to_string x
  | JStr s => s
  | JArr l => join (u ",") (map (fun x => match x with JNull => [] | _ => json_to_string x end) l)
  | JObj _ => u "[object Object]"
  end.

(** [String(v)], [None] for the [TypeError] of an object with a [toString] of its own, which in
    JSON is never a function. *)
Fixpoint to_str (j : json) : option jstr :=
  match j with
  | JArr l =>
      match (fix go (l : list json) : option (list jstr) :=
        match l with
        | [] => Some []
        | JNull :: t => match go t with Some r => Some ([] :: r) | None => None end
        | x :: t => match to_str x, go t with Some a, Some r => Some (a :: r) | _, _ => None end
        end) l with
      | Some r => Some (join (u ",") r)
      | None => None
      end
  | JObj f => if obj_has (u "toString") f then None else Some (u "[object Object]")
  | _ => Some (json_to_string j)
  end.

(** [Number(v)], [None] for a [TypeError]. *)
Definition to_num (v : option json) : option num :=
  match v with
  | None => Some nan
  | Some JNull => Some zero
  | Some (JBool b) => Some (if b then num_of_Z 1 else zero)
  | Some (JNum x) => Some x
  | Some j => match to_str j with Some s => Some (to_number s) | None => None end
  end.

(** [Boolean(v)] *)
Definition json_truthy (j : json) : bool :=
  match j with
  | JNull | JBool false => false
  | JNum x => ftruthy x
  | JStr s => truthy s
  | _ => true
  end.

(** ** JSON.parse *)

Definition is_json_space (c : N) : bool := (c =? 32) || (c =? 9) || (c =? 10) || (c =? 13).

Fixpoint skip_space (s : jstr) : jstr :=
  match s with
  | c :: t => if is_json_space c then skip_space t else s
  | [] => []
  end.

Definition hex_value (c : N) : option N := radix_digit 16 c.

Definition unescape_char (c : N) : option N :=
  if c =? 34 then Some 34 else if c =? 92 then Some 92 else if c =? 47 then Some 47
  else if c =? 98 then Some 8 else if c =? 102 then Some 12 else if c =? 110 then Some 10
  else if c =? 114 then Some 13 else if c =? 116 then Some 9 else None.

(** The rest of a string after its opening quote: its value and what follows. *)
Fixpoint parse_string (s : jstr) : option (jstr * jstr) :=
  match s with
  | [] => None
  | c :: t =>
      if c =? 34 then Some ([], t)
      else if c =? 92 then
        match t with
        | 117 :: a :: b :: d :: e :: t' =>
            match hex_value a, hex_value b, hex_value d, hex_value e with
            | Some a', Some b', Some d', Some e' =>
                match parse_string t' with
                | Some (w, r) => Some (((a' * 16 + b') * 16 + d') * 16 + e' :: w, r)
                | None => None
                end
            | _, _, _, _ => None
            end
        | x :: t' =>
            match unescape_char x, parse_string t' with
            | Some y, Some (w, r) => Some (y :: w, r)
            | _, _ => None
            end
        | [] => None
        end
      else if c <? 32 then None
      else match parse_string t with Some (w, r) => Some (c :: w, r) | None => None end
  end.

(** A JSON number: no leading zeros, plus sign or bare point. *)
Definition parse_number (s : jstr) : option (num * jstr) :=
  let '(neg, t) := match s with 45 :: t => (true, t) | _ => (false, s) end in
  let '(ip, r) := span is_digit t in
  let int_ok := match ip with [] => false | 48 :: _ :: _ => false | _ => true end in
  if negb int_ok then None else
  let frac :=
    match r with
    | 46 :: r' => match span is_digit r' with ([], _) => None | (fp, r'') => Some (fp, r'') end
    | _ => Some ([], r)
    end in
  match frac with
  | None => None
  | Some (fp, r1) =>
      match r1 with
      | c :: _ =>
          if is_exp_char c then
            match scan_exponent r1 with
            | Some (e, r2) =>
                Some (num_of_decimal neg (Z.to_N (digits_value (ip ++ fp)))
                        (e - Z.of_nat (length fp)), r2)
            | None => None
            end
          else Some (num_of_decimal neg (Z.to_N (digits_value (ip ++ fp)))
                       (- Z.of_nat (length fp)), r1)
      | [] => Some (num_of_decimal neg (Z.to_N (digits_value (ip ++ fp)))
                      (- Z.of_nat (length fp)), r1)
      end
  end.

(** A value and what follows it; every nested value takes input, so the length bounds the
    recursion. *)
Fixpoint parse_value (fuel : nat) (s : jstr) : option (json * jstr) :=
  match fuel with
  | O => None
  | S f =>
      match skip_space s with
      | 34 :: t => match parse_string t with Some (w, r) => Some (JStr w, r) | None => None end
      | 91 :: t =>
          match skip_space t with
          | 93 :: r => Some (JArr [], r)
          | _ => match parse_items f t with Some (l, r) => Some (JArr l, r) | None => None end
          end
      | 123 :: t =>
          match skip_space t with
          | 125 :: r => Some (JObj [], r)
          | _ => match parse_fields f [] t with Some (l, r) => Some (JObj l, r) | None => None end
          end
      | t =>
          if starts_with (u "null") t then Some (JNull, drop 4 t)
          else if starts_with (u "true") t then Some (JBool true, drop 4 t)
          else if starts_with (u "false") t then Some (JBool false, drop 5 t)
          else match parse_number t with Some (x, r) => Some (JNum x, r) | None => None end
      end
  end
with parse_items (fuel : nat) (s : jstr) : option (list json * jstr) :=
  match fuel with
  | O => None
  | S f =>
      match parse_value f s with
      | None => None
      | Some (j, r) =>
          match skip_space r with
          | 44 :: r' => match parse_items f r' with Some (l, r'') => Some (j :: l, r'') | None => None end
          | 93 :: r' => Some ([j], r')
          | _ => None
          end
      end
  end
with parse_fields (fuel : nat) (acc : list (jstr * json)) (s : jstr)
  : option (list (jstr * json) * jstr) :=
  match fuel with
  | O => None
  | S f =>
      match skip_space s with
      | 34 :: t =>
          match parse_string t with
          | None => None
          | Some (k, r) =>
              match skip_space r with
              | 58 :: r1 =>
                  match parse_value f r1 with
                  | None => None
                  | Some (j, r2) =>
                      match skip_space r2 with
                      | 44 :: r3 => parse_fields f (obj_set k j acc) r3
                      | 125 :: r3 => Some (obj_set k j acc, r3)
                      | _ => None
                      end
                  end
              | _ => None
              end
          end
      | _ => None
      end
  end.

(** [JSON.parse(s)], [None] for a [SyntaxError]. *)
Definition json_parse (s : jstr) : option json :=
  match parse_value (S (2 * length s)) s with
  | Some (j, r) => match skip_space r with [] => Some j | _ => None end
  | None => None
  end.

(** ** Strings round-trip *)

(** A sequence of code units. *)
Definition units (s : jstr) : Prop := Forall (fun c => c < 65536) s.

Lemma hex_value_digit d : d < 16 -> hex_value (hex_digit d) = Some d.
Proof.
  intros H. unfold hex_value, radix_digit, hex_digit, is_digit, in_range.
  destruct (N.ltb_spec d 10).
  - replace ((48 <=? 48 + d) && (48 + d <=? 57)) with true by lia.
    replace (48 + d - 48 <? 16) with true by lia. f_equal. lia.
  - replace ((48 <=? 87 + d) && (87 + d <=? 57)) with false by lia.
    replace ((97 <=? 87 + d) && (87 + d <=? 102)) with true by lia.
    replace (87 + d - 87 <? 16) with true by lia. f_equal. lia.
Qed.

Lemma parse_string_unicode c s w r :
  c < 65536 -> parse_string s = Some (w, r) ->
  parse_string (unicode_escape c ++ s) = Some (c :: w, r).
Proof.
  intros Hc Hs. unfold unicode_escape. simpl app. cbn [parse_string].
  change (92 =? 34) with false. change (92 =? 92) with true. cbn iota.
  rewrite !hex_value_digit by (apply N.mod_lt; lia). rewrite Hs.
  do 3 f_equal.
  pose proof (N.div_mod c 16 ltac:(lia)).
  assert (c / 256 = c / 16 / 16) as -> by (rewrite N.Div0.div_div; reflexivity).
  assert (c / 4096 = c / 16 / 16 / 16) as -> by (rewrite !N.Div0.div_div; reflexivity).
  pose proof (N.div_mod (c / 16) 16 ltac:(lia)).
  pose proof (N.div_mod (c / 16 / 16) 16 ltac:(lia)).
  rewrite (N.mod_small (c / 16 / 16 / 16)); [lia|].
  repeat (apply N.Div0.div_lt_upper_bound). lia.
Qed.

Lemma parse_string_plain c s w r :
  32 <= c -> c <> 34 -> c <> 92 -> parse_string s = Some (w, r) ->
  parse_string (c :: s) = Some (c :: w, r).
Proof.
  intros H1 H2 H3 Hs. cbn [parse_string].
  destruct (N.eqb_spec c 34); [done|]. destruct (N.eqb_spec c 92); [done|].
  destruct (N.ltb_spec c 32); [lia|]. by rewrite Hs.
Qed.

Lemma parse_string_escape_char c s w r :
  c < 65536 -> parse_string s = Some (w, r) ->
  parse_string (escape_char c ++ s) = Some (c :: w, r).
Proof.
  intros Hc Hs. unfold escape_char.
  repeat match goal with
  | |- context [c =? ?k] => destruct (N.eqb_spec c k) as [->|]; [by cbn; rewrite Hs|]
  end.
  destruct (N.ltb_spec c 32); [by apply parse_string_unicode|].
  by apply parse_string_plain.
Qed.

Lemma parse_string_escape s r : units s -> parse_string (escape s ++ 34 :: r) = Some (s, r).
Proof.
  remember (length s) as n eqn:Hn. revert s Hn.
  induction n as [n IH] using lt_wf_ind. intros s -> Hs.
  destruct s as [|c t]; [done|]. inversion_clear Hs as [|?? Hc Ht]. cbn [escape].
  assert (parse_string (escape t ++ 34 :: r) = Some (t, r)) as IHt
    by (eapply IH; [|done|done]; simpl; lia).
  destruct (is_high_surrogate c) eqn:Hh.
  - destruct t as [|d t].
    + by rewrite (parse_string_unicode c (34 :: r) [] r).
    + destruct (is_low_surrogate d) eqn:Hl.
      * inversion_clear Ht as [|?? Hd Ht']. unfold is_high_surrogate, is_low_surrogate, in_range in *.
        simpl app. repeat (apply parse_string_plain; [lia..|]).
        eapply IH; [|done|done]. simpl. lia.
      * rewrite <- (assoc_L (++)). by apply parse_string_unicode.
  - destruct (is_low_surrogate c); rewrite <- (assoc_L (++)).
    + by apply parse_string_unicode.
    + by apply parse_string_escape_char.
Qed.

(** [JSON.parse(JSON.stringify(s)) === s] *)
Lemma json_parse_quote s : units s -> json_parse (quote s) = Some (JStr s).
Proof.
  intros Hs. unfold json_parse, quote. cbn [parse_value skip_space is_json_space].
  change (is_json_space 34) with false. cbn iota beta.
  by rewrite parse_string_escape.
Qed.

(** Text that [JSON.stringify] copies. *)
Definition is_plain (c : N) : bool :=
  (32 <=? c) && negb (c =? 34) && negb (c =? 92) && negb (in_range 55296 57343 c).

Lemma escape_plain s : forallb is_plain s = true -> escape s = s.
Proof.
  induction s as [|c t IH]; simpl; [done|]. intros [Hc Ht]%andb_prop.
  rewrite (IH Ht).
  assert (is_high_surrogate c = false) as ->.
  { revert Hc. unfold is_plain, is_high_surrogate, in_range. lia. }
  assert (is_low_surrogate c = false) as ->.
  { revert Hc. unfold is_plain, is_low_surrogate, in_range. lia. }
  assert (escape_char c = [c]) as ->; [|done].
  unfold is_plain, in_range in Hc. unfold escape_char.
  repeat match goal with
  | |- context [c =? ?k] => replace (c =? k) with false by lia
  end.
  by replace (c <? 32) with false by lia.
Qed.

Lemma quote_plain s : forallb is_plain s = true -> quote s = 34 :: s ++ [34].
Proof. intros H. unfold quote. by rewrite escape_plain. Qed.

(** What the escapes of a text are made of. *)
Definition escape_alphabet (c : N) : bool :=
  (c =? 34) || (c =? 92) || is_digit c || in_range 97 102 c
  || (c =? 110) || (c =? 114) || (c =? 116) || (c =? 117).

Lemma hex_digit_alphabet c : forall k, k = c mod 16 -> is_digit (hex_digit k) || in_range 97 102 (hex_digit k) = true.
Proof.
  intros k ->. assert (c mod 16 < 16) by (apply N.mod_lt; lia).
  unfold hex_digit, is_digit, in_range. destruct (N.ltb_spec (c mod 16) 10); lia.
Qed.

Lemma unicode_escape_chunks c :
  exists a b d e, unicode_escape c = [92; 117; a; b; d; e] /\
    Forall (fun x => is_digit x || in_range 97 102 x = true) [a; b; d; e].
Proof.
  do 4 eexists. split; [done|]. repeat constructor; by eapply hex_digit_alphabet.
Qed.

(** Induction over the text [escape] reads, a surrogate pair at a time. *)
Lemma escape_cases (P : jstr -> jstr -> Prop) :
  P [] [] ->
  (forall c t w, P t w -> P (c :: t) (unicode_escape c ++ w)) ->
  (forall c t w, P t w -> P (c :: t) (escape_char c ++ w)) ->
  (forall c d t w, is_high_surrogate c = true -> is_low_surrogate d = true -> P t w ->
     P (c :: d :: t) (c :: d :: w)) ->
  forall s, P s (escape s).
Proof.
  intros H0 Hu He Hp s. remember (length s) as n eqn:Hn. revert s Hn.
  induction n as [n IH] using lt_wf_ind. intros s ->. destruct s as [|c t]; [done|].
  assert (P t (escape t)) as Ht by (eapply IH; [|done]; simpl; lia). cbn [escape].
  destruct (is_high_surrogate c) eqn:Hh; [|destruct (is_low_surrogate c); auto].
  destruct t as [|d t]; [by apply (Hu c [] [])|].
  destruct (is_low_surrogate d) eqn:Hl; [|by apply Hu].
  apply Hp; [done..|]. eapply IH; [|done]. simpl. lia.
Qed.

Lemma escape_char_cases c :
  escape_char c = [c] /\ c <> 34 /\ c <> 92 \/
  (exists d, escape_char c = [92; d] /\ escape_alphabet d = true) \/
  escape_char c = unicode_escape c.
Proof.
  unfold escape_char.
  repeat match goal with
  | |- context [c =? ?k] => destruct (N.eqb_spec c k); [right; left; eauto|]
  end.
  case_match; auto.
Qed.

Lemma escape_forallb q s :
  (forall c, escape_alphabet c = true -> q c = true) ->
  forallb q s = true -> forallb q (escape s) = true.
Proof.
  intros Hq. assert (forall c, forallb q (unicode_escape c) = true) as Hu.
  { intros c. destruct (unicode_escape_chunks c) as (a & b & d & e & -> & Hx).
    apply forallb_Forall. do 2 (constructor; [by apply Hq|]).
    eapply Forall_impl; [exact Hx|]. cbn beta. intros x Hx'. apply Hq. unfold escape_alphabet, is_digit, in_range in *. lia. }
  apply (escape_cases (fun s w => forallb q s = true -> forallb q w = true)); [done|..].
  - intros c t w IH. cbn [forallb]. intros [_ Ht]%andb_prop. rewrite forallb_app, Hu. auto.
  - intros c t w IH. cbn [forallb]. intros [Hc Ht]%andb_prop. rewrite forallb_app, IH by done.
    destruct (escape_char_cases c) as [(-> & _)|[(d & -> & Hd)| ->]].
    + simpl. by rewrite Hc.
    + simpl. by rewrite (Hq 92), (Hq d).
    + by rewrite Hu.
  - intros c d t w _ _ IH. simpl. intros [Hc [Hd Ht]%andb_prop]%andb_prop.
    by rewrite Hc, Hd, IH.
Qed.

(** The text is cut into single characters and pairs of a backslash and a character. *)
Definition escape_chunk (w : jstr) : Prop :=
  (exists c, w = [c] /\ c <> 34 /\ c <> 92) \/
  (exists c, w = [92; c] /\ is_newline c = false).

Lemma escape_alphabet_newline c : escape_alphabet c = true -> is_newline c = false.
Proof. unfold escape_alphabet, is_newline, is_digit, in_range. lia. Qed.

Lemma hex_chunk x : is_digit x || in_range 97 102 x = true -> escape_chunk [x].
Proof. intros Hx. left. exists x. unfold is_digit, in_range in Hx. split_and!; [done|lia..]. Qed.

Lemma unicode_escape_cut c ws : Forall escape_chunk ws ->
  exists ws', unicode_escape c ++ concat ws = concat ws' /\ Forall escape_chunk ws'.
Proof.
  intros Hws. destruct (unicode_escape_chunks c) as (a & b & d & e & -> & Hx).
  exists ([92; 117] :: map (fun x => [x]) [a; b; d; e] ++ ws). split; [done|].
  constructor; [right; by exists 117|]. apply Forall_app. split; [|done].
  apply Forall_fmap. eapply Forall_impl; [exact Hx|]. apply hex_chunk.
Qed.

Lemma escape_chunks s : exists ws, escape s = concat ws /\ Forall escape_chunk ws.
Proof.
  apply (escape_cases (fun s w => exists ws, w = concat ws /\ Forall escape_chunk ws));
    [by exists []|..].
  - intros c t w (ws & -> & Hws). by apply unicode_escape_cut.
  - intros c t w (ws & -> & Hws).
    destruct (escape_char_cases c) as [(-> & Hc)|[(d & -> & Hd)| ->]]; [..|by apply unicode_escape_cut].
    + exists ([c] :: ws). split; [done|]. constructor; [|done]. left. eauto.
    + exists ([92; d] :: ws). split; [done|]. constructor; [|done]. right.
      eauto using escape_alphabet_newline.
  - intros c d t w Hc Hd (ws & -> & Hws). exists ([c] :: [d] :: ws). split; [done|].
    unfold is_high_surrogate, is_low_surrogate, in_range in *.
    constructor; [|constructor; [|done]]; left; eexists; (split_and!; [done|lia..]).
Qed.

(** ** Properties *)

(** A property of a JSON value that is not [null], for a name that is neither inherited nor a
    property of strings and arrays. *)
Definition field (k : jstr) (j : json) : option json :=
  match j with JObj f => obj_get k f | _ => None end.

Definition str_field (k : jstr) (j : json) : jstr :=
  match field k j with Some (JStr s) => s | _ => [] end.

(** [j.k === true] *)
Definition true_field (k : jstr) (j : json) : bool :=
  match field k j with Some (JBool true) => true | _ => false end.

(** [j.k === false] *)
Definition false_field (k : jstr) (j : json) : bool :=
  match field k j with Some (JBool false) => true | _ => false end.

(** A value that is truthy. *)
Definition truthy_field (v : option json) : option json :=
  match v with Some j => if json_truthy j then Some j else None | None => None end.

(** The own enumerable properties, in order: what a spread copies and [Object.entries] lists. *)
Definition spread (j : json) : list (jstr * json) :=
  match j with
  | JObj f => obj_order f
  | JArr l => map (fun '(i, x) => (string_of_N (N.of_nat i), x)) (enum_from 0 l)
  | JStr s => map (fun '(i, c) => (string_of_N (N.of_nat i), JStr [c])) (enum_from 0 s)
  | _ => []
  end.

(** [Object.assign(a, b)] *)
Definition assign {V} (a b : list (jstr * V)) : list (jstr * V) :=
  fold_left (fun f kv => obj_set kv.1 kv.2 f) b a.
