(* ===== verification/JsonFacts.v ===== *)
(** * JSON round trip

    [JSON.parse(JSON.stringify(v))] gives [v] back, for values whose strings are sequences of
    code units, whose numbers are printed and read exactly, and whose objects list each key once
    with no array index among them. *)

From S2P Require Import Prelude JsString JsNumber Json.
Open Scope N_scope.

(** A number whose printed form reads as itself. *)
Definition num_ok (x : num) : bool :=
  is_finite x && bool_decide (parse_number (num_to_string x) = Some (x, [])).

Fixpoint json_ok (j : json) : bool :=
  match j with
  | JNull | JBool _ => true
  | JNum x => num_ok x
  | JStr s => forallb (fun c => c <? 65536) s
  | JArr l => forallb json_ok l
  | JObj f =>
      forallb (fun kv => forallb (fun c => c <? 65536) kv.1 && negb (is_index kv.1)) f
      && bool_decide (NoDup (map fst f)) && forallb (fun kv => json_ok kv.2) f
  end.

(** What may follow a number. *)
Definition after_number (r : jstr) : bool :=
  match r with
  | [] => true
  | c :: _ => negb (is_digit c) && negb (c =? 46) && negb (is_exp_char c)
  end.

Lemma span_extend s a b r :
  span is_digit s = (a, b) -> after_number r = true -> span is_digit (s ++ r) = (a, b ++ r).
Proof.
  intros Hs Hr. apply span_spec in Hs as (-> & Ha & Hb). rewrite <- (assoc_L (++)).
  apply span_app; [done|]. intros x t Hx. destruct b as [|y b].
  - simpl in Hx. subst r. simpl in Hr. lia.
  - injection Hx as <- _. by eapply Hb.
Qed.

Lemma match_point {A} (s : jstr) (f : jstr -> A) (g : A) :
  match s with 46 :: t => f t | _ => g end
  = match s with c :: t => if c =? 46 then f t else g | [] => g end.
Proof.
  destruct s as [|c t]; [done|]. destruct (N.eqb_spec c 46) as [->|Hc]; [done|].
  destruct c as [|p]; [done|]. do 6 (destruct p as [p|p|]; try done).
Qed.

Lemma match_minus {A} (s : jstr) (f : jstr -> A) (g : A) :
  match s with 45 :: t => f t | _ => g end
  = match s with c :: t => if c =? 45 then f t else g | [] => g end.
Proof.
  destruct s as [|c t]; [done|]. destruct (N.eqb_spec c 45) as [->|Hc]; [done|].
  destruct c as [|p]; [done|]. do 6 (destruct p as [p|p|]; try done).
Qed.

Lemma scan_exponent_extend c t e b r :
  scan_exponent (c :: t) = Some (e, b) -> after_number r = true ->
  scan_exponent ((c :: t) ++ r) = Some (e, b ++ r).
Proof.
  cbn [scan_exponent app]. destruct (is_exp_char c); [|done]. intros H Hr.
  assert (forall (t' : jstr) (neg : bool), 
    match span is_digit t' with
    | ([], _) => None
    | (ds, r) => Some (if neg then - digits_value ds else digits_value ds, r)%Z end = Some (e, b) ->
    match span is_digit (t' ++ r) with
    | ([], _) => None
    | (ds, r) => Some (if neg then - digits_value ds else digits_value ds, r)%Z end = Some (e, b ++ r)) as Hk.
  { intros t' neg. destruct (span is_digit t') as [ds r'] eqn:Hs.
    rewrite (span_extend _ _ _ _ Hs Hr). by destruct ds; [|intros [= <- <-]]. }
  destruct t as [|d t]; [done|]. cbn [app].
  destruct (N.eqb_spec d 43) as [->|H43]; [exact (Hk t false H)|].
  destruct (N.eqb_spec d 45) as [->|H45]; [exact (Hk t true H)|].
  assert (forall A (f g : jstr -> A) (k : A) l, match d :: l with 43 :: t' => f t' | 45 :: t' => g t' | _ => k end = k) as Hd.
  { intros. destruct d as [|p]; [done|]. do 6 (destruct p as [p|p|]; try done). }
  rewrite Hd in H. rewrite Hd. exact (Hk (d :: t) false H).
Qed.

(** The exponent of a number and what follows it. *)
Definition number_end (neg : bool) (ip fp r1 : jstr) : option (num * jstr) :=
  let mant := Z.to_N (digits_value (ip ++ fp)) in
  match r1 with
  | c :: _ =>
      if is_exp_char c then
        match scan_exponent r1 with
        | Some (e, r2) => Some (num_of_decimal neg mant (e - Z.of_nat (length fp)), r2)
        | None => None
        end
      else Some (num_of_decimal neg mant (- Z.of_nat (length fp)), r1)
  | [] => Some (num_of_decimal neg mant (- Z.of_nat (length fp)), r1)
  end.

(** The digits of a number and what follows them. *)
Definition number_tail (neg : bool) (t : jstr) : option (num * jstr) :=
  let '(ip, r) := span is_digit t in
  let int_ok := match ip with [] => false | 48 :: _ :: _ => false | _ => true end in
  if negb int_ok then None else
  match r with
  | c :: r' =>
      if c =? 46
      then match span is_digit r' with ([], _) => None | (fp, r'') => number_end neg ip fp r'' end
      else number_end neg ip [] r
  | [] => number_end neg ip [] r
  end.

Lemma parse_number_tail s :
  parse_number s =
    match s with c :: t => if c =? 45 then number_tail true t else number_tail false s
               | [] => number_tail false s end.
Proof.
  assert (forall neg t,
    (let '(ip, r) := span is_digit t in
     let int_ok := match ip with [] => false | 48 :: _ :: _ => false | _ => true end in
     if negb int_ok then None else
     match match r with
           | 46 :: r' => match span is_digit r' with ([], _) => None | (fp, r'') => Some (fp, r'') end
           | _ => Some ([], r) end with
     | None => None
     | Some (fp, r1) => number_end neg ip fp r1
     end) = number_tail neg t) as Ht.
  { intros neg t. unfold number_tail. destruct (span is_digit t) as [ip r]. destruct (negb _); [done|].
    rewrite match_point. destruct r as [|c r]; [done|]. destruct (c =? 46); [|done].
    by destruct (span is_digit r) as [[|d fp] r2]. }
  unfold parse_number. rewrite (match_minus s (fun t => (true, t)) (false, s)).
  destruct s as [|c t]; [apply Ht|]. destruct (c =? 45); apply Ht.
Qed.

Lemma number_end_extend neg ip fp r1 x r :
  number_end neg ip fp r1 = Some (x, []) -> after_number r = true ->
  number_end neg ip fp (r1 ++ r) = Some (x, r).
Proof.
  unfold number_end. intros H Hr. destruct r1 as [|c r1].
  - injection H as H. cbn [app]. rewrite H. destruct r as [|c r]; [done|].
    simpl in Hr. destruct (is_exp_char c) eqn:Hc; [|done]. rewrite andb_false_r in Hr. done.
  - cbn [app]. destruct (is_exp_char c); [|done].
    destruct (scan_exponent (c :: r1)) as [[e r2]|] eqn:He; [|done].
    injection H as H ->. pose proof (scan_exponent_extend _ _ _ _ _ He Hr) as E. cbn [app] in E.
    by rewrite E, H.
Qed.

Lemma number_tail_extend neg t x r :
  number_tail neg t = Some (x, []) -> after_number r = true -> number_tail neg (t ++ r) = Some (x, r).
Proof.
  unfold number_tail. intros H Hr. destruct (span is_digit t) as [ip b] eqn:Hs.
  rewrite (span_extend _ _ _ _ Hs Hr). destruct (negb _); [done|].
  destruct b as [|c b]; cbn [app].
  - pose proof (number_end_extend _ _ _ _ _ _ H Hr) as E. cbn [app] in E.
    destruct r as [|d r]; [done|]. simpl in Hr. by replace (d =? 46) with false by lia.
  - destruct (c =? 46).
    + destruct (span is_digit b) as [fp r2] eqn:Hf. rewrite (span_extend _ _ _ _ Hf Hr).
      destruct fp as [|d fp]; [done|]. by apply number_end_extend.
    + by apply (number_end_extend neg ip [] (c :: b)).
Qed.

Lemma parse_number_extend s x r :
  parse_number s = Some (x, []) -> after_number r = true -> parse_number (s ++ r) = Some (x, r).
Proof.
  rewrite !parse_number_tail. destruct s as [|c t]; [done|]. cbn [app].
  destruct (c =? 45); intros H Hr; by eapply (number_tail_extend _ (_ :: _)) || by apply number_tail_extend.
Qed.

(** A number starts with a sign or a digit. *)
Lemma parse_number_start c t y : parse_number (c :: t) = Some y -> (c =? 45) || is_digit c = true.
Proof.
  rewrite parse_number_tail. destruct (c =? 45); [done|]. unfold number_tail. cbn [span].
  destruct (is_digit c); [done|]. done.
Qed.

(** ** Values *)

(** The characters a value starts with. *)
Definition starters : list N := [110; 116; 102; 34; 91; 123; 45; 48; 49; 50; 51; 52; 53; 54; 55; 56; 57].

Lemma starter_space c : c ∈ starters -> is_json_space c = false.
Proof.
  intros H. repeat (apply elem_of_cons in H as [->|H]; [done|]). by apply elem_of_nil in H.
Qed.

(** None of them closes an array or an object. *)
Ltac close_cases Hc H :=
  repeat (apply elem_of_cons in Hc as [->|Hc]; [cbv iota beta; rewrite H; reflexivity|]);
  by apply elem_of_nil in Hc.

Lemma number_starter c : (c =? 45) || is_digit c = true -> c ∈ starters.
Proof.
  unfold is_digit, in_range. intros H. apply list_elem_of_In. cbn [In starters].
  assert (c = 45 \/ c = 48 \/ c = 49 \/ c = 50 \/ c = 51 \/ c = 52 \/ c = 53 \/ c = 54 \/ c = 55
          \/ c = 56 \/ c = 57) by lia. intuition.
Qed.

Lemma stringify_start j : json_ok j = true -> exists c t, stringify j = c :: t /\ c ∈ starters.
Proof.
  destruct j as [|[]|x|s|l|f]; intros Hj; cbn [stringify];
    try (by do 2 eexists; split; [reflexivity|]; apply (bool_decide_unpack _); vm_compute).
  cbn [json_ok] in Hj. unfold num_ok in Hj. apply andb_prop in Hj as [-> Hp].
  apply bool_decide_eq_true in Hp. destruct (num_to_string x) as [|c t]; [done|].
  exists c, t. split; [done|]. apply number_starter. by eapply parse_number_start.
Qed.

Lemma parse_value_number f c t :
  (c =? 45) || is_digit c = true ->
  parse_value (S f) (c :: t) =
    match parse_number (c :: t) with Some (x, r) => Some (JNum x, r) | None => None end.
Proof.
  unfold is_digit, in_range. intros H.
  assert (c = 45 \/ c = 48 \/ c = 49 \/ c = 50 \/ c = 51 \/ c = 52 \/ c = 53 \/ c = 54 \/ c = 55
          \/ c = 56 \/ c = 57) as Hc by lia.
  repeat destruct Hc as [->|Hc]; try reflexivity. subst. reflexivity.
Qed.

Lemma skip_starter c t : c ∈ starters -> skip_space (c :: t) = c :: t.
Proof. intros H. cbn [skip_space]. by rewrite (starter_space c H). Qed.

(** The round trip of one value, whatever follows it. *)
Definition reads_back (j : json) : Prop :=
  json_ok j = true -> forall fuel r, (2 * length (stringify j) <= fuel)%nat -> after_number r = true ->
  parse_value fuel (stringify j ++ r) = Some (j, r).

Lemma items_read_back l :
  l <> [] -> Forall reads_back l -> forallb json_ok l = true ->
  forall fuel r, (2 * length (join (u ",") (map stringify l)) < fuel)%nat ->
  parse_items fuel (join (u ",") (map stringify l) ++ 93 :: r) = Some (l, r).
Proof.
  intros Hne Hl. induction Hl as [|j l Hj Hl IH]; [done|]. cbn [forallb].
  intros [Hok Hoks]%andb_prop [|fuel] r Hf; [lia|]. cbn [parse_items map].
  destruct l as [|j' l].
  - cbn [map join] in *. rewrite Hj by (done || lia). done.
  - cbn [map] in *. rewrite join_cons in *. rewrite !length_app in Hf.
    change (length (u ",")) with 1%nat in Hf.
    rewrite <- !(assoc_L (++)). rewrite Hj by (done || lia).
    change (u "," ++ ?x) with (44 :: x). cbn [skip_space]. change (is_json_space 44) with false.
    cbn iota. rewrite IH by (done || lia). done.
Qed.

(** A field as it is printed. *)
Definition field_text (kv : jstr * json) : jstr := quote kv.1 ++ u ":" ++ stringify kv.2.

Lemma obj_order_plain {V} (f : list (jstr * V)) :
  forallb (fun kv => negb (is_index kv.1)) f = true -> obj_order f = f.
Proof.
  intros H. unfold obj_order. rewrite forallb_Forall in H.
  replace (jfilter (fun kv => is_index kv.1) f) with (@nil (jstr * V)).
  - simpl. by apply jfilter_all.
  - symmetry. induction H as [|kv f Hk _ IH]; [done|]. simpl. apply negb_true_iff in Hk. by rewrite Hk.
Qed.

Lemma obj_set_fresh {V} k (v : V) f : k ∉ map fst f -> obj_set k v f = f ++ [(k, v)].
Proof.
  induction f as [|[k' v'] f IH]; [done|]. cbn [map obj_set]. intros Hk.
  apply not_elem_of_cons in Hk as [Hne Hk]. assert (jeqb k' k = false) as -> by by apply jeqb_neq.
  cbn [app]. by rewrite IH.
Qed.

Lemma units_forallb s : forallb (fun c => c <? 65536) s = true -> units s.
Proof. rewrite forallb_Forall. intros H. eapply Forall_impl; [exact H|]. cbn beta. intros c. lia. Qed.

Lemma fields_read_back f :
  f <> [] -> Forall (fun kv => reads_back kv.2) f ->
  forallb (fun kv => forallb (fun c => c <? 65536) kv.1 && negb (is_index kv.1)) f = true ->
  forallb (fun kv => json_ok kv.2) f = true ->
  forall fuel acc r, NoDup (map fst (acc ++ f)) ->
  (2 * length (join (u ",") (map field_text f)) < fuel)%nat ->
  parse_fields fuel acc (join (u ",") (map field_text f) ++ 125 :: r) = Some (acc ++ f, r).
Proof.
  intros Hne Hf. induction Hf as [|[k j] f Hj Hf IH]; [done|]. cbn [forallb fst snd] in *.
  intros [Hk Hks]%andb_prop [Hok Hoks]%andb_prop [|fuel] acc r Hnd Hlen; [lia|].
  apply andb_prop in Hk as [Hk%units_forallb _].
  assert (k ∉ map fst acc) as Hfresh.
  { rewrite map_app in Hnd. apply NoDup_app in Hnd as (_ & Hd & _). intros Hin.
    apply (Hd k Hin). by left. }
  assert (forall tl, parse_fields (S fuel) acc (field_text (k, j) ++ tl)
    = match parse_value fuel (stringify j ++ tl) with
      | Some (j, r2) =>
          match skip_space r2 with
          | 44 :: r3 => parse_fields fuel (obj_set k j acc) r3
          | 125 :: r3 => Some (obj_set k j acc, r3)
          | _ => None
          end
      | None => None
      end) as Hstep.
  { intros tl. unfold field_text, quote. cbn [fst snd].
    change ((34 :: escape k ++ [34]) ++ u ":" ++ stringify j)
      with (34 :: (escape k ++ [34]) ++ 58 :: stringify j).
    cbn [app parse_fields skip_space]. change (is_json_space 34) with false. cbn iota.
    rewrite <- !(assoc_L (++)). cbn [app]. rewrite parse_string_escape by done.
    cbn [skip_space]. change (is_json_space 58) with false. done. }
  destruct f as [|kv f].
  - cbn [map join] in *. rewrite Hstep. cbn [field_text fst snd] in Hlen. unfold field_text in Hlen.
    rewrite !length_app in Hlen. cbn [snd] in Hlen. rewrite Hj by (done || lia).
    cbn [skip_space]. change (is_json_space 125) with false. cbn iota. by rewrite obj_set_fresh.
  - cbn [map] in *. rewrite join_cons in *. rewrite <- !(assoc_L (++)), Hstep.
    unfold field_text in Hlen at 1. rewrite !length_app in Hlen. cbn [fst snd] in Hlen.
    change (length (u ",")) with 1%nat in Hlen.
    rewrite Hj by (done || lia). change (u "," ++ ?x) with (44 :: x). cbn [skip_space].
    change (is_json_space 44) with false. cbn iota. rewrite obj_set_fresh by done.
    rewrite IH; [by rewrite <- (assoc_L (++))|done..| |lia]. by rewrite <- (assoc_L (++)).
Qed.

Lemma stringify_obj f :
  forallb (fun kv => negb (is_index kv.1)) f = true ->
  stringify (JObj f) = u "{" ++ join (u ",") (map field_text f) ++ u "}".
Proof.
  intros H. cbn [stringify]. rewrite obj_order_plain; [by rewrite map_map|].
  rewrite forallb_forall in *. intros kv Hkv. apply in_map_iff in Hkv as (kv' & <- & Hin).
  by apply (H kv').
Qed.

Lemma join_starter sep l :
  l <> [] -> Forall (fun s => exists c t, s = c :: t /\ c ∈ starters) l ->
  exists c t, join sep l = c :: t /\ c ∈ starters.
Proof.
  intros Hne Hl. destruct Hl as [|s l (c & t & -> & Hc) _]; [done|].
  destruct l as [|s l]; [by exists c, t|]. rewrite join_cons. by eexists c, _.
Qed.

Lemma all_read_back j : reads_back j.
Proof.
  induction j as [|b|x|s|l IH|f IH] using json_ind; intros Hok fuel r Hf Hr;
    (destruct fuel as [|fuel];
     [destruct (stringify_start _ Hok) as (c & t & E & _); rewrite E in Hf; simpl in Hf; lia|]).
  - done.
  - by destruct b.
  - cbn [json_ok stringify] in *. unfold num_ok in Hok. apply andb_prop in Hok as [Hfin Hp].
    rewrite Hfin in *. apply bool_decide_eq_true in Hp.
    pose proof (parse_number_extend _ _ r Hp Hr) as He.
    destruct (num_to_string x) as [|c t]; [done|]. cbn [app] in *.
    rewrite parse_value_number by by eapply parse_number_start. by rewrite He.
  - cbn [json_ok stringify] in *. apply units_forallb in Hok. unfold quote.
    cbn [app parse_value skip_space]. change (is_json_space 34) with false. cbn iota.
    rewrite <- (assoc_L (++)). cbn [app]. by rewrite parse_string_escape.
  - cbn [json_ok stringify] in *. rewrite <- !(assoc_L (++)). rewrite !length_app in Hf.
    change (length (u "[")) with 1%nat in Hf.
    change (u "]" ++ r) with (93 :: r). change (u "[" ++ ?x) with (91 :: x).
    cbn [parse_value skip_space]. change (is_json_space 91) with false. cbn iota.
    destruct l as [|j l]; [done|].
    destruct (join_starter (u ",") (map stringify (j :: l))) as (c & t & Hc & Hcs); [done|..].
    { apply Forall_fmap, Forall_forall. intros j' Hj'. rewrite forallb_Forall, Forall_forall in Hok.
      by apply stringify_start, Hok. }
    pose proof (items_read_back (j :: l) ltac:(done) IH Hok fuel r ltac:(lia)) as Hi.
    rewrite Hc in *. cbn [app] in *. rewrite skip_starter by done.
    clear -Hcs Hi. close_cases Hcs Hi.
  - cbn [json_ok] in Hok. apply andb_prop in Hok as [[Hk Hnd]%andb_prop Hok].
    apply bool_decide_eq_true in Hnd.
    assert (forallb (fun kv => negb (is_index kv.1)) f = true) as Hidx.
    { revert Hk. apply forallb_impl. by intros kv [_ ?]%andb_prop. }
    rewrite stringify_obj in * by done. rewrite <- !(assoc_L (++)). rewrite !length_app in Hf.
    change (length (u "{")) with 1%nat in Hf.
    change (u "}" ++ r) with (125 :: r). change (u "{" ++ ?x) with (123 :: x).
    cbn [parse_value skip_space]. change (is_json_space 123) with false. cbn iota.
    destruct f as [|kv f]; [done|].
    destruct (join_starter (u ",") (map field_text (kv :: f))) as (c & t & Hc & Hcs); [done|..].
    { apply Forall_fmap, Forall_forall. intros kv' _. exists 34. eexists. split; [reflexivity|].
      apply (bool_decide_unpack _). by vm_compute. }
    pose proof (fields_read_back (kv :: f) ltac:(done) IH Hk Hok fuel [] r Hnd ltac:(lia)) as Hi.
    rewrite Hc in *. cbn [app] in *. rewrite skip_starter by done.
    clear -Hcs Hi. close_cases Hcs Hi.
Qed.

(** [JSON.parse(JSON.stringify(v))] is [v]. *)
Lemma json_roundtrip j : json_ok j = true -> json_parse (stringify j) = Some j.
Proof.
  intros Hj. unfold json_parse. rewrite <- (app_nil_r (stringify j)) at 2.
  rewrite all_read_back by (done || lia). done.
Qed.

(** ** Indented texts *)

Definition spaces (s : jstr) : Prop := forallb is_json_space s = true.

Lemma skip_spaces w s : spaces w -> skip_space (w ++ s) = skip_space s.
Proof.
  unfold spaces. induction w as [|c w IH]; [done|]. cbn [forallb]. intros [Hc Hw]%andb_prop.
  cbn [app skip_space]. rewrite Hc. by apply IH.
Qed.

Lemma parse_value_spaces w fuel s : spaces w -> parse_value fuel (w ++ s) = parse_value fuel s.
Proof. intros Hw. destruct fuel; [done|]. cbn [parse_value]. by rewrite skip_spaces. Qed.

Lemma parse_items_spaces w fuel s : spaces w -> parse_items fuel (w ++ s) = parse_items fuel s.
Proof. intros Hw. destruct fuel; [done|]. cbn [parse_items]. by rewrite parse_value_spaces. Qed.

Lemma parse_fields_spaces w fuel acc s :
  spaces w -> parse_fields fuel acc (w ++ s) = parse_fields fuel acc s.
Proof. intros Hw. destruct fuel; [done|]. cbn [parse_fields]. by rewrite skip_spaces. Qed.

Definition reads_back_pretty (j : json) : Prop :=
  json_ok j = true -> forall nl fuel r, spaces nl -> nl <> [] ->
  (2 * length (pretty nl j) <= fuel)%nat -> after_number r = true ->
  parse_value fuel (pretty nl j ++ r) = Some (j, r).

Lemma space_ends nl c r : spaces nl -> nl <> [] -> after_number (nl ++ c :: r) = true.
Proof.
  unfold spaces. destruct nl as [|d nl]; [done|]. cbn [forallb]. intros [Hd _]%andb_prop _.
  simpl. unfold is_json_space in Hd. unfold is_digit, in_range, is_exp_char. lia.
Qed.

Lemma items_read_pretty l nl nl0 :
  l <> [] -> Forall reads_back_pretty l -> forallb json_ok l = true ->
  spaces nl -> nl <> [] -> spaces nl0 -> nl0 <> [] ->
  forall fuel r, (2 * length (join (u "," ++ nl) (map (pretty nl) l)) < fuel)%nat ->
  parse_items fuel (join (u "," ++ nl) (map (pretty nl) l) ++ nl0 ++ 93 :: r) = Some (l, r).
Proof.
  intros Hne Hl Hoks Hnl Hnn Hnl0 Hnn0. revert Hoks.
  induction Hl as [|j l Hj Hl IH]; [done|]. cbn [forallb].
  intros [Hok Hoks]%andb_prop [|fuel] r Hf; [lia|]. cbn [parse_items map].
  destruct l as [|j' l].
  - cbn [map join] in *. rewrite Hj by (done || lia || by apply space_ends).
    rewrite skip_spaces by done. done.
  - cbn [map] in *. rewrite join_cons in *. rewrite !length_app in Hf.
    change (length (u ",")) with 1%nat in Hf.
    rewrite <- !(assoc_L (++)). rewrite Hj by (done || lia).
    change (u "," ++ ?x) with (44 :: x). cbn [skip_space]. change (is_json_space 44) with false.
    cbn iota. rewrite parse_items_spaces, IH by (done || lia). done.
Qed.

Definition field_pretty (nl : jstr) (kv : jstr * json) : jstr := quote kv.1 ++ u ": " ++ pretty nl kv.2.

Lemma fields_read_pretty f nl nl0 :
  f <> [] -> Forall (fun kv => reads_back_pretty kv.2) f ->
  forallb (fun kv => forallb (fun c => c <? 65536) kv.1 && negb (is_index kv.1)) f = true ->
  forallb (fun kv => json_ok kv.2) f = true ->
  spaces nl -> nl <> [] -> spaces nl0 -> nl0 <> [] ->
  forall fuel acc r, NoDup (map fst (acc ++ f)) ->
  (2 * length (join (u "," ++ nl) (map (field_pretty nl) f)) < fuel)%nat ->
  parse_fields fuel acc (join (u "," ++ nl) (map (field_pretty nl) f) ++ nl0 ++ 125 :: r)
  = Some (acc ++ f, r).
Proof.
  intros Hne Hf Hks Hoks Hnl Hnn Hnl0 Hnn0. revert Hks Hoks.
  induction Hf as [|[k j] f Hj Hf IH]; [done|]. cbn [forallb fst snd] in *.
  intros [Hk Hks]%andb_prop [Hok Hoks]%andb_prop [|fuel] acc r Hnd Hlen; [lia|].
  apply andb_prop in Hk as [Hk%units_forallb _].
  assert (k ∉ map fst acc) as Hfresh.
  { rewrite map_app in Hnd. apply NoDup_app in Hnd as (_ & Hd & _). intros Hin.
    apply (Hd k Hin). by left. }
  assert (forall tl, parse_fields (S fuel) acc (field_pretty nl (k, j) ++ tl)
    = match parse_value fuel (pretty nl j ++ tl) with
      | Some (j, r2) =>
          match skip_space r2 with
          | 44 :: r3 => parse_fields fuel (obj_set k j acc) r3
          | 125 :: r3 => Some (obj_set k j acc, r3)
          | _ => None
          end
      | None => None
      end) as Hstep.
  { intros tl. unfold field_pretty, quote. cbn [fst snd].
    change ((34 :: escape k ++ [34]) ++ u ": " ++ pretty nl j)
      with (34 :: (escape k ++ [34]) ++ 58 :: [32] ++ pretty nl j).
    cbn [app parse_fields skip_space]. change (is_json_space 34) with false. cbn iota.
    rewrite <- !(assoc_L (++)). cbn [app]. rewrite parse_string_escape by done.
    cbn [skip_space]. change (is_json_space 58) with false. cbn iota.
    change (32 :: pretty nl j ++ tl) with ([32] ++ pretty nl j ++ tl).
    by rewrite parse_value_spaces. }
  destruct f as [|kv f].
  - cbn [map join] in *. rewrite Hstep. unfold field_pretty in Hlen.
    rewrite !length_app in Hlen. cbn [snd] in Hlen.
    rewrite Hj by (done || lia || by apply space_ends).
    rewrite skip_spaces by done. cbn [skip_space]. change (is_json_space 125) with false.
    cbn iota. by rewrite obj_set_fresh.
  - cbn [map] in *. rewrite join_cons in *. rewrite <- !(assoc_L (++)), Hstep.
    unfold field_pretty in Hlen at 1. rewrite !length_app in Hlen. cbn [fst snd] in Hlen.
    change (length (u ",")) with 1%nat in Hlen.
    rewrite Hj by (done || lia). change (u "," ++ ?x) with (44 :: x). cbn [skip_space].
    change (is_json_space 44) with false. cbn iota. rewrite obj_set_fresh by done.
    rewrite parse_fields_spaces by done.
    rewrite IH; [by rewrite <- (assoc_L (++))|done..| |lia]. by rewrite <- (assoc_L (++)).
Qed.

Lemma pretty_obj nl kv f :
  forallb (fun kv => negb (is_index kv.1)) (kv :: f) = true ->
  pretty nl (JObj (kv :: f))
  = u "{" ++ (nl ++ u "  ") ++ join (u "," ++ nl ++ u "  ") (map (field_pretty (nl ++ u "  ")) (kv :: f))
    ++ nl ++ u "}".
Proof.
  intros H. cbn [pretty]. cbv zeta.
  rewrite obj_order_plain; [by rewrite map_map|].
  rewrite forallb_forall in *. intros x Hx. apply in_map_iff in Hx as (kv' & <- & Hin). by apply (H kv').
Qed.

Lemma pretty_start nl j : json_ok j = true -> exists c t, pretty nl j = c :: t /\ c ∈ starters.
Proof.
  destruct j as [| | | |[|j l]|[|kv f]]; intros Hj; try by apply stringify_start.
  all: do 2 eexists; split; [reflexivity|]; apply (bool_decide_unpack _); by vm_compute.
Qed.

Lemma spaces_deeper nl : spaces nl -> spaces (nl ++ u "  ") /\ nl ++ u "  " <> [].
Proof.
  unfold spaces. intros H. rewrite forallb_app, H. split; [done|]. by destruct nl.
Qed.

Lemma all_read_pretty j : reads_back_pretty j.
Proof.
  induction j as [|b|x|s|l IH|f IH] using json_ind; intros Hok nl fuel r Hnl Hnn Hf Hr;
    try (by apply all_read_back).
  - destruct l as [|j l]; [by apply (all_read_back (JArr []))|].
    destruct (spaces_deeper nl Hnl) as [Hnl' Hnn']. cbn [pretty] in *. cbv zeta in *.
    set (nl' := nl ++ u "  ") in *. cbn [json_ok] in Hok. rewrite <- !(assoc_L (++)). rewrite !length_app in Hf.
    change (length (u "[")) with 1%nat in Hf. destruct fuel as [|fuel]; [lia|].
    change (u "]" ++ r) with (93 :: r). change (u "[" ++ ?x) with (91 :: x).
    cbn [parse_value skip_space]. change (is_json_space 91) with false. cbn iota.
    destruct (join_starter (u "," ++ nl') (map (pretty nl') (j :: l))) as (c & t & Hc & Hcs); [done|..].
    { apply Forall_fmap, Forall_forall. intros j' Hj'. rewrite forallb_Forall, Forall_forall in Hok.
      by apply pretty_start, Hok. }
    pose proof (items_read_pretty (j :: l) nl' nl ltac:(done) IH Hok Hnl' Hnn' Hnl Hnn fuel r ltac:(lia)) as Hi.
    rewrite skip_spaces, parse_items_spaces by done.
    rewrite Hc in *. cbn [app] in *. rewrite skip_starter by done.
    clear -Hcs Hi. close_cases Hcs Hi.
  - destruct f as [|kv f]; [by apply (all_read_back (JObj []))|].
    destruct (spaces_deeper nl Hnl) as [Hnl' Hnn']. cbn [json_ok] in Hok.
    apply andb_prop in Hok as [[Hk Hnd]%andb_prop Hok]. apply bool_decide_eq_true in Hnd.
    assert (forallb (fun kv => negb (is_index kv.1)) (kv :: f) = true) as Hidx.
    { revert Hk. apply forallb_impl. by intros kv' [_ ?]%andb_prop. }
    rewrite pretty_obj in * by done. set (nl' := nl ++ u "  ") in *.
    rewrite <- !(assoc_L (++)). rewrite !length_app in Hf.
    change (length (u "{")) with 1%nat in Hf. destruct fuel as [|fuel]; [lia|].
    change (u "}" ++ r) with (125 :: r). change (u "{" ++ ?x) with (123 :: x).
    cbn [parse_value skip_space]. change (is_json_space 123) with false. cbn iota.
    destruct (join_starter (u "," ++ nl') (map (field_pretty nl') (kv :: f))) as (c & t & Hc & Hcs); [done|..].
    { apply Forall_fmap, Forall_forall. intros kv' _. exists 34. eexists. split; [reflexivity|].
      apply (bool_decide_unpack _). by vm_compute. }
    pose proof (fields_read_pretty (kv :: f) nl' nl ltac:(done) IH Hk Hok Hnl' Hnn' Hnl Hnn fuel [] r Hnd ltac:(lia)) as Hi.
    rewrite skip_spaces, parse_fields_spaces by done.
    rewrite Hc in *. cbn [app] in *. rewrite skip_starter by done.
    clear -Hcs Hi. close_cases Hcs Hi.
Qed.

(** [JSON.parse(JSON.stringify(v, null, 2))] is [v]. *)
Lemma json_roundtrip_indent j : json_ok j = true -> json_parse (stringify_indent j) = Some j.
Proof.
  intros Hj. unfold json_parse, stringify_indent. rewrite <- (app_nil_r (pretty [10] j)) at 2.
  rewrite all_read_pretty by (done || lia). done.
Qed.

(** ** Printed values have no white space around them *)

Lemma trim_forallb (p : N -> bool) s : forallb p s = true -> forallb p (trim s) = true.
Proof.
  intros H. unfold trim, trim_end.
  destruct (trim_start_suffix s) as (a & Ha & _). rewrite Ha, forallb_app in H.
  apply andb_prop in H as [_ H].
  destruct (trim_start_suffix (rev (trim_start s))) as (b & Hb & _).
  rewrite <- (rev_involutive (trim_start s)), Hb, rev_app_distr, forallb_app in H.
  by apply andb_prop in H as [H _].
Qed.

(** ** Reading a saved text *)

Lemma trim_ends a b (s t : jstr) : is_space a = false -> is_space b = false -> s = a :: t ++ [b] -> trim s = s.
Proof.
  intros Ha Hb ->. apply trim_id. split; intros c r H; [by injection H as -> _|].
  rewrite app_comm_cons in H. apply app_inj_2 in H as [_ H]; [|done]. by injection H as ->.
Qed.

(** The characters of a printed number. *)
Definition number_unit (c : N) : bool := is_digit c || existsb (N.eqb c) (u ".e+-NaInfity").

Lemma number_unit_app a b : forallb number_unit (a ++ b) = true <-> forallb number_unit a = true /\ forallb number_unit b = true.
Proof. by rewrite forallb_app, andb_true_iff. Qed.

Lemma digits_number s : forallb is_digit s = true -> forallb number_unit s = true.
Proof. apply forallb_impl. intros c H. unfold number_unit. by rewrite H. Qed.

Lemma zeros_number n : forallb number_unit (zeros n) = true.
Proof. unfold zeros. by induction (Z.to_nat n). Qed.

Lemma forallb_take_drop {A} (p : A -> bool) n l :
  forallb p l = true -> forallb p (take n l) = true /\ forallb p (drop n l) = true.
Proof. rewrite <- (take_drop n l) at 1. rewrite forallb_app. by intros [??]%andb_prop. Qed.

Lemma num_to_string_units x : forallb number_unit (num_to_string x) = true.
Proof.
  assert (forall m e, forallb number_unit (string_of_pos m e) = true) as H.
  { intros m e. unfold string_of_pos. destruct (ratio m e) as [a b]. destruct (shortest _ _ _ _ _ _) as [[s k] n].
    pose proof (digits_number _ (string_of_N_digits (Z.to_N s))) as Hd.
    pose proof (forallb_take_drop _ (Z.to_nat n) _ Hd) as [H1 H2].
    pose proof (forallb_take_drop _ 1 _ Hd) as [H3 H4].
    pose proof (fun n => digits_number _ (string_of_N_digits n)) as Hn.
    cbv zeta. repeat case_match; rewrite ?number_unit_app; split_and?; try reflexivity; auto using zeros_number. }
  destruct x as [ |[]| |[] m e]; try reflexivity; [|apply H]. cbn [num_to_string]. by rewrite number_unit_app.
Qed.

Lemma number_unit_spec c : number_unit c = true -> is_space c = false /\ c < 128.
Proof.
  unfold number_unit, is_digit, is_space, in_range. change (u ".e+-NaInfity") with [46; 101; 43; 45; 78; 97; 73; 110; 102; 105; 116; 121].
  cbn [existsb]. lia.
Qed.

Lemma num_to_string_no_space x : forallb (fun c => negb (is_space c)) (num_to_string x) = true.
Proof. eapply forallb_impl; [|apply num_to_string_units]. intros c [H _]%number_unit_spec. by rewrite H. Qed.

Lemma stringify_trim j : json_ok j = true -> trim (stringify j) = stringify j /\ stringify j <> [].
Proof.
  intros Hj. split; [|by destruct (stringify_start j Hj) as (c & t & -> & _)].
  destruct j as [|[]|x|s|l|f]; try reflexivity.
  - cbn [stringify]. apply trim_no_space. case_match; [apply num_to_string_no_space|reflexivity].
  - cbn [stringify]. unfold quote. eapply (trim_ends 34 34); reflexivity.
  - cbn [stringify]. eapply (trim_ends 91 93); reflexivity.
  - cbn [stringify]. eapply (trim_ends 123 125); reflexivity.
Qed.

(** ** Objects that round-trip *)

Definition key_ok (k : jstr) : bool := forallb (fun c => c <? 65536)%N k && negb (is_index k).

Definition obj_ok (o : list (jstr * json)) : Prop :=
  Forall (fun kv => key_ok kv.1 = true /\ json_ok kv.2 = true) o /\ NoDup (map fst o).

Lemma obj_ok_spec o : obj_ok o <-> json_ok (JObj o) = true.
Proof.
  unfold obj_ok. cbn [json_ok]. rewrite !andb_true_iff, bool_decide_eq_true, !forallb_Forall.
  rewrite !Forall_forall. unfold key_ok. naive_solver.
Qed.

Lemma obj_set_keys {V} k (v : V) o :
  map fst (obj_set k v o) = if bool_decide (k ∈ map fst o) then map fst o else map fst o ++ [k].
Proof.
  induction o as [|[k' v'] o IH]; [done|]. cbn [obj_set map fst].
  destruct (jeqb k' k) eqn:He.
  - apply jeqb_spec in He as ->. rewrite bool_decide_true by by left. done.
  - apply jeqb_neq in He. cbn [map fst]. rewrite IH.
    rewrite (bool_decide_ext (k ∈ k' :: map fst o) (k ∈ map fst o)) by (rewrite elem_of_cons; naive_solver).
    by case_bool_decide.
Qed.

Lemma obj_set_Forall {V} (P : jstr * V -> Prop) k v o : P (k, v) -> Forall P o -> Forall P (obj_set k v o).
Proof.
  intros Hk. induction 1 as [|[k' v'] o Hp Ho IH]; [by repeat constructor|]. cbn [obj_set].
  destruct (jeqb k' k); by constructor.
Qed.

Lemma obj_ok_set k v o : key_ok k = true -> json_ok v = true -> obj_ok o -> obj_ok (obj_set k v o).
Proof.
  intros Hk Hv [Ho Hn]. split; [by apply obj_set_Forall|]. rewrite obj_set_keys.
  case_bool_decide as Hin; [done|]. apply NoDup_app. split_and!; [done| |apply NoDup_singleton].
  intros x Hx ->%list_elem_of_singleton. done.
Qed.

Lemma obj_ok_delete k o : obj_ok o -> obj_ok (obj_delete k o).
Proof.
  intros [Ho Hn]. unfold obj_delete. split.
  - apply Forall_forall. intros kv [_ Hin]%jfilter_elem_of. rewrite Forall_forall in Ho. by apply Ho.
  - clear Ho. induction o as [|[k' v'] o IH]; [constructor|]. cbn [map fst] in Hn.
    apply NoDup_cons in Hn as [Hk Hn]. simpl. destruct (negb (jeqb k' k)); [|by apply IH].
    cbn [map fst]. constructor; [|by apply IH]. intros (kv & -> & Hin)%list_elem_of_fmap.
    apply jfilter_elem_of in Hin as [_ Hin]. destruct Hk. apply list_elem_of_fmap. eauto.
Qed.

Lemma get_set k k' v o :
  obj_get k' (obj_set k v o) = if jeqb k k' then Some v else obj_get k' o :> option json.
Proof.
  destruct (jeqb k k') eqn:Hk.
  - apply jeqb_spec in Hk as ->. by rewrite obj_get_set_eq.
  - apply jeqb_neq in Hk. by rewrite obj_get_set_ne.
Qed.

Lemma get_delete {V} k k' (o : list (jstr * V)) :
  obj_get k' (obj_delete k o) = if jeqb k k' then None else obj_get k' o.
Proof.
  unfold obj_delete. induction o as [|[k0 v] o IH]; [by destruct (jeqb k k')|]. cbn.
  destruct (jeqb k0 k) eqn:E; cbn; rewrite ?IH.
  - apply jeqb_spec in E as ->. by destruct (jeqb k k').
  - destruct (jeqb k0 k') eqn:E'; [|done]. apply jeqb_spec in E' as ->.
    apply jeqb_neq in E. by rewrite (proj2 (jeqb_neq k k')).
Qed.

Lemma obj_get_elem {V} (l : list (jstr * V)) k v :
  NoDup (map fst l) -> (k, v) ∈ l -> obj_get k l = Some v.
Proof.
  induction l as [|[k' v'] l IH]; [by intros _ ?%elem_of_nil|]. cbn [map fst obj_get].
  intros [Hk Hl]%NoDup_cons [[= -> ->]|H]%elem_of_cons; [by rewrite jeqb_refl|].
  destruct (jeqb k' k) eqn:E; [|by apply IH]. apply jeqb_spec in E as ->. destruct Hk.
  apply list_elem_of_fmap. by exists (k, v).
Qed.

Lemma obj_get_absent {V} (l : list (jstr * V)) k : k ∉ map fst l -> obj_get k l = None.
Proof.
  induction l as [|[k' v'] l IH]; [done|]. cbn [map fst obj_get]. rewrite not_elem_of_cons.
  intros [Hne H]. rewrite (proj2 (jeqb_neq k' k)) by done. by apply IH.
Qed.

Lemma obj_get_in {V} (l : list (jstr * V)) k v : obj_get k l = Some v -> (k, v) ∈ l.
Proof.
  induction l as [|[k' v'] l IH]; [done|]. cbn [obj_get]. destruct (jeqb k' k) eqn:E.
  - apply jeqb_spec in E as ->. intros [= ->]. by left.
  - intros H. right. by apply IH.
Qed.

Lemma assign_fresh {V} (b a : list (jstr * V)) :
  NoDup (map fst (a ++ b)) -> assign a b = a ++ b.
Proof.
  unfold assign. revert a. induction b as [|[k v] b IH]; intros a Hn; [by rewrite app_nil_r|]. cbn [fold_left fst snd].
  assert (obj_set k v a = a ++ [(k, v)]) as ->.
  { apply obj_set_fresh. rewrite map_app in Hn. apply NoDup_app in Hn as (_ & Hd & _).
    intros Hin. apply (Hd k Hin). by left. }
  rewrite IH, <- (assoc_L (++)); [done|]. by rewrite <- (assoc_L (++)).
Qed.

Lemma get_assign {V} k (b a : list (jstr * V)) :
  NoDup (map fst b) ->
  obj_get k (assign a b) = match obj_get k b with Some v => Some v | None => obj_get k a end.
Proof.
  unfold assign. revert a. induction b as [|[k' v] b IH]; intros a Hn; [done|]. cbn [fold_left fst snd map] in *.
  apply NoDup_cons in Hn as [Hk Hn]. rewrite IH by done. cbn [obj_get].
  destruct (jeqb k' k) eqn:E.
  - apply jeqb_spec in E as ->. rewrite obj_get_set_eq.
    destruct (obj_get k b) as [w|] eqn:Hg; [|done]. apply obj_get_in in Hg. destruct Hk. apply list_elem_of_fmap. by exists (k, w).
  - apply jeqb_neq in E. by rewrite obj_get_set_ne by congruence.
Qed.
