(* ===== verification/StatusCodes.v ===== *)
(** * HTTP status code rules

    [web/default/src/lib/http-status-code-rules.ts]: the parser of the rules that decide
    which upstream status codes disable a channel or are retried, with its merging of
    overlapping ranges; and
    [web/default/src/features/channels/lib/status-code-risk-guard.ts]: the checks on a
    channel's status code mapping. *)

From S2P Require Import Prelude JsString JsRegex JsNumber Json.
Open Scope N_scope.

(** ** http-status-code-rules.ts *)
Module Rules.
Open Scope Z_scope.

Record StatusCodeRange := Range { start : Z; end_ : Z }.

#[export] Instance range_eq_dec : EqDecision StatusCodeRange.
Proof. solve_decision. Defined.

Record ParsedHttpStatusCodeRules := Parsed {
  ok : bool;
  ranges : list StatusCodeRange;
  tokens : list jstr;
  normalized : jstr;
  invalidTokens : list jstr
}.

(** [/^\d+$/.test(s)] *)
Definition isNumber (s : jstr) : bool := rtest (rseq [RBol; rplus (RSet is_digit); REol]) s.

(** The numbers are those [parseInt] gives on digits; past [2^53] it rounds and past the
    largest double it gives [Infinity], in both cases far above 599. *)
Definition isValidCode (code : Z) : bool := (100 <=? code) && (code <=? 599).

Definition parseToken (token : jstr) : option StatusCodeRange :=
  let cleaned := rreplace_all (RSet is_space) [] (trim token) in
  if negb (truthy cleaned) then None else
  if includes (u "-") cleaned then
    match split_on (ch "-") cleaned with
    | a :: b :: _ =>
        if negb (isNumber a) || negb (isNumber b) then None else
        let start := digits_value a in
        let end_ := digits_value b in
        if negb (isValidCode start) || negb (isValidCode end_) || (end_ <? start) then None
        else Some (Range start end_)
    | _ => None
    end
  else if negb (isNumber cleaned) then None else
  let code := digits_value cleaned in
  if negb (isValidCode code) then None else Some (Range code code).

(** The comparator of [mergeRanges] is positive. *)
Definition range_gt (a b : StatusCodeRange) : bool :=
  if negb (start a =? start b) then start b <? start a else end_ b <? end_ a.

(** One step of the [reduce]; the copy pushed on [merged] is the one later extended. *)
Definition merge_step (merged : list StatusCodeRange) (current : StatusCodeRange)
  : list StatusCodeRange :=
  match last merged with
  | None => merged ++ [current]
  | Some l =>
      if end_ l + 1 <? start current then merged ++ [current]
      else take (length merged - 1) merged ++ [Range (start l) (Z.max (end_ l) (end_ current))]
  end.

Definition mergeRanges (ranges : list StatusCodeRange) : list StatusCodeRange :=
  match ranges with
  | [] => []
  | _ => fold_left merge_step (sort_by range_gt ranges) []
  end.

Definition range_token (r : StatusCodeRange) : jstr :=
  if start r =? end_ r then string_of_int (start r)
  else string_of_int (start r) ++ u "-" ++ string_of_int (end_ r).

(** The loop over the segments: ranges and invalid tokens, in order. *)
Fixpoint parse_segments (segments : list jstr) : list StatusCodeRange * list jstr :=
  match segments with
  | [] => ([], [])
  | segment :: t =>
      let '(rs, bad) := parse_segments t in
      match parseToken segment with
      | None => (rs, segment :: bad)
      | Some r => (r :: rs, bad)
      end
  end.

(** The non-empty segments of the trimmed input; a full-width comma separates too. *)
Definition rule_segments (raw : jstr) : list jstr :=
  split_trim (ch ",") (rreplace_all (RSet (N.eqb (ch "，"))) (u ",") raw).

(** [input] is what [toString] gives, [None] for [null] and [undefined]. *)
Definition parseHttpStatusCodeRules (input : option jstr) : ParsedHttpStatusCodeRules :=
  let raw := trim (option_or input []) in
  if (length raw =? 0)%nat then Parsed true [] [] [] []
  else
    let '(ranges, invalidTokens) := parse_segments (rule_segments raw) in
    if (0 <? length invalidTokens)%nat then Parsed false [] [] raw invalidTokens
    else
      let merged := mergeRanges ranges in
      let tokens := map range_token merged in
      Parsed true merged tokens (join (u ",") tokens) [].

(** *** Merging *)

Definition valid_range (r : StatusCodeRange) : Prop := start r <= end_ r.

(** The code is in one of the ranges. *)
Definition covers (l : list StatusCodeRange) (code : Z) : Prop :=
  exists r, r ∈ l /\ start r <= code <= end_ r.

(** Ranges in order, with a gap of at least one code between them. *)
Definition separated (l : list StatusCodeRange) : Prop :=
  StronglySorted (fun a b => end_ a + 1 < start b) l /\ Forall valid_range l.

Lemma range_le_spec a b :
  gt_le range_gt a b <-> start a < start b \/ (start a = start b /\ end_ a <= end_ b).
Proof. unfold gt_le, range_gt. destruct (Z.eqb_spec (start a) (start b)); simpl; lia. Qed.

#[export] Instance range_gt_consistent : ConsistentCmp range_gt.
Proof.
  split; intros x y; [intros z|]; rewrite ?range_le_spec; [lia|].
  unfold range_gt. destruct (Z.eqb_spec (start x) (start y)); simpl; lia.
Qed.

Lemma covers_cons r l code : covers (r :: l) code <-> start r <= code <= end_ r \/ covers l code.
Proof. unfold covers. setoid_rewrite elem_of_cons. naive_solver. Qed.

(** The [reduce] as a recursion on the range under construction. *)
Fixpoint merge_from (cur : StatusCodeRange) (l : list StatusCodeRange) : list StatusCodeRange :=
  match l with
  | [] => [cur]
  | r :: t =>
      if end_ cur + 1 <? start r then cur :: merge_from r t
      else merge_from (Range (start cur) (Z.max (end_ cur) (end_ r))) t
  end.

Lemma merge_step_snoc pre cur r :
  merge_step (pre ++ [cur]) r =
    if end_ cur + 1 <? start r then (pre ++ [cur]) ++ [r]
    else pre ++ [Range (start cur) (Z.max (end_ cur) (end_ r))].
Proof.
  unfold merge_step. rewrite last_snoc. case_match; [done|].
  by rewrite length_app, Nat.add_sub, take_app_length.
Qed.

Lemma fold_merge_step l pre cur :
  fold_left merge_step l (pre ++ [cur]) = pre ++ merge_from cur l.
Proof.
  revert pre cur. induction l as [|r l IH]; intros pre cur; cbn [fold_left merge_from]; [done|].
  rewrite merge_step_snoc. case_match; rewrite IH; [|done]. by rewrite <- (assoc_L (++)).
Qed.

Lemma mergeRanges_from l :
  mergeRanges l = match sort_by range_gt l with [] => [] | r :: t => merge_from r t end.
Proof.
  destruct l as [|r l]; [done|]. unfold mergeRanges.
  destruct (sort_by range_gt (r :: l)) as [|x t] eqn:E; [done|].
  cbn [fold_left]. change (merge_step [] x) with ([] ++ [x]). apply fold_merge_step.
Qed.

Lemma merge_from_covers cur l code :
  valid_range cur -> Forall valid_range l -> StronglySorted (gt_le range_gt) (cur :: l) ->
  covers (merge_from cur l) code <-> covers (cur :: l) code.
Proof.
  revert cur. induction l as [|r l IH]; intros cur Hc Hl Hs; cbn [merge_from]; [done|].
  inversion_clear Hl as [|?? Hr Hl']. inversion_clear Hs as [|?? Hs' Hcr].
  inversion_clear Hcr as [|?? Hcr' Hcl]. inversion_clear Hs' as [|?? Hsl Hrl].
  unfold valid_range in *. rewrite range_le_spec in Hcr'.
  destruct (Z.ltb_spec (end_ cur + 1) (start r)).
  - rewrite covers_cons, IH, <- covers_cons by (done || by constructor). done.
  - rewrite IH; [|simpl; lia|done|].
    + rewrite !covers_cons. simpl. split; intros [?|?]; [|by eauto| |]; [|lia|naive_solver lia].
      destruct (decide (code <= end_ cur)); [left|right; left]; lia.
    + constructor; [done|]. rewrite Forall_forall in Hcl, Hrl |- *. intros x Hx.
      specialize (Hcl x Hx). specialize (Hrl x Hx). rewrite range_le_spec in *. simpl. lia.
Qed.

Lemma merge_from_separated cur l :
  valid_range cur -> Forall valid_range l -> StronglySorted (gt_le range_gt) (cur :: l) ->
  separated (merge_from cur l) /\ Forall (fun r => start cur <= start r) (merge_from cur l).
Proof.
  revert cur. induction l as [|r l IH]; intros cur Hc Hl Hs; cbn [merge_from].
  - repeat constructor; [done|lia].
  - inversion_clear Hl as [|?? Hr Hl']. inversion_clear Hs as [|?? Hs' Hcr].
    inversion_clear Hcr as [|?? Hcr' Hcl]. inversion_clear Hs' as [|?? Hsl Hrl].
    rewrite range_le_spec in Hcr'. destruct (Z.ltb_spec (end_ cur + 1) (start r)).
    + destruct (IH r) as [[Hsep Hval] Hge]; [done..|by constructor|].
      unfold valid_range in *. split; [split|].
      * constructor; [done|]. eapply Forall_impl; [exact Hge|]. simpl. lia.
      * by constructor.
      * constructor; [lia|]. eapply Forall_impl; [exact Hge|]. simpl. lia.
    + apply (IH (Range (start cur) (Z.max (end_ cur) (end_ r)))); [|done|].
      * unfold valid_range in *. simpl. lia.
      * constructor; [done|]. rewrite Forall_forall in Hcl, Hrl |- *. intros x Hx.
        specialize (Hcl x Hx). specialize (Hrl x Hx). rewrite range_le_spec in *. simpl. lia.
Qed.

Lemma merge_from_id cur l : separated (cur :: l) -> merge_from cur l = cur :: l.
Proof.
  intros [Hs Hv]. revert cur Hs Hv. induction l as [|r l IH]; intros cur Hs Hv; [done|].
  inversion_clear Hs as [|?? Hs' Hf]. inversion_clear Hf as [|?? Hcr _].
  inversion_clear Hv. cbn [merge_from]. apply Z.ltb_lt in Hcr as ->. f_equal. by apply IH.
Qed.

Lemma separated_sorted l : separated l -> StronglySorted (gt_le range_gt) l.
Proof.
  intros [Hs Hv]. induction Hs as [|x l Hs IH Hx]; [constructor|].
  inversion_clear Hv as [|?? Hvx Hvl]. constructor; [by apply IH|].
  eapply Forall_impl; [exact Hx|]. intros y Hy. rewrite range_le_spec.
  unfold valid_range in *. lia.
Qed.

Lemma mergeRanges_id l : separated l -> mergeRanges l = l.
Proof.
  intros Hl. rewrite mergeRanges_from, sort_by_id by (by apply separated_sorted).
  destruct l; [done|]. by apply merge_from_id.
Qed.

(** What merging keeps, for any list of ranges. *)
Lemma mergeRanges_spec l :
  Forall valid_range l ->
  separated (mergeRanges l) /\ forall code, covers (mergeRanges l) code <-> covers l code.
Proof.
  intros Hl. rewrite mergeRanges_from.
  pose proof (sort_by_perm range_gt l) as Hp. pose proof (sort_by_sorted range_gt l) as Hs.
  destruct (sort_by range_gt l) as [|r t].
  - apply Permutation_nil_l in Hp as <-. by repeat constructor.
  - rewrite <- Hp in Hl. inversion_clear Hl as [|?? Hr Ht]. split.
    + by apply merge_from_separated.
    + intros code. rewrite merge_from_covers by done. unfold covers. by setoid_rewrite Hp.
Qed.

(** *** Tokens *)

Lemma isNumber_spec s : isNumber s = truthy s && forallb is_digit s.
Proof. apply rtest_class_plus. Qed.

Definition code_range (r : StatusCodeRange) : Prop := 100 <= start r <= end_ r /\ end_ r <= 599.

Lemma parseToken_range token r : parseToken token = Some r -> code_range r.
Proof.
  unfold parseToken, isValidCode, code_range. intros H.
  repeat (case_match; simplify_eq/=); lia.
Qed.

Lemma string_of_int_pos z : 0 <= z -> string_of_int z = string_of_N (Z.to_N z).
Proof. by destruct z. Qed.

Lemma isNumber_int z : 0 <= z -> isNumber (string_of_int z) = true.
Proof.
  intros Hz. rewrite isNumber_spec, string_of_int_pos by done.
  rewrite string_of_N_digits, andb_true_r. apply truthy_spec, string_of_N_nonempty.
Qed.

Lemma digits_value_int z : 0 <= z -> digits_value (string_of_int z) = z.
Proof. intros Hz. rewrite string_of_int_pos, string_of_N_value by done. lia. Qed.

(** The characters of a printed token. *)
Definition token_char (c : N) : bool := is_digit c || (c =? 45)%N.

Lemma string_of_int_digits z : 0 <= z -> forallb is_digit (string_of_int z) = true.
Proof. intros Hz. rewrite string_of_int_pos by done. apply string_of_N_digits. Qed.

Lemma range_token_chars r : code_range r -> forallb token_char (range_token r) = true.
Proof.
  intros [Hr _]. assert (forall z, 0 <= z -> forallb token_char (string_of_int z) = true) as Hd.
  { intros z Hz. eapply forallb_impl; [|by apply string_of_int_digits].
    intros c Hc. unfold token_char. by rewrite Hc. }
  unfold range_token. case_match; rewrite ?forallb_app, ?Hd by lia; done.
Qed.

Lemma range_token_ne r : code_range r -> range_token r <> [].
Proof.
  intros [Hr _]. unfold range_token.
  assert (string_of_int (start r) <> []) by (rewrite string_of_int_pos by lia; apply string_of_N_nonempty).
  case_match; [done|]. by intros [? _]%app_nil.
Qed.

Lemma token_char_plain c : token_char c = true -> is_space c = false /\ c <> 44%N /\ c <> 65292%N.
Proof. unfold token_char, is_digit, is_space, in_range. lia. Qed.

Lemma forallb_no_space s : forallb token_char s = true -> forallb (fun c => negb (is_space c)) s = true.
Proof. apply forallb_impl. intros c Hc. by apply token_char_plain in Hc as [-> _]. Qed.

Lemma clean_token s :
  forallb token_char s = true -> rreplace_all (RSet is_space) [] (trim s) = s.
Proof.
  intros H%forallb_no_space. rewrite trim_id by (by apply chars_trimmed).
  by apply rreplace_all_none.
Qed.

Lemma digits_no_dash s : forallb is_digit s = true -> forallb (fun d => negb (d =? 45)%N) s = true.
Proof. apply forallb_impl. intros c. unfold is_digit, in_range. lia. Qed.

Lemma existsb_no_dash s : forallb is_digit s = true -> existsb (N.eqb 45%N) s = false.
Proof.
  induction s as [|c s IH]; cbn [forallb existsb]; [done|]. intros [Hc Hs]%andb_prop.
  rewrite IH by done. unfold is_digit, in_range in Hc. lia.
Qed.

(** A printed range reads back. *)
Lemma parseToken_token r : code_range r -> parseToken (range_token r) = Some r.
Proof.
  intros Hr. pose proof (range_token_chars r Hr) as Hc. pose proof (range_token_ne r Hr) as Hne.
  unfold parseToken. rewrite clean_token by done. apply truthy_spec in Hne as ->. cbn [negb].
  destruct Hr as [Hr1 Hr2]. change (u "-") with [45%N]. rewrite includes_char.
  revert Hc. unfold range_token. destruct (Z.eqb_spec (start r) (end_ r)) as [Heq|Hneq]; intros Hc.
  - rewrite existsb_no_dash, isNumber_int, digits_value_int by (try apply string_of_int_digits; lia).
    unfold isValidCode. cbn [negb].
    replace ((100 <=? start r) && (start r <=? 599)) with true by lia.
    destruct r; simpl in *; by subst.
  - rewrite existsb_app. change (existsb (N.eqb 45) (u "-" ++ string_of_int (end_ r))) with true.
    rewrite orb_true_r. change (u "-" ++ ?x) with (ch "-" :: x).
    rewrite split_on_app by (apply digits_no_dash, string_of_int_digits; lia).
    rewrite split_on_plain by (apply digits_no_dash, string_of_int_digits; lia).
    rewrite !isNumber_int, !digits_value_int by lia. unfold isValidCode. cbn [negb orb].
    replace ((100 <=? start r) && (start r <=? 599)) with true by lia.
    replace ((100 <=? end_ r) && (end_ r <=? 599)) with true by lia.
    replace (end_ r <? start r) with false by lia. by destruct r.
Qed.

Lemma parse_segments_tokens l :
  Forall code_range l -> parse_segments (map range_token l) = (l, []).
Proof.
  induction 1 as [|r l Hr _ IH]; cbn [map parse_segments]; [done|].
  by rewrite IH, parseToken_token.
Qed.

Lemma parse_segments_spec segs :
  Forall code_range (parse_segments segs).1 /\
  (forall r, r ∈ (parse_segments segs).1 <-> exists seg, seg ∈ segs /\ parseToken seg = Some r) /\
  (parse_segments segs).2 = jfilter (fun seg => match parseToken seg with None => true | _ => false end) segs.
Proof.
  induction segs as [|seg segs (IH1 & IH2 & IH3)]; cbn [parse_segments jfilter].
  { split_and!; [constructor|set_solver|done]. }
  destruct (parse_segments segs) as [rs bad]. simpl in *. rewrite <- IH3.
  destruct (parseToken seg) as [r|] eqn:E; simpl; split_and!; try done.
  - constructor; [|done]. by eapply parseToken_range.
  - intros r'. rewrite elem_of_cons, IH2. setoid_rewrite elem_of_cons. naive_solver.
  - intros r'. rewrite IH2. setoid_rewrite elem_of_cons. naive_solver.
Qed.

(** The characters of the printed rules. *)
Lemma join_tokens_chars l :
  Forall (fun s => forallb token_char s = true) l ->
  forallb (fun c => token_char c || (c =? 44)%N) (join (u ",") l) = true.
Proof.
  induction 1 as [|w l Hw Hl IH]; [done|].
  assert (forallb (fun c => token_char c || (c =? 44)%N) w = true) as Hw'.
  { eapply forallb_impl; [|exact Hw]. intros c Hc. by rewrite Hc. }
  destruct l as [|w' l]; [done|]. rewrite join_cons, !forallb_app, Hw', IH. done.
Qed.

Lemma rule_segments_tokens l :
  Forall code_range l -> rule_segments (join (u ",") (map range_token l)) = map range_token l.
Proof.
  intros Hl. assert (Forall (fun s => forallb token_char s = true) (map range_token l)) as Ht.
  { apply Forall_fmap. eapply Forall_impl; [exact Hl|]. intros r. apply range_token_chars. }
  unfold rule_segments. rewrite rreplace_all_none.
  - apply split_trim_join. apply Forall_fmap. eapply Forall_impl; [exact Hl|]. intros r Hr.
    pose proof (range_token_chars r Hr) as Hc. split_and!.
    + by apply range_token_ne.
    + by apply chars_trimmed, forallb_no_space.
    + eapply forallb_impl; [|exact Hc]. intros c Hc'. apply token_char_plain in Hc' as (_ & Hne & _).
      change (ch ",") with 44%N. lia.
  - eapply forallb_impl; [|by apply join_tokens_chars]. intros c Hc.
    change (ch "，") with 65292%N. unfold token_char, is_digit, in_range in Hc. lia.
Qed.

Lemma join_tokens_trimmed l :
  Forall code_range l -> trim (join (u ",") (map range_token l)) = join (u ",") (map range_token l).
Proof.
  intros Hl. apply trim_id, chars_trimmed. eapply forallb_impl; [|apply join_tokens_chars].
  - intros c Hc. unfold token_char, is_digit, is_space, in_range in *. lia.
  - apply Forall_fmap. eapply Forall_impl; [exact Hl|]. intros r. apply range_token_chars.
Qed.

Lemma mergeRanges_code_range l : Forall code_range l -> Forall code_range (mergeRanges l).
Proof.
  intros Hl. destruct (mergeRanges_spec l) as [[_ Hv] Hc].
  { eapply Forall_impl; [exact Hl|]. unfold code_range, valid_range. lia. }
  assert (forall code, covers (mergeRanges l) code -> 100 <= code <= 599) as Hb.
  { intros code (r & Hr & Hrc)%Hc. rewrite Forall_forall in Hl. specialize (Hl r Hr).
    unfold code_range in Hl. lia. }
  rewrite Forall_forall in Hv |- *. intros r Hr. specialize (Hv r Hr). unfold valid_range in Hv.
  assert (100 <= start r <= 599) by (apply Hb; exists r; split; [done|lia]).
  assert (100 <= end_ r <= 599) by (apply Hb; exists r; split; [done|lia]).
  unfold code_range. lia.
Qed.

(** *** Properties *)

(** C21: parsing valid rules gives ranges of codes between 100 and 599, in order, with gaps
    between them, that cover exactly the codes of the segments of the input. *)
Theorem parse_rules_covers input :
  ok (parseHttpStatusCodeRules input) = true ->
  let rs := ranges (parseHttpStatusCodeRules input) in
  separated rs /\ Forall code_range rs /\
  forall code, covers rs code <->
    exists seg r, seg ∈ rule_segments (trim (option_or input [])) /\
      parseToken seg = Some r /\ start r <= code <= end_ r.
Proof.
  unfold parseHttpStatusCodeRules. set (raw := trim (option_or input [])).
  destruct (parse_segments_spec (rule_segments raw)) as (H1 & H2 & H3).
  destruct (Nat.eqb_spec (length raw) 0) as [Hz|_].
  - apply nil_length_inv in Hz as ->. intros _. split_and!; [by repeat constructor..|].
    intros code. split; [by intros (? & ?%elem_of_nil & _)|].
    intros (seg & r & ?%elem_of_nil & _). done.
  - destruct (parse_segments (rule_segments raw)) as [rs bad]. simpl in *.
    case_match; [done|]. intros _. cbn [ranges].
    destruct (mergeRanges_spec rs) as [Hs Hc].
    { eapply Forall_impl; [exact H1|]. unfold code_range, valid_range. lia. }
    split_and!; [done|by apply mergeRanges_code_range|].
    intros code. rewrite Hc. unfold covers. setoid_rewrite H2. naive_solver.
Qed.

Lemma parse_rules_covers_witness :
  covers (ranges (parseHttpStatusCodeRules (Some (u "429, 500-503,504 - 599")))) 504.
Proof.
  apply (proj2 (proj2 (parse_rules_covers (Some (u "429, 500-503,504 - 599")) eq_refl))).
  exists (u "504 - 599"), (Range 504 599). split_and!; [|reflexivity|simpl; lia..].
  apply (bool_decide_unpack _). vm_compute. exact I.
Defined.

(** the normalized text of valid rules parses to the same ranges, tokens and text:
    normalizing is idempotent. *)
Theorem normalized_reparse input :
  ok (parseHttpStatusCodeRules input) = true ->
  parseHttpStatusCodeRules (Some (normalized (parseHttpStatusCodeRules input)))
  = parseHttpStatusCodeRules input.
Proof.
  unfold parseHttpStatusCodeRules at 1 3 4. set (raw := trim (option_or input [])).
  destruct (Nat.eqb_spec (length raw) 0) as [Hz|_]; [done|].
  destruct (parse_segments_spec (rule_segments raw)) as (H1 & _ & _).
  destruct (parse_segments (rule_segments raw)) as [rs bad]. simpl in H1.
  case_match; [done|]. intros _. cbn [normalized].
  assert (separated (mergeRanges rs)) as Hs.
  { apply mergeRanges_spec. eapply Forall_impl; [exact H1|]. unfold code_range, valid_range. lia. }
  pose proof (mergeRanges_code_range rs H1) as Hm. clear H1. revert Hs Hm.
  generalize (mergeRanges rs) as ms. intros ms Hs Hm. unfold parseHttpStatusCodeRules.
  cbn [option_or]. rewrite join_tokens_trimmed, rule_segments_tokens by done.
  rewrite parse_segments_tokens, mergeRanges_id by done.
  destruct (Nat.eqb_spec (length (join (u ",") (map range_token ms))) 0) as [Hz|_]; [|done].
  apply nil_length_inv in Hz. destruct ms as [|r t]; [done|].
  inversion_clear Hm as [|?? Hr _]. apply range_token_ne in Hr.
  destruct t; simpl in Hz; [done|]. by apply app_nil in Hz as [? _].
Qed.

Lemma normalized_reparse_witness :
  normalized (parseHttpStatusCodeRules (Some (u "502,500,501"))) = u "500-502" /\
  parseHttpStatusCodeRules (Some (u "500-502")) = parseHttpStatusCodeRules (Some (u "502,500,501")).
Proof. split; [reflexivity|]. apply (normalized_reparse (Some (u "502,500,501")) eq_refl). Defined.

(** rules are rejected exactly when a segment is no code or range; the result then has no
    ranges, the trimmed input as its text, and the offending segments in order. *)
Theorem parse_rules_error input :
  let raw := trim (option_or input []) in
  let bad := jfilter (fun seg => match parseToken seg with None => true | _ => false end)
               (rule_segments raw) in
  (ok (parseHttpStatusCodeRules input) = false <-> bad <> []) /\
  (bad <> [] -> parseHttpStatusCodeRules input = Parsed false [] [] raw bad).
Proof.
  intros raw bad. unfold parseHttpStatusCodeRules. fold raw.
  destruct (parse_segments_spec (rule_segments raw)) as (_ & _ & H3).
  destruct (Nat.eqb_spec (length raw) 0) as [Hz|_].
  { apply nil_length_inv in Hz. assert (bad = []) as -> by (unfold bad; by rewrite Hz).
    naive_solver. }
  destruct (parse_segments (rule_segments raw)) as [rs bad']. simpl in H3. fold bad in H3. subst bad'.
  destruct bad as [|b bad]; naive_solver.
Qed.

(** a range token with more than one dash is accepted, the parts after the second being
    ignored; [parseHTTPStatusCodeToken] of the server rejects it. *)
Theorem parse_token_extra_dash a b rest :
  isNumber a = true -> isNumber b = true ->
  100 <= digits_value a <= digits_value b -> digits_value b <= 599 ->
  forallb token_char rest = true ->
  parseToken (a ++ u "-" ++ b ++ u "-" ++ rest) = Some (Range (digits_value a) (digits_value b)).
Proof.
  rewrite !isNumber_spec. intros [Ha0 Ha]%andb_prop [Hb0 Hb]%andb_prop Hab Hb2 Hr.
  assert (forall s, forallb is_digit s = true -> forallb token_char s = true) as Hd.
  { intros s. apply forallb_impl. intros c Hc. unfold token_char. by rewrite Hc. }
  unfold parseToken. rewrite clean_token by (rewrite !forallb_app, (Hd a), (Hd b), Hr by done; done).
  change (u "-") with [45%N]. rewrite includes_char, !existsb_app.
  destruct a as [|c a]; [done|]. cbn [app truthy negb].
  change (existsb (N.eqb 45) [45%N]) with true. rewrite orb_true_r. cbn [orb].
  change (c :: a ++ 45%N :: b ++ 45%N :: rest) with ((c :: a) ++ 45%N :: b ++ 45%N :: rest).
  change (ch "-") with 45%N. rewrite !split_on_app by (by apply digits_no_dash).
  rewrite !isNumber_spec, Ha, Hb, Hb0. cbn [truthy negb andb orb]. unfold isValidCode.
  replace ((100 <=? digits_value (c :: a)) && (digits_value (c :: a) <=? 599)) with true by lia.
  replace ((100 <=? digits_value b) && (digits_value b <=? 599)) with true by lia.
  by replace (digits_value b <? digits_value (c :: a)) with false by lia.
Qed.

Lemma parse_token_extra_dash_witness : parseToken (u "500-504-599") = Some (Range 500 504).
Proof.
  apply (parse_token_extra_dash (u "500") (u "504") (u "599")); vm_compute; try reflexivity;
    try split; discriminate.
Defined.
End Rules.

(** ** status-code-risk-guard.ts *)
Module RiskGuard.
Open Scope Z_scope.

Definition NON_REDIRECTABLE_STATUS_CODES : list Z := [504; 524].

(** [/^\[1-5\]\d{2}$/] *)
Definition code_regex : regex :=
  rseq [RBol; RSet (in_range 49 53); RSet is_digit; RSet is_digit; REol].

Definition parseStatusCodeKey (rawKey : jstr) : option Z :=
  let normalized := trim rawKey in
  if negb (rtest code_regex normalized) then None else Some (digits_value normalized).

(** [Number.isInteger(x)] *)
Definition is_integer (x : num) : bool := is_finite x && feq (f_floor x) x.

Definition parseStatusCodeMappingTarget (rawValue : json) : option Z :=
  match rawValue with
  | JNum x =>
      if is_integer x then
        if fle (num_of_Z 100) x && fle x (num_of_Z 599) then Some (floor_Z x) else None
      else None
  | JStr s =>
      let normalized := trim s in
      if negb (rtest code_regex normalized) then None else
      let code := digits_value normalized in
      if (100 <=? code) && (code <=? 599) then Some code else None
  | _ => None
  end.

(** The entries of the mapping, when the text is a JSON object. *)
Definition mapping_entries (statusCodeMappingStr : option jstr) : list (jstr * json) :=
  match statusCodeMappingStr with
  | None => []
  | Some s =>
      if negb (truthy (trim s)) then [] else
      match json_parse s with
      | Some (JObj f) => obj_order f
      | _ => []
      end
  end.

Definition collectInvalidStatusCodeEntries (statusCodeMappingStr : option jstr) : list jstr :=
  flat_map (fun '(rawKey, rawValue) =>
    match parseStatusCodeKey rawKey, parseStatusCodeMappingTarget rawValue with
    | Some _, Some _ => []
    | _, _ => [rawKey ++ u " → " ++ json_to_string rawValue]
    end) (mapping_entries statusCodeMappingStr).

(** The text of a redirect the guard warns about. *)
Definition risky_mapping (entry : jstr * json) : list jstr :=
  match parseStatusCodeKey entry.1, parseStatusCodeMappingTarget entry.2 with
  | Some fromCode, Some toCode =>
      if negb (existsb (Z.eqb fromCode) NON_REDIRECTABLE_STATUS_CODES) then []
      else if fromCode =? toCode then []
      else [string_of_int fromCode ++ u " -> " ++ string_of_int toCode]
  | _, _ => []
  end.

Definition collectDisallowedStatusCodeRedirects (statusCodeMappingStr : option jstr) : list jstr :=
  sort_strings (dedup (flat_map risky_mapping (mapping_entries statusCodeMappingStr))).

Definition collectNewDisallowedStatusCodeRedirects (originalStr currentStr : option jstr)
  : list jstr :=
  let currentRisky := collectDisallowedStatusCodeRedirects currentStr in
  if (length currentRisky =? 0)%nat then [] else
  let originalRiskySet := dedup (collectDisallowedStatusCodeRedirects originalStr) in
  jfilter (fun mapping => negb (bool_decide (mapping ∈ originalRiskySet))) currentRisky.

Example guard_ex :
  collectDisallowedStatusCodeRedirects (Some (u "{`504`: 200, `400`: `500`, ` 504 `: `200`, `524`: 524}"))
  = [u "504 -> 200"].
Proof. vm_compute. reflexivity. Qed.

(** The keys the pattern accepts are the three-digit codes from 100 to 599. *)
Lemma code_regex_spec s :
  rtest code_regex s = true ->
  forallb is_digit s = true /\ s <> [] /\ 100 <= digits_value s <= 599.
Proof.
  unfold code_regex. rewrite rtest_anchored.
  destruct s as [|a [|b [|c [|d s]]]]; unfold start_state;
    rewrite ?run_set; repeat case_match; try done; intros _.
  unfold is_digit, in_range in *. unfold digits_value. simpl. split_and!; try done; lia.
Qed.

Lemma risky_mapping_elem m entry :
  m ∈ risky_mapping entry <->
  exists f t, parseStatusCodeKey entry.1 = Some f /\ parseStatusCodeMappingTarget entry.2 = Some t /\
    (f = 504 \/ f = 524) /\ f <> t /\ m = string_of_int f ++ u " -> " ++ string_of_int t.
Proof.
  unfold risky_mapping.
  destruct (parseStatusCodeKey entry.1) as [f|]; [|set_solver].
  destruct (parseStatusCodeMappingTarget entry.2) as [t|]; [|set_solver].
  unfold NON_REDIRECTABLE_STATUS_CODES. cbn [existsb].
  destruct (Z.eqb_spec f 504), (Z.eqb_spec f 524), (Z.eqb_spec f t); simpl;
    rewrite ?elem_of_nil, ?list_elem_of_singleton; naive_solver.
Qed.

(** the guard reports exactly the redirects of 504 and 524 to another valid code, each
    once, in the order of code units. *)
Theorem disallowed_redirects_spec str :
  let risky := collectDisallowedStatusCodeRedirects str in
  NoDup risky /\ StronglySorted (fun a b => str_lt b a = false) risky /\
  forall m, m ∈ risky <->
    exists key value f t, (key, value) ∈ mapping_entries str /\
      parseStatusCodeKey key = Some f /\ parseStatusCodeMappingTarget value = Some t /\
      (f = 504 \/ f = 524) /\ f <> t /\ m = string_of_int f ++ u " -> " ++ string_of_int t.
Proof.
  intros risky. unfold risky, collectDisallowedStatusCodeRedirects, sort_strings. split_and!.
  - rewrite sort_by_perm. apply NoDup_dedup.
  - apply (sort_by_sorted (fun a b : jstr => str_lt b a)).
  - intros m. rewrite sort_by_perm, elem_of_dedup, list_elem_of_In, in_flat_map.
    setoid_rewrite <- list_elem_of_In. setoid_rewrite risky_mapping_elem. split.
    + intros ([k v] & He & f & t & Hm). exists k, v, f, t. naive_solver.
    + intros (k & v & f & t & He & Hm). exists (k, v). split; [done|]. exists f, t. done.
Qed.

(** only redirects the original mapping did not already have are reported as new, and
    every such redirect is. *)
Theorem new_disallowed_redirects_spec original current m :
  m ∈ collectNewDisallowedStatusCodeRedirects original current <->
  m ∈ collectDisallowedStatusCodeRedirects current /\
  m ∉ collectDisallowedStatusCodeRedirects original.
Proof.
  unfold collectNewDisallowedStatusCodeRedirects.
  destruct (Nat.eqb_spec (length (collectDisallowedStatusCodeRedirects current)) 0) as [Hz|_].
  - apply nil_length_inv in Hz as ->. set_solver.
  - rewrite jfilter_elem_of, negb_true_iff, bool_decide_eq_false, elem_of_dedup. tauto.
Qed.
End RiskGuard.
