(* ===== verification/ModelMapping.v ===== *)
(** * Model mappings of a channel

    [web/default/src/features/channels/lib/model-mapping-validation.ts] and
    [upstream-update-utils.ts]: the lists of models of a channel, its model mapping (a JSON
    object in a text field) and the models that are missing from or exposed by it. *)

From S2P Require Import Prelude JsString JsNumber Json.
Open Scope N_scope.

Definition COMMA : N := 44.

Definition parseModelsString (modelsStr : jstr) : list jstr :=
  if truthy modelsStr then split_trim COMMA modelsStr else [].

Definition formatModelsArray (models : list jstr) : jstr := join [COMMA] (dedup models).

Definition normalizeModelName (model : jstr) : jstr := trim model.

(** [JSON.parse(text)] when it is an object that is no array. *)
Definition parse_object (text : jstr) : option (list (jstr * json)) :=
  match json_parse text with Some (JObj f) => Some f | _ => None end.

Definition extractMappingSourceModels (modelMapping : jstr) : list jstr :=
  let trimmed := trim modelMapping in
  if negb (truthy trimmed) then [] else
  match parse_object trimmed with
  | None => []
  | Some parsed => dedup (jfilter truthy (map trim (obj_keys parsed)))
  end.

Definition trimmed_string (value : json) : jstr :=
  match value with JStr s => trim s | _ => [] end.

Definition extractRedirectModels (modelMapping : jstr) : list jstr :=
  let trimmed := trim modelMapping in
  if negb (truthy trimmed) then [] else
  match parse_object trimmed with
  | None => []
  | Some parsed => dedup (jfilter truthy (map trimmed_string (obj_values parsed)))
  end.

(** The loop over the two lists of models. *)
Fixpoint models_differ (current initial : list jstr) : bool :=
  match current, initial with
  | c :: cs, i :: t => if negb (jeqb c i) then true else models_differ cs t
  | _, _ => false
  end.

Definition hasModelConfigChanged (currentModels : list jstr) (currentModelMapping : jstr)
    (initialModels : list jstr) (initialModelMapping : jstr) : bool :=
  if (length initialModels =? 0)%nat && negb (truthy initialModelMapping) then true
  else if negb (length currentModels =? length initialModels)%nat then true
  else if models_differ currentModels initialModels then true
  else negb (jeqb (trim currentModelMapping) (trim initialModelMapping)).

Definition findMissingModelsInMapping (modelMapping : jstr) (currentModels : list jstr) : list jstr :=
  if negb (truthy modelMapping) || negb (truthy (trim modelMapping)) then [] else
  match parse_object modelMapping with
  | None => []
  | Some parsedMapping =>
      let modelSet := map normalizeModelName currentModels in
      dedup (jfilter (fun key => truthy key && negb (bool_decide (key ∈ modelSet)))
               (map normalizeModelName (obj_keys parsedMapping)))
  end.

Inductive validation := Valid | Invalid (error : jstr).

Definition validateModelMappingJson (modelMapping : jstr) : validation :=
  if negb (truthy modelMapping) || negb (truthy (trim modelMapping)) then Valid else
  match json_parse modelMapping with
  | Some (JObj _) => Valid
  | Some _ => Invalid (u "Model mapping must be a valid JSON object")
  | None => Invalid (u "Model mapping must be valid JSON format")
  end.

Definition findExposedTargetModels (modelMapping : jstr) (currentModels : list jstr) : list jstr :=
  let modelSet := map normalizeModelName currentModels in
  jfilter (fun model => bool_decide (normalizeModelName model ∈ modelSet))
    (extractRedirectModels modelMapping).

(** A set is the list of its elements in insertion order. *)
Record ModelCategories := {
  normalizedCurrentModels : list jstr;
  normalizedRedirectModels : list jstr;
  classificationSet : list jstr;
  redirectOnlySet : list jstr
}.

Definition categorizeModelsWithRedirect (currentModels redirectModels : list jstr) : ModelCategories :=
  let current := dedup (jfilter truthy (map normalizeModelName currentModels)) in
  let redirect := dedup (jfilter truthy (map normalizeModelName redirectModels)) in
  {| normalizedCurrentModels := current;
     normalizedRedirectModels := redirect;
     classificationSet := dedup (current ++ redirect);
     redirectOnlySet := dedup (jfilter (fun m => negb (bool_decide (m ∈ current))) redirect) |}.

(** ** Upstream updates *)

(** [String(model || '').trim()] *)
Definition model_name (model : json) : jstr :=
  trim (if json_truthy model then json_to_string model else []).

Definition normalizeModelList (models : list json) : list jstr :=
  dedup (jfilter truthy (map model_name models)).

Record UpstreamUpdateMeta := {
  meta_enabled : bool;
  pendingAddModels : list jstr;
  pendingRemoveModels : list jstr
}.

(** [parsed\[key\] || \[\]] mapped by [normalizeModelList]: a truthy value that is no array has no
    [map]. *)
Definition list_field (key : jstr) (f : list (jstr * json)) : outcome (list jstr) :=
  match obj_get key f with
  | Some (JArr l) => Ret (normalizeModelList l)
  | Some j => if json_truthy j then Throw else Ret []
  | None => Ret []
  end.

Definition no_meta : UpstreamUpdateMeta :=
  {| meta_enabled := false; pendingAddModels := []; pendingRemoveModels := [] |}.

(** The settings are an object, or a text that holds one; an array read from a text has none of
    the fields. *)
Definition parseUpstreamUpdateMeta (settings : json) : outcome UpstreamUpdateMeta :=
  let parsed :=
    match settings with
    | JObj f => Some f
    | JStr s =>
        match json_parse s with
        | Some (JObj f) => Some f
        | Some (JArr _) => Some []
        | _ => None
        end
    | _ => None
    end in
  match parsed with
  | None => Ret no_meta
  | Some f =>
      bind! add := list_field (u "upstream_model_update_last_detected_models") f in
      bind! remove := list_field (u "upstream_model_update_last_removed_models") f in
      Ret {| meta_enabled := match obj_get (u "upstream_model_update_check_enabled") f with
                             | Some (JBool true) => true | _ => false end;
             pendingAddModels := add;
             pendingRemoveModels := remove |}
  end.

(** ** Theorems *)

(** A name that can stand in a list: no comma, no blanks around it. *)
Definition list_name (w : jstr) : bool :=
  truthy w && jeqb (trim w) w && forallb (fun d => negb (d =? COMMA)) w.

Lemma list_name_spec w :
  list_name w = true <-> w <> [] /\ trimmed w /\ forallb (fun d => negb (d =? COMMA)) w = true.
Proof.
  unfold list_name. rewrite !andb_true_iff, truthy_spec, jeqb_spec. split.
  - intros [[H1 H2] H3]. split_and!; [done| |done]. rewrite <- H2. apply trim_trimmed.
  - intros (H1 & H2 & H3). by rewrite trim_id.
Qed.

Lemma list_names_Forall l :
  forallb list_name l = true ->
  Forall (fun w => w <> [] /\ trimmed w /\ forallb (fun d => negb (d =? COMMA)) w = true) l.
Proof.
  rewrite forallb_Forall. intros H. eapply Forall_impl; [exact H|]. cbn beta. intros w.
  apply list_name_spec.
Qed.

(** the models of a channel survive the text field: reading what is printed for a list of
    names without commas and outer blanks gives each name once, in the order of first
    occurrence. *)
Theorem models_roundtrip models :
  forallb list_name models = true -> parseModelsString (formatModelsArray models) = dedup models.
Proof.
  intros Hm%list_names_Forall. unfold parseModelsString, formatModelsArray.
  pose proof (Forall_dedup _ models Hm) as Hd.
  destruct (truthy (join [COMMA] (dedup models))) eqn:Ht; [by apply split_trim_join|].
  destruct (join [COMMA] (dedup models)) eqn:Hj; [|done].
  by rewrite <- (split_trim_join COMMA (dedup models)), Hj.
Qed.

Lemma models_roundtrip_witness :
  parseModelsString (formatModelsArray [u "gpt-4o"; u "claude 3"; u "gpt-4o"])
  = dedup [u "gpt-4o"; u "claude 3"; u "gpt-4o"].
Proof. apply models_roundtrip. by vm_compute. Defined.

(** The keys of the mapping, as names. *)
Definition mapping_keys (modelMapping : jstr) : list jstr :=
  match parse_object modelMapping with Some f => map trim (obj_keys f) | None => [] end.

Lemma elem_of_missing m mapping current :
  m ∈ findMissingModelsInMapping mapping current <->
  trim mapping <> [] /\ m <> [] /\ m ∈ mapping_keys mapping /\ m ∉ map trim current.
Proof.
  unfold findMissingModelsInMapping, mapping_keys.
  destruct (truthy (trim mapping)) eqn:Ht.
  - assert (truthy mapping = true) as Hm by by destruct mapping. rewrite Hm. cbn [negb orb].
    apply truthy_spec in Ht. destruct (parse_object mapping) as [f|].
    + rewrite elem_of_dedup, jfilter_elem_of, andb_true_iff, truthy_spec, negb_true_iff,
        bool_decide_eq_false. unfold normalizeModelName. naive_solver.
    + split; [by intros ?%elem_of_nil|]. by intros (_ & _ & ?%elem_of_nil & _).
  - rewrite orb_true_r. split; [by intros ?%elem_of_nil|].
    intros (Hm & _). by apply truthy_spec in Hm; rewrite Hm in Ht.
Qed.

Lemma mapping_keys_trimmed m mapping : m ∈ mapping_keys mapping -> trim m = m.
Proof.
  unfold mapping_keys. destruct (parse_object mapping) as [f|]; [|by intros ?%elem_of_nil].
  intros (k & -> & _)%list_elem_of_fmap. apply trim_idemp.
Qed.

(** [findMissingModelsInMapping] lists, without repetition, exactly the names the mapping
    remaps that are not among the channel's models; adding them to the models leaves nothing
    missing. *)
Theorem missing_models_spec mapping current :
  NoDup (findMissingModelsInMapping mapping current) /\
  (forall m, m ∈ findMissingModelsInMapping mapping current <->
     trim mapping <> [] /\ m <> [] /\ m ∈ mapping_keys mapping /\ m ∉ map trim current) /\
  findMissingModelsInMapping mapping (current ++ findMissingModelsInMapping mapping current) = [].
Proof.
  split_and!.
  - unfold findMissingModelsInMapping. repeat case_match; (apply NoDup_nil_2 || apply NoDup_dedup).
  - intros m. apply elem_of_missing.
  - set (miss := findMissingModelsInMapping mapping current).
    destruct (findMissingModelsInMapping mapping (current ++ miss)) as [|m l] eqn:H; [done|].
    assert (m ∈ findMissingModelsInMapping mapping (current ++ miss)) as Hm by (rewrite H; by left).
    apply elem_of_missing in Hm as (Ht & Hne & Hk & Hnot).
    rewrite map_app, elem_of_app in Hnot. destruct Hnot. 
    destruct (decide (m ∈ map trim current)); [by left|right].
    apply list_elem_of_fmap. exists m. split; [by rewrite (mapping_keys_trimmed m mapping)|].
    by apply elem_of_missing.
Qed.

Lemma elem_of_redirect m mapping :
  m ∈ extractRedirectModels mapping -> m <> [] /\ trim m = m.
Proof.
  unfold extractRedirectModels. repeat case_match; try by intros ?%elem_of_nil.
  rewrite elem_of_dedup, jfilter_elem_of. intros [Ht (j & -> & _)%list_elem_of_fmap].
  split; [by apply truthy_spec|]. destruct j; try done. apply trim_idemp.
Qed.

(** [findExposedTargetModels] lists exactly the models the mapping redirects to that the
    channel also lists; taking them out of the channel's models leaves none exposed, and takes
    out nothing else. *)
Theorem exposed_models_spec mapping current :
  let exposed := findExposedTargetModels mapping current in
  (forall m, m ∈ exposed <-> m ∈ extractRedirectModels mapping /\ m ∈ map trim current) /\
  (let kept := jfilter (fun m => negb (bool_decide (trim m ∈ exposed))) current in
   findExposedTargetModels mapping kept = [] /\
   forall m, m ∈ current -> trim m ∉ extractRedirectModels mapping -> m ∈ kept).
Proof.
  cbn zeta. assert (forall m cur, m ∈ findExposedTargetModels mapping cur <->
    m ∈ extractRedirectModels mapping /\ m ∈ map trim cur) as Hspec.
  { intros m cur. unfold findExposedTargetModels. rewrite jfilter_elem_of, bool_decide_eq_true.
    unfold normalizeModelName. split.
    - intros [Hm Hr]. destruct (elem_of_redirect m mapping Hr) as [_ Ht]. by rewrite Ht in Hm.
    - intros [Hr Hm]. destruct (elem_of_redirect m mapping Hr) as [_ Ht]. by rewrite Ht. }
  split; [by intros m|]. split.
  - destruct (findExposedTargetModels mapping (jfilter _ current)) as [|m l] eqn:H; [done|].
    assert (m ∈ m :: l) as Hm by by left. rewrite <- H, Hspec in Hm. destruct Hm as [Hr Hm].
    apply list_elem_of_fmap in Hm as (k & -> & Hk). apply jfilter_elem_of in Hk as [Hk Hin].
    apply negb_true_iff, bool_decide_eq_false in Hk. destruct Hk. apply Hspec.
    split; [done|]. apply list_elem_of_fmap. eauto.
  - intros m Hm Hr. apply jfilter_elem_of. split; [|done].
    apply negb_true_iff, bool_decide_eq_false. intros [? _]%Hspec. done.
Qed.

(** The sets of the model picker. *)
Lemma categories_spec current redirect :
  let c := categorizeModelsWithRedirect current redirect in
  (forall m, m ∈ classificationSet c <->
     m ∈ normalizedCurrentModels c \/ m ∈ redirectOnlySet c) /\
  (forall m, m ∈ redirectOnlySet c -> m ∉ normalizedCurrentModels c) /\
  NoDup (classificationSet c).
Proof.
  cbn zeta. unfold categorizeModelsWithRedirect.
  cbn [classificationSet normalizedCurrentModels redirectOnlySet normalizedRedirectModels].
  split_and!; [| |apply NoDup_dedup].
  - intros m. rewrite elem_of_dedup, elem_of_app, (elem_of_dedup (jfilter _ (dedup _))), jfilter_elem_of.
    rewrite negb_true_iff, bool_decide_eq_false.
    destruct (decide (m ∈ dedup (jfilter truthy (map normalizeModelName current)))); naive_solver.
  - intros m. rewrite elem_of_dedup, jfilter_elem_of, negb_true_iff, bool_decide_eq_false. naive_solver.
Qed.
