(* ===== verification/BillingExpr.v ===== *)
(** * Billing expressions

    [web/default/src/features/pricing/lib/billing-expr.ts]: the parser of tiered prices, the
    parser and the printer of the request rules (conditional multipliers), and the split of a
    billing expression into its base and its rules. *)

From S2P Require Import Prelude JsString JsRegex JsNumber Json.
Open Scope N_scope.

(** ** Variable registry *)

Inductive side_kind := SideInput | SideOutput | SideCondition.

Record BillingVar := {
  key : jstr;
  field : option jstr;
  tierField : option jstr;
  label : jstr;
  shortLabel : jstr;
  side : side_kind;
  isBase : bool;
  isConditionOnly : bool;
  group_ : option jstr
}.

Definition BILLING_VARS : list BillingVar := [
  {| key := u "p"; field := Some (u "inputPrice"); tierField := Some (u "input_unit_cost");
     label := u "Input price"; shortLabel := u "Input"; side := SideInput;
     isBase := true; isConditionOnly := false; group_ := None |};
  {| key := u "c"; field := Some (u "outputPrice"); tierField := Some (u "output_unit_cost");
     label := u "Completion price"; shortLabel := u "Output"; side := SideOutput;
     isBase := true; isConditionOnly := false; group_ := None |};
  {| key := u "len"; field := None; tierField := None;
     label := u "Input length"; shortLabel := u "Length"; side := SideCondition;
     isBase := false; isConditionOnly := true; group_ := None |};
  {| key := u "cr"; field := Some (u "cacheReadPrice"); tierField := Some (u "cache_read_unit_cost");
     label := u "Cache read price"; shortLabel := u "Cache Read"; side := SideInput;
     isBase := false; isConditionOnly := false; group_ := Some (u "cache") |};
  {| key := u "cc"; field := Some (u "cacheCreatePrice");
     tierField := Some (u "cache_create_unit_cost");
     label := u "Cache create price"; shortLabel := u "Cache Write"; side := SideInput;
     isBase := false; isConditionOnly := false; group_ := Some (u "cache") |};
  {| key := u "cc1h"; field := Some (u "cacheCreate1hPrice");
     tierField := Some (u "cache_create_1h_unit_cost");
     label := u "Cache create (1h) price"; shortLabel := u "Cache Write (1h)"; side := SideInput;
     isBase := false; isConditionOnly := false; group_ := Some (u "cache") |};
  {| key := u "img"; field := Some (u "imagePrice"); tierField := Some (u "image_unit_cost");
     label := u "Image input price"; shortLabel := u "Image In"; side := SideInput;
     isBase := false; isConditionOnly := false; group_ := Some (u "media") |};
  {| key := u "img_o"; field := Some (u "imageOutputPrice");
     tierField := Some (u "image_output_unit_cost");
     label := u "Image output price"; shortLabel := u "Image Out"; side := SideOutput;
     isBase := false; isConditionOnly := false; group_ := Some (u "media") |};
  {| key := u "ai"; field := Some (u "audioInputPrice");
     tierField := Some (u "audio_input_unit_cost");
     label := u "Audio input price"; shortLabel := u "Audio In"; side := SideInput;
     isBase := false; isConditionOnly := false; group_ := Some (u "media") |};
  {| key := u "ao"; field := Some (u "audioOutputPrice");
     tierField := Some (u "audio_output_unit_cost");
     label := u "Audio output price"; shortLabel := u "Audio Out"; side := SideOutput;
     isBase := false; isConditionOnly := false; group_ := Some (u "media") |} ].

Definition BILLING_PRICING_VARS : list BillingVar :=
  jfilter (fun v => negb (isConditionOnly v)) BILLING_VARS.

Definition BILLING_CONDITION_VARS : list jstr :=
  map key (jfilter (fun v => isBase v || isConditionOnly v) BILLING_VARS).

Definition BILLING_VAR_KEY_TO_FIELD : list (jstr * jstr) :=
  map (fun v => (key v, option_or (field v) [])) BILLING_PRICING_VARS.

Definition BILLING_EXTRA_VARS : list BillingVar :=
  jfilter (fun v => negb (isBase v) && negb (isConditionOnly v)) BILLING_VARS.

Record CacheVar := { cv_field : jstr; exprVar : jstr }.

Definition BILLING_CACHE_VAR_MAP : list CacheVar :=
  map (fun v => {| cv_field := option_or (tierField v) []; exprVar := key v |}) BILLING_EXTRA_VARS.

(** [\[\d.eE+-\]] and [\[\d.eE+\]] *)
Definition num_char (c : N) : bool := is_digit c || one_of (u ".eE+-") c.
Definition cond_num_char (c : N) : bool := is_digit c || one_of (u ".eE+") c.

Definition BILLING_VAR_REGEX : regex :=
  rseq [RWordB; RGroup 1 (ralt (map (fun v => rlit (key v)) BILLING_PRICING_VARS));
        rspaces; rl "*"; rspaces; RGroup 2 (rplus (RSet num_char))].

(** ** Request rule constants *)

Definition SOURCE_PARAM := u "param".
Definition SOURCE_HEADER := u "header".
Definition SOURCE_TIME := u "time".
Definition MATCH_EQ := u "eq".
Definition MATCH_CONTAINS := u "contains".
Definition MATCH_GT := u "gt".
Definition MATCH_GTE := u "gte".
Definition MATCH_LT := u "lt".
Definition MATCH_LTE := u "lte".
Definition MATCH_EXISTS := u "exists".
Definition MATCH_RANGE := u "range".

Definition TIME_FUNCS : list jstr := [u "hour"; u "minute"; u "weekday"; u "month"; u "day"].

(** [/^-?(?:\d+\.?\d*|\.\d+)(?:\[eE\]\[+-\]?\d+)?$/] *)
Definition NUMERIC_LITERAL_REGEX : regex :=
  rseq [RBol; ROpt (rl "-");
        RAlt (rseq [rplus (RSet is_digit); ROpt (rl "."); RStar true (RSet is_digit)])
             (rseq [rl "."; rplus (RSet is_digit)]);
        ROpt (rseq [RSet is_exp_char; ROpt (RSet (one_of (u "+-"))); rplus (RSet is_digit)]);
        REol].

Inductive ph_source := SParam | SHeader.

Record ParamHeaderCondition := {
  ph_src : ph_source;
  path : jstr;
  ph_mode : jstr;
  ph_value : jstr
}.

Record TimeCondition := {
  timeFunc : jstr;
  timezone : jstr;
  t_mode : jstr;
  t_value : jstr;
  rangeStart : jstr;
  rangeEnd : jstr
}.

Inductive RequestCondition :=
| CTime (c : TimeCondition)
| CParamHeader (c : ParamHeaderCondition).

Record RequestRuleGroup := { conditions : list RequestCondition; multiplier : jstr }.

Record TierCondition := { tc_var : jstr; tc_op : jstr; tc_value : num }.

(** [prices] holds the fields [parseTierBody] sets. *)
Record ParsedTier := {
  tier_label : jstr;
  tier_conditions : list TierCondition;
  prices : list (jstr * num)
}.

(** ** Tier parser *)

Definition version_regex : regex :=
  rseq [RBol; rl "v"; RGroup 1 (rplus (RSet is_digit)); rl ":"; RGroup 2 (RStar true rany); REol].

Definition stripExprVersion (exprStr : jstr) : num * jstr :=
  if negb (truthy exprStr) then (num_of_Z 1, []) else
  match rmatch version_regex exprStr with
  | Some m => (to_number (group 1 m), group 2 m)
  | None => (num_of_Z 1, exprStr)
  end.

Definition parseTierBody (bodyStr : jstr) : list (jstr * num) :=
  let coeffs :=
    fold_left (fun coeffs m =>
      if obj_has (group 1 m) coeffs then coeffs
      else obj_set (group 1 m) (to_number (group 2 m)) coeffs)
      (rexec_all BILLING_VAR_REGEX bodyStr) [] in
  fold_left (fun tier '(varName, field) =>
    obj_set field (match obj_get varName coeffs with Some x => f_or x zero | None => zero end) tier)
    BILLING_VAR_KEY_TO_FIELD [].

(** [(?:p|c|len)\s*(?:<|<=|>|>=)\s*\[\d.eE+\]+]. *)
Definition cond_var : regex := ralt [rl "p"; rl "c"; rl "len"].
Definition cond_op : regex := ralt [rl "<"; rl "<="; rl ">"; rl ">="].
Definition cond_atom : regex :=
  rseq [cond_var; rspaces; cond_op; rspaces; rplus (RSet cond_num_char)].

Definition cond_group : regex :=
  RGroup 1 (rseq [cond_atom; RStar true (rseq [rspaces; rl "&&"; rspaces; cond_atom])]).

Definition tier_regex : regex :=
  rseq [ROpt (rseq [cond_group; rspaces; rl "?"; rspaces]);
        rl "tier(`"; RGroup 2 (RStar true (RSet (none_of (u "`")))); rl "`,"; rspaces;
        RGroup 3 (rplus (RSet (none_of (u ")")))); rl ")"].

Definition and_split : regex := rseq [rspaces; rl "&&"; rspaces].

Definition tier_cond_regex : regex :=
  rseq [RBol; RGroup 1 cond_var; rspaces; RGroup 2 cond_op; rspaces;
        RGroup 3 (rplus (RSet cond_num_char)); REol].

(** The conditions of a tier from the text before its [?]. *)
Definition parse_conditions (condStr : jstr) : list TierCondition :=
  if negb (truthy condStr) then [] else
  flat_map (fun cp =>
    match rmatch tier_cond_regex (trim cp) with
    | Some cm => [{| tc_var := group 1 cm; tc_op := group 2 cm; tc_value := to_number (group 3 cm) |}]
    | None => []
    end) (rsplit and_split condStr).

Definition parseTiersFromExpr (exprStr : jstr) : list ParsedTier :=
  if negb (truthy exprStr) then [] else
  let body := (stripExprVersion exprStr).2 in
  map (fun m => {| tier_label := group 2 m;
                   tier_conditions := parse_conditions (group 1 m);
                   prices := parseTierBody (group 3 m) |})
    (rexec_all tier_regex body).

Definition normalizeTierLabel (toLowerCase : jstr -> jstr) (label : option jstr) : jstr :=
  match label with
  | None | Some [] => []
  | Some l =>
      let eq_mark := ROpt (RSet (one_of (u "=＝"))) in
      let lt := ralt [RSeq (rl "<") eq_mark; rl "≤"; RSeq (rl "＜") eq_mark] in
      let gt := ralt [RSeq (rl ">") eq_mark; rl "≥"; RSeq (rl "＞") eq_mark] in
      toLowerCase (rreplace_all (rplus (RSet is_space)) []
                  (rreplace_all gt (u ">") (rreplace_all lt (u "<") l)))
  end.

(** ** Request rule parser *)

(** The loop of [splitTopLevelMultiply] and [splitTopLevelAnd]: [depth] counts the open
    parentheses, [skip] the characters of a separator still to pass, [cur] is
    [expr.slice(start, index)]. *)
Fixpoint split_top (sep : jstr) (skip : nat) (depth : Z) (cur s : jstr) : list jstr :=
  match s with
  | [] => [cur]
  | c :: t =>
      match skip with
      | S k => split_top sep k depth cur t
      | O =>
          let depth := if c =? ch "(" then (depth + 1)%Z else depth in
          let depth := if c =? ch ")" then (depth - 1)%Z else depth in
          if (depth =? 0)%Z && starts_with sep s
          then cur :: split_top sep (length sep - 1) depth [] t
          else split_top sep O depth (cur ++ [c]) t
      end
  end.

Definition splitTopLevelMultiply (expr : jstr) : list jstr :=
  jfilter truthy (map trim (split_top (u " * ") O 0 [] expr)).

Definition splitTopLevelAnd (expr : jstr) : list jstr :=
  jfilter truthy (map trim (split_top (u " && ") O 0 [] expr)).

(** [None] is [null]: the text is no literal, or the literal [null]. *)
Definition parseExprLiteral (raw : jstr) : option json :=
  let text := trim raw in
  if jeqb text (u "true") || jeqb text (u "false") then Some (JStr text)
  else if rtest NUMERIC_LITERAL_REGEX text then Some (JStr text)
  else match json_parse text with
       | Some JNull => None
       | Some j => Some j
       | None => None
       end.

Definition time_funcs : regex := ralt (map rlit TIME_FUNCS).
Definition quoted_plus (i : nat) : list regex :=
  [rl "(`"; RGroup i (rplus (RSet (none_of (u "`")))); rl "`)"].
Definition number_group (i : nat) : regex := RGroup i (rplus (RSet num_char)).

(** [fn("tz") >= a || fn("tz") < b], the second [fn("tz")] by back-references. *)
Definition time_range_body : list regex :=
  [RGroup 1 time_funcs; rl "(`"; RGroup 2 (rplus (RSet (none_of (u "`")))); rl "`) >= ";
   number_group 3; rl " || "; RBackref 1; rl "(`"; RBackref 2; rl "`) < "; number_group 4].
Definition time_range_regex : regex := rseq (RBol :: time_range_body ++ [REol]).
Definition time_range_paren_regex : regex :=
  rseq (RBol :: rl "(" :: time_range_body ++ [rl ")"; REol]).
Definition time_cmp_regex : regex :=
  rseq [RBol; RGroup 1 time_funcs; rl "(`"; RGroup 2 (rplus (RSet (none_of (u "`")))); rl "`) ";
        RGroup 3 (ralt [rl "=="; rl ">="; rl "<"]); rl " "; number_group 4; REol].

Definition time_range_cond (m : list (nat * jstr)) : RequestCondition :=
  CTime {| timeFunc := group 1 m; timezone := group 2 m; t_mode := MATCH_RANGE; t_value := [];
           rangeStart := group 3 m; rangeEnd := group 4 m |}.

(** [opMap\[op\] || MATCH_EQ] *)
Definition time_op_mode (op : jstr) : jstr :=
  option_or (obj_get op [(u "==", MATCH_EQ); (u ">=", MATCH_GTE); (u "<", MATCH_LT)]) MATCH_EQ.

Definition tryParseTimeCondition (expr : jstr) : option RequestCondition :=
  match rmatch time_range_regex expr with
  | Some m => Some (time_range_cond m)
  | None =>
  match rmatch time_range_paren_regex expr with
  | Some m => Some (time_range_cond m)
  | None =>
  match rmatch time_cmp_regex expr with
  | Some m => Some (CTime {| timeFunc := group 1 m; timezone := group 2 m;
                             t_mode := time_op_mode (group 3 m); t_value := group 4 m;
                             rangeStart := []; rangeEnd := [] |})
  | None => None
  end end end.

Definition path_group (i : nat) : regex := RGroup i (rplus (RSet (none_of (u "`")))).

(** A quoted string with backslash escapes, quotes included. *)
Definition json_string_group (i : nat) : regex :=
  RGroup i (rseq [rl "`"; RStar true (RAlt (RSet (none_of (u "`\"))) (RSeq (rl "\") rdot)); rl "`"]).

Definition header_exists_regex : regex :=
  rseq [RBol; rl "header(`"; path_group 1; rl "`) != ``"; REol].
Definition param_exists_regex : regex :=
  rseq [RBol; rl "param(`"; path_group 1; rl "`) != nil"; REol].
Definition header_contains_regex : regex :=
  rseq [RBol; rl "has(header(`"; path_group 1; rl "`), "; json_string_group 2; rl ")"; REol].
Definition param_contains_regex : regex :=
  rseq [RBol; rl "param(`"; path_group 1; rl "`) != nil && has(param(`"; path_group 2; rl "`), ";
        json_string_group 3; rl ")"; REol].
Definition param_cmp_regex : regex :=
  rseq [RBol; rl "param(`"; path_group 1; rl "`) != nil && param(`"; path_group 2; rl "`) ";
        RGroup 3 (ralt [rl ">"; rl ">="; rl "<"; rl "<="]); rl " "; number_group 4; REol].
Definition eq_regex : regex :=
  rseq [RBol; RGroup 1 (ralt [rl "param"; rl "header"]); rl "(`"; path_group 2; rl "`) == ";
        RGroup 3 (rplus rdot); REol].

Definition ph_cond (src : ph_source) (path mode value : jstr) : RequestCondition :=
  CParamHeader {| ph_src := src; path := path; ph_mode := mode; ph_value := value |}.

(** [JSON.parse(text) as string], which throws on an escape JSON does not have; the cast is no
    conversion, but the text is quoted, so the value is a string. *)
Definition parse_json_string (text : jstr) : outcome jstr :=
  match json_parse text with Some j => Ret (json_to_string j) | None => Throw end.

Definition cmp_op_mode (op : jstr) : jstr :=
  option_or (obj_get op [(u ">", MATCH_GT); (u ">=", MATCH_GTE); (u "<", MATCH_LT); (u "<=", MATCH_LTE)]) [].

(** The part of [tryParseRequestCondition] after the conditions on time. *)
Definition parse_eq_condition (expr : jstr) : option RequestCondition :=
  match rmatch eq_regex expr with
  | Some m =>
      match parseExprLiteral (group 3 m) with
      | None => None
      | Some parsedValue =>
          Some (ph_cond (if jeqb (group 1 m) (u "header") then SHeader else SParam)
                  (group 2 m) MATCH_EQ (json_to_string parsedValue))
      end
  | None => None
  end.

Definition parse_param_cmp (expr : jstr) : option RequestCondition :=
  match rmatch param_cmp_regex expr with
  | Some m =>
      if jeqb (group 1 m) (group 2 m)
      then Some (ph_cond SParam (group 1 m) (cmp_op_mode (group 3 m)) (group 4 m))
      else parse_eq_condition expr
  | None => parse_eq_condition expr
  end.

Definition parse_param_contains (expr : jstr) : outcome (option RequestCondition) :=
  match rmatch param_contains_regex expr with
  | Some m =>
      if jeqb (group 1 m) (group 2 m)
      then bind! v := parse_json_string (group 3 m) in
           Ret (Some (ph_cond SParam (group 1 m) MATCH_CONTAINS v))
      else Ret (parse_param_cmp expr)
  | None => Ret (parse_param_cmp expr)
  end.

Definition tryParseRequestCondition (expr : jstr) : outcome (option RequestCondition) :=
  match tryParseTimeCondition expr with
  | Some tc => Ret (Some tc)
  | None =>
  match rmatch header_exists_regex expr with
  | Some m => Ret (Some (ph_cond SHeader (group 1 m) MATCH_EXISTS []))
  | None =>
  match rmatch param_exists_regex expr with
  | Some m => Ret (Some (ph_cond SParam (group 1 m) MATCH_EXISTS []))
  | None =>
  match rmatch header_contains_regex expr with
  | Some m =>
      bind! v := parse_json_string (group 2 m) in
      Ret (Some (ph_cond SHeader (group 1 m) MATCH_CONTAINS v))
  | None => parse_param_contains expr
  end end end end.

Definition factor_regex : regex :=
  rseq [RBol; rl "("; RGroup 1 (rplus rany); rl " ? "; number_group 2; rl " : 1)"; REol].

(** The loop over the parts; [Ret None] is the early [return null]. *)
Fixpoint parse_and_parts (andParts : list jstr) : outcome (option (list RequestCondition)) :=
  match andParts with
  | [] => Ret (Some [])
  | ap :: t =>
      bind! cond := tryParseRequestCondition (trim ap) in
      match cond with
      | None => Ret None
      | Some c =>
          bind! rest := parse_and_parts t in
          Ret (option_map (cons c) rest)
      end
  end.

Definition tryParseRuleGroupFactor (part : jstr) : outcome (option RequestRuleGroup) :=
  match rmatch factor_regex part with
  | None => Ret None
  | Some m =>
      bind! conds := parse_and_parts (splitTopLevelAnd (group 1 m)) in
      match conds with
      | None | Some [] => Ret None
      | Some cs => Ret (Some {| conditions := cs; multiplier := group 2 m |})
      end
  end.

Fixpoint parse_factors (parts : list jstr) : outcome (option (list RequestRuleGroup)) :=
  match parts with
  | [] => Ret (Some [])
  | part :: t =>
      bind! g := tryParseRuleGroupFactor part in
      match g with
      | None => Ret None
      | Some g =>
          bind! rest := parse_factors t in
          Ret (option_map (cons g) rest)
      end
  end.

Definition tryParseRequestRuleExpr (expr : jstr) : outcome (option (list RequestRuleGroup)) :=
  let trimmed := trim expr in
  if negb (truthy trimmed) then Ret (Some [])
  else parse_factors (splitTopLevelMultiply trimmed).

(** ** Combine and split *)

(** The loop of [hasFullOuterParens]: false as soon as the depth is zero before the last
    character. *)
Fixpoint full_parens (depth : Z) (s : jstr) : bool :=
  match s with
  | [] => (depth =? 0)%Z
  | c :: t =>
      let depth := if c =? ch "(" then (depth + 1)%Z else depth in
      let depth := if c =? ch ")" then (depth - 1)%Z else depth in
      if (depth =? 0)%Z && truthy t then false else full_parens depth t
  end.

Definition hasFullOuterParens (expr : jstr) : bool :=
  if negb (starts_with (u "(") expr) || negb (ends_with (u ")") expr) then false
  else full_parens 0 expr.

(** [s.slice(1, -1)] *)
Definition slice_inner (s : jstr) : jstr := take (length s - 2) (drop 1 s).

(** Each turn of the loop removes two characters, so the length is fuel enough
    ([unwrap_loop_fuel]). *)
Fixpoint unwrap_loop (fuel : nat) (current : jstr) : jstr :=
  match fuel with
  | O => current
  | S f => if hasFullOuterParens current then unwrap_loop f (trim (slice_inner current)) else current
  end.

Definition unwrapOuterParens (expr : jstr) : jstr := unwrap_loop (length expr) (trim expr).

(** The rule parts and the base parts, in order. *)
Fixpoint classify_parts (parts : list jstr) : outcome (list jstr * list jstr) :=
  match parts with
  | [] => Ret ([], [])
  | part :: t =>
      bind! parsed := tryParseRequestRuleExpr part in
      bind! rest := classify_parts t in
      match parsed with
      | Some (_ :: _) => Ret (part :: rest.1, rest.2)
      | _ => Ret (rest.1, part :: rest.2)
      end
  end.

Record SplitResult := { billingExpr : jstr; requestRuleExpr : jstr }.

Definition splitBillingExprAndRequestRules (expr : jstr) : outcome SplitResult :=
  let trimmed := trim expr in
  if negb (truthy trimmed) then Ret {| billingExpr := []; requestRuleExpr := [] |} else
  let parts := splitTopLevelMultiply trimmed in
  if (length parts <=? 1)%nat then Ret {| billingExpr := trimmed; requestRuleExpr := [] |} else
  bind! (ruleParts, baseParts) := classify_parts parts in
  match ruleParts, baseParts with
  | _ :: _, [base] =>
      Ret {| billingExpr := unwrapOuterParens base; requestRuleExpr := join (u " * ") ruleParts |}
  | _, _ => Ret {| billingExpr := trimmed; requestRuleExpr := [] |}
  end.

Definition combineBillingExpr (baseExpr requestRuleExpr : jstr) : jstr :=
  let base := trim baseExpr in
  let rules := trim requestRuleExpr in
  if negb (truthy base) then []
  else if negb (truthy rules) then base
  else u "(" ++ base ++ u ") * " ++ rules.

(** ** Editor *)

Definition createEmptyCondition : ParamHeaderCondition :=
  {| ph_src := SParam; path := []; ph_mode := MATCH_EQ; ph_value := [] |}.

Definition createEmptyTimeCondition : TimeCondition :=
  {| timeFunc := u "hour"; timezone := u "Asia/Shanghai"; t_mode := MATCH_GTE; t_value := [];
     rangeStart := []; rangeEnd := [] |}.

Definition createEmptyRuleGroup : RequestRuleGroup :=
  {| conditions := [CParamHeader createEmptyCondition]; multiplier := [] |}.

Definition createEmptyTimeRuleGroup : RequestRuleGroup :=
  {| conditions := [CTime createEmptyTimeCondition]; multiplier := [] |}.

Record MatchOption := { mo_value : jstr; labelKey : jstr }.

Definition getRequestRuleMatchOptions (source : jstr) : list MatchOption :=
  if jeqb source SOURCE_TIME then
    [ {| mo_value := MATCH_EQ; labelKey := u "Equals" |};
      {| mo_value := MATCH_GTE; labelKey := u "Greater than or equal" |};
      {| mo_value := MATCH_LT; labelKey := u "Less than" |};
      {| mo_value := MATCH_RANGE; labelKey := u "Overnight range" |} ]
  else
    let base :=
      [ {| mo_value := MATCH_EQ; labelKey := u "Equals" |};
        {| mo_value := MATCH_CONTAINS; labelKey := u "Contains" |};
        {| mo_value := MATCH_EXISTS; labelKey := u "Exists" |} ] in
    if jeqb source SOURCE_HEADER then base
    else base ++
      [ {| mo_value := MATCH_GT; labelKey := u "Greater than" |};
        {| mo_value := MATCH_GTE; labelKey := u "Greater than or equal" |};
        {| mo_value := MATCH_LT; labelKey := u "Less than" |};
        {| mo_value := MATCH_LTE; labelKey := u "Less than or equal" |} ].

Definition isTimeFunc (value : option jstr) : bool :=
  match value with Some v => bool_decide (v ∈ TIME_FUNCS) | None => false end.

(** [Partial<RequestCondition>]: every field may be missing. *)
Record PartialCondition := {
  p_source : option jstr;
  p_timeFunc : option jstr;
  p_timezone : option jstr;
  p_mode : option jstr;
  p_value : option jstr;
  p_rangeStart : option jstr;
  p_rangeEnd : option jstr;
  p_path : option jstr
}.

Definition empty_partial : PartialCondition :=
  {| p_source := None; p_timeFunc := None; p_timezone := None; p_mode := None; p_value := None;
     p_rangeStart := None; p_rangeEnd := None; p_path := None |}.

Definition source_name (s : ph_source) : jstr :=
  match s with SParam => SOURCE_PARAM | SHeader => SOURCE_HEADER end.

Definition to_partial (c : RequestCondition) : PartialCondition :=
  match c with
  | CTime t =>
      {| p_source := Some SOURCE_TIME; p_timeFunc := Some (timeFunc t);
         p_timezone := Some (timezone t); p_mode := Some (t_mode t); p_value := Some (t_value t);
         p_rangeStart := Some (rangeStart t); p_rangeEnd := Some (rangeEnd t); p_path := None |}
  | CParamHeader p =>
      {| p_source := Some (source_name (ph_src p)); p_timeFunc := None; p_timezone := None;
         p_mode := Some (ph_mode p); p_value := Some (ph_value p); p_rangeStart := None;
         p_rangeEnd := None; p_path := Some (path p) |}
  end.

(** [options.some((item) => item.value === mode) ? mode : fallback] *)
Definition mode_or (source : jstr) (mode : option jstr) (fallback : jstr) : jstr :=
  match mode with
  | Some m =>
      if existsb (fun item => jeqb (mo_value item) m) (getRequestRuleMatchOptions source)
      then m else fallback
  | None => fallback
  end.

(** [s || fallback] *)
Definition str_or (s : option jstr) (fallback : jstr) : jstr :=
  match s with Some ((_ :: _) as t) => t | _ => fallback end.

Definition normalizeCondition (cond : option PartialCondition) : RequestCondition :=
  let c := option_or cond empty_partial in
  if bool_decide (p_source c = Some SOURCE_TIME) then
    CTime {| timeFunc := if isTimeFunc (p_timeFunc c) then option_or (p_timeFunc c) [] else u "hour";
             timezone := str_or (p_timezone c) (u "Asia/Shanghai");
             t_mode := mode_or SOURCE_TIME (p_mode c) MATCH_GTE;
             t_value := option_or (p_value c) [];
             rangeStart := option_or (p_rangeStart c) [];
             rangeEnd := option_or (p_rangeEnd c) [] |}
  else
    let source := if bool_decide (p_source c = Some SOURCE_HEADER) then SHeader else SParam in
    CParamHeader {| ph_src := source;
                    path := str_or (p_path c) [];
                    ph_mode := mode_or (source_name source) (p_mode c) MATCH_EQ;
                    ph_value := option_or (p_value c) [] |}.

Definition buildExprLiteral (mode value : jstr) : jstr :=
  let text := trim value in
  if jeqb mode MATCH_CONTAINS then quote text
  else if jeqb text (u "true") || jeqb text (u "false") then text
  else if rtest NUMERIC_LITERAL_REGEX text then text
  else quote text.

(** [normalizeCondition(cond) as TimeCondition] *)
Definition normalize_time (cond : TimeCondition) : TimeCondition :=
  match normalizeCondition (Some (to_partial (CTime cond))) with CTime t => t | _ => cond end.

Definition normalize_ph (cond : ParamHeaderCondition) : ParamHeaderCondition :=
  match normalizeCondition (Some (to_partial (CParamHeader cond))) with
  | CParamHeader p => p
  | _ => cond
  end.

Definition buildTimeConditionExpr (cond : TimeCondition) : jstr :=
  let normalized := normalize_time cond in
  let fn := timeFunc normalized ++ u "(" ++ quote (timezone normalized) ++ u ")" in
  if jeqb (t_mode normalized) MATCH_RANGE then
    let s := trim (rangeStart normalized) in
    let e := trim (rangeEnd normalized) in
    if negb (rtest NUMERIC_LITERAL_REGEX s) || negb (rtest NUMERIC_LITERAL_REGEX e) then []
    else fn ++ u " >= " ++ s ++ u " || " ++ fn ++ u " < " ++ e
  else
    let v := trim (t_value normalized) in
    if negb (rtest NUMERIC_LITERAL_REGEX v) then [] else
    let op := option_or (obj_get (t_mode normalized)
                [(MATCH_EQ, u "=="); (MATCH_GTE, u ">="); (MATCH_LT, u "<")]) (u "==") in
    fn ++ u " " ++ op ++ u " " ++ v.

Definition buildRequestConditionExpr (cond : RequestCondition) : jstr :=
  match cond with
  | CTime t => buildTimeConditionExpr t
  | CParamHeader p =>
      let normalized := normalize_ph p in
      let path := trim (path normalized) in
      if negb (truthy path) then [] else
      let mode := ph_mode normalized in
      let is_header := match ph_src normalized with SHeader => true | SParam => false end in
      let sourceExpr := (if is_header then u "header(" else u "param(") ++ quote path ++ u ")" in
      if jeqb mode MATCH_EXISTS then
        if is_header then sourceExpr ++ u " != ``" else sourceExpr ++ u " != nil"
      else if jeqb mode MATCH_CONTAINS then
        if is_header
        then u "has(" ++ sourceExpr ++ u ", " ++ buildExprLiteral mode (ph_value normalized) ++ u ")"
        else sourceExpr ++ u " != nil && has(" ++ sourceExpr ++ u ", "
             ++ buildExprLiteral mode (ph_value normalized) ++ u ")"
      else
        match obj_get mode [(MATCH_GT, u ">"); (MATCH_GTE, u ">="); (MATCH_LT, u "<"); (MATCH_LTE, u "<=")] with
        | Some op =>
            let numText := trim (ph_value normalized) in
            if negb (rtest NUMERIC_LITERAL_REGEX numText) then []
            else sourceExpr ++ u " != nil && " ++ sourceExpr ++ u " " ++ op ++ u " " ++ numText
        | None => sourceExpr ++ u " == " ++ buildExprLiteral mode (ph_value normalized)
        end
  end.

Definition buildRuleGroupFactor (group : RequestRuleGroup) : jstr :=
  let multiplier := trim (multiplier group) in
  if negb (rtest NUMERIC_LITERAL_REGEX multiplier) then [] else
  let condExprs := jfilter truthy (map buildRequestConditionExpr (conditions group)) in
  match condExprs with
  | [] => []
  | _ =>
      let combined :=
        match condExprs with
        | [e] => e
        | _ => join (u " && ")
                 (map (fun e => if includes (u " || ") e then u "(" ++ e ++ u ")" else e) condExprs)
        end in
      u "(" ++ combined ++ u " ? " ++ multiplier ++ u " : 1)"
  end.

Definition buildRequestRuleExpr (groups : list RequestRuleGroup) : jstr :=
  join (u " * ") (jfilter truthy (map buildRuleGroupFactor groups)).
