(* ===== verification/BillingRules.v ===== *)
(** * Request rules: printing and parsing

    The theorems on the request rules of [billing-expr.ts].  [buildRequestRuleExpr] prints the
    rules the editor holds and [tryParseRequestRuleExpr] reads them back; the development proves
    the round trip for the rules whose texts stay clear of the syntax ([canonical_group]) and
    locates where it fails. *)

From S2P Require Import Prelude JsString JsRegex JsNumber Json BillingExpr.
Open Scope N_scope.

(** ** Texts *)

(** The characters the splitters act on. *)
Definition syntax_char (c : N) : bool := one_of (u "()&|") c.

(** A path or a time zone the patterns read back: quoted without escapes. *)
Definition plain_text (s : jstr) : bool :=
  truthy s && forallb (fun c => is_plain c && negb (syntax_char c)) s.

(** A value that is printed as a literal on one line. *)
Definition value_char (c : N) : bool :=
  (c <? 65536) && negb (syntax_char c) && negb (c =? 8232) && negb (c =? 8233).
Definition value_text (s : jstr) : bool := forallb value_char s && jeqb (trim s) s.

Definition numeric (s : jstr) : bool := rtest NUMERIC_LITERAL_REGEX s.

Definition canonical_time (t : TimeCondition) : bool :=
  bool_decide (timeFunc t ∈ TIME_FUNCS) && plain_text (timezone t) &&
  (if jeqb (t_mode t) MATCH_RANGE
   then jeqb (t_value t) [] && numeric (rangeStart t) && numeric (rangeEnd t)
   else bool_decide (t_mode t ∈ [MATCH_EQ; MATCH_GTE; MATCH_LT]) && numeric (t_value t)
        && jeqb (rangeStart t) [] && jeqb (rangeEnd t) []).

Definition canonical_ph (p : ParamHeaderCondition) : bool :=
  plain_text (path p) && jeqb (trim (path p)) (path p) &&
  (jeqb (ph_mode p) MATCH_EXISTS && jeqb (ph_value p) []
   || jeqb (ph_mode p) MATCH_EQ && value_text (ph_value p)
   || jeqb (ph_mode p) MATCH_CONTAINS && value_text (ph_value p)
      && match ph_src p with SHeader => true | SParam => false end).

Definition canonical (c : RequestCondition) : bool :=
  match c with CTime t => canonical_time t | CParamHeader p => canonical_ph p end.

Definition canonical_group (g : RequestRuleGroup) : bool :=
  forallb canonical (conditions g) && negb (length (conditions g) =? 0)%nat
  && numeric (multiplier g).

(** ** Numbers *)

Lemma num_char_eq :
  num_char = fun c => is_digit c
    || ((c =? 46) || ((c =? 101) || ((c =? 69) || ((c =? 43) || ((c =? 45) || false))))).
Proof. reflexivity. Qed.

Lemma numeric_chars s : numeric s = true -> forallb num_char s = true.
Proof.
  apply (rtest_over_class num_char
    [ROpt (rl "-");
     RAlt (rseq [rplus (RSet is_digit); ROpt (rl "."); RStar true (RSet is_digit)])
          (rseq [rl "."; rplus (RSet is_digit)]);
     ROpt (rseq [RSet is_exp_char; ROpt (RSet (one_of (u "+-"))); rplus (RSet is_digit)])]).
  change (rl "-") with (RSeq (RSet (N.eqb 45)) REps).
  change (rl ".") with (RSeq (RSet (N.eqb 46)) REps).
  cbn [over_class rseq rplus]. rewrite num_char_eq.
  change (one_of (u "+-")) with (fun c => (c =? 43) || ((c =? 45) || false)).
  unfold is_exp_char. repeat split; intros c; lia.
Qed.

Lemma numeric_nonempty s : numeric s = true -> s <> [].
Proof. by intros H ->. Qed.

Lemma num_char_no_space s : forallb num_char s = true -> forallb (fun c => negb (is_space c)) s = true.
Proof.
  apply forallb_impl. intros c. rewrite num_char_eq. unfold is_digit, is_space, in_range. lia.
Qed.

Lemma numeric_trim s : numeric s = true -> trim s = s.
Proof. intros H. by apply trim_no_space, num_char_no_space, numeric_chars. Qed.

(** ** Parentheses *)

(** The change of depth over a text, and that the depth stays non-negative. *)
Definition delta (c : N) : Z := if c =? ch "(" then 1%Z else if c =? ch ")" then (-1)%Z else 0%Z.

Fixpoint net (s : jstr) : Z :=
  match s with [] => 0%Z | c :: t => (delta c + net t)%Z end.

Fixpoint nonneg (d : Z) (s : jstr) : bool :=
  match s with [] => true | c :: t => (0 <=? d + delta c)%Z && nonneg (d + delta c) t end.

Definition balanced (s : jstr) : bool := nonneg 0 s && (net s =? 0)%Z.

Lemma net_app a b : net (a ++ b) = (net a + net b)%Z.
Proof. induction a as [|c a IH]; simpl; lia. Qed.

Lemma nonneg_app d a b : nonneg d (a ++ b) = nonneg d a && nonneg (d + net a) b.
Proof.
  revert d. induction a as [|c a IH]; intros d; simpl; [by rewrite Z.add_0_r|].
  rewrite IH, andb_assoc. do 2 f_equal. lia.
Qed.

Lemma nonneg_mono d e s : (d <= e)%Z -> nonneg d s = true -> nonneg e s = true.
Proof.
  revert d e. induction s as [|c s IH]; intros d e Hde; simpl; [done|].
  intros [Hc Hs]%andb_prop. rewrite (IH (d + delta c)%Z) by (done || lia). lia.
Qed.

Lemma balanced_app a b : balanced a = true -> balanced b = true -> balanced (a ++ b) = true.
Proof.
  unfold balanced. rewrite nonneg_app, net_app. intros [Ha Hna]%andb_prop [Hb Hnb]%andb_prop.
  apply Z.eqb_eq in Hna, Hnb. rewrite Ha, Hna, Hnb, Z.add_0_l, Hb. done.
Qed.

Definition no_parens (s : jstr) : bool :=
  forallb (fun c => negb (c =? ch "(") && negb (c =? ch ")")) s.

Lemma delta_zero c : negb (c =? ch "(") && negb (c =? ch ")") = true -> delta c = 0%Z.
Proof. unfold delta. intros [->%negb_true_iff ->%negb_true_iff]%andb_prop. done. Qed.

Lemma balanced_text s : no_parens s = true -> balanced s = true.
Proof.
  unfold no_parens, balanced. induction s as [|c s IH]; [done|]. cbn [forallb].
  intros [Hc Hs]%andb_prop. specialize (IH Hs). simpl. by rewrite (delta_zero c Hc).
Qed.

Lemma balanced_paren s : balanced s = true -> balanced (u "(" ++ s ++ u ")") = true.
Proof.
  unfold balanced. intros [Hs Hn]%andb_prop. apply Z.eqb_eq in Hn.
  rewrite !nonneg_app, !net_app, Hn. by rewrite (nonneg_mono 0 (0 + net (u "("))) by done.
Qed.

(** The depth both splitters and [hasFullOuterParens] keep. *)
Lemma depth_step c d :
  (let d := if c =? ch "(" then (d + 1)%Z else d in if c =? ch ")" then (d - 1)%Z else d)
  = (d + delta c)%Z.
Proof.
  unfold delta. cbn zeta. destruct (N.eqb_spec c (ch "(")) as [->|]; [done|].
  destruct (c =? ch ")"); lia.
Qed.

(** ** Splitting *)

Lemma split_top_cons sep d cur c t :
  split_top sep 0 d cur (c :: t) =
    if (d + delta c =? 0)%Z && starts_with sep (c :: t)
    then cur :: split_top sep (length sep - 1) (d + delta c) [] t
    else split_top sep 0 (d + delta c) (cur ++ [c]) t.
Proof. cbn [split_top]. by rewrite depth_step. Qed.

Lemma split_top_skip sep n d cur s t :
  length s = n -> split_top sep n d cur (s ++ t) = split_top sep 0 d cur t.
Proof. revert s. induction n as [|n IH]; intros [|c s]; simpl; try done. intros H. apply IH. lia. Qed.

Lemma split_top_sep c sep cur t :
  delta c = 0%Z ->
  split_top (c :: sep) 0 0 cur ((c :: sep) ++ t) = cur :: split_top (c :: sep) 0 0 [] t.
Proof.
  intros Hc. simpl app. rewrite split_top_cons, Hc.
  change (c :: sep ++ t) with ((c :: sep) ++ t). rewrite starts_with_app. simpl.
  rewrite split_top_skip by lia. done.
Qed.

(** Inside parentheses nothing is split. *)
Lemma split_top_inside sep d w cur t :
  (0 <= d)%Z -> nonneg d w = true ->
  split_top sep 0 (1 + d) cur (w ++ t) = split_top sep 0 (1 + d + net w) (cur ++ w) t.
Proof.
  revert d cur. induction w as [|c w IH]; intros d cur Hd; simpl net.
  - intros _. by rewrite Z.add_0_r, app_nil_r.
  - cbn [nonneg]. intros [Hc Hw]%andb_prop. simpl app. rewrite split_top_cons.
    replace (1 + d + delta c =? 0)%Z with false by lia. cbn [andb].
    replace (1 + d + delta c)%Z with (1 + (d + delta c))%Z by lia.
    rewrite IH by (done || lia). rewrite <- (assoc_L (++)). f_equal; lia.
Qed.

Lemma split_top_group sep w cur t :
  starts_with sep (u ")" ++ t) = false -> starts_with sep (u "(" ++ w ++ u ")" ++ t) = false ->
  balanced w = true ->
  split_top sep 0 0 cur (u "(" ++ w ++ u ")" ++ t)
  = split_top sep 0 0 (cur ++ u "(" ++ w ++ u ")") t.
Proof.
  unfold balanced. intros Hc Ho [Hw Hn]%andb_prop. apply Z.eqb_eq in Hn.
  change (u "(" ++ w ++ u ")" ++ t) with (ch "(" :: (w ++ ch ")" :: t)) in *.
  change (u ")" ++ t) with (ch ")" :: t) in Hc.
  rewrite split_top_cons, Ho, andb_false_r.
  change (0 + delta (ch "("))%Z with (1 + 0)%Z. rewrite split_top_inside by done.
  rewrite split_top_cons, Hc, andb_false_r, Hn.
  change (1 + 0 + 0 + delta (ch ")"))%Z with 0%Z. by rewrite <- !(assoc_L (++)).
Qed.

(** A part without ampersands is not split at [ && ]. *)
Definition no_amp (s : jstr) : bool := forallb (fun c => negb (c =? ch "&")) s.

Lemma no_amp_start c w t :
  no_amp (c :: w) = true -> (forall d t', t = d :: t' -> d <> ch "&") ->
  starts_with (u " && ") (c :: w ++ t) = false.
Proof.
  unfold no_amp. cbn [forallb]. intros [Hc Hw]%andb_prop Ht.
  change (u " && ") with ([32; 38; 38; 32]). cbn [starts_with].
  destruct (32 =? c); [|done]. cbn [andb].
  assert (forall s, (forall d t', s = d :: t' -> d <> ch "&") ->
            starts_with [38; 38; 32] s = false) as Hs.
  { intros [|d s] Hd; [done|]. cbn [starts_with].
    replace (38 =? d) with false; [done|]. symmetry. apply N.eqb_neq.
    intros <-. by apply (Hd 38 s). }
  apply Hs. destruct w as [|e w]; [done|]. intros d t' [= <- _]. intros ->. done.
Qed.

Lemma split_top_part w d cur t :
  no_amp w = true -> (forall e t', t = e :: t' -> e <> ch "&") ->
  split_top (u " && ") 0 d cur (w ++ t) = split_top (u " && ") 0 (d + net w) (cur ++ w) t.
Proof.
  revert d cur. induction w as [|c w IH]; intros d cur Hw Ht; simpl net.
  - by rewrite Z.add_0_r, app_nil_r.
  - cbn [app]. rewrite split_top_cons, no_amp_start, andb_false_r by done.
    rewrite IH; [|by apply andb_prop in Hw as [_ Hw]|done].
    rewrite <- (assoc_L (++)). f_equal. lia.
Qed.

(** ** Reading one condition *)

Definition not_quote : N -> bool := none_of (u "`").

Lemma plain_text_spec s :
  plain_text s = true ->
  s <> [] /\ forallb is_plain s = true /\ forallb not_quote s = true
  /\ forallb (fun c => negb (syntax_char c)) s = true.
Proof.
  unfold plain_text. intros [Hs%truthy_spec Hp]%andb_prop. split; [done|].
  repeat split; revert Hp; apply forallb_impl; intros c.
  - by intros [? _]%andb_prop.
  - intros [Hc _]%andb_prop. unfold not_quote, none_of, is_plain in *.
    change (one_of (u "`") c) with ((c =? 34) || false). lia.
  - by intros [_ ?]%andb_prop.
Qed.

(** One step of a match: a literal, or a failure of one. *)
Ltac run_step :=
  first [ rewrite run_rl
        | rewrite run_rl_fail by reflexivity
        | rewrite run_eol ].

Lemma run_path i l p w t cs :
  plain_text w = true -> match t with c :: _ => c =? 34 | [] => false end = true ->
  stuck not_quote l ->
  results (rseq (RGroup i (rplus (RSet not_quote)) :: l)) (MState p (w ++ t) cs)
  = results (rseq l) (MState (prev_after p w) t (set_cap i w cs)).
Proof.
  intros (Hne & _ & Hq & _)%plain_text_spec Ht Hl. apply run_group_plus; [done..| |done].
  intros c t' ->. by apply N.eqb_eq in Ht as ->.
Qed.

Lemma run_number i l p w t cs :
  numeric w = true -> match t with c :: _ => negb (num_char c) | [] => true end = true ->
  stuck num_char l ->
  results (rseq (number_group i :: l)) (MState p (w ++ t) cs)
  = results (rseq l) (MState (prev_after p w) t (set_cap i w cs)).
Proof.
  intros Hw Ht Hl. apply run_group_plus; [by apply numeric_nonempty|by apply numeric_chars|..].
  - intros c t' ->. by apply negb_true_iff.
  - done.
Qed.

(** The functions of time are told apart by their text. *)
Lemma run_time_func i l p f t cs :
  f ∈ TIME_FUNCS ->
  results (rseq (RGroup i time_funcs :: l)) (MState p (f ++ u "(`" ++ t) cs)
  = results (rseq l) (MState (prev_after p f) (u "(`" ++ t) (set_cap i f cs)).
Proof.
  intros Hf. apply run_group_words; [by apply (bool_decide_unpack _); vm_compute|done|].
  intros w' Hw' Hne.
  repeat (apply elem_of_cons in Hf as [->|Hf]; [|]); [..|by apply elem_of_nil in Hf];
    repeat (apply elem_of_cons in Hw' as [->|Hw']; [done || reflexivity|]);
    by apply elem_of_nil in Hw'.
Qed.

Lemma run_time_func_fail i l x :
  forallb (fun w => negb (starts_with w (m_rest x))) TIME_FUNCS = true ->
  results (rseq (RGroup i time_funcs :: l)) x = [].
Proof.
  intros H. apply run_group_words_fail. intros w Hw.
  apply negb_true_iff. by eapply (proj1 (forallb_forall _ _) H), list_elem_of_In.
Qed.

Lemma run_time_head l p f tz t cs :
  f ∈ TIME_FUNCS -> plain_text tz = true -> match t with c :: _ => c =? 34 | [] => false end = true ->
  stuck not_quote l ->
  results (rseq (RGroup 1 time_funcs :: rl "(`" :: RGroup 2 (rplus (RSet not_quote)) :: l))
    (MState p (f ++ u "(`" ++ tz ++ t) cs)
  = results (rseq l) (MState (prev_after (prev_after (prev_after p f) (u "(`")) tz) t
      (set_cap 2 tz (set_cap 1 f cs))).
Proof. intros Hf Htz Ht Hl. by rewrite run_time_func, run_rl, run_path. Qed.

(** [fn("tz") >= a || fn("tz") < b] *)
Definition range_text (f tz a b : jstr) : jstr :=
  f ++ u "(`" ++ tz ++ u "`) >= " ++ a ++ u " || " ++ f ++ u "(`" ++ tz ++ u "`) < " ++ b.

Definition range_caps (f tz a b : jstr) : list (nat * jstr) := [(4%nat, b); (3%nat, a); (2%nat, tz); (1%nat, f)].

Lemma run_range f tz a b l p t :
  f ∈ TIME_FUNCS -> plain_text tz = true -> numeric a = true -> numeric b = true ->
  match t with c :: _ => negb (num_char c) | [] => true end = true -> stuck num_char l ->
  exists p', results (rseq (time_range_body ++ l)) (MState p (range_text f tz a b ++ t) [])
  = results (rseq l) (MState p' t (range_caps f tz a b)).
Proof.
  intros Hf Htz Ha Hb Ht Hl. unfold range_text, time_range_body. rewrite <- !(assoc_L (++)).
  cbn [app]. eexists.
  rewrite run_time_head by (done || by apply stuck_rl).
  rewrite run_rl, run_number by (done || by apply stuck_rl).
  rewrite run_rl, (run_backref 1 f) by done.
  rewrite run_rl, (run_backref 2 tz) by done.
  rewrite run_rl, run_number by done. done.
Qed.

Lemma parse_time_range f tz a b :
  f ∈ TIME_FUNCS -> plain_text tz = true -> numeric a = true -> numeric b = true ->
  let c := CTime {| timeFunc := f; timezone := tz; t_mode := MATCH_RANGE; t_value := [];
                    rangeStart := a; rangeEnd := b |} in
  tryParseTimeCondition (range_text f tz a b) = Some c /\
  tryParseTimeCondition (u "(" ++ range_text f tz a b ++ u ")") = Some c.
Proof.
  intros Hf Htz Ha Hb. unfold tryParseTimeCondition. split.
  - unfold time_range_regex. rewrite rmatch_anchored.
    rewrite <- (app_nil_r (range_text f tz a b)). unfold start_state.
    destruct (run_range f tz a b [REol] None []) as [p ->]; [done..|apply stuck_eol|].
    by rewrite run_eol.
  - unfold time_range_regex. rewrite rmatch_anchored.
    unfold time_range_body at 1. cbn [app]. rewrite run_time_func_fail by done.
    unfold time_range_paren_regex. rewrite rmatch_anchored. unfold start_state. rewrite run_rl.
    destruct (run_range f tz a b [rl ")"; REol] (prev_after None (u "(")) (u ")")) as [p ->];
      [done..|by apply stuck_rl|].
    by rewrite <- (app_nil_r (u ")")), run_rl, run_eol.
Qed.

(** [fn("tz") op v] *)
Definition cmp_text (f tz op v : jstr) : jstr := f ++ u "(`" ++ tz ++ u "`) " ++ op ++ u " " ++ v.

Definition TIME_OPS : list jstr := [u "=="; u ">="; u "<"].

Lemma time_func_no_paren f t : f ∈ TIME_FUNCS -> starts_with (u "(") (f ++ t) = false.
Proof.
  intros Hf. repeat (apply elem_of_cons in Hf as [->|Hf]; [reflexivity|]).
  by apply elem_of_nil in Hf.
Qed.

Lemma run_time_op i l p op v cs :
  op ∈ TIME_OPS ->
  results (rseq (RGroup i (ralt [rl "=="; rl ">="; rl "<"]) :: l)) (MState p (op ++ u " " ++ v) cs)
  = results (rseq l) (MState (prev_after p op) (u " " ++ v) (set_cap i op cs)).
Proof.
  intros Hop. change (ralt [rl "=="; rl ">="; rl "<"]) with (ralt (map rlit TIME_OPS)).
  apply run_group_words; [by apply (bool_decide_unpack _); vm_compute|done|].
  intros w' Hw' Hne.
  repeat (apply elem_of_cons in Hop as [->|Hop]; [|]); [..|by apply elem_of_nil in Hop];
    repeat (apply elem_of_cons in Hw' as [->|Hw']; [done || reflexivity|]);
    by apply elem_of_nil in Hw'.
Qed.

(** The range pattern stops at the end of a comparison. *)
Lemma range_fails_on_cmp f tz op v :
  f ∈ TIME_FUNCS -> plain_text tz = true -> op ∈ TIME_OPS -> numeric v = true ->
  rmatch time_range_regex (cmp_text f tz op v) = None.
Proof.
  intros Hf Htz Hop Hv. unfold time_range_regex. rewrite rmatch_anchored.
  unfold time_range_body, cmp_text, start_state. cbn [app].
  rewrite run_time_head by (done || by apply stuck_rl).
  repeat (apply elem_of_cons in Hop as [->|Hop]; [|]); [..|by apply elem_of_nil in Hop].
  - by rewrite run_rl_fail.
  - change (u "`) " ++ u ">=" ++ u " " ++ v) with (u "`) >= " ++ v).
    rewrite run_rl, <- (app_nil_r v), run_number by (done || by apply stuck_rl).
    by rewrite run_rl_fail.
  - by rewrite run_rl_fail.
Qed.

Lemma parse_time_cmp f tz op v :
  f ∈ TIME_FUNCS -> plain_text tz = true -> op ∈ TIME_OPS -> numeric v = true ->
  tryParseTimeCondition (cmp_text f tz op v)
  = Some (CTime {| timeFunc := f; timezone := tz; t_mode := time_op_mode op; t_value := v;
                   rangeStart := []; rangeEnd := [] |}).
Proof.
  intros Hf Htz Hop Hv. unfold tryParseTimeCondition. rewrite range_fails_on_cmp by done.
  unfold time_range_paren_regex, time_cmp_regex. rewrite !rmatch_anchored.
  rewrite run_rl_fail by by apply time_func_no_paren.
  unfold cmp_text, start_state. rewrite run_time_head by (done || by apply stuck_rl).
  rewrite run_rl, run_time_op by done.
  rewrite run_rl, <- (app_nil_r v), run_number by (done || apply stuck_eol). rewrite run_eol, app_nil_r.
  done.
Qed.

(** No condition on time starts like the other conditions. *)
Lemma not_time_cond e :
  forallb (fun w => negb (starts_with w e)) (u "(" :: TIME_FUNCS) = true ->
  tryParseTimeCondition e = None.
Proof.
  cbn [forallb]. intros [Hp%negb_true_iff Hf]%andb_prop. unfold tryParseTimeCondition.
  unfold time_range_regex, time_range_paren_regex, time_cmp_regex. rewrite !rmatch_anchored.
  unfold time_range_body. cbn [app].
  by rewrite !run_time_func_fail, run_rl_fail.
Qed.

(** Runs a pattern over a text given by its pieces. *)
Ltac run_cond :=
  unfold path_group; fold not_quote;
  repeat first
    [ rewrite run_rl
    | rewrite run_rl_fail by reflexivity
    | rewrite run_path; [|assumption|reflexivity|by apply stuck_rl]
    | rewrite run_eol ].

Lemma parse_header_exists p :
  plain_text p = true ->
  tryParseRequestCondition (u "header(`" ++ p ++ u "`) != ``") = Ret (Some (ph_cond SHeader p MATCH_EXISTS [])).
Proof.
  intros Hp. unfold tryParseRequestCondition. rewrite not_time_cond by done.
  unfold header_exists_regex. rewrite rmatch_anchored. unfold start_state.
  rewrite <- (app_nil_r (u "`) != ``")). by run_cond.
Qed.

Lemma parse_param_exists p :
  plain_text p = true ->
  tryParseRequestCondition (u "param(`" ++ p ++ u "`) != nil") = Ret (Some (ph_cond SParam p MATCH_EXISTS [])).
Proof.
  intros Hp. unfold tryParseRequestCondition. rewrite not_time_cond by done.
  unfold header_exists_regex, param_exists_regex. rewrite !rmatch_anchored. unfold start_state.
  rewrite <- (app_nil_r (u "`) != nil")). by run_cond.
Qed.

(** The quoted value of [has(header(..), ..)]. *)
Lemma run_json_string i l p v t cs :
  results (rseq (json_string_group i :: l)) (MState p (quote v ++ t) cs)
  = results (rseq l) (MState (prev_after p (quote v)) t (set_cap i (quote v) cs)).
Proof.
  apply run_group_single. unfold quote. destruct (escape_chunks v) as (ws & -> & Hws).
  change ((34 :: concat ws ++ [34]) ++ t) with (u "`" ++ (concat ws ++ u "`") ++ t).
  rewrite <- (assoc_L (++)), run_rl.
  rewrite (run_star_chunks _ not_quote).
  - rewrite run_rl. cbn [rseq results]. rewrite prev_after_cons, prev_after_app. done.
  - done.
  - eapply Forall_impl; [exact Hws|]. intros w [(c & -> & H1 & H2)|(c & -> & Hc)]; split.
    + exists c, []. split; [done|]. unfold not_quote, none_of.
      change (one_of (u "`") c) with ((c =? 34) || false). lia.
    + intros p' t' cs'. cbn [app results m_rest m_caps].
      unfold none_of. change (one_of (u "`\") c) with ((c =? 34) || ((c =? 92) || false)).
      replace (c =? 34) with false by lia. replace (c =? 92) with false by lia.
      unfold rl. rewrite results_lit_fail; [done|]. cbn [m_rest]. by apply starts_with_ne_head.
    + by exists 92, [c].
    + intros p' t' cs'. cbn [app results m_rest m_caps].
      change (92 :: c :: t') with (u "\" ++ c :: t'). unfold rl. rewrite results_lit.
      cbn [flat_map results rdot m_rest m_caps]. by rewrite Hc.
  - intros p' cs'. done.
  - by apply stuck_rl.
Qed.

Lemma parse_header_contains p v :
  plain_text p = true -> units v ->
  tryParseRequestCondition (u "has(header(`" ++ p ++ u "`), " ++ quote v ++ u ")")
  = Ret (Some (ph_cond SHeader p MATCH_CONTAINS v)).
Proof.
  intros Hp Hv. unfold tryParseRequestCondition. rewrite not_time_cond by done.
  unfold header_exists_regex, param_exists_regex, header_contains_regex.
  rewrite !rmatch_anchored. unfold start_state.
  rewrite <- (app_nil_r (u ")")). run_cond. rewrite run_json_string. run_cond.
  cbn. unfold parse_json_string. by rewrite json_parse_quote.
Qed.

(** ** Literals *)

(** No white space at the ends, by the first and the last character. *)
Definition starts_solid (s : jstr) : bool :=
  match s with c :: _ => negb (is_space c) | [] => false end.
Definition ends_solid (s : jstr) : bool :=
  match last s with Some c => negb (is_space c) | None => false end.

Lemma trim_solid s : starts_solid s = true -> ends_solid s = true -> trim s = s.
Proof.
  intros Hs He. apply trim_id. split.
  - intros c t ->. by apply negb_true_iff.
  - intros c t ->. unfold ends_solid in He. rewrite last_app_one in He. by apply negb_true_iff.
Qed.

Lemma starts_solid_app a b : starts_solid a = true -> starts_solid (a ++ b) = true.
Proof. by destruct a. Qed.

Lemma ends_solid_app a b : ends_solid b = true -> ends_solid (a ++ b) = true.
Proof.
  unfold ends_solid. destruct (last b) as [c|] eqn:Hb; [|done]. by rewrite last_app, Hb.
Qed.

Lemma no_space_solid s :
  s <> [] -> forallb (fun c => negb (is_space c)) s = true ->
  starts_solid s = true /\ ends_solid s = true.
Proof.
  intros Hne Hs. split.
  - destruct s; [done|]. simpl in Hs. by apply andb_prop in Hs as [??].
  - unfold ends_solid. destruct (last s) as [c|] eqn:Hl; [|by apply last_None in Hl].
    apply last_Some in Hl as (t & ->). rewrite forallb_app in Hs. simpl in Hs.
    by apply andb_prop in Hs as [_ [? _]%andb_prop].
Qed.

Lemma numeric_solid s : numeric s = true -> starts_solid s = true /\ ends_solid s = true.
Proof.
  intros H. apply no_space_solid; [by apply numeric_nonempty|].
  by apply num_char_no_space, numeric_chars.
Qed.

Lemma quote_solid s : starts_solid (quote s) = true /\ ends_solid (quote s) = true.
Proof. split; [done|]. by apply (ends_solid_app (34 :: escape s) [34]). Qed.

Lemma quote_not_numeric s : numeric (quote s) = false.
Proof. destruct (numeric (quote s)) eqn:H; [|done]. by apply numeric_chars in H. Qed.

Lemma value_text_spec v :
  value_text v = true -> units v /\ trim v = v /\ forallb value_char v = true.
Proof.
  unfold value_text. intros [Hv Ht%jeqb_spec]%andb_prop. split; [|done].
  apply forallb_Forall in Hv. eapply Forall_impl; [exact Hv|]. cbn beta. intros c.
  unfold value_char. lia.
Qed.

(** A text of a value: what may be printed for it. *)
Definition literal_char (c : N) : bool := negb (syntax_char c) && negb (is_newline c).

Lemma syntax_char_eq :
  syntax_char = fun c => (c =? 40) || ((c =? 41) || ((c =? 38) || ((c =? 124) || false))).
Proof. reflexivity. Qed.

Lemma unicode_escape_literal c : forallb literal_char (unicode_escape c) = true.
Proof.
  destruct (unicode_escape_chunks c) as (x & y & z & w & -> & Hx).
  apply forallb_Forall. do 2 (constructor; [done|]). eapply Forall_impl; [exact Hx|].
  cbn beta. intros e. unfold literal_char. rewrite syntax_char_eq.
  unfold is_newline, is_digit, in_range. lia.
Qed.

Lemma escape_char_literal c : value_char c = true -> forallb literal_char (escape_char c) = true.
Proof.
  unfold value_char. rewrite syntax_char_eq. intros Hc.
  destruct (escape_char_cases c) as [(He & _)|[(d & He & Hd)|He]].
  - rewrite He. simpl. unfold literal_char. rewrite syntax_char_eq.
    unfold is_newline.
    assert (c <> 10 /\ c <> 13) by (split; intros ->; discriminate He). lia.
  - rewrite He. simpl. unfold literal_char. rewrite syntax_char_eq. unfold is_newline.
    unfold escape_alphabet, is_digit, in_range in Hd. lia.
  - rewrite He. apply unicode_escape_literal.
Qed.

Lemma escape_literal v : forallb value_char v = true -> forallb literal_char (escape v) = true.
Proof.
  apply (escape_cases (fun s w => forallb value_char s = true -> forallb literal_char w = true));
    [done|..].
  - intros c t w IH. cbn [forallb]. intros [_ Ht]%andb_prop.
    by rewrite forallb_app, IH, unicode_escape_literal.
  - intros c t w IH. cbn [forallb]. intros [Hc Ht]%andb_prop.
    by rewrite forallb_app, IH, escape_char_literal.
  - intros c d t w Hc Hd IH. cbn [forallb]. intros [Hc' [Hd' Ht]%andb_prop]%andb_prop.
    rewrite IH by done. revert Hc Hd Hc' Hd'. unfold literal_char, value_char.
    unfold is_high_surrogate, is_low_surrogate, is_newline, in_range. lia.
Qed.

Lemma quote_literal v : forallb value_char v = true -> forallb literal_char (quote v) = true.
Proof. intros Hv. unfold quote. simpl. by rewrite forallb_app, escape_literal. Qed.

Lemma num_char_literal v : forallb num_char v = true -> forallb literal_char v = true.
Proof.
  apply forallb_impl. intros c. rewrite num_char_eq. unfold literal_char. rewrite syntax_char_eq.
  unfold is_digit, is_newline, in_range. lia.
Qed.

(** [parseExprLiteral] undoes [buildExprLiteral]. *)
Lemma literal_roundtrip v :
  value_text v = true ->
  let lit := buildExprLiteral MATCH_EQ v in
  forallb literal_char lit = true /\ starts_solid lit = true /\ ends_solid lit = true /\
  parseExprLiteral lit = Some (JStr v).
Proof.
  intros (Hu & Ht & Hv)%value_text_spec. unfold buildExprLiteral. rewrite Ht.
  change (jeqb MATCH_EQ MATCH_CONTAINS) with false. cbn iota.
  destruct (jeqb v (u "true") || jeqb v (u "false")) eqn:Hb; cbn iota.
  { apply orb_prop in Hb as [->%jeqb_spec| ->%jeqb_spec]; by vm_compute. }
  destruct (rtest NUMERIC_LITERAL_REGEX v) eqn:Hn; cbn zeta.
  - split; [by apply num_char_literal, numeric_chars|].
    destruct (numeric_solid v Hn) as [Hs He]. split_and!; [done..|].
    unfold parseExprLiteral. by rewrite Ht, Hb, Hn.
  - split; [by apply quote_literal|]. destruct (quote_solid v) as [Hs He]. split_and!; [done..|].
    unfold parseExprLiteral. rewrite trim_solid by done.
    change (rtest NUMERIC_LITERAL_REGEX (quote v)) with (numeric (quote v)).
    rewrite quote_not_numeric, json_parse_quote by done. done.
Qed.

Definition source_text (s : ph_source) : jstr :=
  match s with SParam => u "param" | SHeader => u "header" end.

Lemma run_source i l p src t cs :
  results (rseq (RGroup i (ralt [rl "param"; rl "header"]) :: l)) (MState p (source_text src ++ t) cs)
  = results (rseq l) (MState (prev_after p (source_text src)) t (set_cap i (source_text src) cs)).
Proof.
  change (ralt [rl "param"; rl "header"]) with (ralt (map rlit [u "param"; u "header"])).
  apply run_group_words; [by apply (bool_decide_unpack _); vm_compute|by destruct src; repeat constructor|].
  intros w' Hw' Hne.
  destruct src; repeat (apply elem_of_cons in Hw' as [->|Hw']; [done || reflexivity|]);
    by apply elem_of_nil in Hw'.
Qed.

Lemma parse_eq src p v :
  plain_text p = true -> value_text v = true ->
  tryParseRequestCondition
    (source_text src ++ u "(`" ++ p ++ u "`) == " ++ buildExprLiteral MATCH_EQ v)
  = Ret (Some (ph_cond src p MATCH_EQ v)).
Proof.
  intros Hp Hv. destruct (literal_roundtrip v Hv) as (Hlit & Hs & _ & Hparse).
  set (lit := buildExprLiteral MATCH_EQ v) in *.
  assert (parse_eq_condition (source_text src ++ u "(`" ++ p ++ u "`) == " ++ lit)
          = Some (ph_cond src p MATCH_EQ v)) as Heq.
  { unfold parse_eq_condition, eq_regex. rewrite rmatch_anchored. unfold start_state.
    unfold rdot. rewrite run_source. run_cond. rewrite <- (app_nil_r lit), run_group_plus.
    - rewrite run_eol. cbn -[parseExprLiteral source_text]. rewrite Hparse. by destruct src.
    - by destruct lit.
    - revert Hlit. apply forallb_impl. intros c. unfold literal_char. lia.
    - done.
    - apply stuck_eol. }
  unfold tryParseRequestCondition, parse_param_contains, parse_param_cmp.
  destruct src; cbn [source_text] in *; rewrite not_time_cond by done.
  - change (u "param" ++ u "(`" ++ p ++ u "`) == " ++ lit)
      with (u "param(`" ++ p ++ u "`) == " ++ lit) in *.
    unfold header_exists_regex, param_exists_regex, header_contains_regex,
      param_contains_regex, param_cmp_regex.
    rewrite !rmatch_anchored. unfold start_state. run_cond. by rewrite Heq.
  - change (u "header" ++ u "(`" ++ p ++ u "`) == " ++ lit)
      with (u "header(`" ++ p ++ u "`) == " ++ lit) in *.
    unfold header_exists_regex, param_exists_regex, header_contains_regex,
      param_contains_regex, param_cmp_regex.
    rewrite !rmatch_anchored. unfold start_state. run_cond. by rewrite Heq.
Qed.

(** ** Printing one condition *)

Definition clean (s : jstr) : bool := forallb (fun c => negb (syntax_char c)) s.

Lemma clean_no_parens s : clean s = true -> no_parens s = true.
Proof. apply forallb_impl. intros c. rewrite syntax_char_eq. change (ch "(") with 40. change (ch ")") with 41. lia. Qed.

Lemma clean_no_amp s : clean s = true -> no_amp s = true.
Proof. apply forallb_impl. intros c. rewrite syntax_char_eq. change (ch "&") with 38. lia. Qed.

Lemma plain_text_clean s : plain_text s = true -> clean s = true.
Proof. by intros (_ & _ & _ & H)%plain_text_spec. Qed.

Lemma literal_clean s : forallb literal_char s = true -> clean s = true.
Proof. apply forallb_impl. intros c. unfold literal_char. lia. Qed.

Lemma numeric_clean s : numeric s = true -> clean s = true.
Proof. intros H. by apply literal_clean, num_char_literal, numeric_chars. Qed.

Lemma time_func_facts f : f ∈ TIME_FUNCS -> clean f && starts_solid f = true.
Proof.
  intros Hf. repeat (apply elem_of_cons in Hf as [->|Hf]; [by vm_compute|]).
  by apply elem_of_nil in Hf.
Qed.

(** A text that takes the depth from [d] to [e] without going below zero. *)
Definition takes (d : Z) (s : jstr) (e : Z) : Prop := nonneg d s = true /\ (d + net s = e)%Z.

Lemma takes_app d a e b f : takes d a e -> takes e b f -> takes d (a ++ b) f.
Proof.
  intros [Ha <-] [Hb <-]. unfold takes. rewrite nonneg_app, net_app, Ha, Hb. split; [done|lia].
Qed.

Lemma takes_clean d s : (0 <= d)%Z -> clean s = true -> takes d s d.
Proof.
  intros Hd H%clean_no_parens%balanced_text. unfold balanced in H. apply andb_prop in H as [H Hn].
  split; [by apply (nonneg_mono 0)|lia].
Qed.

Lemma takes_balanced s : takes 0 s 0 -> balanced s = true.
Proof. unfold takes, balanced. intros [-> H]. lia. Qed.

(** What makes a text a part of a conjunction that reads as [c]. *)
Record part_of (w : jstr) (c : RequestCondition) : Prop := {
  part_starts : starts_solid w = true;
  part_ends : ends_solid w = true;
  part_balanced : balanced w = true;
  part_no_amp : no_amp w = true;
  part_parses : tryParseRequestCondition w = Ret (Some c)
}.

Lemma no_amp_app a b : no_amp (a ++ b) = no_amp a && no_amp b.
Proof. apply forallb_app. Qed.

(** Decides the shape of a text given by literals and clean pieces. *)
Ltac solve_takes :=
  lazymatch goal with
  | |- takes _ (_ ++ _) _ => eapply takes_app; solve_takes
  | |- takes _ (u _) _ => split; [by vm_compute|by vm_compute]
  | |- takes _ _ _ => apply takes_clean; [by vm_compute|assumption]
  end.
Ltac solve_balanced := apply takes_balanced; solve_takes.
Ltac solve_no_amp :=
  repeat lazymatch goal with
  | |- no_amp (_ ++ _) = true => rewrite no_amp_app; apply andb_true_intro; split
  | |- no_amp (u _) = true => by vm_compute
  | |- no_amp _ = true => by apply clean_no_amp
  end.

Lemma range_part f tz a b :
  f ∈ TIME_FUNCS -> plain_text tz = true -> numeric a = true -> numeric b = true ->
  let c := CTime {| timeFunc := f; timezone := tz; t_mode := MATCH_RANGE; t_value := [];
                    rangeStart := a; rangeEnd := b |} in
  part_of (range_text f tz a b) c /\ part_of (u "(" ++ range_text f tz a b ++ u ")") c.
Proof.
  intros Hf Htz Ha Hb c. destruct (parse_time_range f tz a b Hf Htz Ha Hb) as [Hp1 Hp2].
  apply time_func_facts, andb_prop in Hf as [Hf Hfs].
  apply plain_text_clean in Htz. pose proof (numeric_solid b Hb) as [_ Hbe].
  apply numeric_clean in Ha, Hb.
  assert (balanced (range_text f tz a b) = true) as Hbal by (unfold range_text; solve_balanced).
  assert (no_amp (range_text f tz a b) = true) as Hamp by (unfold range_text; solve_no_amp).
  split; split; try done.
  - by apply starts_solid_app.
  - unfold range_text. by repeat apply ends_solid_app.
  - unfold tryParseRequestCondition. by rewrite Hp1.
  - by repeat apply ends_solid_app.
  - by apply balanced_paren.
  - rewrite !no_amp_app, Hamp. done.
  - unfold tryParseRequestCondition. by rewrite Hp2.
Qed.

Lemma cmp_part f tz op v :
  f ∈ TIME_FUNCS -> plain_text tz = true -> op ∈ TIME_OPS -> numeric v = true ->
  part_of (cmp_text f tz op v)
    (CTime {| timeFunc := f; timezone := tz; t_mode := time_op_mode op; t_value := v;
              rangeStart := []; rangeEnd := [] |}).
Proof.
  intros Hf Htz Hop Hv. pose proof (parse_time_cmp f tz op v Hf Htz Hop Hv) as Hp.
  apply time_func_facts, andb_prop in Hf as [Hf Hfs].
  assert (clean op = true) as Hopc.
  { repeat (apply elem_of_cons in Hop as [->|Hop]; [by vm_compute|]). by apply elem_of_nil in Hop. }
  apply plain_text_clean in Htz. pose proof (numeric_solid v Hv) as [_ Hve].
  apply numeric_clean in Hv. unfold cmp_text in *.
  split; [by apply starts_solid_app|by repeat apply ends_solid_app|solve_balanced|solve_no_amp|].
  unfold tryParseRequestCondition. by rewrite Hp.
Qed.

Lemma exists_part src p :
  plain_text p = true ->
  part_of (source_text src ++ u "(`" ++ p ++ match src with SHeader => u "`) != ``" | SParam => u "`) != nil" end)
    (ph_cond src p MATCH_EXISTS []).
Proof.
  intros Hp. pose proof (plain_text_clean p Hp) as Hc. destruct src; cbn [source_text]; split;
    try done; try (by repeat apply ends_solid_app); try solve_balanced; try solve_no_amp.
  - by apply parse_param_exists.
  - by apply parse_header_exists.
Qed.

Lemma eq_part src p v :
  plain_text p = true -> value_text v = true ->
  part_of (source_text src ++ u "(`" ++ p ++ u "`) == " ++ buildExprLiteral MATCH_EQ v)
    (ph_cond src p MATCH_EQ v).
Proof.
  intros Hp Hv. pose proof (parse_eq src p v Hp Hv) as Hparse.
  destruct (literal_roundtrip v Hv) as (Hlit & _ & He & _). cbn zeta in *.
  apply literal_clean in Hlit. apply plain_text_clean in Hp. revert Hparse.
  set (lit := buildExprLiteral MATCH_EQ v) in *. intros Hparse. clearbody lit.
  destruct src; cbn [source_text] in *;
    (split; [done|by repeat apply ends_solid_app|solve_balanced|solve_no_amp|done]).
Qed.

Lemma contains_part p v :
  plain_text p = true -> value_text v = true ->
  part_of (u "has(header(`" ++ p ++ u "`), " ++ quote v ++ u ")") (ph_cond SHeader p MATCH_CONTAINS v).
Proof.
  intros Hp (Hu & _ & Hv)%value_text_spec. pose proof (parse_header_contains p v Hp Hu) as Hparse.
  pose proof (literal_clean _ (quote_literal v Hv)) as Hlit. apply plain_text_clean in Hp.
  revert Hlit Hparse. generalize (quote v). intros q Hq Hparse.
  split; [done|by repeat apply ends_solid_app|solve_balanced|solve_no_amp|done].
Qed.

(** The condition the editor holds is its own normal form. *)
Lemma mode_or_id source m fb :
  existsb (fun item => jeqb (mo_value item) m) (getRequestRuleMatchOptions source) = true ->
  mode_or source (Some m) fb = m.
Proof. unfold mode_or. by intros ->. Qed.

Lemma str_or_id s fb : s <> [] -> str_or (Some s) fb = s.
Proof. by destruct s. Qed.

Lemma normalize_time_id t :
  timeFunc t ∈ TIME_FUNCS -> timezone t <> [] ->
  t_mode t ∈ [MATCH_RANGE; MATCH_EQ; MATCH_GTE; MATCH_LT] -> normalize_time t = t.
Proof.
  intros Hf Htz Hm. unfold normalize_time, normalizeCondition.
  cbn [to_partial option_or p_source p_timeFunc p_timezone p_mode p_value p_rangeStart p_rangeEnd].
  rewrite bool_decide_true by done. cbn [isTimeFunc].
  rewrite bool_decide_true, str_or_id, mode_or_id; [by destruct t|..|done|done].
  repeat (apply elem_of_cons in Hm as [->|Hm]; [by vm_compute|]). by apply elem_of_nil in Hm.
Qed.

Lemma normalize_ph_id p :
  path p <> [] -> ph_mode p ∈ [MATCH_EXISTS; MATCH_EQ; MATCH_CONTAINS] -> normalize_ph p = p.
Proof.
  intros Hp Hm. unfold normalize_ph, normalizeCondition.
  cbn [to_partial option_or p_source p_mode p_value p_path].
  rewrite (bool_decide_false (Some _ = Some SOURCE_TIME)) by by destruct (ph_src p).
  rewrite str_or_id, mode_or_id; [by destruct p as [[] ? ? ?]|..|done].
  destruct (ph_src p); cbn [source_name];
    repeat (apply elem_of_cons in Hm as [->|Hm]; [by vm_compute|]); by apply elem_of_nil in Hm.
Qed.

(** How a part is printed inside a conjunction of several. *)
Definition wrap (e : jstr) : jstr := if includes (u " || ") e then u "(" ++ e ++ u ")" else e.

Definition no_bar (s : jstr) : bool := forallb (fun c => negb (c =? ch "|")) s.

Lemma wrap_no_bar e : no_bar e = true -> wrap e = e.
Proof.
  unfold wrap. destruct (includes _ e) eqn:H; [|done].
  apply includes_spec in H as (a & b & ->). unfold no_bar.
  rewrite !forallb_app. by rewrite andb_false_r.
Qed.

(** [part_of] of the text printed, bare and as one of several. *)
Definition prints_as (e : jstr) (c : RequestCondition) : Prop := part_of e c /\ part_of (wrap e) c.

Lemma prints_as_bare e c : no_bar e = true -> part_of e c -> prints_as e c.
Proof. intros He Hc. split; [done|]. by rewrite wrap_no_bar. Qed.

Lemma no_bar_app a b : no_bar (a ++ b) = no_bar a && no_bar b.
Proof. apply forallb_app. Qed.

Lemma clean_no_bar s : clean s = true -> no_bar s = true.
Proof. apply forallb_impl. intros c. rewrite syntax_char_eq. change (ch "|") with 124. lia. Qed.

Ltac solve_no_bar :=
  repeat lazymatch goal with
  | |- no_bar (_ ++ _) = true => rewrite no_bar_app; apply andb_true_intro; split
  | |- no_bar (u _) = true => by vm_compute
  | |- no_bar _ = true => by apply clean_no_bar
  end.

Lemma build_range f tz a b :
  f ∈ TIME_FUNCS -> plain_text tz = true -> numeric a = true -> numeric b = true ->
  buildTimeConditionExpr {| timeFunc := f; timezone := tz; t_mode := MATCH_RANGE; t_value := [];
                            rangeStart := a; rangeEnd := b |} = range_text f tz a b.
Proof.
  intros Hf (Htz & Hp & _)%plain_text_spec Ha Hb. unfold buildTimeConditionExpr.
  rewrite normalize_time_id by (done || by left).
  cbn [timeFunc timezone t_mode t_value rangeStart rangeEnd].
  rewrite !numeric_trim by done. unfold numeric in Ha, Hb. rewrite Ha, Hb, quote_plain by done.
  unfold range_text. change (jeqb MATCH_RANGE MATCH_RANGE) with true. cbn [negb orb].
  change (34 :: tz ++ [34]) with (u "`" ++ tz ++ u "`"). by rewrite <- !(assoc_L (++)).
Qed.

Definition time_op (mode : jstr) : jstr :=
  if jeqb mode MATCH_EQ then u "==" else if jeqb mode MATCH_GTE then u ">=" else u "<".

Lemma build_cmp f tz m v :
  f ∈ TIME_FUNCS -> plain_text tz = true -> m ∈ [MATCH_EQ; MATCH_GTE; MATCH_LT] ->
  numeric v = true ->
  buildTimeConditionExpr {| timeFunc := f; timezone := tz; t_mode := m; t_value := v;
                            rangeStart := []; rangeEnd := [] |} = cmp_text f tz (time_op m) v.
Proof.
  intros Hf (Htz & Hp & _)%plain_text_spec Hm Hv. unfold buildTimeConditionExpr.
  rewrite normalize_time_id by (done || by right).
  cbn [timeFunc timezone t_mode t_value rangeStart rangeEnd].
  rewrite (numeric_trim v) by done. unfold numeric in Hv. rewrite Hv, quote_plain by done.
  change (34 :: tz ++ [34]) with (u "`" ++ tz ++ u "`"). unfold cmp_text.
  repeat (apply elem_of_cons in Hm as [->|Hm]; [by rewrite <- !(assoc_L (++))|]).
  by apply elem_of_nil in Hm.
Qed.

Lemma build_time t : canonical_time t = true -> prints_as (buildTimeConditionExpr t) (CTime t).
Proof.
  destruct t as [f tz m v a b]. unfold canonical_time.
  cbn [timeFunc timezone t_mode t_value rangeStart rangeEnd].
  intros [[Hf%bool_decide_eq_true_1 Htz]%andb_prop Hm]%andb_prop.
  destruct (jeqb m MATCH_RANGE) eqn:Hr.
  - apply jeqb_spec in Hr as ->. apply andb_prop in Hm as [[->%jeqb_spec Ha]%andb_prop Hb].
    rewrite build_range by done. destruct (range_part f tz a b) as [H1 H2]; [done..|].
    split; [done|]. unfold wrap. by destruct (includes _ _).
  - apply andb_prop in Hm as [[[Hm%bool_decide_eq_true_1 Hv]%andb_prop ->%jeqb_spec]%andb_prop ->%jeqb_spec].
    rewrite build_cmp by done.
    assert (time_op m ∈ TIME_OPS /\ time_op_mode (time_op m) = m) as [Hop Hmode].
    { repeat (apply elem_of_cons in Hm as [->|Hm];
        [split; [apply (bool_decide_unpack _); by vm_compute|by vm_compute]|]).
      by apply elem_of_nil in Hm. }
    pose proof (cmp_part f tz (time_op m) v Hf Htz Hop Hv) as Hc. rewrite Hmode in Hc.
    apply prints_as_bare; [|done].
    apply time_func_facts, andb_prop in Hf as [Hf _]. apply plain_text_clean in Htz.
    apply numeric_clean in Hv. unfold cmp_text.
    assert (clean (time_op m) = true) by (unfold time_op; repeat case_match; by vm_compute).
    solve_no_bar.
Qed.

Lemma build_ph p :
  canonical_ph p = true ->
  prints_as (buildRequestConditionExpr (CParamHeader p)) (CParamHeader p).
Proof.
  destruct p as [src p m v]. unfold canonical_ph. cbn [ph_src path ph_mode ph_value].
  intros [[Hp Ht%jeqb_spec]%andb_prop Hm]%andb_prop.
  pose proof (plain_text_spec _ Hp) as (Hne & Hplain & _).
  pose proof (plain_text_clean _ Hp) as Hpc.
  cbn [buildRequestConditionExpr].
  rewrite normalize_ph_id; [|done|].
  2: { cbn [ph_mode]. apply orb_prop in Hm as [[[->%jeqb_spec _]%andb_prop|[->%jeqb_spec _]%andb_prop]%orb_prop|
         [[->%jeqb_spec _]%andb_prop _]%andb_prop]; apply (bool_decide_unpack _); by vm_compute. }
  cbn [ph_src path ph_mode ph_value]. rewrite Ht, quote_plain by done.
  rewrite (proj2 (truthy_spec p) Hne). cbn [negb].
  change (34 :: p ++ [34]) with (u "`" ++ p ++ u "`").
  apply orb_prop in Hm as [[[->%jeqb_spec ->%jeqb_spec]%andb_prop|[->%jeqb_spec Hv]%andb_prop]%orb_prop|
    [[->%jeqb_spec Hv]%andb_prop Hsrc]%andb_prop].
  - pose proof (exists_part src p Hp) as He. apply prints_as_bare.
    all: destruct src; cbn [source_text] in He; rewrite <- !(assoc_L (++)).
    1-2: change (jeqb MATCH_EXISTS MATCH_EXISTS) with true; cbn iota; solve_no_bar.
    all: exact He.
  - pose proof (eq_part src p v Hp Hv) as He.
    destruct (literal_roundtrip v Hv) as (Hlit & _). cbn zeta in *. apply literal_clean in Hlit.
    change (jeqb MATCH_EQ MATCH_EXISTS) with false. change (jeqb MATCH_EQ MATCH_CONTAINS) with false.
    change (obj_get MATCH_EQ _) with (@None jstr). cbn iota. revert He Hlit.
    generalize (buildExprLiteral MATCH_EQ v). intros lit He Hlit.
    apply prints_as_bare; destruct src; cbn [source_text] in He; rewrite <- !(assoc_L (++)).
    1-2: solve_no_bar.
    all: exact He.
  - destruct src; [done|]. pose proof (contains_part p v Hp Hv) as He.
    apply value_text_spec in Hv as (_ & Hvt & Hv).
    pose proof (literal_clean _ (quote_literal v Hv)) as Hlit.
    change (jeqb MATCH_CONTAINS MATCH_EXISTS) with false.
    change (jeqb MATCH_CONTAINS MATCH_CONTAINS) with true. cbn iota.
    unfold buildExprLiteral. rewrite Hvt. change (jeqb MATCH_CONTAINS MATCH_CONTAINS) with true. cbn iota.
    revert He Hlit. generalize (quote v). intros lit He Hlit.
    rewrite <- !(assoc_L (++)). apply prints_as_bare; [solve_no_bar|exact He].
Qed.

Lemma build_condition c : canonical c = true -> prints_as (buildRequestConditionExpr c) c.
Proof. destruct c; [apply build_time|apply build_ph]. Qed.

(** ** Conjunctions, factors, products *)

Lemma balanced_net w : balanced w = true -> net w = 0%Z.
Proof. unfold balanced. intros H. lia. Qed.

Lemma split_and_join parts :
  parts <> [] -> Forall (fun w => balanced w = true /\ no_amp w = true) parts ->
  split_top (u " && ") 0 0 [] (join (u " && ") parts) = parts.
Proof.
  intros Hne Hp. induction Hp as [|w ps [Hb Ha] Hp IH]; [done|].
  apply balanced_net in Hb. destruct ps as [|w' ps].
  - simpl join. rewrite <- (app_nil_r w) at 1. rewrite split_top_part by done. by rewrite Hb.
  - rewrite join_cons, split_top_part by (done || by intros ? ? [= <- _]).
    rewrite Hb. change (0 + 0)%Z with 0%Z.
    change (u " && ") with (32 :: [38; 38; 32]) in *. rewrite split_top_sep by done.
    f_equal. by apply IH.
Qed.

(** Parts with solid ends survive the trim and the filter. *)
Lemma trim_parts parts :
  Forall (fun w => starts_solid w = true /\ ends_solid w = true) parts ->
  jfilter truthy (map trim parts) = parts.
Proof.
  induction 1 as [|w ps [Hs He] _ IH]; [done|]. cbn [map]. rewrite trim_solid by done.
  destruct w as [|c w]; [done|]. simpl. by rewrite IH.
Qed.

Lemma parse_parts parts cs :
  Forall2 part_of parts cs -> parse_and_parts parts = Ret (Some cs).
Proof.
  induction 1 as [|w c ps cs Hw _ IH]; [done|]. cbn [parse_and_parts].
  rewrite trim_solid by apply Hw. rewrite (part_parses _ _ Hw), IH. done.
Qed.

Lemma split_parts parts cs :
  parts <> [] -> Forall2 part_of parts cs ->
  splitTopLevelAnd (join (u " && ") parts) = parts.
Proof.
  intros Hne Hp. unfold splitTopLevelAnd. rewrite split_and_join.
  - apply trim_parts. eapply Forall2_Forall_l; [exact Hp|].
    apply Forall_true. intros c w Hw. split; apply Hw.
  - done.
  - eapply Forall2_Forall_l; [exact Hp|]. apply Forall_true. intros c w Hw. split; apply Hw.
Qed.

Lemma balanced_join sep parts :
  balanced sep = true -> Forall (fun w => balanced w = true) parts -> balanced (join sep parts) = true.
Proof.
  intros Hs Hp. induction Hp as [|w ps Hw Hp IH]; [done|]. destruct ps as [|w' ps]; [done|].
  rewrite join_cons. auto using balanced_app.
Qed.

(** What a group prints between the parentheses. *)
Definition group_parts (cs : list RequestCondition) : list jstr :=
  match cs with
  | [c] => [buildRequestConditionExpr c]
  | _ => map (fun c => wrap (buildRequestConditionExpr c)) cs
  end.

Definition factor_of (e m : jstr) : jstr := u "(" ++ (e ++ u " ? " ++ m ++ u " : 1") ++ u ")".

Definition factor_text (cs : list RequestCondition) (m : jstr) : jstr :=
  factor_of (join (u " && ") (group_parts cs)) m.

Lemma group_parts_spec cs :
  forallb canonical cs = true -> Forall2 part_of (group_parts cs) cs.
Proof.
  intros Hc. assert (Forall2 part_of (map (fun c => wrap (buildRequestConditionExpr c)) cs) cs) as Hw.
  { induction cs as [|c cs IH]; [done|]. cbn [forallb] in Hc. apply andb_prop in Hc as [Hc Hcs].
    constructor; [by apply build_condition|by apply IH]. }
  destruct cs as [|c [|c' cs]]; [done| |done].
  constructor; [|done]. apply build_condition. simpl in Hc. by rewrite andb_true_r in Hc.
Qed.

Lemma build_parts_kept cs :
  forallb canonical cs = true ->
  jfilter truthy (map buildRequestConditionExpr cs) = map buildRequestConditionExpr cs.
Proof.
  induction cs as [|c cs IH]; [done|]. cbn [forallb]. intros [Hc Hcs]%andb_prop.
  cbn [map]. destruct (build_condition c Hc) as [Hp _]. apply part_starts in Hp.
  destruct (buildRequestConditionExpr c); [done|]. simpl. by rewrite IH.
Qed.

Lemma build_factor g :
  canonical_group g = true ->
  buildRuleGroupFactor g = factor_text (conditions g) (multiplier g).
Proof.
  destruct g as [cs m]. unfold canonical_group, buildRuleGroupFactor. cbn [conditions multiplier].
  intros [[Hc Hne]%andb_prop Hm]%andb_prop. rewrite numeric_trim by done.
  unfold numeric in Hm. rewrite Hm. cbn [negb]. rewrite build_parts_kept by done.
  unfold factor_text, factor_of. destruct cs as [|c [|c' cs]]; [done|..]; cbn [map group_parts join].
  - by rewrite <- !(assoc_L (++)).
  - rewrite map_map. by rewrite <- !(assoc_L (++)).
Qed.

(** The tail of a factor is read from its last question mark. *)
Lemma factor_tail_last m b1 b2 p cs :
  forallb num_char m = true ->
  u " ? " ++ m ++ u " : 1)" = b1 ++ b2 -> b1 <> [] ->
  results (rseq [rl " ? "; number_group 2; rl " : 1)"; REol]) (MState p b2 cs) = [].
Proof.
  intros Hm Hb Hne. apply run_rl_fail. cbn [m_rest].
  destruct (starts_with (u " ? ") b2) eqn:Hs; [|done].
  apply starts_with_spec in Hs as [t ->].
  change (u " ? " ++ m ++ u " : 1)") with (32 :: 63 :: 32 :: m ++ [32; 58; 32; 49; 41]) in Hb.
  change (u " ? " ++ t) with (32 :: 63 :: 32 :: t) in Hb.
  destruct b1 as [|x [|y b1]]; [done|simplify_eq/=|]. injection Hb as <- <- Hb.
  assert (forallb (fun c => negb (c =? 63)) (32 :: m ++ [32; 58; 32; 49; 41]) = true) as Hq.
  { cbn [forallb]. rewrite forallb_app. rewrite (forallb_impl num_char _ m); [done| |done].
    intros c. rewrite num_char_eq. unfold is_digit, in_range. lia. }
  rewrite Hb, forallb_app in Hq. cbn [forallb] in Hq. simpl in Hq. lia.
Qed.

Lemma match_factor E m :
  E <> [] -> numeric m = true ->
  rmatch factor_regex (factor_of E m) = Some [(2%nat, m); (1%nat, E)].
Proof.
  intros Hne Hm. unfold factor_regex, factor_of. rewrite rmatch_anchored. unfold start_state, rany.
  rewrite <- !(assoc_L (++)), run_rl.
  change (u " : 1" ++ u ")") with (u " : 1)").
  assert (forall p', exists p, results (rseq [rl " ? "; number_group 2; rl " : 1)"; REol])
    (MState p' (u " ? " ++ m ++ u " : 1)") (set_cap 1 E [])) =
    [MState p [] [(2%nat, m); (1%nat, E)]]) as Hz.
  { intros p'. eexists. rewrite run_rl, run_number by (done || by apply stuck_rl).
    rewrite <- (app_nil_r (u " : 1)")), run_rl, run_eol. done. }
  destruct (Hz (prev_after (prev_after None (u "(")) E)) as [p Hp].
  edestruct (run_group_plus_last 1 (fun _ => true)) as [zs ->].
  - done.
  - by apply forallb_forall.
  - intros b1 b2 p' cs' Hb Hb1. by eapply factor_tail_last; [apply numeric_chars|..].
  - apply Hp.
  - done.
Qed.

Lemma group_parts_nonempty cs :
  forallb canonical cs = true -> cs <> [] ->
  group_parts cs <> [] /\ join (u " && ") (group_parts cs) <> [].
Proof.
  intros Hc%group_parts_spec Hne. destruct Hc as [|w c ws cs' Hw Hws]; [done|]. split; [done|].
  apply part_starts in Hw. destruct w as [|x w]; [done|]. by destruct ws.
Qed.

Lemma canonical_group_spec g :
  canonical_group g = true ->
  forallb canonical (conditions g) = true /\ conditions g <> [] /\ numeric (multiplier g) = true.
Proof.
  unfold canonical_group. intros [[Hc Hn]%andb_prop Hm]%andb_prop. split_and!; [done| |done].
  intros E. by rewrite E in Hn.
Qed.

Lemma parse_factor g :
  canonical_group g = true -> tryParseRuleGroupFactor (buildRuleGroupFactor g) = Ret (Some g).
Proof.
  intros Hg. rewrite build_factor by done. apply canonical_group_spec in Hg as (Hc & Hne & Hm).
  destruct g as [cs m]. cbn [conditions multiplier] in *.
  destruct (group_parts_nonempty cs Hc Hne) as [Hp Hj]. pose proof (group_parts_spec cs Hc) as Hs.
  unfold tryParseRuleGroupFactor, factor_text. rewrite match_factor by done.
  change (group 1 _) with (join (u " && ") (group_parts cs)). change (group 2 _) with m.
  rewrite (split_parts _ cs), (parse_parts _ cs) by done. cbn [obind]. by destruct cs.
Qed.

Lemma parse_factors_build gs :
  forallb canonical_group gs = true -> parse_factors (map buildRuleGroupFactor gs) = Ret (Some gs).
Proof.
  induction gs as [|g gs IH]; [done|]. cbn [forallb map parse_factors]. intros [Hg Hgs]%andb_prop.
  rewrite parse_factor, IH by done. done.
Qed.

(** A product of parenthesised balanced texts. *)
Definition factor_like (w : jstr) : Prop :=
  exists v, w = u "(" ++ v ++ u ")" /\ balanced v = true.

Lemma split_product_join parts :
  parts <> [] -> Forall factor_like parts ->
  split_top (u " * ") 0 0 [] (join (u " * ") parts) = parts.
Proof.
  intros Hne Hp. induction Hp as [|w ps (v & -> & Hv) Hp IH]; [done|].
  destruct ps as [|w' ps].
  - cbn [join]. rewrite <- (app_nil_r (u ")")), split_top_group by done.
    by rewrite app_nil_r.
  - rewrite join_cons, <- !(assoc_L (++)), split_top_group by done.
    change (u " * ") with (32 :: [42; 32]) in *. rewrite split_top_sep by done.
    f_equal. by apply IH.
Qed.

Lemma factor_like_solid w : factor_like w -> starts_solid w = true /\ ends_solid w = true.
Proof. intros (v & -> & _). split; [done|]. by repeat apply ends_solid_app. Qed.

Lemma split_product parts :
  parts <> [] -> Forall factor_like parts ->
  splitTopLevelMultiply (join (u " * ") parts) = parts.
Proof.
  intros Hne Hp. unfold splitTopLevelMultiply. rewrite split_product_join by done.
  apply trim_parts. eapply Forall_impl; [exact Hp|]. apply factor_like_solid.
Qed.

Lemma join_solid sep parts :
  parts <> [] -> Forall factor_like parts ->
  starts_solid (join sep parts) = true /\ ends_solid (join sep parts) = true.
Proof.
  intros Hne Hp. induction Hp as [|w ps Hw Hp IH]; [done|].
  apply factor_like_solid in Hw as [Hs He]. destruct ps as [|w' ps]; [done|].
  rewrite join_cons. destruct IH as [_ He']; [done|].
  split; [by apply starts_solid_app|by repeat apply ends_solid_app].
Qed.

Lemma build_factor_like g : canonical_group g = true -> factor_like (buildRuleGroupFactor g).
Proof.
  intros Hg. rewrite build_factor by done. apply canonical_group_spec in Hg as (Hc & _ & Hm).
  eexists. split; [done|]. apply balanced_app.
  - apply balanced_join; [done|]. eapply Forall2_Forall_l; [by apply group_parts_spec|].
    apply Forall_true. intros c w Hw. apply Hw.
  - apply numeric_clean in Hm. solve_balanced.
Qed.

Lemma build_rules_parts gs :
  forallb canonical_group gs = true ->
  Forall factor_like (map buildRuleGroupFactor gs) /\
  buildRequestRuleExpr gs = join (u " * ") (map buildRuleGroupFactor gs).
Proof.
  intros Hg. assert (Forall factor_like (map buildRuleGroupFactor gs)) as Hf.
  { apply Forall_fmap. apply forallb_Forall in Hg. eapply Forall_impl; [exact Hg|].
    apply build_factor_like. }
  split; [done|]. unfold buildRequestRuleExpr. f_equal. apply jfilter_all.
  eapply Forall_impl; [exact Hf|]. by intros w (v & -> & _).
Qed.

(** The reader on printed rules. *)
Lemma request_rules_read gs :
  forallb canonical_group gs = true ->
  tryParseRequestRuleExpr (buildRequestRuleExpr gs) = Ret (Some gs).
Proof.
  intros Hg. destruct (build_rules_parts gs Hg) as [Hf ->].
  unfold tryParseRequestRuleExpr. destruct gs as [|g gs]; [done|].
  destruct (join_solid (u " * ") (map buildRuleGroupFactor (g :: gs))) as [Hs He]; [done..|].
  rewrite trim_solid by done.
  replace (truthy _) with true by by destruct (join _ _). cbn [negb].
  rewrite split_product by done. by apply parse_factors_build.
Qed.

(** C2: printing rules and parsing the text gives the rules back: for every list of canonical
    rule groups, [tryParseRequestRuleExpr] of what [buildRequestRuleExpr] prints returns, without
    an exception, exactly these groups. *)
Theorem request_rules_roundtrip gs :
  forallb canonical_group gs = true ->
  tryParseRequestRuleExpr (buildRequestRuleExpr gs) = Ret (Some gs).
Proof. exact (request_rules_read gs). Qed.

(** Three groups: a time range with a header, a parameter, a header that contains a text. *)
Definition sample_groups : list RequestRuleGroup :=
  [ {| conditions :=
         [CTime {| timeFunc := u "hour"; timezone := u "Asia/Shanghai"; t_mode := MATCH_RANGE;
                   t_value := []; rangeStart := u "21"; rangeEnd := u "6" |};
          ph_cond SHeader (u "x-plan") MATCH_EXISTS []];
       multiplier := u "0.5" |};
    {| conditions := [ph_cond SParam (u "service_tier") MATCH_EQ (u "a `quoted` text")];
       multiplier := u "2" |};
    {| conditions := [ph_cond SHeader (u "anthropic-beta") MATCH_CONTAINS (u "fast\mode")];
       multiplier := u "1e1" |} ].

Lemma request_rules_roundtrip_witness :
  forallb canonical_group sample_groups = true /\
  tryParseRequestRuleExpr (buildRequestRuleExpr sample_groups) = Ret (Some sample_groups).
Proof.
  split; [by vm_compute|]. apply (request_rules_roundtrip sample_groups). by vm_compute.
Defined.

(** ** Combining and splitting *)

(** A pattern that ends in a literal matches only texts that end in it. *)
Lemma match_suffix l s x y :
  over_class (fun _ => true) (rseq l) ->
  y ∈ results (rseq (l ++ [rlit s; REol])) x -> exists a, m_rest x = a ++ s.
Proof.
  revert x. induction l as [|r l IH]; intros x Hl Hy.
  - destruct x as [p r cs]. exists []. simpl app in *.
    destruct (starts_with s r) eqn:Hs.
    + apply starts_with_spec in Hs as [t ->]. rewrite run_lit in Hy.
      destruct t; [by rewrite app_nil_r|]. by apply elem_of_nil in Hy.
    + rewrite run_lit_fail in Hy by done. by apply elem_of_nil in Hy.
  - destruct Hl as [Hr Hl]. cbn [app] in Hy. rewrite run_cons in Hy.
    rewrite list_elem_of_In, in_flat_map in Hy. destruct Hy as (z & Hz & Hy).
    rewrite <- list_elem_of_In in Hz, Hy. destruct (IH z Hl Hy) as (a & Ha).
    destruct (results_consumed _ _ _ _ Hr Hz) as (b & Hb & _).
    exists (b ++ a). by rewrite Hb, Ha, (assoc_L (++)).
Qed.

Lemma no_factor_regex e :
  ends_with (u " : 1)") e = false -> rmatch factor_regex e = None.
Proof.
  intros He. unfold factor_regex. rewrite rmatch_anchored.
  destruct (results _ _) as [|y ys] eqn:E; [done|].
  destruct (match_suffix [rl "("; RGroup 1 (rplus rany); rl " ? "; number_group 2] (u " : 1)")
              (start_state None e) y) as (a & Ha).
  - cbn. repeat split.
  - assert (y ∈ y :: ys) as Hy by left. rewrite <- E in Hy. exact Hy.
  - cbn in Ha. subst e. unfold ends_with in He.
    by rewrite rev_app_distr, starts_with_app in He.
Qed.

(** The base of a combined expression is recognised as such: no rule ends like it. *)
Definition not_a_rule (base : jstr) : bool := negb (ends_with (u " : 1") base).

Lemma starts_with_snoc p s c :
  forallb (fun d => negb (d =? c)) p = true -> starts_with p s = false ->
  starts_with p (s ++ [c]) = false.
Proof.
  revert s. induction p as [|a p IH]; intros s Hp; [done|]. cbn [forallb] in Hp.
  apply andb_prop in Hp as [Ha Hp]. destruct s as [|b s]; cbn [app starts_with].
  - intros _. apply negb_true_iff in Ha. by rewrite Ha.
  - destruct (a =? b); [|done]. by apply IH.
Qed.

Lemma base_no_factor base :
  not_a_rule base = true -> ends_with (u " : 1)") (u "(" ++ base ++ u ")") = false.
Proof.
  unfold not_a_rule. intros Hr%negb_true_iff. unfold ends_with in *. rewrite !rev_app_distr.
  change (rev (u " : 1)")) with (41 :: rev (u " : 1")). change (rev (u ")")) with [41].
  cbn [app starts_with]. rewrite N.eqb_refl. cbn [andb]. change (rev (u "(")) with [40].
  by apply starts_with_snoc.
Qed.

Lemma base_not_rule base :
  balanced base = true -> not_a_rule base = true ->
  tryParseRequestRuleExpr (u "(" ++ base ++ u ")") = Ret None.
Proof.
  intros Hb Hr. set (e := u "(" ++ base ++ u ")").
  assert (factor_like e) as Hf by by exists base.
  destruct (factor_like_solid e Hf) as [Hs He].
  unfold tryParseRequestRuleExpr. rewrite trim_solid by done. change (truthy e) with true. cbn [negb].
  pose proof (split_product [e] ltac:(done) ltac:(by constructor)) as Hsp. cbn [join] in Hsp.
  rewrite Hsp. cbn [parse_factors]. unfold tryParseRuleGroupFactor.
  by rewrite no_factor_regex by by apply base_no_factor.
Qed.

Lemma classify_rules gs :
  forallb canonical_group gs = true ->
  classify_parts (map buildRuleGroupFactor gs) = Ret (map buildRuleGroupFactor gs, []).
Proof.
  induction gs as [|g gs IH]; [done|]. cbn [forallb map classify_parts]. intros [Hg Hgs]%andb_prop.
  pose proof (build_factor_like g Hg) as Hf. destruct (factor_like_solid _ Hf) as [Hs He].
  unfold tryParseRequestRuleExpr. rewrite trim_solid by done.
  replace (truthy _) with true by by destruct (buildRuleGroupFactor g). cbn [negb].
  pose proof (split_product [buildRuleGroupFactor g] ltac:(done) ltac:(by constructor)) as Hsp.
  cbn [join] in Hsp. rewrite Hsp. cbn [parse_factors]. rewrite parse_factor by done.
  cbn [obind option_map]. by rewrite IH.
Qed.

(** [unwrapOuterParens] takes a full pair of parentheses off at each turn. *)
Lemma full_parens_delta d c t :
  full_parens d (c :: t) =
    if (d + delta c =? 0)%Z && truthy t then false else full_parens (d + delta c) t.
Proof. cbn [full_parens]. by rewrite depth_step. Qed.

Lemma full_parens_inside d w :
  (0 <= d)%Z -> nonneg d w = true -> (d + net w = 0)%Z -> full_parens (1 + d) (w ++ [ch ")"]) = true.
Proof.
  revert d. induction w as [|c w IH]; intros d Hd Hw Hn.
  - simpl in Hn. assert (d = 0%Z) as -> by lia. done.
  - cbn [nonneg net] in *. apply andb_prop in Hw as [Hc Hw]. cbn [app].
    rewrite full_parens_delta. replace (1 + d + delta c =? 0)%Z with false by lia. cbn [andb].
    replace (1 + d + delta c)%Z with (1 + (d + delta c))%Z by lia. apply IH; [lia|done|lia].
Qed.

Lemma full_outer_parens w : balanced w = true -> hasFullOuterParens (u "(" ++ w ++ u ")") = true.
Proof.
  unfold balanced. intros [Hw Hn]%andb_prop. unfold hasFullOuterParens.
  replace (ends_with _ _) with true.
  - cbn [starts_with u app negb orb]. change (u "(" ++ w ++ u ")") with (ch "(" :: (w ++ [ch ")"])).
    rewrite full_parens_delta. change (0 + delta (ch "("))%Z with (1 + 0)%Z.
    cbn [Z.add Z.eqb andb]. apply (full_parens_inside 0); [done..|lia].
  - unfold ends_with. by rewrite !rev_app_distr.
Qed.

Lemma slice_inner_paren w : slice_inner (u "(" ++ w ++ u ")") = w.
Proof.
  unfold slice_inner. change (u "(" ++ w ++ u ")") with (40 :: (w ++ [41])).
  cbn [length drop]. rewrite length_app, drop_0. cbn [length].
  replace (S (length w + 1) - 2)%nat with (length w) by lia. apply take_app_length.
Qed.

Lemma unwrap_once w :
  balanced w = true -> trim w = w -> hasFullOuterParens w = false ->
  unwrapOuterParens (u "(" ++ w ++ u ")") = w.
Proof.
  intros Hb Ht Hf. unfold unwrapOuterParens.
  destruct (factor_like_solid (u "(" ++ w ++ u ")")) as [Hs He]; [by exists w|].
  rewrite trim_solid by done.
  destruct (length (u "(" ++ w ++ u ")")) eqn:Hl; [by rewrite length_app in Hl|].
  cbn [unwrap_loop]. rewrite full_outer_parens, slice_inner_paren, Ht by done.
  destruct n; [done|]. cbn [unwrap_loop]. by rewrite Hf.
Qed.

(** Combining a base with printed rules and splitting again. *)
Lemma combine_split_read base gs :
  base <> [] -> trim base = base -> balanced base = true -> hasFullOuterParens base = false ->
  not_a_rule base = true -> gs <> [] -> forallb canonical_group gs = true ->
  splitBillingExprAndRequestRules (combineBillingExpr base (buildRequestRuleExpr gs))
  = Ret {| billingExpr := base; requestRuleExpr := buildRequestRuleExpr gs |}.
Proof.
  intros Hbne Hbt Hb Hfull Hrule Hgne Hg. destruct (build_rules_parts gs Hg) as [Hf ->].
  set (rules := map buildRuleGroupFactor gs) in *. set (e := u "(" ++ base ++ u ")").
  assert (rules <> []) as Hrne by by destruct gs.
  destruct (join_solid (u " * ") rules) as [Hrs Hre]; [done..|].
  assert (Forall factor_like (e :: rules)) as Hall by (constructor; [by exists base|done]).
  destruct (join_solid (u " * ") (e :: rules)) as [Hs He]; [done..|].
  assert (combineBillingExpr base (join (u " * ") rules) = join (u " * ") (e :: rules)) as ->.
  { unfold combineBillingExpr. rewrite Hbt, (trim_solid (join _ _)) by done.
    replace (truthy base) with true by by destruct base.
    replace (truthy (join _ rules)) with true by by destruct (join (u " * ") rules). cbn [negb].
    destruct rules as [|r rs]; [done|]. rewrite join_cons. unfold e. by rewrite <- !(assoc_L (++)). }
  unfold splitBillingExprAndRequestRules. rewrite trim_solid by done.
  replace (truthy (join _ _)) with true by by destruct (join (u " * ") (e :: rules)). cbn [negb].
  rewrite split_product by done.
  replace (length (e :: rules) <=? 1)%nat with false by by destruct rules.
  assert (tryParseRequestRuleExpr e = Ret None) as Hbase by by apply base_not_rule.
  cbn [classify_parts]. rewrite Hbase. cbn [obind].
  unfold rules. rewrite classify_rules by done. cbn [obind fst snd]. fold rules.
  destruct rules as [|r rs] eqn:Hr; [done|]. rewrite <- Hr. unfold e. by rewrite unwrap_once.
Qed.

(** C31: A base expression that is not empty, is trimmed, has balanced parentheses, is not wrapped as a
    whole in a pair of parentheses and does not end like a rule (with [ : 1]), combined with the printed
    text of a non-empty list of canonical rules, is split into exactly that base and that text. *)
Theorem combine_split_roundtrip base gs :
  base <> [] -> trim base = base -> balanced base = true -> hasFullOuterParens base = false ->
  not_a_rule base = true -> gs <> [] -> forallb canonical_group gs = true ->
  splitBillingExprAndRequestRules (combineBillingExpr base (buildRequestRuleExpr gs))
  = Ret {| billingExpr := base; requestRuleExpr := buildRequestRuleExpr gs |}.
Proof. apply combine_split_read. Qed.

Lemma combine_split_roundtrip_witness :
  splitBillingExprAndRequestRules
    (combineBillingExpr (u "tier(`base`, p * 2.5 + c * 15)") (buildRequestRuleExpr sample_groups))
  = Ret {| billingExpr := u "tier(`base`, p * 2.5 + c * 15)";
           requestRuleExpr := buildRequestRuleExpr sample_groups |}.
Proof. apply combine_split_roundtrip; (done || by vm_compute). Defined.

(** A turn of the loop shortens the text. *)
Lemma full_parens_length s : hasFullOuterParens s = true -> (2 <= length s)%nat.
Proof.
  unfold hasFullOuterParens. destruct s as [|c [|d s]]; [done| |simpl; lia].
  destruct (starts_with (u "(") [c]) eqn:H1; [|done].
  destruct (ends_with (u ")") [c]) eqn:H2; [|done].
  change ((40 =? c) && true = true) in H1. change ((41 =? c) && true = true) in H2. lia.
Qed.

Lemma trim_length s : (length (trim s) <= length s)%nat.
Proof.
  unfold trim, trim_end. rewrite length_rev.
  destruct (trim_start_suffix (rev (trim_start s))) as (p & Hp & _).
  apply (f_equal length) in Hp. rewrite length_app, length_rev in Hp.
  destruct (trim_start_suffix s) as (q & Hq & _).
  apply (f_equal length) in Hq. rewrite length_app in Hq. lia.
Qed.

Lemma unwrap_loop_fuel fuel s :
  (length s <= fuel)%nat -> hasFullOuterParens (unwrap_loop fuel s) = false.
Proof.
  revert s. induction fuel as [|f IH]; intros s Hs; cbn [unwrap_loop].
  - by destruct s; [|simpl in Hs; lia].
  - destruct (hasFullOuterParens s) eqn:H; [|done]. apply IH.
    apply full_parens_length in H. etrans; [apply trim_length|].
    unfold slice_inner. rewrite length_take. lia.
Qed.

Lemma unwrap_loop_trim fuel s : trim s = s -> trim (unwrap_loop fuel s) = unwrap_loop fuel s.
Proof.
  revert s. induction fuel as [|f IH]; intros s Hs; cbn [unwrap_loop]; [done|].
  destruct (hasFullOuterParens s); [|done]. apply IH, trim_idemp.
Qed.

Lemma unwrap_loop_id fuel s : hasFullOuterParens s = false -> unwrap_loop fuel s = s.
Proof. intros H. destruct fuel; cbn [unwrap_loop]; [done|]. by rewrite H. Qed.

(** the loop of [unwrapOuterParens] ends with nothing left to take off: the text it returns
    has no full outer pair of parentheses, and unwrapping it again changes nothing. *)
Theorem unwrap_complete expr :
  hasFullOuterParens (unwrapOuterParens expr) = false /\
  unwrapOuterParens (unwrapOuterParens expr) = unwrapOuterParens expr.
Proof.
  assert (hasFullOuterParens (unwrapOuterParens expr) = false) as H
    by (apply unwrap_loop_fuel, trim_length).
  split; [done|]. assert (trim (unwrapOuterParens expr) = unwrapOuterParens expr) as Ht
    by apply unwrap_loop_trim, trim_idemp.
  unfold unwrapOuterParens at 1. rewrite Ht. by apply unwrap_loop_id.
Qed.

(** ** Where the round trip fails *)

Lemma unread_condition e :
  tryParseTimeCondition e = None ->
  rmatch header_exists_regex e = None -> rmatch param_exists_regex e = None ->
  rmatch header_contains_regex e = None -> rmatch param_contains_regex e = None ->
  rmatch param_cmp_regex e = None -> rmatch eq_regex e = None ->
  tryParseRequestCondition e = Ret None.
Proof.
  intros H1 H2 H3 H4 H5 H6 H7.
  unfold tryParseRequestCondition, parse_param_contains, parse_param_cmp, parse_eq_condition.
  by rewrite H1, H2, H3, H4, H5, H6, H7.
Qed.

(** The conditions on a parameter that print a guard: the text is split at the guard's own
    [ && ], and the second half is no condition. *)
Definition CMP_OPS : list jstr := [u ">"; u ">="; u "<"; u "<="].

Lemma cmp_second_unread p op v :
  plain_text p = true -> op ∈ CMP_OPS ->
  tryParseRequestCondition (u "param(`" ++ p ++ u "`) " ++ op ++ u " " ++ v) = Ret None.
Proof.
  intros Hp Hop.
  repeat (apply elem_of_cons in Hop as [->|Hop]; [|]); [..|by apply elem_of_nil in Hop].
  all: apply unread_condition; [by apply not_time_cond|..];
    unfold header_exists_regex, param_exists_regex, header_contains_regex, param_contains_regex,
      param_cmp_regex, eq_regex; rewrite rmatch_anchored; unfold start_state.
  all: try (by run_cond).
  all: match goal with |- context [u "param(`" ++ ?t] =>
    change (u "param(`" ++ t) with (source_text SParam ++ u "(`" ++ t) end;
    rewrite run_source; by run_cond.
Qed.

Lemma contains_second_unread p v :
  plain_text p = true ->
  tryParseRequestCondition (u "has(param(`" ++ p ++ u "`), " ++ quote v ++ u ")") = Ret None.
Proof.
  intros Hp. apply unread_condition; [by apply not_time_cond|..];
    unfold header_exists_regex, param_exists_regex, header_contains_regex, param_contains_regex,
      param_cmp_regex, eq_regex; rewrite rmatch_anchored; unfold start_state.
  all: try (by run_cond).
Qed.

(** The operator a comparison on a parameter prints, [None] for [contains]. *)
Definition guarded_op (mode : jstr) : option jstr :=
  obj_get mode [(MATCH_GT, u ">"); (MATCH_GTE, u ">="); (MATCH_LT, u "<"); (MATCH_LTE, u "<=")].

Definition GUARDED : list jstr := [MATCH_CONTAINS; MATCH_GT; MATCH_GTE; MATCH_LT; MATCH_LTE].

Definition guarded_second (mode p v : jstr) : jstr :=
  match guarded_op mode with
  | Some op => u "param(`" ++ p ++ u "`) " ++ op ++ u " " ++ v
  | None => u "has(param(`" ++ p ++ u "`), " ++ quote v ++ u ")"
  end.

Definition guarded_cond (mode p v : jstr) : RequestCondition := ph_cond SParam p mode v.

Lemma guarded_cases mode : mode ∈ GUARDED ->
  mode = MATCH_CONTAINS /\ guarded_op mode = None \/
  mode <> MATCH_CONTAINS /\ exists op, guarded_op mode = Some op /\ op ∈ CMP_OPS.
Proof.
  intros Hm. apply elem_of_cons in Hm as [->|Hm]; [by left|]. right.
  repeat (apply elem_of_cons in Hm as [->|Hm];
    [split; [done|]; eexists; split; [done|]; apply (bool_decide_unpack _); by vm_compute|]).
  by apply elem_of_nil in Hm.
Qed.

Lemma guarded_unread mode p v :
  mode ∈ GUARDED -> plain_text p = true ->
  tryParseRequestCondition (guarded_second mode p v) = Ret None.
Proof.
  intros Hm Hp. unfold guarded_second.
  destruct (guarded_cases mode Hm) as [(_ & ->)|(_ & op & -> & Hop)].
  - by apply contains_second_unread.
  - by apply cmp_second_unread.
Qed.

Definition guarded_value (mode v : jstr) : bool :=
  if jeqb mode MATCH_CONTAINS then value_text v else numeric v.

Lemma build_guarded mode p v :
  mode ∈ GUARDED -> plain_text p = true -> trim p = p -> guarded_value mode v = true ->
  buildRequestConditionExpr (guarded_cond mode p v)
  = (u "param(`" ++ p ++ u "`) != nil") ++ u " && " ++ guarded_second mode p v.
Proof.
  intros Hm Hp Ht Hv. pose proof (plain_text_spec _ Hp) as (Hne & Hplain & _).
  assert (normalize_ph {| ph_src := SParam; path := p; ph_mode := mode; ph_value := v |}
          = {| ph_src := SParam; path := p; ph_mode := mode; ph_value := v |}) as Hnorm.
  { unfold normalize_ph, normalizeCondition.
    cbn [to_partial option_or p_source p_mode p_value p_path ph_src path ph_mode ph_value source_name].
    rewrite (bool_decide_false (Some _ = Some SOURCE_TIME)) by done.
    rewrite (bool_decide_false (Some _ = Some SOURCE_HEADER)) by done.
    rewrite str_or_id, mode_or_id by (done ||
      (repeat (apply elem_of_cons in Hm as [->|Hm]; [by vm_compute|]); by apply elem_of_nil in Hm)).
    done. }
  unfold guarded_cond, ph_cond, guarded_second, guarded_value in *. cbn [buildRequestConditionExpr].
  rewrite Hnorm. cbn [ph_src path ph_mode ph_value]. rewrite Ht, quote_plain by done.
  rewrite (proj2 (truthy_spec p) Hne). cbn [negb].
  change (34 :: p ++ [34]) with (u "`" ++ p ++ u "`").
  replace (jeqb mode MATCH_EXISTS) with false.
  2: { repeat (apply elem_of_cons in Hm as [->|Hm]; [by vm_compute|]). by apply elem_of_nil in Hm. }
  destruct (guarded_cases mode Hm) as [(-> & Hop)|(Hne' & op & Hop & _)]; rewrite Hop.
  - change (jeqb MATCH_CONTAINS MATCH_CONTAINS) with true in *. cbn iota in *.
    apply value_text_spec in Hv as (_ & Hvt & _). unfold buildExprLiteral. rewrite Hvt.
    change (jeqb MATCH_CONTAINS MATCH_CONTAINS) with true. cbn iota. by rewrite <- !(assoc_L (++)).
  - apply jeqb_neq in Hne'. rewrite Hne' in *. unfold guarded_op in Hop. rewrite Hop.
    rewrite numeric_trim by done. unfold numeric in Hv. rewrite Hv. cbn [negb].
    by rewrite <- !(assoc_L (++)).
Qed.

Lemma guarded_parts mode p v :
  mode ∈ GUARDED -> plain_text p = true -> guarded_value mode v = true ->
  Forall (fun w => (starts_solid w = true /\ ends_solid w = true) /\ balanced w = true /\ no_amp w = true)
    [u "param(`" ++ p ++ u "`) != nil"; guarded_second mode p v].
Proof.
  intros Hm Hp Hv. pose proof (plain_text_clean _ Hp) as Hc.
  constructor; [split_and!; [done|by repeat apply ends_solid_app|solve_balanced|solve_no_amp]|].
  constructor; [split_and!|done].
  all: unfold guarded_second, guarded_value in *.
  all: destruct (guarded_cases mode Hm) as [(-> & Hop)|(Hne & op & Hop & Hin)]; rewrite Hop.
  all: try (apply jeqb_neq in Hne; rewrite Hne in Hv;
    pose proof (numeric_solid v Hv) as [_ Hve]; apply numeric_clean in Hv;
    assert (clean op = true) by
      (repeat (apply elem_of_cons in Hin as [->|Hin]; [by vm_compute|]); by apply elem_of_nil in Hin)).
  all: try (apply value_text_spec in Hv as (_ & _ & Hv);
    pose proof (literal_clean _ (quote_literal v Hv)) as Hlit; revert Hlit; generalize (quote v);
    intros q Hq).
  all: first [done | by repeat apply ends_solid_app | solve_balanced | solve_no_amp].
Qed.

(** a condition on a parameter with [contains], [gt], [gte], [lt] or [lte] does not survive:
    the text [buildRequestRuleExpr] prints for a rule with such a condition is not read by
    [tryParseRequestRuleExpr], because [splitTopLevelAnd] splits the guard [ != nil && ] off. *)
Theorem guarded_rule_unread mode p v m :
  mode ∈ GUARDED -> plain_text p = true -> trim p = p -> guarded_value mode v = true ->
  numeric m = true ->
  tryParseRequestRuleExpr
    (buildRequestRuleExpr [{| conditions := [guarded_cond mode p v]; multiplier := m |}])
  = Ret None.
Proof.
  intros Hm Hp Ht Hv Hn. pose proof (guarded_parts mode p v Hm Hp Hv) as Hparts.
  set (parts := [u "param(`" ++ p ++ u "`) != nil"; guarded_second mode p v]) in *.
  assert (balanced (join (u " && ") parts) = true) as Hbal.
  { apply balanced_join; [done|]. eapply Forall_impl; [exact Hparts|]. by intros w (_ & ? & _). }
  assert (buildRequestRuleExpr [{| conditions := [guarded_cond mode p v]; multiplier := m |}]
          = factor_of (join (u " && ") parts) m) as ->.
  { unfold buildRequestRuleExpr, buildRuleGroupFactor, factor_of. cbn [map conditions multiplier].
    rewrite numeric_trim by done. unfold numeric in Hn. rewrite Hn, build_guarded by done. cbn [negb].
    assert (forall e, truthy e = true -> jfilter truthy [e] = [e]) as Hk
      by (intros e He; simpl; by rewrite He).
    rewrite !Hk by done. unfold parts. cbn [join]. by rewrite <- !(assoc_L (++)). }
  assert (factor_like (factor_of (join (u " && ") parts) m)) as Hf.
  { eexists. split; [done|]. apply balanced_app; [done|]. apply numeric_clean in Hn. solve_balanced. }
  destruct (factor_like_solid _ Hf) as [Hs He].
  unfold tryParseRequestRuleExpr. rewrite trim_solid by done. cbn [negb].
  change (truthy (factor_of _ m)) with true. cbn [negb].
  pose proof (split_product [_] ltac:(done) ltac:(constructor; [exact Hf|done])) as Hsp.
  cbn [join] in Hsp. rewrite Hsp. cbn [parse_factors]. unfold tryParseRuleGroupFactor.
  rewrite match_factor by done. change (group 1 _) with (join (u " && ") parts).
  unfold splitTopLevelAnd.
  rewrite split_and_join by (done || by eapply Forall_impl; [exact Hparts|]; intros ? []).
  rewrite trim_parts by by eapply Forall_impl; [exact Hparts|]; intros ? [].
  apply Forall_cons in Hparts as [[[] _] [[[] _] _]%Forall_cons].
  unfold parts. cbn [parse_and_parts]. rewrite !trim_solid by done.
  rewrite parse_param_exists, guarded_unread by done. done.
Qed.

Lemma guarded_rule_unread_witness :
  tryParseRequestRuleExpr
    (buildRequestRuleExpr
       [{| conditions := [guarded_cond MATCH_GT (u "max_tokens") (u "4096")]; multiplier := u "2" |}])
  = Ret None.
Proof.
  apply guarded_rule_unread; [apply (bool_decide_unpack _)|..]; by vm_compute.
Defined.

(** reading a rule may throw: a value with an escape that JSON does not have passes the
    pattern and reaches [JSON.parse]. *)
Theorem parse_rule_throws :
  tryParseRequestRuleExpr (u "(has(header(`x`), `\q`) ? 2 : 1)") = Throw.
Proof. by vm_compute. Qed.
