(* ===== verification/TierExpr.v ===== *)
(** * The visual editor of tiered prices

    [web/default/src/features/pricing/lib/tier-expr.ts]: the configuration the editor works on,
    the expression generated from it, and the reader that recovers a configuration from an
    expression.  [evalExprLocally], which compiles the expression with [new Function], is left
    out. *)

From S2P Require Import Prelude JsString JsRegex JsNumber Json BillingExpr.
Open Scope N_scope.

(** ** Configurations *)

Inductive CacheMode := CACHE_MODE_TIMED | CACHE_MODE_GENERIC.

(** [number | string] *)
Inductive cond_value := VNum (x : num) | VStr (s : jstr).

Record TierConditionInput := { ci_var : jstr; ci_op : jstr; ci_value : cond_value }.

(** The unit costs beyond input and output are kept by the name of their field. *)
Record VisualTier := {
  vt_label : jstr;
  vt_conditions : list TierConditionInput;
  input_unit_cost : num;
  output_unit_cost : num;
  cache_mode : CacheMode;
  unit_costs : list (jstr * num)
}.

(** [Partial<VisualTier>]: [None] for a field that is missing. *)
Record PartialTier := {
  p_label : option jstr;
  p_conditions : option (list TierConditionInput);
  p_input : option num;
  p_output : option num;
  p_mode : option CacheMode;
  p_costs : list (jstr * num)
}.

(** [Number(x) || 0] of a field that may be missing. *)
Definition cost_or_zero (x : option num) : num :=
  match x with Some v => f_or v zero | None => zero end.

Definition getTierCacheMode (tier : PartialTier) : CacheMode :=
  match p_mode tier with
  | Some m => m
  | None =>
      match obj_get (u "cache_create_1h_unit_cost") (p_costs tier) with
      | Some x => if flt zero x then CACHE_MODE_TIMED else CACHE_MODE_GENERIC
      | None => CACHE_MODE_GENERIC
      end
  end.

(** The spread of [tier] puts its own label, conditions and base costs over the normalized ones;
    the other costs come after it. *)
Definition normalizeVisualTier (tier : PartialTier) : VisualTier :=
  {| vt_label := option_or (p_label tier) [];
     vt_conditions := option_or (p_conditions tier) [];
     input_unit_cost := option_or (p_input tier) zero;
     output_unit_cost := option_or (p_output tier) zero;
     cache_mode := getTierCacheMode tier;
     unit_costs := map (fun cv => (cv_field cv, cost_or_zero (obj_get (cv_field cv) (p_costs tier))))
                     BILLING_CACHE_VAR_MAP |}.

Definition createDefaultVisualConfig : list VisualTier :=
  [normalizeVisualTier {| p_label := Some (u "base"); p_conditions := Some []; p_input := Some zero;
                          p_output := Some zero; p_mode := Some CACHE_MODE_GENERIC; p_costs := [] |}].

Definition partial_tier (t : VisualTier) : PartialTier :=
  {| p_label := Some (vt_label t); p_conditions := Some (vt_conditions t);
     p_input := Some (input_unit_cost t); p_output := Some (output_unit_cost t);
     p_mode := Some (cache_mode t); p_costs := unit_costs t |}.

(** A configuration is its list of tiers. *)
Definition normalizeVisualConfig (tiers : list VisualTier) : list VisualTier :=
  match tiers with
  | [] => createDefaultVisualConfig
  | _ => map (fun t => normalizeVisualTier (partial_tier t)) tiers
  end.

(** ** The generated expression *)

Definition value_string (v : cond_value) : jstr :=
  match v with VNum x => num_to_string x | VStr s => s end.

Definition usable_condition (c : TierConditionInput) : bool :=
  truthy (ci_var c) && truthy (ci_op c) && match ci_value c with VStr [] => false | _ => true end.

Definition condition_text (c : TierConditionInput) : jstr :=
  ci_var c ++ u " " ++ ci_op c ++ u " " ++ value_string (ci_value c).

Definition buildConditionStr (conditions : list TierConditionInput) : jstr :=
  join (u " && ") (map condition_text (jfilter usable_condition conditions)).

Definition cost_part (var : jstr) (v : num) : jstr := var ++ u " * " ++ num_to_string v.

Definition extra_parts (t : VisualTier) : list jstr :=
  flat_map (fun cv =>
    let v := cost_or_zero (obj_get (cv_field cv) (unit_costs t)) in
    if negb (feq v zero) then [cost_part (exprVar cv) v] else []) BILLING_CACHE_VAR_MAP.

Definition buildTierBodyExpr (t : VisualTier) : jstr :=
  join (u " + ")
    (cost_part (u "p") (f_or (input_unit_cost t) zero)
     :: cost_part (u "c") (f_or (output_unit_cost t) zero) :: extra_parts t).

(** [tier("label", body)] with a default for an empty label. *)
Definition tier_call (default : jstr) (t : VisualTier) : jstr :=
  u "tier(`" ++ (if truthy (vt_label t) then vt_label t else default) ++ u "`, "
  ++ buildTierBodyExpr t ++ u ")".

Definition free_expr : jstr := u "p * 0 + c * 0".

(** The part of the tier with index [i]; the last one has no condition. *)
Definition tier_part (n i : nat) (t : VisualTier) : jstr :=
  let body := tier_call (u "tier_" ++ string_of_N (N.of_nat (i + 1))) t in
  let cond := buildConditionStr (vt_conditions t) in
  if (i <? n - 1)%nat && truthy cond then cond ++ u " ? " ++ body else body.

Definition generateExprFromVisualConfig (tiers : list VisualTier) : jstr :=
  match tiers with
  | [] => free_expr
  | [t] =>
      let body := tier_call (u "default") t in
      let cond := buildConditionStr (vt_conditions t) in
      if truthy cond then cond ++ u " ? " ++ body ++ u " : " ++ free_expr else body
  | _ => join (u " : ") (map (fun '(i, t) => tier_part (length tiers) i t) (enum_from 0 tiers))
  end.

(** ** The reader *)

Definition version_body_regex : regex :=
  rseq [RBol; rl "v"; rplus (RSet is_digit); rl ":"; RGroup 1 (RStar true rany); REol].

Definition number_pat (i : nat) : regex := RGroup i (rplus (RSet num_char)).

(** [(?:\s*\+\s*v\s*\*\s*(\[\d.eE+-\]+))?] *)
Definition opt_cost (i : nat) (v : jstr) : regex :=
  ROpt (rseq [rspaces; rl "+"; rspaces; rlit v; rspaces; rl "*"; rspaces; number_pat i]).

(** The costs, in the groups from [i] on. *)
Definition body_pat (i : nat) : list regex :=
  [rl "p"; rspaces; rl "*"; rspaces; number_pat i; rspaces; rl "+"; rspaces;
   rl "c"; rspaces; rl "*"; rspaces; number_pat (i + 1)]
  ++ map (fun '(k, cv) => opt_cost (i + 2 + k) (exprVar cv)) (enum_from 0 BILLING_CACHE_VAR_MAP).

Definition tier_head (i : nat) : list regex :=
  [rl "tier(`"; RGroup i (RStar true (RSet (none_of (u "`")))); rl "`,"; rspaces].

Definition single_regex : regex := rseq (RBol :: tier_head 1 ++ body_pat 2 ++ [rl ")"; REol]).

Definition tiers_regex : regex :=
  rseq (ROpt (rseq [cond_group; rspaces; rl "?"; rspaces]) :: tier_head 2 ++ body_pat 3 ++ [rl ")"]).

(** The tier of a match whose label is group [i]. *)
Definition match_tier (i : nat) (conditions : list TierConditionInput) (m : list (nat * jstr))
    : PartialTier :=
  {| p_label := Some (group i m); p_conditions := Some conditions;
     p_input := Some (to_number (group (i + 1) m)); p_output := Some (to_number (group (i + 2) m));
     p_mode := None;
     p_costs := flat_map (fun '(k, cv) =>
       match cap (i + 3 + k) m with Some val => [(cv_field cv, to_number val)] | None => [] end)
       (enum_from 0 BILLING_CACHE_VAR_MAP) |}.

Definition match_conditions (m : list (nat * jstr)) : list TierConditionInput :=
  map (fun c => {| ci_var := tc_var c; ci_op := tc_op c; ci_value := VNum (tc_value c) |})
    (parse_conditions (group 1 m)).

Definition strip_space (s : jstr) : jstr := rreplace_all (rplus (RSet is_space)) [] s.

Definition tryParseVisualConfig (exprStr : option jstr) : option (list VisualTier) :=
  match exprStr with
  | None | Some [] => None
  | Some e =>
      let body := match rmatch version_body_regex e with Some m => group 1 m | None => e end in
      match rmatch single_regex body with
      | Some m => Some (normalizeVisualConfig [normalizeVisualTier (match_tier 1 [] m)])
      | None =>
          let tiers := map (fun m => normalizeVisualTier (match_tier 2 (match_conditions m) m))
                         (rexec_all tiers_regex body) in
          match tiers with
          | [] => None
          | _ =>
              let cfg := normalizeVisualConfig tiers in
              if jeqb (strip_space (generateExprFromVisualConfig cfg)) (strip_space body)
              then Some cfg else None
          end
      end
  end.

(** ** Variables of the estimator *)

Definition ESTIMATOR_VARS : list (jstr * jstr) :=
  [(u "cr", u "cacheReadTokens"); (u "cc", u "cacheCreateTokens"); (u "cc1h", u "cacheCreate1hTokens");
   (u "img", u "imageTokens"); (u "img_o", u "imageOutputTokens"); (u "ai", u "audioInputTokens");
   (u "ao", u "audioOutputTokens")].

Definition exprUsesExtraVars (exprStr : jstr) : bool :=
  truthy exprStr &&
  rtest (rseq [RWordB; RGroup 1 (ralt (map (fun f => rlit f.1) ESTIMATOR_VARS)); RWordB]) exprStr.
