(* ===== verification/TierFacts.v ===== *)
(** * Properties of the visual editor of tiered prices

    An expression generated from a canonical configuration is read back as that configuration. *)

From S2P Require Import Prelude JsString JsRegex JsNumber Json JsonFacts BillingExpr BillingRules TierExpr.
Open Scope N_scope.

(** ** Canonical configurations *)

(** A number that is printed in the characters of a cost and read back. *)
Definition cost_ok (x : num) : bool :=
  forallb num_char (num_to_string x) && bool_decide (to_number (num_to_string x) = x).

Definition COND_VARS : list jstr := [u "p"; u "c"; u "len"].
Definition COND_OPS : list jstr := [u "<"; u "<="; u ">"; u ">="].

(** The value of a condition is printed without a minus sign. *)
Definition canonical_condition (c : TierConditionInput) : bool :=
  bool_decide (ci_var c ∈ COND_VARS) && bool_decide (ci_op c ∈ COND_OPS) &&
  match ci_value c with
  | VNum x => truthy (num_to_string x) && forallb cond_num_char (num_to_string x)
              && bool_decide (to_number (num_to_string x) = x)
  | VStr _ => false
  end.

(** The mode that goes with the costs. *)
Definition mode_of (costs : list (jstr * num)) : CacheMode :=
  match obj_get (u "cache_create_1h_unit_cost") costs with
  | Some x => if flt zero x then CACHE_MODE_TIMED else CACHE_MODE_GENERIC
  | None => CACHE_MODE_GENERIC
  end.

Definition CACHE_MODE_eqb (a b : CacheMode) : bool :=
  match a, b with
  | CACHE_MODE_TIMED, CACHE_MODE_TIMED | CACHE_MODE_GENERIC, CACHE_MODE_GENERIC => true
  | _, _ => false
  end.

Definition canonical_tier (t : VisualTier) : bool :=
  truthy (vt_label t) && forallb (none_of (u "`")) (vt_label t) &&
  forallb canonical_condition (vt_conditions t) &&
  cost_ok (input_unit_cost t) && cost_ok (output_unit_cost t) &&
  bool_decide (map fst (unit_costs t) = map cv_field BILLING_CACHE_VAR_MAP) &&
  forallb (fun c => cost_ok c.2) (unit_costs t) &&
  CACHE_MODE_eqb (cache_mode t) (mode_of (unit_costs t)).

(** Every tier but the last has a condition, and the last has none, unless it is alone. *)
Fixpoint conditions_chain (ts : list VisualTier) : bool :=
  match ts with
  | [] => true
  | [t] => match vt_conditions t with [] => true | _ => false end
  | t :: ts' => match vt_conditions t with [] => false | _ => true end && conditions_chain ts'
  end.

Definition canonical_config (ts : list VisualTier) : bool :=
  match ts with
  | [] => false
  | [t] => canonical_tier t
  | _ => forallb canonical_tier ts && conditions_chain ts
  end.

(** ** Costs *)

Lemma cost_ok_spec x :
  cost_ok x = true ->
  num_to_string x <> [] /\ forallb num_char (num_to_string x) = true /\
  to_number (num_to_string x) = x /\ f_or x zero = x /\ (feq x zero = true -> x = zero).
Proof.
  unfold cost_ok. intros [Hc Hr%bool_decide_eq_true]%andb_prop. split_and!; [|done|done|..].
  - intros H. rewrite H in Hr. rewrite <- Hr in H. by vm_compute in H.
  - destruct x as [[]|[]| |[] m e]; try done; by vm_compute in Hr.
  - destruct x as [[]|[]| |[] m e]; try done; by vm_compute in Hr.
Qed.

(** ** Runs over the pieces of an expression *)

Lemma starts_solid_head t : starts_solid t = true -> forall c t', t = c :: t' -> is_space c = false.
Proof. intros H c t' ->. by apply negb_true_iff. Qed.

Lemma first_space l p t cs z :
  starts_solid t = true -> first l (MState (Some 32) t cs) z ->
  first (rspaces :: l) (MState p (u " " ++ t) cs) z.
Proof.
  intros Ht H. eapply first_cons; [|exact H]. unfold rspaces.
  by rewrite head_star_class by (done || by apply starts_solid_head).
Qed.

Lemma first_rl s l p t cs z :
  first l (MState (prev_after p (u s)) t cs) z -> first (rl s :: l) (MState p (u s ++ t) cs) z.
Proof. intros H. eapply first_cons; [apply head_lit|exact H]. Qed.

Lemma first_lit s l p t cs z :
  first l (MState (prev_after p s) t cs) z -> first (rlit s :: l) (MState p (s ++ t) cs) z.
Proof. intros H. eapply first_cons; [apply head_lit|exact H]. Qed.

(** A text that ends a number. *)
Definition ends_number (t : jstr) : bool := match t with c :: _ => negb (num_char c) | [] => true end.

Lemma first_number i l p w t cs z :
  w <> [] -> forallb num_char w = true -> ends_number t = true ->
  first l (MState (prev_after p w) t (set_cap i w cs)) z ->
  first (number_pat i :: l) (MState p (w ++ t) cs) z.
Proof.
  intros Hne Hw Ht H. eapply first_cons; [|exact H]. unfold number_pat.
  rewrite (head_group i _ p w t cs (MState (prev_after p w) t cs)); [done| |done].
  apply head_plus; [done..|]. intros c t' ->. by apply negb_true_iff.
Qed.

Lemma number_solid w t : w <> [] -> forallb num_char w = true -> starts_solid (w ++ t) = true.
Proof.
  intros Hne Hw. destruct w as [|c w]; [done|]. simpl. apply num_char_no_space in Hw.
  simpl in Hw. by apply andb_prop in Hw as [? _].
Qed.

(** [ + v * n] *)
Definition cost_text (v n : jstr) : jstr :=
  u " " ++ u "+" ++ u " " ++ v ++ u " " ++ u "*" ++ u " " ++ n.

(** The pattern of [v] does not read the cost of [w]. *)
Fixpoint apart (v w : jstr) : bool :=
  match v, w with
  | [], c :: _ => negb (is_space c) && negb (c =? ch "*")
  | a :: v', b :: w' => if a =? b then apart v' w' else true
  | a :: _, [] => negb (a =? 32)
  | [], [] => false
  end.

Lemma space_stuck l p t cs :
  starts_solid t = true -> stuck is_space l ->
  results (rseq (rspaces :: l)) (MState p (u " " ++ t) cs) = results (rseq l) (MState (Some 32) t cs).
Proof.
  intros Ht Hl. unfold rspaces.
  rewrite (run_star_class is_space l p (u " ") t cs); [done|done| |done]. by apply starts_solid_head.
Qed.

Lemma no_space_stuck l p t cs :
  (forall c t', t = c :: t' -> is_space c = false) -> stuck is_space l ->
  results (rseq (rspaces :: l)) (MState p t cs) = results (rseq l) (MState p t cs).
Proof. intros Ht Hl. unfold rspaces. exact (run_star_class is_space l p [] t cs eq_refl Ht Hl). Qed.

Lemma stuck_solid v l : starts_solid v = true -> stuck is_space (rlit v :: l).
Proof. destruct v as [|c v]; [done|]. intros H. apply stuck_lit. by apply negb_true_iff. Qed.

Lemma apart_fails v w l p t cs :
  apart v w = true ->
  results (rseq (rlit v :: rspaces :: rl "*" :: l)) (MState p (w ++ u " " ++ t) cs) = [].
Proof.
  revert w p. induction v as [|a v IH]; intros [|b w] p; cbn [apart]; try done.
  - intros [Hs%negb_true_iff Hc%negb_true_iff]%andb_prop.
    change (results (rseq (rlit [] :: rspaces :: rl "*" :: l)) (MState p ((b :: w) ++ u " " ++ t) cs))
      with (flat_map (results (rseq (rspaces :: rl "*" :: l))) [MState p ((b :: w) ++ u " " ++ t) cs]).
    cbn [flat_map]. rewrite app_nil_r, no_space_stuck.
    + apply run_rl_fail. cbn [m_rest app]. change (u "*") with [ch "*"].
      apply starts_with_ne_head. intros Hb. by rewrite <- Hb, N.eqb_refl in Hc.
    + intros c t' Hc'. by injection Hc' as <- _.
    + by apply stuck_rl.
  - intros H%negb_true_iff. rewrite run_lit_fail; [done|]. cbn [m_rest app]. change (u " ") with [32].
    apply starts_with_ne_head. intros Hb. by rewrite Hb, N.eqb_refl in H.
  - destruct (N.eqb_spec a b) as [->|Hab].
    + intros H. specialize (IH w (Some b) H). rewrite run_cons in IH |- *. cbn [rlit results m_rest app m_caps].
      rewrite N.eqb_refl. cbn [flat_map]. rewrite app_nil_r. exact IH.
    + intros _. rewrite run_lit_fail; [done|]. cbn [m_rest app]. by apply starts_with_ne_head.
Qed.

Definition cost_pat (v : jstr) (i : nat) : list regex :=
  [rspaces; rl "+"; rspaces; rlit v; rspaces; rl "*"; rspaces; number_pat i].

(** The pattern of a cost, on the cost of its variable, on another cost and at the end. *)
Lemma cost_reads v i w t p cs :
  starts_solid v = true -> w <> [] -> forallb num_char w = true -> ends_number t = true ->
  first (cost_pat v i) (MState p (cost_text v w ++ t) cs)
    (MState (prev_after p (cost_text v w)) t (set_cap i w cs)).
Proof.
  intros Hv Hne Hw Ht. unfold cost_pat, cost_text. rewrite <- !(assoc_L (++)).
  apply first_space; [done|]. apply first_rl, first_space; [by apply starts_solid_app|].
  apply first_lit, first_space; [done|]. apply first_rl, first_space; [by apply number_solid|].
  apply first_number; [done..|].
  rewrite <- (prev_after_nil (prev_after _ w)) at 1. unfold first. cbn [rseq results head]. do 2 f_equal.
  rewrite !prev_after_app. by destruct w as [|c w] using rev_ind; [|rewrite !prev_after_app].
Qed.

Lemma cost_other v i w n t p cs :
  starts_solid v = true -> starts_solid w = true -> apart v w = true ->
  results (rseq (cost_pat v i)) (MState p (cost_text w n ++ t) cs) = [].
Proof.
  intros Hv Hw Ha. unfold cost_pat, cost_text. rewrite <- !(assoc_L (++)).
  rewrite space_stuck by (done || by apply stuck_rl). rewrite run_rl.
  rewrite space_stuck by (by apply starts_solid_app || by apply stuck_solid).
  by apply apart_fails.
Qed.

Lemma cost_end v i t p cs :
  results (rseq (cost_pat v i)) (MState p (u ")" ++ t) cs) = [].
Proof. unfold cost_pat. rewrite no_space_stuck; [done| |by apply stuck_rl]. intros c t' Hc. by injection Hc as <- _. Qed.

Fixpoint opt_list (i : nat) (vs : list jstr) : list regex :=
  match vs with [] => [] | v :: t => opt_cost i v :: opt_list (S i) t end.

Fixpoint all_apart (vs : list jstr) : bool :=
  match vs with [] => true | v :: t => starts_solid v && forallb (apart v) t && all_apart t end.

(** Variables with the text of their cost, if they have one. *)
Definition number_text (o : option jstr) : Prop :=
  match o with Some n => n <> [] /\ forallb num_char n = true | None => True end.

Definition extras_text (l : list (jstr * option jstr)) : jstr :=
  flat_map (fun '(v, o) => match o with Some n => cost_text v n | None => [] end) l.

Lemma extras_cases l :
  extras_text l = [] \/ exists w n t, w ∈ map fst l /\ extras_text l = cost_text w n ++ t.
Proof.
  induction l as [|[v [n|]] l IH]; [by left|right|].
  - exists v, n, (extras_text l). split; [by left|done].
  - destruct IH as [IH|(w & n & t & Hw & Ht)]; [by left|right]. exists w, n, t. split; [by right|done].
Qed.

Lemma extras_end l t : ends_number (extras_text l ++ u ")" ++ t) = true.
Proof. destruct (extras_cases l) as [-> |(w & n & t' & _ & ->)]; done. Qed.

Lemma all_apart_solid vs w : all_apart vs = true -> w ∈ vs -> starts_solid w = true.
Proof.
  induction vs as [|v vs IH]; cbn [all_apart]; [by intros _ ?%elem_of_nil|].
  intros [[Hv _]%andb_prop Ht]%andb_prop [->|Hw]%elem_of_cons; auto.
Qed.

Lemma cost_absent v i l t p cs :
  all_apart (v :: map fst l) = true ->
  results (rseq (cost_pat v i)) (MState p (extras_text l ++ u ")" ++ t) cs) = [].
Proof.
  cbn [all_apart]. intros [[Hv Ha]%andb_prop Hl]%andb_prop.
  destruct (extras_cases l) as [-> |(w & n & t' & Hw & ->)]; [apply cost_end|].
  rewrite <- (assoc_L (++)). apply cost_other; [done|by eapply all_apart_solid|].
  rewrite forallb_Forall, Forall_forall in Ha. auto.
Qed.

Lemma groups_lit v : groups (rlit v) = [].
Proof. by induction v. Qed.

Lemma cost_reset v i p t cs :
  reset (rseq (cost_pat v i)) (MState p t cs) = MState p t (clear_caps [i] cs).
Proof.
  unfold reset. cbn [m_prev m_rest m_caps]. f_equal. f_equal. unfold cost_pat.
  cbn [rseq groups rspaces]. by rewrite groups_lit.
Qed.

(** The optional costs read the costs that are there, in order. *)
Lemma extras_read l i p caps t :
  all_apart (map fst l) = true -> Forall (fun c => number_text c.2) l ->
  (forall j, (i <= j)%nat -> cap j caps = None) ->
  exists p' caps',
    first (opt_list i (map fst l)) (MState p (extras_text l ++ u ")" ++ t) caps)
      (MState p' (u ")" ++ t) caps') /\
    (forall k c, l !! k = Some c -> cap (i + k) caps' = c.2) /\
    (forall j, (j < i)%nat -> cap j caps' = cap j caps).
Proof.
  revert i p caps. induction l as [|[v o] l IH]; intros i p caps Ha Hn Hc.
  { exists p, caps. split_and!; [done|done|done]. }
  pose proof Ha as Ha'. cbn [map fst all_apart] in Ha. apply andb_prop in Ha as [[Hv _]%andb_prop Ha].
  apply Forall_cons in Hn as [Ho Hn]. cbn [snd] in Ho. cbn [map fst opt_list].
  assert (exists p1 caps1,
    head (results (opt_cost i v) (MState p (extras_text ((v, o) :: l) ++ u ")" ++ t) caps))
    = Some (MState p1 (extras_text l ++ u ")" ++ t) caps1) /\
    cap i caps1 = o /\ (forall j, j <> i -> cap j caps1 = cap j caps)) as (p1 & caps1 & H1 & Hi & Hj).
  { destruct o as [n|].
    - destruct Ho as [Hne Hnum].
      change (extras_text ((v, Some n) :: l)) with (cost_text v n ++ extras_text l).
      exists (prev_after p (cost_text v n)), (set_cap i n (clear_caps [i] caps)). split_and!.
      + apply head_opt_take; [|cbn [m_rest]; rewrite !length_app; simpl; lia].
        rewrite <- (assoc_L (++)). fold (cost_pat v i). rewrite cost_reset.
        apply cost_reads; [done..|]. apply extras_end.
      + by rewrite cap_set, Nat.eqb_refl.
      + intros j Hji. rewrite cap_set, cap_clear. simpl.
        by replace (i =? j)%nat with false by lia; replace (j =? i)%nat with false by lia.
    - change (extras_text ((v, None) :: l)) with (extras_text l).
      exists p, caps. split_and!; [|by apply Hc|done].
      apply head_opt_skip. fold (cost_pat v i). rewrite cost_reset. by apply cost_absent. }
  destruct (IH (S i) p1 caps1 Ha Hn) as (p' & caps' & Hf & Hk & Hlt).
  { intros j Hge. rewrite Hj by lia. apply Hc. lia. }
  exists p', caps'. split_and!.
  - by eapply first_cons.
  - intros [|k] c; simpl.
    + intros [= <-]. cbn [snd]. rewrite Nat.add_0_r, Hlt by lia. done.
    + intros H. rewrite <- (Hk k c H). f_equal. lia.
  - intros j Hji. rewrite Hlt, Hj by lia. done.
Qed.

(** ** The body of a tier *)

Definition body_text (ic oc : jstr) (extras : list (jstr * option jstr)) : jstr :=
  u "p" ++ u " " ++ u "*" ++ u " " ++ ic ++ u " " ++ u "+" ++ u " " ++ u "c" ++ u " " ++ u "*" ++ u " "
  ++ oc ++ extras_text extras.

Definition EXPR_VARS : list jstr := map exprVar BILLING_CACHE_VAR_MAP.

Lemma body_pat_eq i : i = 2%nat \/ i = 3%nat ->
  body_pat i = [rl "p"; rspaces; rl "*"; rspaces; number_pat i; rspaces; rl "+"; rspaces;
                rl "c"; rspaces; rl "*"; rspaces; number_pat (i + 1)] ++ opt_list (i + 2) EXPR_VARS.
Proof. intros [-> | ->]; reflexivity. Qed.

Lemma body_reads i ic oc extras p caps t :
  i = 2%nat \/ i = 3%nat -> map fst extras = EXPR_VARS ->
  number_text (Some ic) -> number_text (Some oc) -> Forall (fun c => number_text c.2) extras ->
  (forall j, (i <= j)%nat -> cap j caps = None) ->
  exists p' caps',
    first (body_pat i) (MState p (body_text ic oc extras ++ u ")" ++ t) caps) (MState p' (u ")" ++ t) caps') /\
    cap i caps' = Some ic /\ cap (i + 1) caps' = Some oc /\
    (forall k c, extras !! k = Some c -> cap (i + 2 + k) caps' = c.2) /\
    (forall j, (j < i)%nat -> cap j caps' = cap j caps).
Proof.
  intros Hi Hv [Hic1 Hic2] [Hoc1 Hoc2] Hex Hc. rewrite body_pat_eq by done.
  set (caps1 := set_cap (i + 1) oc (set_cap i ic caps)).
  assert (forall j, cap j caps1 = if (i + 1 =? j)%nat then Some oc else if (i =? j)%nat then Some ic else cap j caps)
    as H1 by (intros j; unfold caps1; by rewrite !cap_set).
  destruct (extras_read extras (i + 2) (prev_after (Some 32) oc) caps1 t) as (p' & caps' & Hf & Hk & Hlt).
  { rewrite Hv. by vm_compute. }
  { done. }
  { intros j Hj. rewrite H1. replace (i + 1 =? j)%nat with false by lia.
    replace (i =? j)%nat with false by lia. apply Hc. lia. }
  exists p', caps'. split_and!.
  - rewrite Hv in Hf. unfold body_text. rewrite <- !(assoc_L (++)). cbn [app].
    apply first_rl, first_space; [done|]. apply first_rl, first_space; [by apply number_solid|].
    apply first_number; [done..|]. apply first_space; [done|]. apply first_rl, first_space; [done|].
    apply first_rl, first_space; [done|]. apply first_rl, first_space; [by apply number_solid|].
    apply first_number; [done..|apply extras_end|]. exact Hf.
  - rewrite Hlt, H1 by lia. replace (i + 1 =? i)%nat with false by lia. by rewrite Nat.eqb_refl.
  - rewrite Hlt, H1 by lia. by rewrite Nat.eqb_refl.
  - exact Hk.
  - intros j Hj. rewrite Hlt, H1 by lia. replace (i + 1 =? j)%nat with false by lia.
    by replace (i =? j)%nat with false by lia.
Qed.

(** ** A tier *)

Definition call_text (lab body : jstr) : jstr :=
  u "tier(`" ++ lab ++ u "`," ++ u " " ++ body ++ u ")".

Definition not_quote_text (s : jstr) : Prop := forallb (none_of (u "`")) s = true.

Lemma tier_reads i lab ic oc extras p caps t :
  i = 1%nat \/ i = 2%nat -> not_quote_text lab -> map fst extras = EXPR_VARS ->
  number_text (Some ic) -> number_text (Some oc) -> Forall (fun c => number_text c.2) extras ->
  (forall j, (i <= j)%nat -> cap j caps = None) ->
  exists p' caps',
    first (tier_head i ++ body_pat (i + 1) ++ [rl ")"])
      (MState p (call_text lab (body_text ic oc extras) ++ t) caps) (MState p' t caps') /\
    cap i caps' = Some lab /\ cap (i + 1) caps' = Some ic /\ cap (i + 2) caps' = Some oc /\
    (forall k c, extras !! k = Some c -> cap (i + 3 + k) caps' = c.2) /\
    (forall j, (j < i)%nat -> cap j caps' = cap j caps).
Proof.
  intros Hi Hlab Hv Hic Hoc Hex Hc.
  destruct (body_reads (i + 1) ic oc extras (Some 32) (set_cap i lab caps) t)
    as (p' & caps' & Hf & H1 & H2 & Hk & Hlt); [lia|done..| |].
  { intros j Hj. rewrite cap_set. replace (i =? j)%nat with false by lia. apply Hc. lia. }
  exists (prev_after p' (u ")")), caps'. split_and!.
  - unfold call_text. rewrite <- !(assoc_L (++)). eapply first_app.
    + unfold tier_head. apply first_rl. eapply first_cons.
      { rewrite (head_group i _ _ lab _ caps (MState (prev_after (prev_after p (u "tier(`")) lab)
          (u "`," ++ u " " ++ body_text ic oc extras ++ u ")" ++ t) caps)); [reflexivity| |done].
        apply head_star_class; [done|]. intros c t' Hct. by injection Hct as <- _. }
      apply first_rl, first_space; [done|]. apply first_nil.
    + eapply first_app; [exact Hf|]. apply first_rl, first_nil.
  - rewrite Hlt, cap_set by lia. by rewrite Nat.eqb_refl.
  - done.
  - by rewrite <- H2, <- Nat.add_assoc.
  - intros k c H. rewrite <- (Hk k c H). f_equal. lia.
  - intros j Hj. rewrite Hlt, cap_set by lia. by replace (i =? j)%nat with false by lia.
Qed.

(** ** Costs and captures *)

Definition FIELDS : list jstr := map cv_field BILLING_CACHE_VAR_MAP.

Lemma fields_nodup : NoDup FIELDS.
Proof. apply (bool_decide_unpack _). by vm_compute. Qed.

(** Looking up the fields of a list of costs gives the costs. *)
Lemma lookup_fields {B} (h : CacheVar -> option num -> list B) cvs l :
  NoDup (map fst l) -> map fst l = map cv_field cvs ->
  flat_map (fun cv => h cv (obj_get (cv_field cv) l)) cvs
  = flat_map (fun '(cv, c) => h cv (Some c.2)) (zip cvs l).
Proof.
  intros Hnd Hl. assert (forall cv c, (cv, c) ∈ zip cvs l -> obj_get (cv_field cv) l = Some c.2) as Hg.
  { intros cv c Hin. apply obj_get_elem; [done|].
    apply list_elem_of_lookup in Hin as [k Hk]. apply lookup_zip_with_Some in Hk as (cv' & c' & [= <- <-] & H1 & H2).
    assert (map fst l !! k = Some c.1) as E1 by by rewrite list_lookup_fmap, H2.
    assert (map cv_field cvs !! k = Some (cv_field cv)) as E2 by by rewrite list_lookup_fmap, H1.
    rewrite Hl, E2 in E1. injection E1 as ->. destruct c. apply list_elem_of_lookup. eauto. }
  assert (forall cvs' l', map fst l' = map cv_field cvs' ->
    (forall cv c, (cv, c) ∈ zip cvs' l' -> obj_get (cv_field cv) l = Some c.2) ->
    flat_map (fun cv => h cv (obj_get (cv_field cv) l)) cvs'
    = flat_map (fun '(cv, c) => h cv (Some c.2)) (zip cvs' l')) as H; [|by apply H].
  induction cvs' as [|cv cvs' IH]; intros [|c l'] Hl' Hg'; simplify_eq/=; [done|].
  rewrite (Hg' cv c) by by left. f_equal. apply IH; [done|]. intros cv' c' Hin. apply Hg'. by right.
Qed.

(** The costs that are printed. *)
Definition kept (l : list (jstr * num)) : list (jstr * num) :=
  jfilter (fun c => negb (feq c.2 zero)) l.

Lemma kept_get l k :
  NoDup (map fst l) ->
  obj_get k (kept l) =
    match obj_get k l with Some x => if feq x zero then None else Some x | None => None end.
Proof.
  induction l as [|[k' v] l IH]; [done|]. cbn [map fst]. intros [Hk Hl]%NoDup_cons.
  cbn [kept List.filter snd obj_get]. destruct (jeqb k' k) eqn:E.
  - apply jeqb_spec in E as ->. destruct (feq v zero); cbn [negb]; cbn [obj_get]; [|by rewrite jeqb_refl].
    fold (kept l). rewrite IH by done. by rewrite obj_get_absent.
  - destruct (feq v zero); cbn [negb]; cbn [obj_get]; rewrite ?E; by apply IH.
Qed.

(** The texts of the costs, by variable. *)
Definition cost_option (c : jstr * num) : option jstr :=
  if feq c.2 zero then None else Some (num_to_string c.2).
Definition extras_of (l : list (jstr * num)) : list (jstr * option jstr) :=
  zip_with (fun v c => (v, cost_option c)) EXPR_VARS l.

Definition costs_ok (l : list (jstr * num)) : Prop :=
  map fst l = FIELDS /\ forallb (fun c => cost_ok c.2) l = true.

Lemma costs_nodup l : costs_ok l -> NoDup (map fst l).
Proof. intros [-> _]. apply fields_nodup. Qed.

Lemma extras_of_spec l :
  costs_ok l -> map fst (extras_of l) = EXPR_VARS /\ Forall (fun c => number_text c.2) (extras_of l).
Proof.
  intros [Hf Hok]. assert (length l = length EXPR_VARS) as Hlen.
  { apply (f_equal length) in Hf. rewrite length_map in Hf. rewrite Hf. done. }
  split.
  - unfold extras_of. revert Hlen. generalize EXPR_VARS. clear. intros vs. revert l.
    induction vs as [|v vs IH]; intros [|c l] Hlen; simplify_eq/=; [done|]. by rewrite IH.
  - apply Forall_forall. intros e [k Hk]%list_elem_of_lookup.
    apply lookup_zip_with_Some in Hk as (v & c & -> & _ & Hc). cbn [snd]. unfold cost_option.
    apply forallb_Forall in Hok. rewrite Forall_forall in Hok.
    destruct (cost_ok_spec c.2) as (H1 & H2 & _); [apply Hok, list_elem_of_lookup; eauto|].
    by destruct (feq c.2 zero).
Qed.

(** The costs a match has captured are the printed ones. *)
Lemma captured_costs b m cvs l n :
  map fst l = map cv_field cvs -> forallb (fun c => cost_ok c.2) l = true ->
  (forall k c, l !! k = Some c -> cap (b + (n + k)) m = cost_option c) ->
  flat_map (fun '(k, cv) =>
    match cap (b + k) m with Some val => [(cv_field cv, to_number val)] | None => [] end)
    (enum_from n cvs) = kept l.
Proof.
  revert l n. induction cvs as [|cv cvs IH]; intros [|[f x] l] n Hf Hok Hc; [done..|].
  cbn [map fst forallb snd enum_from flat_map] in *. injection Hf as -> Hf.
  apply andb_prop in Hok as [Hx Hok]. destruct (cost_ok_spec x Hx) as (_ & _ & Hr & _ & _).
  pose proof (Hc 0%nat (cv_field cv, x) eq_refl) as Hn. rewrite Nat.add_0_r in Hn. rewrite Hn.
  rewrite (IH l (S n)); [|done|done|].
  - unfold cost_option. simpl. destruct (feq x zero); simpl; [done|]. by rewrite Hr.
  - intros k c' Hk. rewrite <- (Hc (S k) c' Hk). f_equal. lia.
Qed.

(** ** The printed tier and the tier of a match *)

Lemma join_flat sep x l : join sep (x :: l) = x ++ flat_map (fun w => sep ++ w) l.
Proof.
  revert x. induction l as [|y l IH]; intros x; [simpl; by rewrite app_nil_r|].
  rewrite join_cons, IH. cbn [flat_map]. by rewrite <- (assoc_L (++)).
Qed.

Lemma flat_map_flat_map {A B C} (f : B -> list C) (g : A -> list B) l :
  flat_map f (flat_map g l) = flat_map (fun x => flat_map f (g x)) l.
Proof. induction l as [|x l IH]; [done|]. cbn [flat_map]. by rewrite flat_map_app, IH. Qed.

Record tier_wf (t : VisualTier) : Prop := {
  wf_label : vt_label t <> [] /\ not_quote_text (vt_label t);
  wf_conditions : forallb canonical_condition (vt_conditions t) = true;
  wf_input : cost_ok (input_unit_cost t) = true;
  wf_output : cost_ok (output_unit_cost t) = true;
  wf_costs : costs_ok (unit_costs t);
  wf_mode : cache_mode t = mode_of (unit_costs t)
}.

Lemma canonical_tier_wf t : canonical_tier t = true -> tier_wf t.
Proof.
  unfold canonical_tier. rewrite !andb_true_iff, bool_decide_eq_true.
  intros (((((((Hl & Hq) & Hc) & Hi) & Ho) & Hf) & Hx) & Hm). split; try done.
  - split; [by apply truthy_spec|done].
  - by destruct (cache_mode t), (mode_of (unit_costs t)).
Qed.

Lemma plus_text : u " + " = u " " ++ u "+" ++ u " ".
Proof. reflexivity. Qed.

Lemma times_text : u " * " = u " " ++ u "*" ++ u " ".
Proof. reflexivity. Qed.

Lemma extras_join l :
  costs_ok l ->
  flat_map (fun w => u " + " ++ w)
    (flat_map (fun cv =>
       let v := cost_or_zero (obj_get (cv_field cv) l) in
       if negb (feq v zero) then [cost_part (exprVar cv) v] else []) BILLING_CACHE_VAR_MAP)
  = extras_text (extras_of l).
Proof.
  intros Hl. pose proof (costs_nodup l Hl) as Hnd. destruct Hl as [Hf Hok].
  rewrite (lookup_fields (fun cv o => let v := cost_or_zero o in
    if negb (feq v zero) then [cost_part (exprVar cv) v] else []) BILLING_CACHE_VAR_MAP l Hnd Hf).
  rewrite flat_map_flat_map. unfold extras_text, extras_of, EXPR_VARS.
  assert (length l = length BILLING_CACHE_VAR_MAP) as Hlen.
  { apply (f_equal length) in Hf. rewrite length_map in Hf. by rewrite Hf. }
  clear Hnd Hf. revert l Hok Hlen. generalize BILLING_CACHE_VAR_MAP as cvs.
  induction cvs as [|cv cvs IH]; intros [|[f x] l] Hok Hlen; [done..|].
  cbn [forallb snd] in Hok. apply andb_prop in Hok as [Hx Hok]. injection Hlen as Hlen.
  cbn [zip zip_with map flat_map snd cost_or_zero]. rewrite <- IH by done. f_equal.
  destruct (cost_ok_spec x Hx) as (_ & _ & _ & -> & _). unfold cost_option. cbn [snd].
  destruct (feq x zero); [done|]. cbn [negb flat_map]. rewrite app_nil_r.
  unfold cost_part, cost_text. by rewrite plus_text, times_text, <- !(assoc_L (++)).
Qed.

Definition tier_text (t : VisualTier) : jstr :=
  call_text (vt_label t)
    (body_text (num_to_string (input_unit_cost t)) (num_to_string (output_unit_cost t))
       (extras_of (unit_costs t))).

Lemma tier_call_text d t : tier_wf t -> tier_call d t = tier_text t.
Proof.
  intros [[Hl _] _ Hi Ho Hc _]. unfold tier_call, tier_text, call_text.
  rewrite (proj2 (truthy_spec (vt_label t)) Hl). f_equal. f_equal.
  change (u "`, ") with (u "`," ++ u " "). rewrite <- (assoc_L (++)). f_equal. f_equal. f_equal.
  unfold buildTierBodyExpr, extra_parts. rewrite !join_flat. cbn [flat_map].
  rewrite extras_join by done.
  destruct (cost_ok_spec _ Hi) as (_ & _ & _ & -> & _).
  destruct (cost_ok_spec _ Ho) as (_ & _ & _ & -> & _).
  unfold body_text, cost_part. by rewrite plus_text, times_text, <- !(assoc_L (++)).
Qed.

Lemma map_flat_map {A B} (f : A -> B) l : map f l = flat_map (fun x => [f x]) l.
Proof. induction l as [|x l IH]; [done|]. simpl. by rewrite IH. Qed.

(** Normalizing the costs, or the printed ones among them, changes nothing. *)
Lemma normalize_costs l k :
  costs_ok l ->
  (forall f, obj_get f k = obj_get f l \/
     obj_get f k = match obj_get f l with Some x => if feq x zero then None else Some x | None => None end) ->
  map (fun cv => (cv_field cv, cost_or_zero (obj_get (cv_field cv) k))) BILLING_CACHE_VAR_MAP = l.
Proof.
  intros Hl Hk. pose proof (costs_nodup l Hl) as Hnd. destruct Hl as [Hf Hok].
  assert (forall f x, obj_get f l = Some x -> cost_ok x = true) as Hget.
  { apply forallb_Forall in Hok. clear -Hok. induction Hok as [|[f x] l Hx _ IH]; [done|].
    intros f' x'. cbn [obj_get]. destruct (jeqb f f'); [by intros [= <-]|apply IH]. }
  transitivity (map (fun cv => (cv_field cv, cost_or_zero (obj_get (cv_field cv) l))) BILLING_CACHE_VAR_MAP).
  { apply map_ext. intros cv. f_equal. destruct (Hk (cv_field cv)) as [-> | ->]; [done|].
    destruct (obj_get (cv_field cv) l) as [x|] eqn:Hx; [|done].
    destruct (cost_ok_spec x (Hget _ _ Hx)) as (_ & _ & _ & Hor & Hz).
    destruct (feq x zero) eqn:Hfe; [|done]. simpl. by rewrite Hor, Hz. }
  rewrite map_flat_map, (lookup_fields (fun cv o => [(cv_field cv, cost_or_zero o)]) _ l Hnd Hf).
  clear Hk Hget Hnd. revert l Hf Hok. unfold FIELDS. generalize BILLING_CACHE_VAR_MAP as cvs.
  induction cvs as [|cv cvs IH]; intros [|[f x] l] Hf Hok; [done..|].
  cbn [map fst forallb snd] in *. injection Hf as -> Hf. apply andb_prop in Hok as [Hx Hok].
  cbn [zip zip_with flat_map snd app cost_or_zero].
  destruct (cost_ok_spec x Hx) as (_ & _ & _ & -> & _). f_equal. by apply IH.
Qed.

Definition with_conditions (cs : list TierConditionInput) (t : VisualTier) : VisualTier :=
  {| vt_label := vt_label t; vt_conditions := cs; input_unit_cost := input_unit_cost t;
     output_unit_cost := output_unit_cost t; cache_mode := cache_mode t; unit_costs := unit_costs t |}.

(** Normalizing a tier in normal form changes nothing. *)
Lemma normalize_tier_id t : tier_wf t -> normalizeVisualTier (partial_tier t) = t.
Proof.
  intros [_ _ _ _ Hc _]. unfold normalizeVisualTier, partial_tier, getTierCacheMode.
  cbn [p_label p_conditions p_input p_output p_mode p_costs option_or].
  rewrite (normalize_costs (unit_costs t) (unit_costs t)) by (done || by left). by destruct t.
Qed.

(** The tier of a match of the text of a tier. *)
Lemma match_tier_text i m cs t :
  tier_wf t ->
  cap i m = Some (vt_label t) ->
  cap (i + 1) m = Some (num_to_string (input_unit_cost t)) ->
  cap (i + 2) m = Some (num_to_string (output_unit_cost t)) ->
  (forall k c, extras_of (unit_costs t) !! k = Some c -> cap (i + 3 + k) m = c.2) ->
  normalizeVisualTier (match_tier i cs m) = with_conditions cs t.
Proof.
  intros [_ _ Hi Ho Hc Hm] H1 H2 H3 H4. unfold normalizeVisualTier, match_tier, getTierCacheMode, group.
  cbn [p_label p_conditions p_input p_output p_mode p_costs option_or].
  destruct (cost_ok_spec _ Hi) as (_ & _ & Hri & _). destruct (cost_ok_spec _ Ho) as (_ & _ & Hro & _).
  pose proof (costs_nodup _ Hc) as Hnd. pose proof Hc as [Hf Hok].
  rewrite H1, H2, H3. cbn [option_or]. rewrite Hri, Hro.
  rewrite (captured_costs (i + 3) m BILLING_CACHE_VAR_MAP (unit_costs t) 0); [|done|done|].
  2: { intros k c Hk. simpl.
       assert (length (unit_costs t) = length EXPR_VARS) as Hlen.
       { apply (f_equal length) in Hf. rewrite length_map in Hf. by rewrite Hf. }
       assert (k < length EXPR_VARS)%nat as Hlt by (rewrite <- Hlen; by eapply lookup_lt_Some).
       apply lookup_lt_is_Some in Hlt as [v Hv].
       apply (H4 k (v, cost_option c)). unfold extras_of. rewrite lookup_zip_with, Hv, Hk. done. }
  rewrite (normalize_costs (unit_costs t) (kept (unit_costs t))) by (done || (intros f; right; by apply kept_get)).
  unfold with_conditions. f_equal. rewrite Hm. unfold mode_of. rewrite kept_get by done.
  destruct (obj_get _ (unit_costs t)) as [x|]; [|done].
  destruct (feq x zero) eqn:Hz; [|done]. by destruct x as [[]|[]| |[] ??].
Qed.

(** ** Conditions *)

Definition atom_text (v op n : jstr) : jstr := v ++ u " " ++ op ++ u " " ++ n.

Definition ends_cond (t : jstr) : bool := match t with c :: _ => negb (cond_num_char c) | [] => true end.

Lemma cond_num_char_eq :
  cond_num_char = fun c => in_range 48 57 c || ((c =? 46) || ((c =? 101) || ((c =? 69) || ((c =? 43) || false)))).
Proof. reflexivity. Qed.

Lemma cond_num_no_space c : cond_num_char c = true -> is_space c = false /\ c <> 38.
Proof. rewrite cond_num_char_eq. unfold is_space, in_range. lia. Qed.

Lemma cond_num_solid w t : w <> [] -> forallb cond_num_char w = true -> starts_solid (w ++ t) = true.
Proof.
  intros Hne Hw. destruct w as [|c w]; [done|]. simpl in *. apply andb_prop in Hw as [Hc _].
  by destruct (cond_num_no_space c Hc) as [-> _].
Qed.

Lemma results_var v p t cs :
  v ∈ COND_VARS ->
  results cond_var (MState p (v ++ u " " ++ t) cs) = [MState (prev_after p v) (u " " ++ t) cs].
Proof.
  intros Hv. repeat (apply elem_of_cons in Hv as [->|Hv]; [reflexivity|]). by apply elem_of_nil in Hv.
Qed.

(** The operators are tried in order, so a longer one comes after a state that leaves its [=]. *)
Lemma results_op op p t cs :
  op ∈ COND_OPS ->
  exists pre, results cond_op (MState p (op ++ u " " ++ t) cs)
              = pre ++ [MState (prev_after p op) (u " " ++ t) cs] /\
    Forall (fun y => m_rest y = u "=" ++ u " " ++ t) pre.
Proof.
  intros Hop. repeat (apply elem_of_cons in Hop as [->|Hop]; [|]); [..|by apply elem_of_nil in Hop].
  - by exists [].
  - exists [MState (Some 60) (u "=" ++ u " " ++ t) cs]. split; [reflexivity|by constructor].
  - by exists [].
  - exists [MState (Some 62) (u "=" ++ u " " ++ t) cs]. split; [reflexivity|by constructor].
Qed.

(** An operator, perhaps captured, before a number. *)
Lemma first_op r g l op p t cs z :
  results r (MState p (op ++ u " " ++ t) cs) = map g (results cond_op (MState p (op ++ u " " ++ t) cs)) ->
  (forall y, m_rest (g y) = m_rest y) ->
  op ∈ COND_OPS -> (forall y, m_rest y = u "=" ++ u " " ++ t -> results (rseq l) y = []) ->
  first l (g (MState (prev_after p op) (u " " ++ t) cs)) z ->
  first (r :: l) (MState p (op ++ u " " ++ t) cs) z.
Proof.
  intros Hr Hg Hop Hfail Hz. unfold first in *. rewrite run_cons, Hr.
  destruct (results_op op p t cs Hop) as (pre & -> & Hpre). rewrite map_app, flat_map_app.
  rewrite flat_map_all_nil.
  - cbn [map app]. by eapply head_flat_map.
  - intros y (y' & -> & Hy')%list_elem_of_fmap. apply Hfail. rewrite Hg.
    rewrite Forall_forall in Hpre. auto.
Qed.

Lemma stuck_number r l :
  (forall x, m_rest x = [] \/ (exists c t, m_rest x = c :: t /\ cond_num_char c = false) -> results r x = []) ->
  stuck is_space (r :: l) /\ forall y t, m_rest y = u "=" ++ t -> results (rseq (rspaces :: r :: l)) y = [].
Proof.
  intros Hr. assert (stuck is_space (r :: l)) as Hs.
  { intros p c t cs Hc. rewrite run_cons, Hr; [done|]. right. exists c, t. split; [done|].
    destruct (cond_num_char c) eqn:E; [|done]. apply cond_num_no_space in E. rewrite Hc in E. by destruct E. }
  split; [done|]. intros [p s cs] t Hy. cbn [m_rest] in Hy. subst s.
  rewrite no_space_stuck; [|intros c t' Hc; by injection Hc as <- _|done].
  rewrite run_cons, Hr; [done|]. right. by eexists _, _.
Qed.

Lemma plus_fails x :
  m_rest x = [] \/ (exists c t, m_rest x = c :: t /\ cond_num_char c = false) ->
  results (rplus (RSet cond_num_char)) x = [].
Proof. unfold rplus. cbn [results]. by intros [-> |(c & t & -> & ->)]. Qed.

(** A condition of a tier. *)
Lemma atom_reads v op n p t cs :
  v ∈ COND_VARS -> op ∈ COND_OPS -> n <> [] -> forallb cond_num_char n = true -> ends_cond t = true ->
  head (results cond_atom (MState p (atom_text v op n ++ t) cs))
  = Some (MState (prev_after p (atom_text v op n)) t cs).
Proof.
  intros Hv Hop Hne Hn Ht. unfold cond_atom, atom_text. rewrite <- !(assoc_L (++)).
  destruct (stuck_number (rplus (RSet cond_num_char)) [] plus_fails) as [_ Hfail].
  eapply first_cons; [by rewrite results_var|]. apply first_space.
  { by repeat (apply elem_of_cons in Hop as [->|Hop]; [reflexivity|]); apply elem_of_nil in Hop. }
  eapply (first_op cond_op id); [by rewrite map_id|done|done|by intros y; apply Hfail|].
  cbn [id]. apply first_space; [by apply cond_num_solid|].
  eapply first_cons; [apply head_plus; [done..|intros c t' ->; by apply negb_true_iff]|].
  rewrite !prev_after_app. apply first_nil.
Qed.

(** The conditions of a canonical tier, as texts. *)
Lemma canonical_condition_spec c :
  canonical_condition c = true ->
  exists x, ci_value c = VNum x /\ condition_text c = atom_text (ci_var c) (ci_op c) (num_to_string x) /\
    ci_var c ∈ COND_VARS /\ ci_op c ∈ COND_OPS /\ num_to_string x <> [] /\
    forallb cond_num_char (num_to_string x) = true /\ to_number (num_to_string x) = x.
Proof.
  unfold canonical_condition. rewrite !andb_true_iff, !bool_decide_eq_true. intros [[Hv Ho] H].
  unfold condition_text. destruct (ci_value c) as [x|]; [|done]. exists x.
  apply andb_prop in H as [[H1 H2]%andb_prop H3%bool_decide_eq_true]. by rewrite truthy_spec in H1.
Qed.

Lemma canonical_usable cs :
  forallb canonical_condition cs = true -> jfilter usable_condition cs = cs.
Proof.
  rewrite forallb_Forall. intros H. apply jfilter_all. eapply Forall_impl; [exact H|]. cbn beta.
  intros c (x & Hx & _ & Hv & Ho & _)%canonical_condition_spec. unfold usable_condition. rewrite Hx.
  assert (truthy (ci_var c) = true /\ truthy (ci_op c) = true) as [-> ->]; [|done].
  split; [repeat (apply elem_of_cons in Hv as [->|Hv]; [done|]); by apply elem_of_nil in Hv|].
  repeat (apply elem_of_cons in Ho as [->|Ho]; [done|]); by apply elem_of_nil in Ho.
Qed.

Definition and_atom : list regex := [rspaces; rl "&&"; rspaces; cond_atom].

Definition and_text (c : TierConditionInput) : jstr := u " " ++ u "&&" ++ u " " ++ condition_text c.

Lemma atom_solid v op n t : v ∈ COND_VARS -> starts_solid (atom_text v op n ++ t) = true.
Proof.
  intros Hv. repeat (apply elem_of_cons in Hv as [->|Hv]; [reflexivity|]). by apply elem_of_nil in Hv.
Qed.

Lemma condition_reads c p t cs :
  canonical_condition c = true -> ends_cond t = true ->
  head (results cond_atom (MState p (condition_text c ++ t) cs))
  = Some (MState (prev_after p (condition_text c)) t cs) /\ starts_solid (condition_text c ++ t) = true.
Proof.
  intros (x & _ & -> & Hv & Ho & Hne & Hn & _)%canonical_condition_spec Ht.
  split; [by apply atom_reads|by apply atom_solid].
Qed.

Lemma conditions_join c cs :
  join (u " && ") (map condition_text (c :: cs)) = condition_text c ++ concat (map and_text cs).
Proof.
  cbn [map]. rewrite join_flat. f_equal. rewrite flat_map_map, flat_map_concat_map. f_equal.
Qed.

Lemma and_text_end cs t :
  ends_cond (concat (map and_text cs) ++ u " " ++ u "?" ++ u " " ++ t) = true.
Proof. by destruct cs. Qed.

(** The conditions before a tier. *)
Lemma conditions_read c cs p t :
  forallb canonical_condition (c :: cs) = true -> starts_solid t = true ->
  exists p', head (results (ROpt (rseq [cond_group; rspaces; rl "?"; rspaces]))
    (MState p (join (u " && ") (map condition_text (c :: cs)) ++ u " " ++ u "?" ++ u " " ++ t) []))
  = Some (MState p' t [(1%nat, join (u " && ") (map condition_text (c :: cs)))]).
Proof.
  cbn [forallb]. intros [Hc Hcs]%andb_prop Ht. rewrite conditions_join.
  set (b := u " " ++ u "?" ++ u " " ++ t). set (text := condition_text c ++ concat (map and_text cs)).
  exists (Some 32). apply head_opt_take; [|cbn [m_rest]; unfold text, b; rewrite !length_app; simpl; lia].
  change (reset _ (MState p (text ++ b) [])) with (MState p (text ++ b) []).
  assert (head (results (rseq [cond_atom; RStar true (rseq and_atom)]) (MState p (text ++ b) []))
          = Some (MState (prev_after p text) b [])) as Hg.
  { unfold text. rewrite <- (assoc_L (++)). eapply first_cons.
    { apply condition_reads; [done|]. unfold b. apply and_text_end. }
    eapply first_cons; [apply head_star_chunks|rewrite prev_after_app; apply first_nil].
    - done.
    - intros p' pre v Hv Hne. destruct v as [|w v]; [done|]. cbn [concat hd tl].
      assert (exists c' cs', w = and_text c' /\ v = map and_text cs' /\ canonical_condition c' = true)
        as (c' & cs' & -> & -> & Hc').
      { apply map_eq_app in Hv as (c1 & [|c' cs'] & -> & <- & Hv); [done|]. injection Hv as <- <-.
        exists c', cs'. split_and!; [done..|]. rewrite forallb_app in Hcs. simpl in Hcs. by bool_to_prop. }
      unfold and_text at 1. rewrite <- !(assoc_L (++)).
      destruct (condition_reads c' (Some 32) (concat (map and_text cs') ++ b) []) as [Hr Hs];
        [done|apply and_text_end|].
      apply first_space; [done|]. apply first_rl, first_space; [done|].
      eapply first_cons; [exact Hr|]. unfold and_text. rewrite !prev_after_app. apply first_nil.
    - apply Forall_forall. by intros w (c' & -> & _)%list_elem_of_fmap.
    - intros p'. unfold b. fold (rseq and_atom). unfold and_atom.
      rewrite space_stuck; [|done|by apply stuck_rl]. by apply run_rl_fail. }
  eapply first_cons.
  { unfold cond_group. fold and_atom.
    apply (head_group 1 _ p text b [] (MState (prev_after p text) b [])); [exact Hg|done]. }
  unfold b. apply first_space; [done|]. apply first_rl, first_space; [done|]. apply first_nil.
Qed.

Lemma no_conditions_read p t :
  head (results (ROpt (rseq [cond_group; rspaces; rl "?"; rspaces])) (MState p (u "tier(`" ++ t) []))
  = Some (MState p (u "tier(`" ++ t) []).
Proof. reflexivity. Qed.

(** ** Reading the conditions *)

Definition no_ampersand (s : jstr) : bool := forallb (fun c => negb (c =? 38)) s.

(** A part between two [&&]. *)
Definition and_part (w : jstr) : Prop :=
  w <> [] /\ starts_solid w = true /\ ends_solid w = true /\ no_ampersand w = true.

Lemma no_split_inside p w t :
  w <> [] -> ends_solid w = true -> no_ampersand w = true -> match_at and_split p (w ++ t) = None.
Proof.
  intros Hne He Hw. rewrite match_at_results. unfold and_split, start_state, rspaces.
  destruct (span is_space w) as [a b] eqn:Hs. apply span_spec in Hs as (-> & Ha & Hb).
  destruct b as [|c b].
  { destruct a as [|c a _] using rev_ind; [done|]. rewrite app_nil_r in He.
    unfold ends_solid in He. rewrite last_snoc in He. rewrite forallb_app in Ha. simpl in Ha.
    apply andb_prop in Ha as [_ [Hc _]%andb_prop]. by rewrite Hc in He. }
  rewrite <- (assoc_L (++)), run_star_class; [|done| |by apply stuck_rl].
  - rewrite run_rl_fail; [done|]. apply starts_with_ne_head.
    unfold no_ampersand in Hw. rewrite forallb_app in Hw.
    apply andb_prop in Hw as [_ [Hc _]%andb_prop]. change (ch "&") with 38. intros <-. done.
  - intros c' t' Hc. injection Hc as <- _. by apply (Hb c b).
Qed.

Lemma split_here p t :
  starts_solid t = true -> match_at and_split p (u " && " ++ t) = Some (MState (Some 32) t []).
Proof.
  intros Ht. apply match_at_first. change (u " && ") with (u " " ++ u "&&" ++ u " ").
  rewrite <- !(assoc_L (++)). apply first_space; [done|]. apply first_rl, first_space; [done|].
  apply first_nil.
Qed.

Lemma and_part_suffix w b c d : and_part w -> w = b ++ c :: d -> ends_solid (c :: d) = true /\ no_ampersand (c :: d) = true.
Proof.
  intros (_ & _ & He & Hw) ->. unfold no_ampersand in *. rewrite forallb_app in Hw.
  apply andb_prop in Hw as [_ Hw]. split; [|done]. unfold ends_solid in *. rewrite last_app in He.
  destruct (last (c :: d)) as [x|] eqn:E; [done|]. by apply last_None in E.
Qed.

Lemma split_parts_exec w ws fuel p :
  Forall and_part (w :: ws) -> (length ws < fuel)%nat ->
  map fst (exec_all fuel and_split p (join (u " && ") (w :: ws))).1
  ++ [(exec_all fuel and_split p (join (u " && ") (w :: ws))).2] = w :: ws.
Proof.
  revert w p fuel. induction ws as [|w' ws IH]; intros w p fuel [Hw Hws]%Forall_cons Hf;
    (destruct fuel as [|fuel]; [simpl in Hf; lia|]); cbn [exec_all].
  - cbn [join]. rewrite search_none; [done|]. intros b d Hb. destruct d as [|c d]; [by rewrite match_at_results|].
    destruct (and_part_suffix w b c d Hw Hb). rewrite <- (app_nil_r (c :: d)). by apply no_split_inside.
  - rewrite join_cons. erewrite search_skip; [| |apply split_here].
    + cbn [m_prev m_rest m_caps]. specialize (IH w' (Some 32) fuel Hws). simpl in Hf.
      destruct (exec_all fuel and_split (Some 32) _) as [ms rest]. cbn [fst snd map app] in *.
      rewrite IH by lia. done.
    + intros b c d Hb. destruct (and_part_suffix w b c d Hw Hb). by apply no_split_inside.
    + apply Forall_cons in Hws as [(_ & Hs & _) _]. destruct ws; [done|]. by apply starts_solid_app.
Qed.

Lemma rsplit_parts w ws : Forall and_part (w :: ws) -> rsplit and_split (join (u " && ") (w :: ws)) = w :: ws.
Proof.
  intros H. unfold rsplit.
  assert (forall ws v, length ws < S (length (join (u " && ") (v :: ws))))%nat as Hlen.
  { induction ws0 as [|v' vs IH]; intros v; [simpl; lia|]. rewrite join_cons, !length_app.
    specialize (IH v'). simpl length. simpl length in IH. lia. }
  pose proof (split_parts_exec w ws _ None H (Hlen ws w)) as E.
  by destruct (exec_all _ _ _ _).
Qed.

Lemma no_space_last v s : s <> [] -> forallb cond_num_char s = true -> ends_solid (v ++ s) = true.
Proof.
  intros Hne Hs. apply ends_solid_app, no_space_solid; [done|].
  eapply forallb_impl; [|exact Hs]. intros c Hc. by destruct (cond_num_no_space c Hc) as [-> _].
Qed.

Lemma condition_part c : canonical_condition c = true -> and_part (condition_text c).
Proof.
  intros (x & _ & -> & Hv & Ho & Hne & Hn & _)%canonical_condition_spec. unfold and_part. split_and!.
  - unfold atom_text. by destruct (ci_var c).
  - rewrite <- (app_nil_r (atom_text _ _ _)). by apply atom_solid.
  - unfold atom_text. rewrite !(assoc_L (++)). by apply no_space_last.
  - unfold no_ampersand, atom_text. rewrite !forallb_app. apply andb_true_iff. split.
    { by repeat (apply elem_of_cons in Hv as [->|Hv]; [reflexivity|]); apply elem_of_nil in Hv. }
    apply andb_true_iff. split; [done|]. apply andb_true_iff. split.
    { by repeat (apply elem_of_cons in Ho as [->|Ho]; [reflexivity|]); apply elem_of_nil in Ho. }
    apply andb_true_iff. split; [done|]. eapply forallb_impl; [|exact Hn].
    intros d Hd. apply negb_true_iff, N.eqb_neq. by apply cond_num_no_space.
Qed.

Lemma group_fails i x :
  m_rest x = [] \/ (exists c t, m_rest x = c :: t /\ cond_num_char c = false) ->
  results (RGroup i (rplus (RSet cond_num_char))) x = [].
Proof. intros H. cbn [results]. fold (results (rplus (RSet cond_num_char)) x). by rewrite plus_fails. Qed.

(** A condition is read back from its text. *)
Lemma condition_match v op n :
  v ∈ COND_VARS -> op ∈ COND_OPS -> n <> [] -> forallb cond_num_char n = true ->
  rmatch tier_cond_regex (atom_text v op n) = Some [(3%nat, n); (2%nat, op); (1%nat, v)].
Proof.
  intros Hv Ho Hne Hn. unfold tier_cond_regex. rewrite rmatch_anchored. unfold start_state.
  destruct (stuck_number (RGroup 3 (rplus (RSet cond_num_char))) [REol] (group_fails 3)) as [_ Hfail].
  assert (first [RGroup 1 cond_var; rspaces; RGroup 2 cond_op; rspaces; RGroup 3 (rplus (RSet cond_num_char)); REol]
            (MState None (atom_text v op n) []) (MState (prev_after (Some 32) n) [] [(3%nat, n); (2%nat, op); (1%nat, v)]))
    as H.
  { unfold atom_text. rewrite <- (app_nil_r n) at 1. eapply first_cons.
    { apply (head_group 1 _ None v _ [] (MState (prev_after None v) (u " " ++ op ++ u " " ++ n ++ []) []));
        [by rewrite results_var|done]. }
    apply first_space.
    { by repeat (apply elem_of_cons in Ho as [->|Ho]; [reflexivity|]); apply elem_of_nil in Ho. }
    eapply (first_op (RGroup 2 cond_op) (close_group 2 _)); [reflexivity|done|done|by intros y; apply Hfail|].
    rewrite close_group_split. apply first_space; [by apply cond_num_solid|].
    eapply first_cons; [eapply (head_group 3 _ (Some 32) n []); [by apply head_plus|done]|]. done. }
  unfold first in H. by destruct (results _ _) as [|y ys]; [|injection H as ->].
Qed.

(** Every condition is read back. *)
Lemma parse_conditions_join cs :
  forallb canonical_condition cs = true ->
  map (fun c => {| ci_var := tc_var c; ci_op := tc_op c; ci_value := VNum (tc_value c) |})
    (parse_conditions (join (u " && ") (map condition_text cs))) = cs.
Proof.
  intros Hcs. destruct cs as [|c cs]; [done|]. set (l := c :: cs) in *. unfold parse_conditions.
  rewrite (proj2 (truthy_spec _)); [|].
  2: { unfold l. rewrite conditions_join. cbn [forallb l] in Hcs. apply andb_prop in Hcs as [Hc _].
       destruct (condition_part c Hc) as [Hne _]. by destruct (condition_text c). }
  cbn [negb]. assert (Forall and_part (map condition_text l)) as Hparts.
  { rewrite forallb_Forall in Hcs. apply Forall_map. eapply Forall_impl; [exact Hcs|]. apply condition_part. }
  unfold l at 1. cbn [map] in *. rewrite rsplit_parts by done. fold (map condition_text l).
  change (condition_text c :: map condition_text cs) with (map condition_text l).
  clear Hparts. clearbody l. induction l as [|d l IH]; [done|]. cbn [forallb] in Hcs.
  apply andb_prop in Hcs as [Hd Hl]. cbn [map flat_map].
  destruct (condition_part d Hd) as (_ & H1 & H2 & _). rewrite trim_solid by done.
  destruct (canonical_condition_spec d Hd) as (x & Hx & -> & Hv & Ho & Hne & Hn & Hr).
  rewrite condition_match by done. cbn [app map]. rewrite IH by done. f_equal.
  unfold group, cap. cbn [find fst Nat.eqb option_map snd option_or tc_var tc_op tc_value]. rewrite Hr.
  destruct d. cbn in *. by rewrite Hx.
Qed.

(** ** The parts of an expression *)

Definition part_text (t : VisualTier) : jstr :=
  match vt_conditions t with
  | [] => tier_text t
  | cs => join (u " && ") (map condition_text cs) ++ u " ? " ++ tier_text t
  end.

(** The text of a well-formed tier, read with its captures from [i] on. *)
Lemma tier_text_reads i t p caps rest :
  i = 1%nat \/ i = 2%nat -> tier_wf t -> (forall j, (i <= j)%nat -> cap j caps = None) ->
  exists p' caps',
    first (tier_head i ++ body_pat (i + 1) ++ [rl ")"]) (MState p (tier_text t ++ rest) caps)
      (MState p' rest caps') /\
    (forall cs, normalizeVisualTier (match_tier i cs caps') = with_conditions cs t) /\
    (forall j, (j < i)%nat -> cap j caps' = cap j caps).
Proof.
  intros Hi Hwf Hc. pose proof Hwf as [[_ Hq] _ Hin Hout Hcost _].
  destruct (extras_of_spec _ Hcost) as [He1 He2].
  destruct (cost_ok_spec _ Hin) as (Hi1 & Hi2 & _). destruct (cost_ok_spec _ Hout) as (Ho1 & Ho2 & _).
  destruct (tier_reads i (vt_label t) (num_to_string (input_unit_cost t)) (num_to_string (output_unit_cost t))
    (extras_of (unit_costs t)) p caps rest) as (p' & caps' & Hf & H1 & H2 & H3 & H4 & H5); [done..|].
  exists p', caps'. split_and!; [done| |done]. intros cs. by apply match_tier_text.
Qed.

Lemma match_conditions_cap m cs :
  forallb canonical_condition cs = true ->
  option_or (cap 1 m) [] = join (u " && ") (map condition_text cs) -> match_conditions m = cs.
Proof. intros Hcs Hm. unfold match_conditions, group. rewrite Hm. by apply parse_conditions_join. Qed.

Lemma with_own_conditions t : with_conditions (vt_conditions t) t = t.
Proof. by destruct t. Qed.

Definition read_tier (m : list (nat * jstr)) : VisualTier :=
  normalizeVisualTier (match_tier 2 (match_conditions m) m).

Lemma part_reads t p rest :
  tier_wf t ->
  exists p' caps, match_at tiers_regex p (part_text t ++ rest) = Some (MState p' rest caps) /\
    read_tier caps = t.
Proof.
  intros Hwf. pose proof (wf_conditions t Hwf) as Hcs. unfold part_text, read_tier.
  destruct (vt_conditions t) as [|c cs] eqn:Ec.
  - destruct (tier_text_reads 2 t p [] rest) as (p' & caps & Hf & Ht & Hj); [by right|done|done|].
    exists p', caps. split.
    + apply match_at_first. eapply first_cons; [|exact Hf].
      unfold tier_text, call_text. rewrite <- !(assoc_L (++)). apply no_conditions_read.
    + rewrite (match_conditions_cap caps []), Ht, <- Ec by (done || by rewrite Hj by lia).
      apply with_own_conditions.
  - destruct (conditions_read c cs p (tier_text t ++ rest)) as (q & Hq); [done|done|].
    set (text := join (u " && ") (map condition_text (c :: cs))) in *.
    destruct (tier_text_reads 2 t q [(1%nat, text)] rest) as (p' & caps & Hf & Ht & Hj); [by right|done| |].
    { intros j Hj. unfold cap. cbn [find fst]. by replace (1 =? j)%nat with false by lia. }
    exists p', caps. split.
    + apply match_at_first. eapply first_cons; [|exact Hf]. rewrite <- Hq.
      change (u " ? ") with (u " " ++ u "?" ++ u " "). by rewrite <- !(assoc_L (++)).
    + rewrite (match_conditions_cap caps (c :: cs)), Ht, <- Ec by (done || by rewrite Hj by lia).
      apply with_own_conditions.
Qed.

Lemma separator_skipped p b c d t :
  u " : " = b ++ c :: d -> match_at tiers_regex (prev_after p b) ((c :: d) ++ t) = None.
Proof.
  change (u " : ") with [32; 58; 32].
  destruct b as [|? [|? [|? [|? b]]]]; intros [=]; subst; rewrite match_at_results; reflexivity.
Qed.

Definition parts_text (ts : list VisualTier) : jstr := flat_map (fun t => u " : " ++ part_text t) ts.

Lemma later_parts ts tail fuel p :
  Forall tier_wf ts -> (forall p, search tiers_regex p tail = None) -> (length ts < fuel)%nat ->
  map (fun m => read_tier m.2) (exec_all fuel tiers_regex p (parts_text ts ++ tail)).1 = ts.
Proof.
  intros Hts Htail. revert fuel p. induction Hts as [|t ts Ht _ IH]; intros fuel p Hf;
    (destruct fuel as [|fuel]; [simpl in Hf; lia|]); cbn [exec_all].
  - cbn [parts_text flat_map app]. by rewrite Htail.
  - change (parts_text (t :: ts)) with ((u " : " ++ part_text t) ++ parts_text ts). rewrite <- !(assoc_L (++)).
    destruct (part_reads t (prev_after p (u " : ")) (parts_text ts ++ tail) Ht) as (p' & caps & Hm & Hr).
    erewrite search_skip; [|intros b c d; apply separator_skipped|exact Hm]. cbn [m_prev m_rest m_caps].
    specialize (IH fuel p'). destruct (exec_all fuel tiers_regex p' _) as [ms rest]. cbn [fst map] in *.
    simpl in Hf. rewrite IH by lia. cbn [snd]. by rewrite Hr.
Qed.

Lemma parts_length ts : (length ts <= length (parts_text ts))%nat.
Proof. induction ts as [|t ts IH]; [done|]. cbn [parts_text flat_map length].
  change (flat_map _ ts) with (parts_text ts). rewrite !length_app. simpl (length (u _)). lia. Qed.

(** Every part is read, in order. *)
Lemma parts_read t ts tail :
  Forall tier_wf (t :: ts) -> (forall p, search tiers_regex p tail = None) ->
  map read_tier (rexec_all tiers_regex (part_text t ++ parts_text ts ++ tail)) = t :: ts.
Proof.
  intros [Ht Hts]%Forall_cons Htail. unfold rexec_all. rewrite map_map. cbn [exec_all].
  destruct (part_reads t None (parts_text ts ++ tail) Ht) as (p' & caps & Hm & Hr).
  change (search _ None _) with (search tiers_regex None ([] ++ part_text t ++ parts_text ts ++ tail)).
  erewrite search_skip; [|by intros [|]|exact Hm]. cbn [m_prev m_rest m_caps].
  pose proof (later_parts ts tail (length (part_text t ++ parts_text ts ++ tail)) p' Hts Htail) as IH.
  destruct (exec_all _ tiers_regex p' _) as [ms rest]. cbn [fst map snd] in *. rewrite IH, Hr; [done|].
  destruct (part_reads t None [] Ht) as (? & ? & Hne & _).
  assert (0 < length (part_text t))%nat.
  { destruct (part_text t); [by vm_compute in Hne|simpl; lia]. }
  pose proof (parts_length ts). rewrite !length_app. lia.
Qed.

Lemma free_tail p : search tiers_regex p (u " : " ++ free_expr) = None.
Proof. reflexivity. Qed.

Lemma empty_tail p : search tiers_regex p [] = None.
Proof. reflexivity. Qed.

(** ** Round trip *)

Lemma condition_str t :
  tier_wf t -> buildConditionStr (vt_conditions t) = join (u " && ") (map condition_text (vt_conditions t)).
Proof. intros Hwf. unfold buildConditionStr. by rewrite canonical_usable by apply Hwf. Qed.

Lemma condition_str_truthy t :
  tier_wf t -> truthy (buildConditionStr (vt_conditions t)) = match vt_conditions t with [] => false | _ => true end.
Proof.
  intros Hwf. rewrite condition_str by done. pose proof (wf_conditions t Hwf) as H.
  destruct (vt_conditions t) as [|c cs]; [done|]. rewrite conditions_join.
  cbn [forallb] in H. apply andb_prop in H as [Hc _]. destruct (condition_part c Hc) as [Hne _].
  by destruct (condition_text c).
Qed.

Lemma tier_part_text n i t :
  tier_wf t -> ((i < n - 1)%nat <-> vt_conditions t <> []) -> tier_part n i t = part_text t.
Proof.
  intros Hwf Hi. unfold tier_part, part_text. rewrite tier_call_text, condition_str_truthy by done.
  rewrite condition_str by done. destruct (vt_conditions t) as [|c cs].
  - replace (i <? n - 1)%nat with false; [done|]. symmetry. apply Nat.ltb_ge.
    destruct (Nat.lt_ge_cases i (n - 1)) as [H|H]; [by apply Hi in H|done].
  - by replace (i <? n - 1)%nat with true by (symmetry; apply Nat.ltb_lt, Hi; done).
Qed.

Lemma generate_parts ts k :
  Forall tier_wf ts -> conditions_chain ts = true ->
  map (fun '(i, t) => tier_part (k + length ts) i t) (enum_from k ts) = map part_text ts.
Proof.
  revert k. induction ts as [|t ts IH]; intros k Hts Hc; [done|]. apply Forall_cons in Hts as [Ht Hts].
  cbn [enum_from map]. f_equal.
  - apply tier_part_text; [done|]. destruct ts as [|t' ts]; cbn [conditions_chain length] in *;
      destruct (vt_conditions t); (split; [intros; first [done|lia]|intros; first [done|lia]]).
  - rewrite <- (IH (S k)); [|done|by destruct ts; [|apply andb_prop in Hc as [_ ?]]].
    apply map_ext. intros [i x]. f_equal. simpl. lia.
Qed.

Lemma part_start t : tier_wf t ->
  match part_text t with c :: _ => negb (c =? ch "v") | [] => false end = true /\
  (vt_conditions t <> [] -> forall rest, starts_with (u "tier(`") (part_text t ++ rest) = false).
Proof.
  intros Hwf. pose proof (wf_conditions t Hwf) as H. unfold part_text.
  destruct (vt_conditions t) as [|c cs]; [done|]. rewrite conditions_join.
  cbn [forallb] in H. apply andb_prop in H as [(x & _ & -> & Hv & _)%canonical_condition_spec _].
  repeat (apply elem_of_cons in Hv as [->|Hv]; [done|]). by apply elem_of_nil in Hv.
Qed.

Lemma no_version t rest : tier_wf t -> rmatch version_body_regex (part_text t ++ rest) = None.
Proof.
  intros Hwf. destruct (part_start t Hwf) as [H _]. unfold version_body_regex.
  rewrite rmatch_anchored, run_rl_fail; [done|]. destruct (part_text t) as [|c s]; [done|].
  apply starts_with_ne_head. intros <-. by rewrite N.eqb_refl in H.
Qed.

Lemma not_single t rest :
  tier_wf t -> vt_conditions t <> [] -> rmatch single_regex (part_text t ++ rest) = None.
Proof.
  intros Hwf Hc. destruct (part_start t Hwf) as [_ H]. unfold single_regex, tier_head. cbn [app].
  rewrite rmatch_anchored, run_rl_fail; [done|]. by apply H.
Qed.

Lemma single_match t :
  tier_wf t -> exists m, rmatch single_regex (tier_text t) = Some m /\
    normalizeVisualTier (match_tier 1 [] m) = with_conditions [] t.
Proof.
  intros Hwf. destruct (tier_text_reads 1 t None [] []) as (p' & m & Hf & Ht & _); [by left|done..|].
  exists m. split; [|done]. unfold single_regex. rewrite rmatch_anchored, app_nil_r in *.
  assert (first (tier_head 1 ++ body_pat 2 ++ [rl ")"; REol]) (start_state None (tier_text t)) (MState p' [] m)) as H.
  { change [rl ")"; REol] with ([rl ")"] ++ [REol]). rewrite 2(assoc_L (++)), <- (assoc_L (++) _ _ [rl ")"]).
    eapply first_app; [exact Hf|done]. }
  unfold first in H. by destruct (results _ _) as [|y ys]; [|injection H as ->].
Qed.

(** The reader on a text that is not a single tier. *)
Lemma read_parts t ts tail :
  Forall tier_wf (t :: ts) -> vt_conditions t <> [] -> (forall p, search tiers_regex p tail = None) ->
  generateExprFromVisualConfig (t :: ts) = part_text t ++ parts_text ts ++ tail ->
  tryParseVisualConfig (Some (generateExprFromVisualConfig (t :: ts))) = Some (t :: ts).
Proof.
  intros Hwf Hc Htail Hgen. pose proof Hwf as [Ht Hts]%Forall_cons.
  set (e := part_text t ++ parts_text ts ++ tail) in *. rewrite Hgen.
  assert (e <> []) as He.
  { destruct (part_start t Ht) as [H _]. unfold e. by destruct (part_text t). }
  unfold tryParseVisualConfig. destruct e as [|c0 e0] eqn:E; [done|]. rewrite <- E. subst e.
  rewrite no_version, not_single by done.
  change (map _ (rexec_all tiers_regex _))
    with (map read_tier (rexec_all tiers_regex (part_text t ++ parts_text ts ++ tail))).
  rewrite parts_read by done.
  assert (normalizeVisualConfig (t :: ts) = t :: ts) as ->.
  { cbn [normalizeVisualConfig]. rewrite <- (map_id (t :: ts)) at 2.
    apply map_ext_in. intros x Hx%list_elem_of_In. apply normalize_tier_id.
    by rewrite Forall_forall in Hwf; apply Hwf. }
  by rewrite Hgen, E, jeqb_refl.
Qed.

(** A generated expression is the sequence of its parts; a single conditional tier is followed by
    the free price. *)
Lemma generate_shape t ts :
  canonical_config (t :: ts) = true ->
  Forall tier_wf (t :: ts) /\ (vt_conditions t = [] -> ts = []) /\
  exists tail, (tail = [] \/ vt_conditions t <> [] /\ tail = u " : " ++ free_expr) /\
    generateExprFromVisualConfig (t :: ts) = part_text t ++ parts_text ts ++ tail.
Proof.
  intros Hts. destruct ts as [|t' ts].
  - apply canonical_tier_wf in Hts as Ht. split_and!; [by constructor|done|].
    exists (match vt_conditions t with [] => [] | _ => u " : " ++ free_expr end).
    unfold generateExprFromVisualConfig, part_text. rewrite condition_str_truthy, tier_call_text, condition_str by done.
    destruct (vt_conditions t); cbn [parts_text flat_map app]; (split; [by eauto|]).
    + by rewrite app_nil_r.
    + by rewrite <- !(assoc_L (++)).
  - unfold canonical_config in Hts. apply andb_prop in Hts as [Hall Hchain].
    assert (Forall tier_wf (t :: t' :: ts)) as Hwf.
    { apply forallb_Forall in Hall. eapply Forall_impl; [exact Hall|]. apply canonical_tier_wf. }
    split_and!; [done| |].
    + intros E. cbn [conditions_chain] in Hchain. by rewrite E in Hchain.
    + exists []. split; [by left|]. rewrite app_nil_r. unfold generateExprFromVisualConfig.
      pose proof (generate_parts (t :: t' :: ts) 0 Hwf Hchain) as Hg. rewrite Nat.add_0_l in Hg. rewrite Hg.
      cbn [map]. rewrite join_flat. f_equal. change (part_text t' :: map part_text ts) with (map part_text (t' :: ts)).
      by rewrite flat_map_map.
Qed.

(** The reader on generated expressions. *)
Lemma visual_config_read ts :
  canonical_config ts = true ->
  tryParseVisualConfig (Some (generateExprFromVisualConfig ts)) = Some ts.
Proof.
  intros Hts. destruct ts as [|t ts]; [done|].
  destruct (generate_shape t ts Hts) as (Hwf & Hsingle & tail & Htail & Hg). destruct (vt_conditions t) as [|c cs] eqn:Ec.
  - rewrite (Hsingle eq_refl) in *. destruct Htail as [-> | [? _]]; [|done]. apply Forall_cons in Hwf as [Ht _].
    destruct (single_match t Ht) as (m & Hm & Hn). pose proof (no_version t [] Ht) as Hv.
    assert (part_text t = tier_text t) as Hp by (unfold part_text; by rewrite Ec).
    cbn [parts_text flat_map] in Hg. rewrite !app_nil_r in Hg. rewrite app_nil_r, Hp in Hv. rewrite Hg, Hp.
    unfold tryParseVisualConfig.
    destruct (tier_text t) as [|c e] eqn:E; [done|]. rewrite Hv, Hm, Hn, <- Ec, with_own_conditions.
    cbn [normalizeVisualConfig map]. by rewrite normalize_tier_id.
  - apply (read_parts t ts tail); [done|by rewrite Ec| |done].
    destruct Htail as [-> | [_ ->]]; [apply empty_tail|apply free_tail].
Qed.

(** C7: the expression generated from a canonical configuration of the visual editor (labels
    without quotes; costs and condition values that print and read back; every tier but the
    last with conditions, the last without, or a single tier with or without) is read back by
    [tryParseVisualConfig] as exactly that configuration: every tier, its label, its
    conditions, its input, output and cache costs and its cache mode. *)
Theorem visual_config_roundtrip ts :
  canonical_config ts = true ->
  tryParseVisualConfig (Some (generateExprFromVisualConfig ts)) = Some ts.
Proof. exact (visual_config_read ts). Qed.

Definition sample_costs (read create1h : num) : list (jstr * num) :=
  map (fun cv => (cv_field cv,
    if jeqb (exprVar cv) (u "cr") then read else if jeqb (exprVar cv) (u "cc1h") then create1h else zero))
    BILLING_CACHE_VAR_MAP.

Definition sample_config : list VisualTier :=
  [{| vt_label := u "standard";
      vt_conditions := [{| ci_var := u "len"; ci_op := u "<="; ci_value := VNum (num_of_Z 200000) |};
                        {| ci_var := u "c"; ci_op := u "<"; ci_value := VNum (num_of_Z 4000) |}];
      input_unit_cost := num_of_Z 3; output_unit_cost := num_of_Z 15; cache_mode := CACHE_MODE_TIMED;
      unit_costs := sample_costs (to_number (u "0.3")) (num_of_Z 6) |};
   {| vt_label := u "long context"; vt_conditions := [];
      input_unit_cost := num_of_Z 6; output_unit_cost := to_number (u "22.5"); cache_mode := CACHE_MODE_GENERIC;
      unit_costs := sample_costs zero zero |}].

Lemma visual_config_roundtrip_witness :
  canonical_config sample_config = true /\
  generateExprFromVisualConfig sample_config
  = u "len <= 200000 && c < 4000 ? tier(`standard`, p * 3 + c * 15 + cr * 0.3 + cc1h * 6) : tier(`long context`, p * 6 + c * 22.5)" /\
  tryParseVisualConfig (Some (generateExprFromVisualConfig sample_config)) = Some sample_config.
Proof.
  split; [vm_compute; reflexivity|]. split; [vm_compute; reflexivity|].
  apply visual_config_roundtrip. vm_compute. reflexivity.
Defined.

(** A single tier is accepted without comparing the regenerated expression, so a cost that is no
    number becomes NaN and is written as 0 when the configuration is saved again. *)
Theorem malformed_cost_zero :
  option_map (fun ts => (map input_unit_cost ts, generateExprFromVisualConfig ts))
    (tryParseVisualConfig (Some (u "tier(`a`, p * 1.2.3 + c * 1)")))
  = Some ([nan], u "tier(`a`, p * 0 + c * 1)").
Proof. vm_compute. reflexivity. Qed.
