(* ===== verification/Messages.v ===== *)
(** * Playground messages

    [web/default/src/features/playground/types.ts], [constants.ts], [lib/message-utils.ts] and
    [lib/payload-builder.ts]: the messages of a chat, the split of a text into visible and
    thinking parts, the updates a stream makes to the last message, the repair of stored
    messages and the payload of a request.  The identifiers [nanoid] returns are arguments. *)

From S2P Require Import Prelude JsString JsNumber Json.

(** ** Data *)

Inductive MessageRole := RoleUser | RoleAssistant | RoleSystem.
#[export] Instance MessageRole_eq_dec : EqDecision MessageRole.
Proof. solve_decision. Defined.

Inductive MessageStatus := Loading | Streaming | Complete | ErrorStatus.
#[export] Instance MessageStatus_eq_dec : EqDecision MessageStatus.
Proof. solve_decision. Defined.

(** [v_id] is missing in a version spread from an absent one. *)
Record MessageVersion := { v_id : option jstr; content : jstr }.

Record Reasoning := { r_content : jstr; duration : num }.

(** [errorCode] is absent, [null] or a code. *)
Record Message := {
  msg_key : jstr;
  from : MessageRole;
  versions : list MessageVersion;
  sources : option (list (jstr * jstr));
  reasoning : option Reasoning;
  isReasoningStreaming : option bool;
  isReasoningComplete : option bool;
  isContentComplete : option bool;
  status : option MessageStatus;
  errorCode : option (option jstr)
}.

Inductive ContentPart := TextPart (text : jstr) | ImagePart (url : jstr).
Inductive MessageContent := CText (s : jstr) | CParts (l : list ContentPart).

Record ChatCompletionMessage := { role : MessageRole; api_content : MessageContent }.

Definition API_REQUEST_ERROR := u "Request error occurred".
Definition PARSE_ERROR := u "Error parsing response data".
Definition STREAM_START_ERROR := u "Error establishing connection".
Definition CONNECTION_CLOSED := u "Connection closed".
Definition INTERRUPTED := u "Generation was interrupted".

(** ** Messages *)

Definition createMessageVersion (id c : jstr) : MessageVersion := {| v_id := Some id; content := c |}.

Definition getCurrentVersion (m : Message) : MessageVersion :=
  match versions m with v :: _ => v | [] => {| v_id := Some (u "default"); content := [] |} end.

(** Record updates, as [{ ...message, field: value }]. *)
Definition with_versions (vs : list MessageVersion) (m : Message) : Message :=
  {| msg_key := msg_key m; from := from m; versions := vs; sources := sources m;
     reasoning := reasoning m; isReasoningStreaming := isReasoningStreaming m;
     isReasoningComplete := isReasoningComplete m; isContentComplete := isContentComplete m;
     status := status m; errorCode := errorCode m |}.

Definition with_reasoning (r : option Reasoning) (streaming : bool) (m : Message) : Message :=
  {| msg_key := msg_key m; from := from m; versions := versions m; sources := sources m;
     reasoning := r; isReasoningStreaming := Some streaming;
     isReasoningComplete := isReasoningComplete m; isContentComplete := isContentComplete m;
     status := status m; errorCode := errorCode m |}.

Definition with_status (s : MessageStatus) (m : Message) : Message :=
  {| msg_key := msg_key m; from := from m; versions := versions m; sources := sources m;
     reasoning := reasoning m; isReasoningStreaming := isReasoningStreaming m;
     isReasoningComplete := isReasoningComplete m; isContentComplete := isContentComplete m;
     status := Some s; errorCode := errorCode m |}.

Definition with_error_code (c : option jstr) (m : Message) : Message :=
  {| msg_key := msg_key m; from := from m; versions := versions m; sources := sources m;
     reasoning := reasoning m; isReasoningStreaming := isReasoningStreaming m;
     isReasoningComplete := isReasoningComplete m; isContentComplete := isContentComplete m;
     status := status m; errorCode := Some c |}.

Definition updateCurrentVersionContent (m : Message) (c : jstr) : Message :=
  with_versions [{| v_id := v_id (getCurrentVersion m); content := c |}] m.

Definition createUserMessage (key vid c : jstr) : Message :=
  {| msg_key := key; from := RoleUser; versions := [createMessageVersion vid c]; sources := None;
     reasoning := None; isReasoningStreaming := None; isReasoningComplete := None;
     isContentComplete := None; status := None; errorCode := None |}.

Definition createLoadingAssistantMessage (key vid : jstr) : Message :=
  {| msg_key := key; from := RoleAssistant; versions := [createMessageVersion vid []];
     sources := None; reasoning := None; isReasoningStreaming := Some false;
     isReasoningComplete := Some false; isContentComplete := Some false; status := Some Loading;
     errorCode := None |}.

Definition buildMessageContent (text : jstr) (imageUrls : list jstr) : MessageContent :=
  match jfilter (fun url => negb (jeqb (trim url) [])) imageUrls with
  | [] => CText text
  | validImages => CParts (TextPart text :: map (fun url => ImagePart (trim url)) validImages)
  end.

Definition getTextContent (c : MessageContent) : jstr :=
  match c with
  | CText s => s
  | CParts l =>
      match find (fun p => match p with TextPart _ => true | ImagePart _ => false end) l with
      | Some (TextPart t) => t
      | _ => []
      end
  end.

Definition formatMessageForAPI (m : Message) : ChatCompletionMessage :=
  {| role := from m; api_content := CText (content (getCurrentVersion m)) |}.

Definition isValidMessage (m : Message) : bool :=
  match versions m with
  | [] => false
  | v :: _ => negb (bool_decide (from m = RoleAssistant) && negb (truthy (trim (content v))))
  end.

(** ** Think tags *)

Definition OPEN := u "<think>".
Definition CLOSE := u "</think>".

Record ThinkResult := { visibleContent : jstr; think_reasoning : jstr; hasUnclosedTag : bool }.

(** The loop, with the parts pushed so far; a turn moves [currentPos] past an opening tag, so
    the length of the text is fuel enough ([think_loop_reads]). *)
Fixpoint think_loop (fuel : nat) (text : jstr) (currentPos : nat)
    (visibleParts reasoningParts : list jstr) : list jstr * list jstr * bool :=
  match fuel with
  | O => (visibleParts, reasoningParts, false)
  | S f =>
      match index_of_from OPEN text currentPos with
      | None =>
          (if (currentPos <? length text)%nat
           then visibleParts ++ [drop currentPos text] else visibleParts, reasoningParts, false)
      | Some openPos =>
          let visibleParts :=
            if (currentPos <? openPos)%nat
            then visibleParts ++ [substring currentPos openPos text] else visibleParts in
          match index_of_from CLOSE text (openPos + 7) with
          | None => (visibleParts, reasoningParts ++ [drop (openPos + 7) text], true)
          | Some closePos =>
              think_loop f text (closePos + 8) visibleParts
                (reasoningParts ++ [substring (openPos + 7) closePos text])
          end
      end
  end.

Definition parseThinkTags (text : jstr) : ThinkResult :=
  if negb (includes OPEN text)
  then {| visibleContent := text; think_reasoning := []; hasUnclosedTag := false |}
  else
    let '(visibleParts, reasoningParts, hasUnclosed) := think_loop (S (length text)) text 0 [] [] in
    {| visibleContent := trim (concat visibleParts);
       think_reasoning := trim (join [10; 10]%N reasoningParts);
       hasUnclosedTag := hasUnclosed |}.

(** ** Updates of the last message *)

Definition updateLastAssistantMessage (messages : list Message) (updater : Message -> Message)
  : list Message :=
  match last messages with
  | None => messages
  | Some m =>
      if bool_decide (from m = RoleAssistant)
      then take (length messages - 1) messages ++ [updater m] else messages
  end.

Definition error_message (errorMessage : jstr) (errCode : option jstr) (m : Message) : Message :=
  with_error_code (match errCode with Some ((_ :: _) as c) => Some c | _ => None end)
    (with_reasoning (reasoning m) false
       (with_status ErrorStatus
          (updateCurrentVersionContent m (API_REQUEST_ERROR ++ u ": " ++ errorMessage)))).

Definition updateAssistantMessageWithError (messages : list Message) (errorMessage : jstr)
    (errCode : option jstr) : list Message :=
  updateLastAssistantMessage messages (error_message errorMessage errCode).

Definition processStreamingContent (m : Message) (contentChunk : option jstr) : Message :=
  let fullContent := content (getCurrentVersion m) ++ option_or contentChunk [] in
  let t := parseThinkTags fullContent in
  let finalReasoning :=
    if truthy (think_reasoning t) then Some {| r_content := think_reasoning t; duration := zero |}
    else reasoning m in
  with_reasoning finalReasoning (hasUnclosedTag t) (updateCurrentVersionContent m fullContent).

(** [a || b || c || ''] *)
Fixpoint first_truthy (l : list jstr) : jstr :=
  match l with [] => [] | s :: t => if truthy s then s else first_truthy t end.

Definition reasoning_content (m : Message) : jstr :=
  match reasoning m with Some r => r_content r | None => [] end.

Definition finalizeMessage (m : Message) (apiReasoningContent : option jstr) : Message :=
  let t := parseThinkTags (content (getCurrentVersion m)) in
  let finalReasoning :=
    first_truthy [option_or apiReasoningContent []; reasoning_content m; think_reasoning t] in
  with_reasoning
    (if truthy finalReasoning
     then Some {| r_content := finalReasoning;
                  duration := match reasoning m with Some r => f_or (duration r) zero | None => zero end |}
     else None)
    false (updateCurrentVersionContent m (visibleContent t)).

(** ** Loading *)

Definition pending (m : Message) : bool :=
  bool_decide (from m = RoleAssistant) &&
  (bool_decide (status m = Some Loading) || bool_decide (status m = Some Streaming)).

Definition sanitize_message (m : Message) : Message :=
  let finalized := finalizeMessage m None in
  if truthy (trim (content (getCurrentVersion finalized)))
     || truthy (trim (reasoning_content finalized))
  then with_reasoning (reasoning finalized) false (with_status Complete finalized)
  else with_reasoning (reasoning finalized) false
         (with_status ErrorStatus
            (updateCurrentVersionContent finalized (API_REQUEST_ERROR ++ u ": " ++ INTERRUPTED))).

(** The backward loop to the last pending message, from index [i - 1] down. *)
Fixpoint find_pending (i : nat) (messages : list Message) : option nat :=
  match i with
  | O => None
  | S j =>
      match messages !! j with
      | Some m => if pending m then Some j else find_pending j messages
      | None => find_pending j messages
      end
  end.

Definition sanitizeMessagesOnLoad (messages : list Message) : list Message :=
  match find_pending (length messages) messages with
  | None => messages
  | Some targetIndex =>
      match messages !! targetIndex with
      | Some m => <[targetIndex := sanitize_message m]> messages
      | None => messages
      end
  end.

(** ** Payload *)

Record PlaygroundConfig := {
  model : jstr;
  group : jstr;
  temperature : num;
  top_p : num;
  max_tokens : num;
  frequency_penalty : num;
  presence_penalty : num;
  seed : option num;
  stream : bool
}.

Record ParameterEnabled := {
  en_temperature : bool;
  en_top_p : bool;
  en_max_tokens : bool;
  en_frequency_penalty : bool;
  en_presence_penalty : bool;
  en_seed : bool
}.

(** The optional fields are the parameters that were added, in order. *)
Record ChatCompletionRequest := {
  req_model : jstr;
  req_group : jstr;
  req_messages : list ChatCompletionMessage;
  req_stream : bool;
  req_params : list (jstr * num)
}.

Definition parameterKeys : list jstr :=
  [u "temperature"; u "top_p"; u "max_tokens"; u "frequency_penalty"; u "presence_penalty"; u "seed"].

(** [parameterEnabled\[key\]] and [config\[key\]]; [None] is [null]. *)
Definition enabled_at (e : ParameterEnabled) (key : jstr) : bool :=
  option_or (obj_get key
    [(u "temperature", en_temperature e); (u "top_p", en_top_p e); (u "max_tokens", en_max_tokens e);
     (u "frequency_penalty", en_frequency_penalty e); (u "presence_penalty", en_presence_penalty e);
     (u "seed", en_seed e)]) false.

Definition config_at (c : PlaygroundConfig) (key : jstr) : option num :=
  option_or (obj_get key
    [(u "temperature", Some (temperature c)); (u "top_p", Some (top_p c));
     (u "max_tokens", Some (max_tokens c)); (u "frequency_penalty", Some (frequency_penalty c));
     (u "presence_penalty", Some (presence_penalty c)); (u "seed", seed c)]) None.

(** The body of [parameterKeys.forEach]. *)
Definition add_parameter (e : ParameterEnabled) (c : PlaygroundConfig) (payload : list (jstr * num))
    (key : jstr) : list (jstr * num) :=
  if enabled_at e key then
    match config_at c key with
    | Some value => obj_set key value payload
    | None => payload
    end
  else payload.

Definition buildChatCompletionPayload (messages : list Message) (config : PlaygroundConfig)
    (parameterEnabled : ParameterEnabled) : ChatCompletionRequest :=
  {| req_model := model config;
     req_group := group config;
     req_messages := map formatMessageForAPI (jfilter isValidMessage messages);
     req_stream := stream config;
     req_params := fold_left (add_parameter parameterEnabled config) parameterKeys [] |}.
