(* ===== verification/MessageFacts.v ===== *)
(** * Playground messages: theorems

    What [parseThinkTags] reads, what the updates of a stream leave in the last message, what
    the repair of stored messages does and what a request sends. *)

From S2P Require Import Prelude JsString JsNumber Json Messages.

(** ** Think tags *)

(** A text as pairs of a visible and a thinking part, and an end: a visible part, or a visible
    part and an opening tag that is not closed. *)
Inductive think_tail := TPlain (v : jstr) | TOpen (v r : jstr).

Definition tail_text (t : think_tail) : jstr :=
  match t with TPlain v => v | TOpen v r => v ++ OPEN ++ r end.
Definition tail_visible (t : think_tail) : jstr := match t with TPlain v | TOpen v _ => v end.
Definition tail_reasoning (t : think_tail) : list jstr :=
  match t with TPlain _ => [] | TOpen _ r => [r] end.
Definition tail_open (t : think_tail) : bool :=
  match t with TPlain _ => false | TOpen _ _ => true end.

Fixpoint think_text (segs : list (jstr * jstr)) (t : think_tail) : jstr :=
  match segs with
  | [] => tail_text t
  | (v, r) :: segs => v ++ OPEN ++ r ++ CLOSE ++ think_text segs t
  end.

Definition seg_wf (s : jstr * jstr) : Prop := includes OPEN s.1 = false /\ includes CLOSE s.2 = false.
Definition tail_wf (t : think_tail) : Prop :=
  match t with
  | TPlain v => includes OPEN v = false
  | TOpen v r => includes OPEN v = false /\ includes CLOSE r = false
  end.

Lemma open_found v t : includes OPEN v = false -> index_of OPEN (v ++ OPEN ++ t) = Some (length v).
Proof. by apply index_of_after. Qed.

Lemma close_found r t : includes CLOSE r = false -> index_of CLOSE (r ++ CLOSE ++ t) = Some (length r).
Proof. by apply index_of_after. Qed.

Lemma not_included p s : includes p s = false <-> index_of p s = None.
Proof. unfold includes. by destruct (index_of p s). Qed.

(** Every text is of this form. *)
Lemma think_decompose text :
  exists segs t, text = think_text segs t /\ Forall seg_wf segs /\ tail_wf t.
Proof.
  remember (length text) as n eqn:Hn. revert text Hn.
  induction n as [n IH] using lt_wf_ind. intros text ->.
  destruct (index_of OPEN text) as [i|] eqn:Ho.
  2: { exists [], (TPlain text). by rewrite <- not_included in Ho. }
  destruct (index_of_split OPEN text i ltac:(done) Ho) as [Ht Hv].
  set (v := take i text) in *. set (rest := drop (i + length OPEN) text) in *.
  destruct (index_of CLOSE rest) as [j|] eqn:Hc.
  2: { exists [], (TOpen v rest). rewrite <- not_included in Hc. by split_and!. }
  destruct (index_of_split CLOSE rest j ltac:(done) Hc) as [Hr Hw].
  set (r := take j rest) in *. set (rest2 := drop (j + length CLOSE) rest) in *.
  destruct (IH (length rest2)) with (text := rest2) as (segs & t & Hrest & Hs & Htl); [|done|].
  { rewrite Ht, Hr, !length_app. change (length OPEN) with 7%nat. lia. }
  exists ((v, r) :: segs), t. split_and!; [|by constructor|done].
  cbn [think_text]. by rewrite <- Hrest, <- Hr.
Qed.

Lemma drop_at (a b : jstr) : drop (length a) (a ++ b) = b.
Proof. apply drop_app_length. Qed.

Lemma substring_at (a v b : jstr) : substring (length a) (length a + length v) (a ++ v ++ b) = v.
Proof.
  unfold substring. rewrite drop_at. replace (_ - _)%nat with (length v) by lia. apply take_app_length.
Qed.

Lemma drop_past_open (a v t : jstr) : drop (length a + length v + 7) (a ++ v ++ OPEN ++ t) = t.
Proof.
  replace (length a + length v + 7)%nat with (length (a ++ v ++ OPEN))
    by (rewrite !length_app; change (length OPEN) with 7%nat; lia).
  rewrite !(assoc_L (++)). apply drop_at.
Qed.

Lemma substring_past_open (a v r t : jstr) :
  substring (length a + length v + 7) (length a + length v + 7 + length r) (a ++ v ++ OPEN ++ r ++ t) = r.
Proof.
  unfold substring. rewrite drop_past_open. replace (_ - _)%nat with (length r) by lia.
  apply take_app_length.
Qed.

(** An empty visible part is not pushed. *)
Lemma push_visible (vs : list jstr) (n : nat) (v : jstr) :
  concat (if (n <? n + length v)%nat then vs ++ [v] else vs) = concat vs ++ v.
Proof.
  destruct (Nat.ltb_spec n (n + length v)).
  - rewrite concat_app. simpl. by rewrite app_nil_r.
  - destruct v; [by rewrite app_nil_r|simpl in *; lia].
Qed.

(** The loop reads the form back. *)
Lemma think_loop_reads segs t a vs rs f :
  Forall seg_wf segs -> tail_wf t -> (length segs < f)%nat ->
  exists vs', think_loop f (a ++ think_text segs t) (length a) vs rs
              = (vs', rs ++ map snd segs ++ tail_reasoning t, tail_open t)
    /\ concat vs' = concat vs ++ concat (map fst segs) ++ tail_visible t.
Proof.
  intros Hs Ht. revert a vs rs f. induction Hs as [|[v r] segs [Hv Hr] Hs IH]; intros a vs rs [|f] Hf;
    try (simpl in Hf; lia); cbn [think_loop think_text map]; unfold index_of_from; rewrite drop_at.
  - destruct t as [v|v r]; cbn [tail_wf tail_text tail_visible tail_reasoning tail_open] in *.
    + apply not_included in Ht. rewrite Ht. cbn [option_map]. rewrite app_nil_r.
      eexists. split; [done|]. rewrite length_app. apply push_visible.
    + destruct Ht as [Hv Hr]. rewrite open_found by done. cbn [option_map].
      rewrite drop_past_open. apply not_included in Hr. rewrite Hr. cbn [option_map].
      eexists. split; [done|]. rewrite substring_at. apply push_visible.
  - cbn [fst snd] in *. rewrite open_found by done. cbn [option_map].
    set (tl := think_text segs t) in *.
    rewrite drop_past_open, close_found by done. cbn [option_map].
    rewrite substring_at, substring_past_open.
    replace (a ++ v ++ OPEN ++ r ++ CLOSE ++ tl) with ((a ++ v ++ OPEN ++ r ++ CLOSE) ++ tl)
      by by rewrite <- !(assoc_L (++)).
    replace (length a + length v + 7 + length r + 8)%nat with (length (a ++ v ++ OPEN ++ r ++ CLOSE)).
    2: { rewrite !length_app. change (length OPEN) with 7%nat. change (length CLOSE) with 8%nat. lia. }
    edestruct (IH (a ++ v ++ OPEN ++ r ++ CLOSE)) as (vs' & -> & Hvs); [simpl in Hf; lia|].
    eexists. split; [by rewrite <- (assoc_L (++))|]. rewrite Hvs, push_visible. cbn [concat].
    by rewrite <- !(assoc_L (++)).
Qed.

Lemma think_text_length segs t : (length segs <= length (think_text segs t))%nat.
Proof.
  induction segs as [|[v r] segs IH]; cbn [think_text length]; [lia|].
  rewrite !length_app. change (length OPEN) with 7%nat. lia.
Qed.

Definition has_tag (segs : list (jstr * jstr)) (t : think_tail) : bool :=
  negb (length segs =? 0)%nat || tail_open t.

Lemma has_tag_includes segs t :
  tail_wf t -> includes OPEN (think_text segs t) = has_tag segs t.
Proof.
  intros Ht. destruct segs as [|[v r] segs].
  - destruct t as [v|v r]; [done|]. apply includes_spec. cbn [think_text tail_text]. by exists v, r.
  - apply includes_spec. cbn [think_text]. by eexists v, _.
Qed.

Lemma parse_think_text segs t :
  Forall seg_wf segs -> tail_wf t ->
  parseThinkTags (think_text segs t) =
    if has_tag segs t
    then {| visibleContent := trim (concat (map fst segs) ++ tail_visible t);
            think_reasoning := trim (join [10; 10]%N (map snd segs ++ tail_reasoning t));
            hasUnclosedTag := tail_open t |}
    else {| visibleContent := think_text segs t; think_reasoning := []; hasUnclosedTag := false |}.
Proof.
  intros Hs Ht. unfold parseThinkTags. rewrite has_tag_includes by done.
  destruct (has_tag segs t); cbn [negb]; [|done].
  destruct (think_loop_reads segs t [] [] [] (S (length (think_text segs t)))) as (vs & Hl & Hv);
    [done..| |].
  { pose proof (think_text_length segs t). lia. }
  cbn [app length] in Hl. rewrite Hl. by rewrite Hv.
Qed.

(** C23: every text is a sequence of visible parts without an opening tag and thinking parts
    without a closing tag, the last one perhaps not closed; [parseThinkTags] returns the visible
    parts put together and trimmed, the thinking parts separated by blank lines and trimmed, and
    whether a tag is left open; a text without an opening tag is returned unchanged. *)
Theorem parseThinkTags_spec text :
  exists segs t, text = think_text segs t /\ Forall seg_wf segs /\ tail_wf t /\
  parseThinkTags text =
    if has_tag segs t
    then {| visibleContent := trim (concat (map fst segs) ++ tail_visible t);
            think_reasoning := trim (join [10; 10]%N (map snd segs ++ tail_reasoning t));
            hasUnclosedTag := tail_open t |}
    else {| visibleContent := text; think_reasoning := []; hasUnclosedTag := false |}.
Proof.
  destruct (think_decompose text) as (segs & t & -> & Hs & Ht).
  exists segs, t. split_and!; [done..|]. by apply parse_think_text.
Qed.

(** A text that is shown has no think tags left to read, unless visible parts join into one. *)
Lemma parse_plain text : includes OPEN text = false ->
  parseThinkTags text = {| visibleContent := text; think_reasoning := []; hasUnclosedTag := false |}.
Proof. intros H. unfold parseThinkTags. by rewrite H. Qed.

(** ** The last message *)

Lemma update_last_app ms m f :
  from m = RoleAssistant -> updateLastAssistantMessage (ms ++ [m]) f = ms ++ [f m].
Proof.
  intros Hm. unfold updateLastAssistantMessage. rewrite last_app_one, bool_decide_true by done.
  rewrite length_app. simpl. replace (_ - 1)%nat with (length ms) by lia. by rewrite take_app_length.
Qed.

Lemma update_last_other ms f :
  (forall ms' m, ms = ms' ++ [m] -> from m <> RoleAssistant) -> updateLastAssistantMessage ms f = ms.
Proof.
  intros H. unfold updateLastAssistantMessage. destruct (last ms) as [m|] eqn:Hl; [|done].
  apply last_Some in Hl as (ms' & ->). by rewrite bool_decide_false by by eapply H.
Qed.

(** Either the last message is an assistant's and is replaced, or nothing changes. *)
Lemma update_last_cases ms f :
  (exists ms' m, ms = ms' ++ [m] /\ from m = RoleAssistant /\
     updateLastAssistantMessage ms f = ms' ++ [f m]) \/
  updateLastAssistantMessage ms f = ms.
Proof.
  unfold updateLastAssistantMessage. destruct (last ms) as [m|] eqn:Hl; [|by right].
  case_bool_decide as Hm; [|by right]. left. apply last_Some in Hl as (ms' & ->).
  exists ms', m. split_and!; [done..|]. rewrite length_app. simpl.
  replace (_ - 1)%nat with (length ms') by lia. by rewrite take_app_length.
Qed.

(** ** Repair on load *)

Lemma find_pending_spec ms i :
  (i <= length ms)%nat ->
  match find_pending i ms with
  | Some j => exists a m b, take i ms = a ++ m :: b /\ j = length a /\ pending m = true
                            /\ Forall (fun x => pending x = false) b
  | None => Forall (fun x => pending x = false) (take i ms)
  end.
Proof.
  induction i as [|i IH]; intros Hi; cbn [find_pending]; [by constructor|].
  destruct (lookup_lt_is_Some_2 ms i ltac:(lia)) as [m Hm]. rewrite Hm.
  assert (take (S i) ms = take i ms ++ [m]) as -> by by apply take_S_r.
  specialize (IH ltac:(lia)). destruct (pending m) eqn:Hp.
  - exists (take i ms), m, []. split_and!; [done| |done|done]. rewrite length_take. lia.
  - destruct (find_pending i ms) as [j|].
    + destruct IH as (a & m' & b & -> & -> & Hm' & Hb). exists a, m', (b ++ [m]).
      split_and!; [by rewrite <- (assoc_L (++))|done..|]. by apply Forall_app_2; [|constructor].
    + apply Forall_app_2; [done|by constructor].
Qed.

#[local] Opaque parseThinkTags trim.

Lemma sanitize_not_pending m : pending (sanitize_message m) = false.
Proof.
  unfold sanitize_message. case_match; unfold pending; cbn;
    by rewrite !(bool_decide_false (Some _ = Some _)), andb_false_r by done.
Qed.

Lemma interrupted_text :
  API_REQUEST_ERROR ++ u ": " ++ INTERRUPTED = u "Request error occurred: Generation was interrupted".
Proof. by vm_compute. Qed.

Lemma sanitize_outcome m :
  msg_key (sanitize_message m) = msg_key m /\ from (sanitize_message m) = from m /\
  (status (sanitize_message m) = Some Complete /\
     (trim (content (getCurrentVersion (sanitize_message m))) <> [] \/
      trim (reasoning_content (sanitize_message m)) <> []) \/
   status (sanitize_message m) = Some ErrorStatus /\
     content (getCurrentVersion (sanitize_message m))
     = u "Request error occurred: Generation was interrupted").
Proof.
  unfold sanitize_message. destruct (_ || _) eqn:Hc; (split; [reflexivity|]; split; [reflexivity|]).
  - left. split; [reflexivity|].
    apply orb_prop in Hc as [Hc|Hc]; apply truthy_spec in Hc; [left|right]; exact Hc.
  - right. split; [reflexivity|]. rewrite <- interrupted_text. reflexivity.
Qed.

(** loading repairs the last message that was left loading or streaming and no other one:
    it becomes complete when it has visible text or reasoning, and else an error whose text says
    that the generation was interrupted; its key and author stay.  Without such a message the
    list is returned as it is. *)
Theorem sanitize_spec ms :
  (exists a m b, ms = a ++ m :: b /\ pending m = true /\ Forall (fun x => pending x = false) b /\
     sanitizeMessagesOnLoad ms = a ++ sanitize_message m :: b /\
     pending (sanitize_message m) = false /\
     msg_key (sanitize_message m) = msg_key m /\ from (sanitize_message m) = RoleAssistant /\
     (status (sanitize_message m) = Some Complete /\
        (trim (content (getCurrentVersion (sanitize_message m))) <> [] \/
         trim (reasoning_content (sanitize_message m)) <> []) \/
      status (sanitize_message m) = Some ErrorStatus /\
        content (getCurrentVersion (sanitize_message m))
        = u "Request error occurred: Generation was interrupted")) \/
  (Forall (fun x => pending x = false) ms /\ sanitizeMessagesOnLoad ms = ms).
Proof.
  unfold sanitizeMessagesOnLoad. pose proof (find_pending_spec ms (length ms) ltac:(lia)) as H.
  rewrite firstn_all in H. destruct (find_pending _ ms) as [j|]; [left|by right].
  destruct H as (a & m & b & -> & -> & Hm & Hb). exists a, m, b.
  rewrite list_lookup_middle by done.
  replace (length a) with (length a + 0)%nat by lia. rewrite insert_app_r. cbn [insert list_insert].
  assert (from m = RoleAssistant) as Hf by (unfold pending in Hm; by case_bool_decide).
  destruct (sanitize_outcome m) as (Hk & Hfr & Hst). rewrite Hf in Hfr.
  split_and!; [done..|apply sanitize_not_pending|done|done|exact Hst].
Qed.

(** ** Payload *)

Lemma loading_placeholder_invalid key vid : isValidMessage (createLoadingAssistantMessage key vid) = false.
Proof. done. Qed.

Lemma add_parameter_eq e c acc k :
  obj_get k acc = None ->
  obj_get k (add_parameter e c acc k) = if enabled_at e k then config_at c k else None.
Proof.
  intros Hk. unfold add_parameter. destruct (enabled_at e k); [|done].
  destruct (config_at c k); [by rewrite obj_get_set_eq|done].
Qed.

Lemma add_parameter_ne e c acc k k2 :
  k <> k2 -> obj_get k2 (add_parameter e c acc k) = obj_get k2 acc.
Proof.
  intros Hk. unfold add_parameter. destruct (enabled_at e k); [|done].
  destruct (config_at c k); [by rewrite obj_get_set_ne|done].
Qed.

Lemma params_get e c keys acc key :
  NoDup keys -> Forall (fun k => obj_get k acc = None) keys ->
  obj_get key (fold_left (add_parameter e c) keys acc)
  = if bool_decide (key ∈ keys)
    then if enabled_at e key then config_at c key else None else obj_get key acc.
Proof.
  intros Hnd. revert acc. induction Hnd as [|k keys Hk Hnd IH]; intros acc Hacc; [done|].
  cbn [fold_left]. apply Forall_cons in Hacc as [Hka Hacc]. rewrite IH; clear IH.
  - destruct (decide (key = k)) as [->|Hne].
    + rewrite (bool_decide_false (k ∈ keys)) by done. rewrite bool_decide_true by by left.
      by apply add_parameter_eq.
    + rewrite (bool_decide_ext (key ∈ k :: keys) (key ∈ keys)) by (rewrite elem_of_cons; naive_solver).
      by rewrite add_parameter_ne by congruence.
  - eapply Forall_impl; [apply Forall_forall; intros k' Hk'; exact (conj Hk' (proj1 (Forall_forall _ _) Hacc k' Hk'))|].
    cbn beta. intros k' [Hk' Ha]. rewrite add_parameter_ne; [done|]. by intros ->.
Qed.

(** the payload of a request: the messages that are valid, in order, with their current
    text, and no blank message of the assistant among them; a parameter is sent exactly when it
    is enabled and not [null], with its configured value; and the loading placeholder that is
    appended before sending adds nothing. *)
Theorem payload_spec ms config en key vid :
  let p := buildChatCompletionPayload ms config en in
  req_messages p = map (fun m => {| role := from m; api_content := CText (content (getCurrentVersion m)) |})
                     (jfilter isValidMessage ms) /\
  Forall (fun m => forall c, role m = RoleAssistant -> api_content m = CText c -> trim c <> []) (req_messages p) /\
  (forall k, obj_get k (req_params p) =
     if bool_decide (k ∈ parameterKeys)
     then if enabled_at en k then config_at config k else None else None) /\
  buildChatCompletionPayload (ms ++ [createLoadingAssistantMessage key vid]) config en = p.
Proof.
  cbn zeta. split_and!; [done| | |].
  - cbn [req_messages buildChatCompletionPayload]. apply Forall_fmap, Forall_forall. intros m Hm.
    apply jfilter_elem_of in Hm as [Hv _]. cbn. intros c Hr [= <-]. unfold isValidMessage in Hv.
    unfold getCurrentVersion. destruct (versions m) as [|v vs]; [done|].
    rewrite bool_decide_true in Hv by done. intros Ht. by rewrite Ht in Hv.
  - intros k. cbn [req_params buildChatCompletionPayload]. apply params_get.
    + apply (bool_decide_unpack _). by vm_compute.
    + by apply Forall_true.
  - unfold buildChatCompletionPayload. by rewrite jfilter_app, app_nil_r.
Qed.
