(* ===== verification/Playground.v ===== *)
(** * The playground chat

    [web/default/src/features/playground/hooks/use-stream-request.ts],
    [hooks/use-chat-handler.ts], [hooks/use-message-action-guard.ts] and the handlers of
    [index.tsx]: the state of the page, one function per callback, and the step relation of the
    page, whose guards are those of the code.

    The event source ([sse.js]) and the HTTP client are not part of the repository.  Of the
    source the model keeps whether it was closed; an event is delivered only by a source that
    was started and not closed.  What an event carries is arbitrary. *)

From S2P Require Import Prelude JsString JsNumber Json Messages.

(** ** State *)

Record Chat := {
  messages : list Message;
  sse : option nat;                      (* sseSourceRef.current *)
  streamComplete : bool;                 (* isStreamCompleteRef.current *)
  open_sources : list nat;               (* started and not closed *)
  next_source : nat;
  in_flight : nat;                       (* requests without streaming *)
  editing : option jstr;                 (* editingMessageKey *)
  sent : list ChatCompletionRequest;
  toasts : list jstr
}.

Definition set_messages (ms : list Message) (st : Chat) : Chat :=
  {| messages := ms; sse := sse st; streamComplete := streamComplete st;
     open_sources := open_sources st; next_source := next_source st; in_flight := in_flight st;
     editing := editing st; sent := sent st; toasts := toasts st |}.

(** [onMessageUpdate(updater)] *)
Definition onMessageUpdate (f : list Message -> list Message) (st : Chat) : Chat :=
  set_messages (f (messages st)) st.

Definition set_sse (s : option nat) (opens : list nat) (done : bool) (st : Chat) : Chat :=
  {| messages := messages st; sse := s; streamComplete := done; open_sources := opens;
     next_source := next_source st; in_flight := in_flight st; editing := editing st;
     sent := sent st; toasts := toasts st |}.

Definition add_toast (t : jstr) (st : Chat) : Chat :=
  {| messages := messages st; sse := sse st; streamComplete := streamComplete st;
     open_sources := open_sources st; next_source := next_source st; in_flight := in_flight st;
     editing := editing st; sent := sent st; toasts := toasts st ++ [t] |}.

Definition set_editing (k : option jstr) (st : Chat) : Chat :=
  {| messages := messages st; sse := sse st; streamComplete := streamComplete st;
     open_sources := open_sources st; next_source := next_source st; in_flight := in_flight st;
     editing := k; sent := sent st; toasts := toasts st |}.

Definition isGenerating (st : Chat) : bool := match sse st with Some _ => true | None => false end.

(** ** useChatHandler: updates of the messages *)

Inductive update_type := UReasoning | UContent.

Definition stream_update (type : update_type) (chunk : jstr) (m : Message) : Message :=
  if bool_decide (status m = Some ErrorStatus) then m else
  match type with
  | UReasoning =>
      with_status Streaming
        (with_reasoning (Some {| r_content := reasoning_content m ++ chunk; duration := zero |}) true m)
  | UContent => with_status Streaming (processStreamingContent m (Some chunk))
  end.

Definition handleStreamUpdate (type : update_type) (chunk : jstr) : Chat -> Chat :=
  onMessageUpdate (fun prev => updateLastAssistantMessage prev (stream_update type chunk)).

Definition complete_message (m : Message) : Message :=
  if bool_decide (status m = Some Complete) || bool_decide (status m = Some ErrorStatus) then m
  else with_status Complete (finalizeMessage m None).

Definition handleStreamComplete : Chat -> Chat :=
  onMessageUpdate (fun prev => updateLastAssistantMessage prev complete_message).

Definition handleStreamError (error : jstr) (errCode : option jstr) (st : Chat) : Chat :=
  onMessageUpdate (fun prev => updateAssistantMessageWithError prev error errCode) (add_toast error st).

(** ** useStreamRequest *)

Definition closeSource (src : nat) (st : Chat) : Chat :=
  set_sse None (jfilter (fun s => negb (s =? src)%nat) (open_sources st)) (streamComplete st) st.

Definition handleError (src : nat) (errorMessage : jstr) (errCode : option jstr) (st : Chat) : Chat :=
  if streamComplete st then st else closeSource src (handleStreamError errorMessage errCode st).

(** Property access on a JSON value, [None] for [undefined]; [o?.p] and [a?.\[0\]]. *)
Definition opt_prop (k : jstr) (v : option json) : option json :=
  match v with Some (JObj f) => obj_get k f | _ => None end.

Definition opt_first (v : option json) : option json :=
  match v with
  | Some (JArr l) => head l
  | Some (JStr (c :: _)) => Some (JStr [c])
  | Some (JObj f) => obj_get (u "0") f
  | _ => None
  end.

Definition truthy_prop (k : jstr) (v : option json) : option jstr :=
  match opt_prop k v with
  | Some j => if json_truthy j then Some (json_to_string j) else None
  | None => None
  end.

(** The updates of a chunk; [None] when the text is no JSON or is [null], whose [choices] cannot
    be read. *)
Definition chunk_updates (data : jstr) : option (list (update_type * jstr)) :=
  match json_parse data with
  | None | Some JNull => None
  | Some chunk =>
      let delta := opt_prop (u "delta") (opt_first (opt_prop (u "choices") (Some chunk))) in
      Some (match truthy_prop (u "reasoning_content") delta with
            | Some c => [(UReasoning, c)] | None => [] end
            ++ match truthy_prop (u "content") delta with
               | Some c => [(UContent, c)] | None => [] end)
  end.

Definition on_message (src : nat) (data : jstr) (st : Chat) : Chat :=
  if jeqb data (u "[DONE]") then
    handleStreamComplete
      (closeSource src (set_sse (sse st) (open_sources st) true st))
  else
    match chunk_updates data with
    | Some us => fold_left (fun st '(type, chunk) => handleStreamUpdate type chunk st) us st
    | None => handleError src PARSE_ERROR None st
    end.

(** [parsed?.error] when it is truthy. *)
Definition error_field (data : jstr) : option json :=
  match json_parse data with
  | Some j =>
      match opt_prop (u "error") (Some j) with
      | Some e => if json_truthy e then Some e else None
      | None => None
      end
  | None => None
  end.

Definition on_error (src : nat) (data : option jstr) (readyState : Z) (st : Chat) : Chat :=
  if (readyState =? 2)%Z then st else
  match data with
  | Some ((_ :: _) as d) =>
      let e := error_field d in
      handleError src (option_or (truthy_prop (u "message") e) d) (truthy_prop (u "code") e) st
  | _ => handleError src API_REQUEST_ERROR None st
  end.

Definition on_readystatechange (src : nat) (readyState status : option Z) (st : Chat) : Chat :=
  match readyState, status with
  | Some r, Some s =>
      if (2 <=? r)%Z && negb (s =? 200)%Z
      then handleError src (u "HTTP " ++ string_of_int s ++ u ": " ++ CONNECTION_CLOSED) None st
      else st
  | _, _ => st
  end.

(** [sendStreamRequest]; [starts] says whether [source.stream()] returns. *)
Definition sendStreamRequest (payload : ChatCompletionRequest) (starts : bool) (st : Chat) : Chat :=
  let src := next_source st in
  let st := {| messages := messages st; sse := Some src; streamComplete := false;
               open_sources := if starts then src :: open_sources st else open_sources st;
               next_source := S src; in_flight := in_flight st; editing := editing st;
               sent := sent st ++ [payload]; toasts := toasts st |} in
  if starts then st
  else
    let st := handleStreamError STREAM_START_ERROR None st in
    set_sse None (open_sources st) (streamComplete st) st.

Definition stopStream (st : Chat) : Chat :=
  match sse st with
  | Some src => closeSource src st
  | None => st
  end.

Section Page.
Context (config : PlaygroundConfig) (parameterEnabled : ParameterEnabled).

(** ** useChatHandler: requests *)

Definition sendNonStreamingChat (ms : list Message) (st : Chat) : Chat :=
  {| messages := messages st; sse := sse st; streamComplete := streamComplete st;
     open_sources := open_sources st; next_source := next_source st;
     in_flight := S (in_flight st); editing := editing st;
     sent := sent st ++ [buildChatCompletionPayload ms config parameterEnabled];
     toasts := toasts st |}.

Definition landed (st : Chat) : Chat :=
  {| messages := messages st; sse := sse st; streamComplete := streamComplete st;
     open_sources := open_sources st; next_source := next_source st;
     in_flight := in_flight st - 1; editing := editing st; sent := sent st; toasts := toasts st |}.

(** The message of the first choice, with its reasoning. *)
Record Choice := { choice_content : option jstr; choice_reasoning : option jstr }.

Definition answer_message (c : Choice) (m : Message) : Message :=
  with_status Complete
    (finalizeMessage
       (with_versions [{| v_id := match versions m with v :: _ => v_id v | [] => None end;
                          content := option_or (choice_content c) [] |}] m)
       (choice_reasoning c)).

Definition on_response (choice : option Choice) (st : Chat) : Chat :=
  match choice with
  | None => landed st
  | Some c => onMessageUpdate (fun prev => updateLastAssistantMessage prev (answer_message c)) (landed st)
  end.

(** [err?.response?.data?.message || err?.message || API_REQUEST_ERROR] *)
Definition on_rejection (dataMessage errMessage : jstr) (code : option jstr) (st : Chat) : Chat :=
  handleStreamError (first_truthy [dataMessage; errMessage; API_REQUEST_ERROR]) code (landed st).

Definition sendChat (starts : bool) (ms : list Message) (st : Chat) : Chat :=
  if stream config
  then sendStreamRequest (buildChatCompletionPayload ms config parameterEnabled) starts st
  else sendNonStreamingChat ms st.

Definition stop_message (m : Message) : Message :=
  if bool_decide (status m = Some Loading) || bool_decide (status m = Some Streaming)
  then with_status Complete (finalizeMessage m None) else m.

Definition stopGeneration (st : Chat) : Chat :=
  onMessageUpdate (fun prev => updateLastAssistantMessage prev stop_message) (stopStream st).

(** ** Playground *)

(** The identifiers of the two messages created. *)
Record Ids := { user_key : jstr; user_vid : jstr; assistant_key : jstr; assistant_vid : jstr }.

Definition handleSendMessage (ids : Ids) (starts : bool) (text : jstr) (st : Chat) : Chat :=
  let newMessages := messages st ++
    [createUserMessage (user_key ids) (user_vid ids) text;
     createLoadingAssistantMessage (assistant_key ids) (assistant_vid ids)] in
  sendChat starts newMessages (set_messages newMessages st).

Fixpoint find_index (p : Message -> bool) (ms : list Message) : option nat :=
  match ms with
  | [] => None
  | m :: t => if p m then Some O else option_map S (find_index p t)
  end.

Definition handleRegenerateMessage (ids : Ids) (starts : bool) (key : jstr) (st : Chat) : Chat :=
  match find_index (fun m => jeqb (msg_key m) key) (messages st) with
  | None => st
  | Some i =>
      let newMessages := take i (messages st) ++
        [createLoadingAssistantMessage (assistant_key ids) (assistant_vid ids)] in
      sendChat starts newMessages (set_messages newMessages st)
  end.

Definition edit_message (key newContent : jstr) (m : Message) : Message :=
  if jeqb (msg_key m) key
  then with_versions [{| v_id := match versions m with v :: _ => v_id v | [] => None end;
                         content := newContent |}] m
  else m.

Definition applyEdit (ids : Ids) (starts : bool) (newContent : jstr) (submit : bool) (st : Chat) : Chat :=
  match editing st with
  | None | Some [] => st
  | Some key =>
      match find_index (fun m => jeqb (msg_key m) key) (messages st) with
      | None => st
      | Some index =>
          let updated := map (edit_message key newContent) (messages st) in
          let st := set_editing None st in
          if negb submit ||
             negb (match updated !! index with
                   | Some m => bool_decide (from m = RoleUser) | None => false end)
          then set_messages updated st
          else
            let toSubmit := take (index + 1) updated ++
              [createLoadingAssistantMessage (assistant_key ids) (assistant_vid ids)] in
            sendChat starts toSubmit (set_messages toSubmit st)
      end
  end.

Definition handleDeleteMessage (key : jstr) (st : Chat) : Chat :=
  set_messages (jfilter (fun m => negb (jeqb (msg_key m) key)) (messages st)) st.

(** [guardAction] *)
Definition WAIT_GENERATION := u "Please wait for the current generation to complete".
Definition guardAction (action : Chat -> Chat) (st : Chat) : Chat :=
  if isGenerating st then add_toast WAIT_GENERATION st else action st.

(** [PlaygroundInput]: the form is guarded, the suggestions are not. *)
Definition handleSubmit (ids : Ids) (starts : bool) (text : jstr) (st : Chat) : Chat :=
  if negb (truthy (trim text)) || isGenerating st then st else handleSendMessage ids starts text st.

Definition handleSuggestionClick (ids : Ids) (starts : bool) (suggestion : jstr) : Chat -> Chat :=
  handleSendMessage ids starts suggestion.

(** ** Steps *)

Inductive event :=
| ESubmit (ids : Ids) (starts : bool) (text : jstr)
| ESuggestion (ids : Ids) (starts : bool) (text : jstr)
| ERegenerate (ids : Ids) (starts : bool) (key : jstr)
| EEditOpen (key : jstr)
| EEditCancel
| EApplyEdit (ids : Ids) (starts : bool) (newContent : jstr) (submit : bool)
| EDelete (key : jstr)
| EStop
| EStreamMessage (src : nat) (data : jstr)
| EStreamError (src : nat) (data : option jstr) (readyState : Z)
| EReadyState (src : nat) (readyState status : option Z)
| EResponse (choice : option Choice)
| ERejection (dataMessage errMessage : jstr) (code : option jstr).

Definition handle (e : event) (st : Chat) : Chat :=
  match e with
  | ESubmit ids starts text => handleSubmit ids starts text st
  | ESuggestion ids starts text => handleSuggestionClick ids starts text st
  | ERegenerate ids starts key => guardAction (handleRegenerateMessage ids starts key) st
  | EEditOpen key => guardAction (set_editing (Some key)) st
  | EEditCancel => set_editing None st
  | EApplyEdit ids starts c submit => applyEdit ids starts c submit st
  | EDelete key => guardAction (handleDeleteMessage key) st
  | EStop => stopGeneration st
  | EStreamMessage src data => on_message src data st
  | EStreamError src data r => on_error src data r st
  | EReadyState src r s => on_readystatechange src r s st
  | EResponse c => on_response c st
  | ERejection a b code => on_rejection a b code st
  end.

(** An event can happen: the stop button is shown while generating, a source delivers while it
    is open, an answer arrives for a request in flight. *)
Definition enabled (e : event) (st : Chat) : bool :=
  match e with
  | EStop => isGenerating st
  | EStreamMessage src _ | EStreamError src _ _ | EReadyState src _ _ =>
      existsb (Nat.eqb src) (open_sources st)
  | EResponse _ | ERejection _ _ _ => (0 <? in_flight st)%nat
  | _ => true
  end.

Inductive chat_step : Chat -> event -> Chat -> Prop :=
| Step st e : enabled e st = true -> chat_step st e (handle e st).

Definition initial (loaded : list Message) : Chat :=
  {| messages := loaded; sse := None; streamComplete := false; open_sources := [];
     next_source := 0; in_flight := 0; editing := None; sent := []; toasts := [] |}.

(** The page after a sequence of events, each of which could happen. *)
Fixpoint run (es : list event) (st : Chat) : option Chat :=
  match es with
  | [] => Some st
  | e :: t => if enabled e st then run t (handle e st) else None
  end.
End Page.
