(* ===== verification/PlaygroundFacts.v ===== *)
(** * The playground chat: theorems

    What a stream leaves in the last message however its text is cut into chunks, the invariant
    that ties the page's stream to its last message, and the runs in which it breaks. *)

From S2P Require Import Prelude JsString JsNumber Json Messages MessageFacts Playground.

#[local] Opaque parseThinkTags trim.

(** ** Streams *)

Definition run_updates (us : list (update_type * jstr)) (m : Message) : Message :=
  fold_left (fun m '(type, chunk) => stream_update type chunk m) us m.

Definition chunks_of (type : update_type) (us : list (update_type * jstr)) : jstr :=
  concat (map (fun '(t, c) => match t, type with
                              | UContent, UContent | UReasoning, UReasoning => c
                              | _, _ => [] end) us).

Lemma chunks_of_snoc type us t c :
  chunks_of type (us ++ [(t, c)]) =
    chunks_of type us ++ match t, type with
                         | UContent, UContent | UReasoning, UReasoning => c | _, _ => [] end.
Proof. unfold chunks_of. rewrite map_app, concat_app. simpl. by rewrite app_nil_r. Qed.

Lemma run_updates_snoc us t c m : run_updates (us ++ [(t, c)]) m = stream_update t c (run_updates us m).
Proof. unfold run_updates. by rewrite fold_left_app. Qed.

(** A message a stream writes to. *)
Definition live (m : Message) : Prop := from m = RoleAssistant /\ status m <> Some ErrorStatus.

Lemma stream_update_live type c m : live m -> live (stream_update type c m).
Proof.
  intros [Hf Hs]. unfold stream_update. rewrite bool_decide_false by done. by destruct type.
Qed.

Lemma run_updates_live us m : live m -> live (run_updates us m).
Proof.
  intros Hm. induction us as [|[t c] us IH] using rev_ind; [done|].
  rewrite run_updates_snoc. by apply stream_update_live.
Qed.

Lemma stream_update_content type c m :
  live m ->
  content (getCurrentVersion (stream_update type c m))
  = content (getCurrentVersion m) ++ match type with UContent => c | UReasoning => [] end.
Proof.
  intros [_ Hs]. unfold stream_update. rewrite bool_decide_false by done.
  destruct type; [by rewrite app_nil_r|done].
Qed.

Lemma run_updates_content us m :
  live m ->
  content (getCurrentVersion (run_updates us m)) = content (getCurrentVersion m) ++ chunks_of UContent us.
Proof.
  intros Hm. induction us as [|[t c] us IH] using rev_ind; [by rewrite app_nil_r|].
  rewrite run_updates_snoc, stream_update_content by by apply run_updates_live.
  rewrite IH, chunks_of_snoc, <- (assoc_L (++)). by destruct t.
Qed.

(** The callbacks on the page, as updates of its last message. *)
Lemma chat_updates ms m us st :
  live m -> messages st = ms ++ [m] ->
  messages (fold_left (fun st '(type, chunk) => handleStreamUpdate type chunk st) us st)
  = ms ++ [run_updates us m].
Proof.
  intros Hm Hst. induction us as [|[t c] us IH] using rev_ind; [done|].
  rewrite fold_left_app, run_updates_snoc. cbn [fold_left handleStreamUpdate onMessageUpdate set_messages messages].
  rewrite IH. apply update_last_app. by apply run_updates_live.
Qed.

Lemma chat_complete ms m st :
  from m = RoleAssistant -> messages st = ms ++ [m] ->
  messages (handleStreamComplete st) = ms ++ [complete_message m].
Proof.
  intros Hm Hst. cbn [handleStreamComplete onMessageUpdate set_messages messages]. rewrite Hst.
  by apply update_last_app.
Qed.

Definition stream_all (us : list (update_type * jstr)) (st : Chat) : Chat :=
  handleStreamComplete (fold_left (fun st '(type, chunk) => handleStreamUpdate type chunk st) us st).

Lemma loading_live key vid : live (createLoadingAssistantMessage key vid).
Proof. done. Qed.

Lemma run_updates_status us m :
  live m -> status m <> Some Complete -> status (run_updates us m) <> Some Complete.
Proof.
  intros Hm Hs. induction us as [|[t c] us IH] using rev_ind; [done|].
  rewrite run_updates_snoc. unfold stream_update.
  destruct (run_updates_live us m Hm) as [_ He]. rewrite bool_decide_false by done. by destruct t.
Qed.

Lemma stream_all_messages us ms key vid st :
  messages st = ms ++ [createLoadingAssistantMessage key vid] ->
  messages (stream_all us st)
  = ms ++ [with_status Complete
             (finalizeMessage (run_updates us (createLoadingAssistantMessage key vid)) None)].
Proof.
  intros Hst. set (m := createLoadingAssistantMessage key vid) in *.
  pose proof (chat_updates ms m us st (loading_live key vid) Hst) as Hu.
  unfold stream_all. destruct (run_updates_live us m (loading_live key vid)) as [Hf He].
  rewrite (chat_complete ms (run_updates us m)) by done. unfold complete_message.
  rewrite !bool_decide_false; [done|done|]. by apply run_updates_status.
Qed.

Lemma map_content_chunks cs : chunks_of UContent (map (pair UContent) cs) = concat cs.
Proof. unfold chunks_of. rewrite map_map. by rewrite map_id. Qed.

(** The reasoning a stream of content has found is that of the text so far, when there is any. *)
Lemma content_reasoning cs m :
  live m -> truthy (think_reasoning (parseThinkTags (content (getCurrentVersion m) ++ concat cs))) = true ->
  cs <> [] ->
  reasoning_content (run_updates (map (pair UContent) cs) m)
  = think_reasoning (parseThinkTags (content (getCurrentVersion m) ++ concat cs)).
Proof.
  intros Hm Ht Hne. destruct cs as [|c cs _] using rev_ind; [done|].
  rewrite map_app. cbn [map].
  rewrite run_updates_snoc. pose proof (run_updates_live (map (pair UContent) cs) m Hm) as Hl.
  unfold stream_update at 1. rewrite bool_decide_false by apply Hl.
  unfold processStreamingContent. rewrite run_updates_content, map_content_chunks by done.
  cbn [option_or]. rewrite concat_app in *. cbn [concat] in *. rewrite app_nil_r in *.
  rewrite <- (assoc_L (++)). rewrite Ht. done.
Qed.

Lemma run_updates_key us m : msg_key (run_updates us m) = msg_key m.
Proof.
  induction us as [|[t c] us IH] using rev_ind; [done|]. rewrite run_updates_snoc, <- IH.
  unfold stream_update. case_bool_decide; [done|]. by destruct t.
Qed.

(** Reasoning found before the end stays. *)
Lemma final_reasoning m r :
  reasoning_content m = r /\ r <> [] ->
  reasoning_content (with_status Complete (finalizeMessage m None)) = r.
Proof.
  intros [Hr Hne]. unfold finalizeMessage. cbn [option_or first_truthy truthy]. rewrite Hr.
  destruct r; done.
Qed.

(** C37: Whatever chunks a stream of text is cut into, the last message ends complete, its text is the
    visible part of the whole text, and when the thinking part of the whole text is not empty its
    reasoning is exactly that part; so then neither depends on the cut.  When the thinking part is
    empty the reasoning may depend on the cut ([stream_stale_reasoning]), and nothing is claimed of
    it. *)
Theorem stream_content_chunks ms key vid cs st :
  messages st = ms ++ [createLoadingAssistantMessage key vid] ->
  exists m, messages (stream_all (map (pair UContent) cs) st) = ms ++ [m] /\
    msg_key m = key /\ status m = Some Complete /\
    content (getCurrentVersion m) = visibleContent (parseThinkTags (concat cs)) /\
    (think_reasoning (parseThinkTags (concat cs)) <> [] ->
     reasoning_content m = think_reasoning (parseThinkTags (concat cs))).
Proof.
  intros Hst. eexists. split; [by apply stream_all_messages|].
  set (m0 := createLoadingAssistantMessage key vid). pose proof (loading_live key vid) as Hl.
  assert (content (getCurrentVersion (run_updates (map (pair UContent) cs) m0)) = concat cs) as Hc
    by by rewrite run_updates_content, map_content_chunks.
  split_and!.
  - exact (run_updates_key (map (pair UContent) cs) m0).
  - done.
  - rewrite <- Hc. reflexivity.
  - intros Ht. apply final_reasoning. split; [|done].
    apply (content_reasoning cs m0); [done|by apply truthy_spec|].
    intros ->. by rewrite parse_plain in Ht.
Qed.

Definition started (ms : list Message) : Chat := initial (ms ++ [createLoadingAssistantMessage (u "k") (u "v")]).

Lemma stream_content_chunks_witness :
  exists m, messages (stream_all (map (pair UContent) [u "<thi"; u "nk>a</think>"; u " b"]) (started []))
            = [] ++ [m] /\
    msg_key m = u "k" /\ status m = Some Complete /\
    content (getCurrentVersion m)
      = visibleContent (parseThinkTags (concat [u "<thi"; u "nk>a</think>"; u " b"])) /\
    (think_reasoning (parseThinkTags (concat [u "<thi"; u "nk>a</think>"; u " b"])) <> [] ->
     reasoning_content m = think_reasoning (parseThinkTags (concat [u "<thi"; u "nk>a</think>"; u " b"]))).
Proof. apply (stream_content_chunks [] (u "k") (u "v")). reflexivity. Defined.

(** the reasoning is not so when the whole text has an empty thinking part: a closing tag
    cut in two leaves its first half behind as the reasoning, which no other cut does. *)
Theorem stream_stale_reasoning :
  map reasoning_content
    (messages (stream_all (map (pair UContent) [u "<think></th"; u "ink>Hi"]) (started []))) = [u "</th"] /\
  map reasoning
    (messages (stream_all (map (pair UContent) [u "<think>"; u "</think>Hi"]) (started []))) = [None].
Proof. by vm_compute. Qed.

(** ** Reasoning sent apart *)

Lemma includes_prefix p a b : includes p (a ++ b) = false -> includes p a = false.
Proof.
  destruct (includes p a) eqn:Ha; [|done]. apply includes_spec in Ha as (x & y & ->).
  intros H. assert (includes p ((x ++ p ++ y) ++ b) = true) as E; [|congruence].
  apply includes_spec. exists x, (y ++ b). by rewrite <- !(assoc_L (++)).
Qed.

Lemma reasoning_stream us m :
  live m -> content (getCurrentVersion m) = [] -> reasoning m = None ->
  includes OPEN (chunks_of UContent us) = false ->
  reasoning_content (run_updates us m) = chunks_of UReasoning us.
Proof.
  intros Hm Hc Hr Ho. induction us as [|[t c] us IH] using rev_ind.
  { unfold run_updates, reasoning_content. simpl. by rewrite Hr. }
  pose proof (run_updates_live us m Hm) as Hl.
  assert (includes OPEN (chunks_of UContent us) = false) as Ho'.
  { rewrite chunks_of_snoc in Ho. by eapply includes_prefix. }
  specialize (IH Ho'). rewrite run_updates_snoc, chunks_of_snoc. unfold stream_update.
  rewrite bool_decide_false by apply Hl. destruct t.
  - rewrite <- IH. reflexivity.
  - rewrite app_nil_r, <- IH. unfold processStreamingContent.
    rewrite run_updates_content, Hc by done. cbn [option_or app].
    rewrite chunks_of_snoc in Ho. rewrite parse_plain by done. reflexivity.
Qed.

(** when a stream sends its reasoning apart and its text has no opening tag, the last
    message ends complete with exactly the text sent, and with exactly the reasoning sent (none
    if that is empty), in whatever order the two were interleaved. *)
Theorem stream_reasoning_apart ms key vid us st :
  messages st = ms ++ [createLoadingAssistantMessage key vid] ->
  includes OPEN (chunks_of UContent us) = false ->
  exists m, messages (stream_all us st) = ms ++ [m] /\ status m = Some Complete /\
    content (getCurrentVersion m) = chunks_of UContent us /\
    reasoning_content m = chunks_of UReasoning us /\
    (reasoning m = None <-> chunks_of UReasoning us = []).
Proof.
  intros Hst Ho. eexists. split; [by apply stream_all_messages|].
  set (m0 := createLoadingAssistantMessage key vid). pose proof (loading_live key vid) as Hl.
  assert (content (getCurrentVersion (run_updates us m0)) = chunks_of UContent us) as Hc
    by by rewrite run_updates_content.
  pose proof (reasoning_stream us m0 Hl eq_refl eq_refl Ho) as Hr.
  split; [done|]. unfold finalizeMessage. rewrite Hc, parse_plain by done.
  cbn [option_or first_truthy truthy think_reasoning visibleContent]. rewrite Hr.
  split; [done|]. by destruct (chunks_of UReasoning us).
Qed.

Lemma stream_reasoning_apart_witness :
  exists m, messages (stream_all [(UReasoning, u "be"); (UContent, u "Hi"); (UReasoning, u "cause")] (started []))
            = [] ++ [m] /\ status m = Some Complete /\
    content (getCurrentVersion m)
      = chunks_of UContent [(UReasoning, u "be"); (UContent, u "Hi"); (UReasoning, u "cause")] /\
    reasoning_content m
      = chunks_of UReasoning [(UReasoning, u "be"); (UContent, u "Hi"); (UReasoning, u "cause")] /\
    (reasoning m = None <->
     chunks_of UReasoning [(UReasoning, u "be"); (UContent, u "Hi"); (UReasoning, u "cause")] = []).
Proof. apply (stream_reasoning_apart [] (u "k") (u "v")); [reflexivity|by vm_compute]. Defined.

(** ** The page *)

Section Invariant.
Context (config : PlaygroundConfig) (parameterEnabled : ParameterEnabled).
Hypothesis streaming : stream config = true.

(** The handlers that start a request without asking whether one is running. *)
Definition calm (e : event) (st : Chat) : Prop :=
  match e with
  | ESuggestion _ _ _ | EApplyEdit _ _ _ true => isGenerating st = false
  | _ => True
  end.

Inductive reachable (loaded : list Message) : Chat -> Prop :=
| ReachInit : reachable loaded (initial loaded)
| ReachStep st e st' :
    reachable loaded st -> calm e st -> chat_step config parameterEnabled st e st' ->
    reachable loaded st'.

Definition settled (ms : list Message) : Prop := Forall (fun m => pending m = false) ms.

(** While a stream runs, its source is the only open one and the last message, alone, waits for
    it; when none runs, no message waits. *)
Definition page_inv (st : Chat) : Prop :=
  in_flight st = 0%nat /\
  match sse st with
  | Some src => open_sources st = [src] /\ streamComplete st = false /\
                exists ms m, messages st = ms ++ [m] /\ settled ms /\ pending m = true
  | None => open_sources st = [] /\ settled (messages st)
  end.

Lemma pending_spec m :
  pending m = true <-> from m = RoleAssistant /\ (status m = Some Loading \/ status m = Some Streaming).
Proof.
  unfold pending. rewrite andb_true_iff, orb_true_iff, !bool_decide_eq_true. done.
Qed.

Lemma pending_live m : pending m = true -> live m.
Proof. intros [Hf [Hs|Hs]]%pending_spec; (split; [done|]; by rewrite Hs). Qed.

Lemma not_pending_status m s : status m = Some s -> s <> Loading -> s <> Streaming -> pending m = false.
Proof.
  intros Hs H1 H2. destruct (pending m) eqn:Hp; [|done]. apply pending_spec in Hp as [_ [Hp|Hp]]; congruence.
Qed.

Lemma not_pending_user m : from m <> RoleAssistant -> pending m = false.
Proof. intros H. unfold pending. by rewrite bool_decide_false. Qed.

Lemma settled_app a b : settled (a ++ b) <-> settled a /\ settled b.
Proof. apply Forall_app. Qed.

Lemma settled_one m : pending m = false -> settled [m].
Proof. by repeat constructor. Qed.

(** The page while the stream [src] runs. *)
Definition running (src : nat) (ms : list Message) (m : Message) (st : Chat) : Prop :=
  in_flight st = 0%nat /\ sse st = Some src /\ open_sources st = [src] /\ streamComplete st = false /\
  messages st = ms ++ [m] /\ settled ms /\ pending m = true.

Definition idle (st : Chat) : Prop :=
  in_flight st = 0%nat /\ sse st = None /\ open_sources st = [] /\ settled (messages st).

Lemma page_inv_cases st : page_inv st <-> idle st \/ exists src ms m, running src ms m st.
Proof.
  unfold page_inv, idle, running. split.
  - destruct (sse st) as [src|] eqn:Hs; [|naive_solver].
    intros (Hi & Ho & Hc & ms & m & Hm & Hms & Hp). right. eauto 10.
  - intros [(Hi & -> & Ho & Hm)|(src & ms & m & Hi & -> & Ho & Hc & Hm & Hms & Hp)]; eauto 10.
Qed.

Lemma closed_sources src : jfilter (fun s => negb (s =? src)%nat) [src] = [].
Proof. simpl. by rewrite Nat.eqb_refl. Qed.

Lemma update_running src ms m st t c :
  running src ms m st -> running src ms (stream_update t c m) (handleStreamUpdate t c st).
Proof.
  intros (Hi & Hs & Ho & Hc & Hm & Hms & Hp). pose proof (pending_live m Hp) as [Hf He].
  unfold running, handleStreamUpdate, onMessageUpdate. cbn. rewrite Hm, update_last_app by done.
  split_and!; try done. apply pending_spec. unfold stream_update. rewrite bool_decide_false by done.
  destruct t; (split; [done|by right]).
Qed.

Lemma updates_running src ms us m st :
  running src ms m st ->
  exists m', running src ms m' (fold_left (fun st '(t, c) => handleStreamUpdate t c st) us st).
Proof.
  revert m st. induction us as [|[t c] us IH]; intros m st H; [by exists m|].
  cbn [fold_left]. eapply IH. by apply update_running.
Qed.

Lemma error_settles ms m e code :
  from m = RoleAssistant -> settled ms ->
  settled (updateAssistantMessageWithError (ms ++ [m]) e code).
Proof.
  intros Hf Hms. unfold updateAssistantMessageWithError. rewrite update_last_app by done.
  apply settled_app. split; [done|]. apply settled_one. by eapply not_pending_status.
Qed.

Lemma error_idle src ms m st e code : running src ms m st -> idle (handleError src e code st).
Proof.
  intros (Hi & Hs & Ho & Hc & Hm & Hms & Hp). apply pending_spec in Hp as [Hf _].
  unfold handleError. rewrite Hc. unfold idle, closeSource, handleStreamError. cbn. rewrite Ho, Hm.
  split_and!; [done|done|apply closed_sources|by apply error_settles].
Qed.

Lemma done_idle src ms m st :
  running src ms m st ->
  idle (handleStreamComplete (closeSource src (set_sse (sse st) (open_sources st) true st))).
Proof.
  intros (Hi & Hs & Ho & Hc & Hm & Hms & Hp). pose proof (pending_live m Hp) as [Hf He].
  apply pending_spec in Hp as [_ Hp]. unfold idle. cbn. rewrite Ho, Hm, update_last_app by done.
  split_and!; [done|done|apply closed_sources|]. apply settled_app. split; [done|].
  apply settled_one. unfold complete_message.
  rewrite !bool_decide_false by (done || naive_solver). by eapply not_pending_status.
Qed.

Lemma stop_idle src ms m st : running src ms m st -> idle (stopGeneration st).
Proof.
  intros (Hi & Hs & Ho & Hc & Hm & Hms & Hp). apply pending_spec in Hp as [Hf Hp].
  unfold idle, stopGeneration, stopStream. rewrite Hs. cbn. rewrite Ho, Hm, update_last_app by done.
  split_and!; [done|done|apply closed_sources|]. apply settled_app. split; [done|].
  apply settled_one. unfold stop_message.
  replace (_ || _) with true; [by eapply not_pending_status|].
  symmetry. rewrite orb_true_iff, !bool_decide_eq_true. done.
Qed.

(** Starting a request from an idle page. *)
Lemma send_inv st ms key vid starts :
  idle st -> settled ms ->
  page_inv (sendChat config parameterEnabled starts (ms ++ [createLoadingAssistantMessage key vid])
              (set_messages (ms ++ [createLoadingAssistantMessage key vid]) st)).
Proof.
  intros (Hi & Hs & Ho & _) Hms. unfold sendChat. rewrite streaming. unfold sendStreamRequest.
  apply page_inv_cases. destruct starts.
  - right. exists (next_source st), ms, (createLoadingAssistantMessage key vid). unfold running.
    cbn [messages sse streamComplete open_sources in_flight set_messages]. rewrite Ho.
    split_and!; [exact Hi|reflexivity..|exact Hms|reflexivity].
  - left. unfold idle, handleStreamError, onMessageUpdate.
    cbn [messages sse streamComplete open_sources in_flight set_messages set_sse add_toast].
    split_and!; [exact Hi|reflexivity|exact Ho|]. by apply error_settles.
Qed.

Lemma idle_not_generating st : page_inv st -> isGenerating st = false -> idle st.
Proof.
  intros [H|(src & ms & m & H)]%page_inv_cases Hg; [done|].
  destruct H as (_ & Hs & _). unfold isGenerating in Hg. by rewrite Hs in Hg.
Qed.

Lemma settled_take n ms : settled ms -> settled (take n ms).
Proof. apply Forall_take. Qed.

Lemma submit_inv ids starts text st :
  page_inv st -> isGenerating st = false ->
  page_inv (handleSendMessage config parameterEnabled ids starts text st).
Proof.
  intros Hi Hg. pose proof (idle_not_generating st Hi Hg) as Hidle. unfold handleSendMessage.
  replace (messages st ++ _) with
    ((messages st ++ [createUserMessage (user_key ids) (user_vid ids) text])
     ++ [createLoadingAssistantMessage (assistant_key ids) (assistant_vid ids)])
    by by rewrite <- (assoc_L (++)).
  apply send_inv; [done|]. apply settled_app. split; [apply Hidle|]. by apply settled_one, not_pending_user.
Qed.

Lemma guard_inv action st :
  page_inv st -> (isGenerating st = false -> page_inv (action st)) -> page_inv (guardAction action st).
Proof. intros Hi Ha. unfold guardAction. destruct (isGenerating st); [exact Hi|auto]. Qed.

Lemma regenerate_inv ids starts key st :
  page_inv st -> isGenerating st = false ->
  page_inv (handleRegenerateMessage config parameterEnabled ids starts key st).
Proof.
  intros Hi Hg. pose proof (idle_not_generating st Hi Hg) as Hidle. unfold handleRegenerateMessage.
  destruct (find_index _ _); [|done]. apply send_inv; [done|]. apply settled_take, Hidle.
Qed.

Lemma edit_pending key c m : pending (edit_message key c m) = pending m.
Proof. unfold edit_message. by case_match. Qed.

Lemma edit_settled key c ms : settled ms -> settled (map (edit_message key c) ms).
Proof. intros H. apply Forall_fmap. eapply Forall_impl; [exact H|]. intros m. cbn. by rewrite edit_pending. Qed.

Lemma edit_messages_inv key c st :
  page_inv st -> page_inv (set_messages (map (edit_message key c) (messages st)) (set_editing None st)).
Proof.
  rewrite !page_inv_cases. intros [(Hi & Hs & Ho & Hm)|(src & ms & m & Hi & Hs & Ho & Hc & Hm & Hms & Hp)].
  - left. split_and!; [exact Hi|exact Hs|exact Ho|]. by apply edit_settled.
  - right. exists src, (map (edit_message key c) ms), (edit_message key c m).
    split_and!; [exact Hi|exact Hs|exact Ho|exact Hc| |by apply edit_settled|by rewrite edit_pending].
    cbn [messages set_messages set_editing]. by rewrite Hm, map_app.
Qed.

Lemma edit_inv ids starts c submit st :
  page_inv st -> (submit = true -> isGenerating st = false) ->
  page_inv (applyEdit config parameterEnabled ids starts c submit st).
Proof.
  intros Hi Hg. unfold applyEdit. destruct (editing st) as [[|k key]|]; [done| |done].
  destruct (find_index _ _) as [i|]; [|done]. destruct (negb submit || _) eqn:Hb.
  - by apply edit_messages_inv.
  - apply orb_false_elim in Hb as [Hb%negb_false_iff _].
    apply send_inv; [exact (idle_not_generating st Hi (Hg Hb))|].
    apply settled_take, edit_settled. apply (idle_not_generating st Hi (Hg Hb)).
Qed.

Lemma delete_inv key st :
  page_inv st -> isGenerating st = false -> page_inv (handleDeleteMessage key st).
Proof.
  intros Hi Hg. destruct (idle_not_generating st Hi Hg) as (Hf & Hs & Ho & Hm).
  apply page_inv_cases. left. split_and!; [exact Hf|exact Hs|exact Ho|].
  cbn [handleDeleteMessage messages set_messages]. apply Forall_forall. intros m Hin.
  apply jfilter_elem_of in Hin as [_ Hin]. unfold settled in Hm. rewrite Forall_forall in Hm. by apply Hm.
Qed.

(** A source that delivers is the one the page runs. *)
Lemma delivering st src :
  page_inv st -> existsb (Nat.eqb src) (open_sources st) = true -> exists ms m, running src ms m st.
Proof.
  rewrite page_inv_cases. intros [(_ & _ & -> & _)|(src' & ms & m & H)] He; [done|].
  pose proof H as (_ & _ & Ho & _). rewrite Ho in He. simpl in He. rewrite orb_false_r in He.
  apply Nat.eqb_eq in He as ->. eauto.
Qed.

Lemma running_error_inv src ms m st e code :
  running src ms m st -> page_inv (handleError src e code st).
Proof. intros H. apply page_inv_cases. left. by eapply error_idle. Qed.

Lemma message_inv src ms m data st : running src ms m st -> page_inv (on_message src data st).
Proof.
  intros H. unfold on_message. destruct (jeqb data _).
  - apply page_inv_cases. left. by eapply done_idle.
  - destruct (chunk_updates data) as [us|]; [|by eapply running_error_inv].
    destruct (updates_running src ms us m st H) as [m' H']. apply page_inv_cases. eauto.
Qed.

Lemma running_inv src ms m st : running src ms m st -> page_inv st.
Proof. intros H. apply page_inv_cases. eauto. Qed.

Lemma handle_inv e st :
  page_inv st -> calm e st -> enabled e st = true -> page_inv (handle config parameterEnabled e st).
Proof.
  intros Hi Hc He. destruct e; cbn [handle calm enabled] in *.
  - unfold handleSubmit. destruct (_ || _) eqn:Hb; [done|]. apply orb_false_elim in Hb as [_ Hb].
    by apply submit_inv.
  - by apply submit_inv.
  - apply guard_inv; [done|]. by apply regenerate_inv.
  - by apply guard_inv.
  - exact Hi.
  - apply edit_inv; [done|]. by intros ->.
  - apply guard_inv; [done|]. by apply delete_inv.
  - apply page_inv_cases in Hi as [(_ & Hs & _)|(src & ms & m & H)].
    + unfold isGenerating in He. by rewrite Hs in He.
    + apply page_inv_cases. left. by eapply stop_idle.
  - destruct (delivering st src Hi He) as (ms & m & H). by eapply message_inv.
  - destruct (delivering st src Hi He) as (ms & m & H). unfold on_error.
    destruct (_ =? 2)%Z; [done|]. destruct data as [[|? ?]|]; by eapply running_error_inv.
  - destruct (delivering st src Hi He) as (ms & m & H). unfold on_readystatechange.
    destruct readyState, status; try done. case_match; [by eapply running_error_inv|done].
  - destruct Hi as [Hi _]. by rewrite Hi in He.
  - destruct Hi as [Hi _]. by rewrite Hi in He.
Qed.

(** C6: while every request is started from an idle page, the page keeps its messages and its
    stream together: in every reachable state of a page that streams, either a stream runs, its
    source is the only open one, and the last message, alone, is loading or streaming; or no
    stream runs, no source is open, and no message is left waiting. *)
Theorem page_invariant loaded st :
  settled loaded -> reachable loaded st -> page_inv st.
Proof.
  intros Hl H. induction H as [|st e st' _ IH Hc Hs]; [done|].
  destruct Hs as [st e He]. by apply handle_inv.
Qed.
End Invariant.

Definition sample_config : PlaygroundConfig :=
  {| model := u "gpt-4o"; group := u "auto"; temperature := to_number (u "0.7");
     top_p := num_of_Z 1; max_tokens := num_of_Z 4096; frequency_penalty := zero;
     presence_penalty := zero; seed := None; stream := true |}.

Definition sample_enabled : ParameterEnabled :=
  {| en_temperature := true; en_top_p := true; en_max_tokens := false; en_frequency_penalty := true;
     en_presence_penalty := true; en_seed := false |}.

Definition ids (n : jstr) : Ids :=
  {| user_key := u "u" ++ n; user_vid := u "uv" ++ n; assistant_key := u "a" ++ n; assistant_vid := u "av" ++ n |}.

Lemma page_invariant_witness :
  page_inv (handle sample_config sample_enabled (ESubmit (ids (u "1")) true (u "Hello")) (initial [])).
Proof.
  apply (page_invariant sample_config sample_enabled eq_refl []); [by constructor|].
  eapply ReachStep; [apply ReachInit| |constructor; reflexivity]. exact I.
Defined.

(** ** Runs without the guard *)

Definition content_chunk (c : jstr) : jstr :=
  u "{`choices`:[{`delta`:{`content`:" ++ quote c ++ u "}}]}".

(** The author, the status and the text of each message. *)
Definition transcript (st : Chat) : list (MessageRole * option MessageStatus * jstr) :=
  map (fun m => (from m, status m, content (getCurrentVersion m))) (messages st).

(** a suggestion clicked while a stream runs starts a second stream: the chunks of both
    sources are added to the second answer, the first answer stays loading although both streams
    have ended, and the page says that nothing is being generated. *)
Theorem suggestion_overlap :
  option_map (fun st => (transcript st, isGenerating st))
    (run sample_config sample_enabled
       [ESubmit (ids (u "1")) true (u "first");
        ESuggestion (ids (u "2")) true (u "second");
        EStreamMessage 0 (content_chunk (u "one"));
        EStreamMessage 1 (content_chunk (u "two"));
        EStreamMessage 1 (u "[DONE]");
        EStreamMessage 0 (u "[DONE]")] (initial []))
  = Some ([(RoleUser, None, u "first"); (RoleAssistant, Some Loading, []);
           (RoleUser, None, u "second"); (RoleAssistant, Some Complete, u "onetwo")], false).
Proof. by vm_compute. Qed.

Definition plain_config : PlaygroundConfig :=
  {| model := model sample_config; group := group sample_config;
     temperature := temperature sample_config; top_p := top_p sample_config;
     max_tokens := max_tokens sample_config; frequency_penalty := zero; presence_penalty := zero;
     seed := None; stream := false |}.

Definition answer (c : jstr) : event :=
  EResponse (Some {| choice_content := Some c; choice_reasoning := None |}).

(** without streaming the page never counts as generating, so a second message can be sent
    before the first is answered: both answers are written to the second message, the first
    message stays loading and the first answer is lost. *)
Theorem plain_overlap :
  option_map (fun st => (transcript st, isGenerating st))
    (run plain_config sample_enabled
       [ESubmit (ids (u "1")) true (u "first"); ESubmit (ids (u "2")) true (u "second");
        answer (u "one"); answer (u "two")] (initial []))
  = Some ([(RoleUser, None, u "first"); (RoleAssistant, Some Loading, []);
           (RoleUser, None, u "second"); (RoleAssistant, Some Complete, u "two")], false).
Proof. by vm_compute. Qed.
