(* ===== verification/Channels.v ===== *)
(** * Channels

    [web/default/src/features/channels/types.ts], the tables of [constants.ts] and
    [lib/channel-utils.ts]: labels and states of a channel, the masked display of its key, its
    lists of models and groups, the warning signs, the rows of the tag view and the
    deduplication of keys.  Identifiers and states are integers. *)

From S2P Require Import Prelude JsString JsNumber Json.
Open Scope Z_scope.

Definition NEWLINE : N := 10.

(** ** Data *)

Record ChannelInfo := {
  is_multi_key : bool;
  multi_key_size : Z;
  multi_key_status_list : option (list (jstr * Z));
  multi_key_polling_index : Z;
  multi_key_mode : jstr
}.

Record Channel := {
  id : Z;
  type : Z;
  key : jstr;
  openai_organization : option jstr;
  test_model : option jstr;
  status : Z;
  name : jstr;
  weight : option num;
  created_time : num;
  test_time : num;
  response_time : num;
  base_url : option jstr;
  other : jstr;
  balance : num;
  balance_updated_time : num;
  models : jstr;
  group : jstr;
  used_quota : num;
  model_mapping : option jstr;
  status_code_mapping : option jstr;
  priority : option num;
  auto_ban : option num;
  other_info : jstr;
  tag : option jstr;
  setting : option jstr;
  param_override : option jstr;
  header_override : option jstr;
  remark : jstr;
  channel_info : ChannelInfo;
  settings : jstr
}.

(** ** Tables *)

Definition CHANNEL_TYPES : list (Z * jstr) :=
  [(0, u "Unknown"); (1, u "OpenAI"); (2, u "Midjourney"); (3, u "Azure"); (4, u "Ollama");
   (5, u "MidjourneyPlus"); (6, u "OpenAIMax"); (7, u "OhMyGPT"); (8, u "Custom"); (9, u "AILS");
   (10, u "AI Proxy"); (11, u "PaLM"); (12, u "API2GPT"); (13, u "AIGC2D"); (14, u "Anthropic");
   (15, u "Baidu"); (16, u "Zhipu"); (17, u "Ali"); (18, u "Xunfei"); (19, u "360");
   (20, u "OpenRouter"); (21, u "AI Proxy Library"); (22, u "FastGPT"); (23, u "Tencent");
   (24, u "Gemini"); (25, u "Moonshot"); (26, u "Zhipu V4"); (27, u "Perplexity");
   (31, u "LingYiWanWu"); (33, u "AWS"); (34, u "Cohere"); (35, u "MiniMax"); (36, u "SunoAPI");
   (37, u "Dify"); (38, u "Jina"); (39, u "Cloudflare"); (40, u "SiliconFlow");
   (41, u "Vertex AI"); (42, u "Mistral"); (43, u "DeepSeek"); (44, u "MokaAI");
   (45, u "VolcEngine"); (46, u "Baidu V2"); (47, u "Xinference"); (48, u "xAI"); (49, u "Coze");
   (50, u "Kling"); (51, u "Jimeng"); (52, u "Vidu"); (53, u "Submodel"); (54, u "DoubaoVideo");
   (55, u "Sora"); (56, u "Replicate"); (57, u "Codex"); (58, u "Pixverse");
   (59, u "BytePlusVideo")].

Definition CHANNEL_TYPE_DISPLAY_ORDER : list Z :=
  [1; 14; 33; 24; 43; 3; 41; 48; 42; 34; 20; 4; 40; 27; 25; 17; 26; 15; 46; 23;
   18; 45; 31; 35; 49; 19; 47; 37; 38; 39; 11; 8; 57; 22; 21; 44; 2; 5; 36; 50;
   51; 52; 53; 54; 55; 56; 58; 59].

Fixpoint assoc {V} (k : Z) (l : list (Z * V)) : option V :=
  match l with
  | [] => None
  | (k', v) :: t => if k' =? k then Some v else assoc k t
  end.

(** The first loop over the display order, then the types it leaves out. *)
Definition CHANNEL_TYPE_OPTIONS : list (Z * jstr) :=
  let ordered := flat_map (fun id =>
    match assoc id CHANNEL_TYPES with
    | Some label => if truthy label then [(id, label)] else []
    | None => []
    end) CHANNEL_TYPE_DISPLAY_ORDER in
  let seen := map fst ordered in
  ordered ++ jfilter (fun e => negb (e.1 =? 0) && negb (bool_decide (e.1 ∈ seen))) CHANNEL_TYPES.

Record StatusConfig := { variant : jstr; label : jstr }.

Definition CHANNEL_STATUS_CONFIG : list (Z * StatusConfig) :=
  [(0, {| variant := u "neutral"; label := u "Unknown" |});
   (1, {| variant := u "success"; label := u "Enabled" |});
   (2, {| variant := u "neutral"; label := u "Disabled" |});
   (3, {| variant := u "danger"; label := u "Auto Disabled" |})].

Definition MULTI_KEY_STATUS_CONFIG : list (Z * StatusConfig) :=
  [(1, {| variant := u "success"; label := u "Enabled" |});
   (2, {| variant := u "neutral"; label := u "Manual Disabled" |});
   (3, {| variant := u "danger"; label := u "Auto Disabled" |})].

Definition TYPE_TO_ICON : list (Z * jstr) :=
  [(1, u "OpenAI"); (6, u "OpenAI"); (7, u "OpenAI"); (8, u "OpenAI"); (3, u "Azure");
   (14, u "Claude"); (24, u "Gemini"); (11, u "Google"); (41, u "Gemini"); (33, u "Aws");
   (39, u "Cloudflare"); (15, u "Baidu"); (46, u "Baidu"); (16, u "Zhipu"); (26, u "Zhipu");
   (17, u "Qwen"); (18, u "Spark"); (23, u "Hunyuan"); (19, u "Ai360"); (25, u "Moonshot");
   (31, u "Yi"); (35, u "Minimax"); (45, u "Volcengine"); (4, u "Ollama"); (27, u "Perplexity");
   (34, u "Cohere"); (42, u "Mistral"); (43, u "DeepSeek"); (48, u "XAI"); (49, u "Coze");
   (40, u "SiliconCloud"); (44, u "OpenAI"); (20, u "OpenRouter"); (2, u "Midjourney");
   (5, u "Midjourney"); (50, u "Kling"); (51, u "Jimeng"); (52, u "Vidu"); (58, u "PixVerse");
   (36, u "Suno"); (55, u "OpenAI"); (54, u "Doubao"); (59, u "Doubao"); (56, u "Replicate");
   (37, u "Dify"); (38, u "Jina"); (22, u "FastGPT"); (47, u "Xinference"); (53, u "OpenAI");
   (10, u "OpenAI"); (21, u "OpenAI"); (12, u "OpenAI"); (13, u "OpenAI"); (9, u "OpenAI")].

Definition getChannelTypeLabel (type : Z) : jstr := option_or (assoc type CHANNEL_TYPES) (u "Unknown").

Definition getChannelTypeIcon (type : Z) : jstr := option_or (assoc type TYPE_TO_ICON) (u "OpenAI").

Definition getChannelStatusBadge (status : Z) : StatusConfig :=
  option_or (assoc status CHANNEL_STATUS_CONFIG) {| variant := u "neutral"; label := u "Unknown" |}.

Definition getMultiKeyStatusBadge (status : Z) : StatusConfig :=
  option_or (assoc status MULTI_KEY_STATUS_CONFIG) {| variant := u "success"; label := u "Enabled" |}.

(** [getMultiKeyStatusConfig] of [multi-key-utils.ts] *)
Definition getMultiKeyStatusConfig (status : Z) : StatusConfig :=
  option_or (assoc status MULTI_KEY_STATUS_CONFIG) {| variant := u "neutral"; label := u "Unknown" |}.

Definition isChannelEnabled (channel : Channel) : bool := status channel =? 1.
Definition isMultiKeyChannel (channel : Channel) : bool := is_multi_key (channel_info channel).

(** ** Multi-key actions ([multi-key-utils.ts]) *)

Inductive MultiKeyAction := MDelete | MEnable | MDisable | MEnableAll | MDisableAll | MDeleteDisabled.

Definition getMultiKeyConfirmMessage (action : option MultiKeyAction) : jstr :=
  match action with
  | None => []
  | Some MDelete => u "Are you sure you want to delete this key? This action cannot be undone."
  | Some MEnable => u "Enable this key?"
  | Some MDisable => u "Disable this key?"
  | Some MEnableAll => u "Are you sure you want to enable all keys?"
  | Some MDisableAll => u "Are you sure you want to disable all enabled keys?"
  | Some MDeleteDisabled =>
      u "Are you sure you want to delete all auto-disabled keys? This action cannot be undone."
  end.

Definition isDestructiveAction (action : option MultiKeyAction) : bool :=
  match action with
  | Some MDelete | Some MDeleteDisabled | Some MDisableAll => true
  | _ => false
  end.

(** ** Keys *)

Definition key_lines (k : jstr) : list jstr := jfilter (fun l => truthy (trim l)) (split_on NEWLINE k).

Definition formatChannelKey (k : jstr) (isMultiKey : bool) : jstr :=
  if negb (truthy k) then []
  else if isMultiKey then string_of_N (N.of_nat (length (key_lines k))) ++ u " keys"
  else if (length k <=? 16)%nat then take 4 k ++ u "..." ++ slice_last 4 k
  else take 8 k ++ u "..." ++ slice_last 8 k.

Definition formatKeyPreview (k : jstr) (maxLength : nat) : jstr :=
  if negb (truthy k) then []
  else if (length k <=? maxLength)%nat then k
  else take maxLength k ++ u "...".

Definition countKeys (k : jstr) : nat := if negb (truthy k) then 0 else length (key_lines k).

(** ** Lists *)

Definition parseModelsList (models : jstr) : list jstr :=
  if negb (truthy models) then [] else split_trim 44 models.

Definition formatModelsString (models : list jstr) : jstr := join (u ",") models.
Definition formatGroupsString (groups : list jstr) : jstr := join (u ",") groups.

(** [localeCompare] depends on the locale of the browser. *)
Section Groups.
Context (localeCompare : jstr -> jstr -> Z).

Definition compare_groups (a b : jstr) : Z :=
  if jeqb a (u "default") then -1 else if jeqb b (u "default") then 1 else localeCompare a b.

Definition parseGroupsList (groups : jstr) : list jstr :=
  if negb (truthy groups) then [] else
  sort_by (fun a b => 0 <? compare_groups a b) (split_trim 44 groups).
End Groups.

(** ** Settings *)

(** The cast keeps any JSON value; [{}] where the text is empty or no JSON. *)
Definition parseChannelSettings (settingStr : option jstr) : json :=
  match settingStr with
  | Some ((_ :: _) as s) => option_or (json_parse s) (JObj [])
  | _ => JObj []
  end.

Definition parseChannelOtherSettings (settingsStr : option jstr) : json :=
  match settingsStr with
  | Some ((_ :: _) as s) => if jeqb s (u "{}") then JObj [] else option_or (json_parse s) (JObj [])
  | _ => JObj []
  end.

Definition validateChannelSettings (settings : jstr) : bool :=
  if negb (truthy settings) || negb (truthy (trim settings)) then true
  else match json_parse settings with Some _ => true | None => false end.

(** ** Balance and response time *)

Definition getBalanceVariant (balance : num) : jstr :=
  if feq balance zero then u "neutral"
  else if flt balance (num_of_Z 1) then u "danger"
  else if flt balance (num_of_Z 10) then u "warning"
  else u "success".

(** Without the translation function. *)
Definition formatResponseTime (timeMs : num) : jstr :=
  if feq timeMs zero then u "Not tested"
  else if flt timeMs (num_of_Z 1000) then num_to_string timeMs ++ u "ms"
  else to_fixed 2 (fdiv timeMs (num_of_Z 1000)) ++ u "s".

Definition RT_EXCELLENT := {| variant := u "success"; label := u "Excellent" |}.
Definition RT_GOOD := {| variant := u "info"; label := u "Good" |}.
Definition RT_FAIR := {| variant := u "warning"; label := u "Fair" |}.
Definition RT_POOR := {| variant := u "danger"; label := u "Poor" |}.
Definition RT_UNKNOWN := {| variant := u "neutral"; label := u "Not tested" |}.

Definition getResponseTimeConfig (timeMs : num) : StatusConfig :=
  if feq timeMs zero then RT_UNKNOWN
  else if fle timeMs (num_of_Z 500) then RT_EXCELLENT
  else if fle timeMs (num_of_Z 1000) then RT_GOOD
  else if fle timeMs (num_of_Z 2000) then RT_FAIR
  else if fle timeMs (num_of_Z 5000) then RT_POOR
  else RT_POOR.

Definition getPriorityDisplay (priority : option num) : jstr :=
  match priority with None => u "0" | Some p => num_to_string p end.
Definition getWeightDisplay (weight : option num) : jstr :=
  match weight with None => u "0" | Some w => num_to_string w end.

(** ** Validation *)

Definition validateChannelName (name : jstr) : bool := (0 <? length (trim name))%nat.
Definition validateApiKey (k : jstr) : bool := (0 <? length (trim k))%nat.
Definition validateModels (models : jstr) : bool := (0 <? length (parseModelsList models))%nat.
Definition validateGroups (localeCompare : jstr -> jstr -> Z) (groups : jstr) : bool :=
  (0 <? length (parseGroupsList localeCompare groups))%nat.

Definition low_balance (channel : Channel) : bool :=
  flt zero (balance channel) && flt (balance channel) (num_of_Z 1).

Definition all_keys_disabled (channel : Channel) : bool :=
  is_multi_key (channel_info channel) &&
  match multi_key_status_list (channel_info channel) with
  | Some l => multi_key_size (channel_info channel) <=? Z.of_nat (length (obj_keys l))
  | None => false
  end.

Definition channelNeedsAttention (channel : Channel) : bool :=
  if status channel =? 3 then true
  else if low_balance channel then true
  else if all_keys_disabled channel then true
  else false.

Definition getAttentionReason (channel : Channel) : option jstr :=
  if status channel =? 3 then Some (u "Auto-disabled")
  else if low_balance channel then Some (u "Low balance")
  else if all_keys_disabled channel then Some (u "All keys disabled")
  else None.

(** ** Tag rows *)

(** The fields of a row that differ from those of its first channel; [r_tag] is also its key,
    its name and its identifier.  [r_status] is [None] while undefined. *)
Record TagRow := {
  r_first : Channel;
  r_tag : jstr;
  r_used_quota : num;
  r_response_time : num;
  r_priority : option num;
  r_weight : option num;
  r_group : jstr;
  r_status : option Z;
  children : list Channel
}.

Definition minus_one : num := num_of_Z (-1).

Definition new_row (t : jstr) (channel : Channel) : TagRow :=
  {| r_first := channel; r_tag := t; r_used_quota := zero; r_response_time := zero;
     r_priority := Some minus_one; r_weight := Some minus_one; r_group := []; r_status := None;
     children := [] |}.

(** [a === b] on [number | null] *)
Definition opt_feq (a b : option num) : bool :=
  match a, b with
  | Some x, Some y => feq x y
  | None, None => true
  | _, _ => false
  end.

(** The same value, or [null] when the values differ; [-1] marks a row without a value. *)
Definition merge_value (row channel : option num) : option num :=
  if opt_feq row (Some minus_one) then channel
  else if negb (opt_feq row channel) then None else row.

Definition merge_group (row channel : jstr) : jstr :=
  if jeqb row [] then channel
  else
    let existingGroups := jfilter truthy (split_on 44 row) in
    let newGroups := jfilter truthy (split_on 44 channel) in
    fold_left (fun g x => if bool_decide (x ∈ existingGroups) then g else g ++ u "," ++ x) newGroups row.

Definition merge_status (row : option Z) (channel : Z) : option Z :=
  if channel =? 1 then Some 1
  else match row with None => Some channel | Some _ => row end.

Definition add_child (channel : Channel) (row : TagRow) : TagRow :=
  let childCount := num_of_Z (Z.of_nat (S (length (children row)))) in
  {| r_first := r_first row; r_tag := r_tag row;
     r_used_quota := fadd (r_used_quota row) (used_quota channel);
     r_response_time :=
       fdiv (fadd (fmul (r_response_time row) (fsub childCount (num_of_Z 1))) (response_time channel))
         childCount;
     r_priority := merge_value (r_priority row) (priority channel);
     r_weight := merge_value (r_weight row) (weight channel);
     r_group := merge_group (r_group row) (group channel);
     r_status := merge_status (r_status row) (status channel);
     children := children row ++ [channel] |}.

(** [channel.tag || ''] *)
Definition tag_of (channel : Channel) : jstr := option_or (tag channel) [].

(** The rows in the order they were created; the row of the tag is updated in place, as the map
    and the result share it. *)
Fixpoint add_to_rows (channel : Channel) (rows : list TagRow) : list TagRow :=
  match rows with
  | [] => [add_child channel (new_row (tag_of channel) channel)]
  | r :: t => if jeqb (r_tag r) (tag_of channel) then add_child channel r :: t
              else r :: add_to_rows channel t
  end.

Definition aggregateChannelsByTag (channels : list Channel) : list TagRow :=
  fold_left (fun rows channel => add_to_rows channel rows) channels [].

(** ** Deduplication of keys *)

Record DedupResult := {
  deduplicatedText : jstr;
  beforeCount : nat;
  afterCount : nat;
  removedCount : nat
}.

(** The loop over the lines, with [keySet] and [deduplicatedKeys], which hold the same keys. *)
Fixpoint dedup_lines (keys lines : list jstr) : list jstr :=
  match lines with
  | [] => keys
  | line :: t =>
      let trimmedLine := trim line in
      if truthy trimmedLine && negb (bool_decide (trimmedLine ∈ keys))
      then dedup_lines (keys ++ [trimmedLine]) t else dedup_lines keys t
  end.

Definition deduplicateKeys (keysText : jstr) : DedupResult :=
  if negb (truthy keysText) || negb (truthy (trim keysText))
  then {| deduplicatedText := []; beforeCount := 0; afterCount := 0; removedCount := 0 |}
  else
    let keyLines := split_on NEWLINE keysText in
    let deduplicatedKeys := dedup_lines [] keyLines in
    {| deduplicatedText := join [NEWLINE] deduplicatedKeys;
       beforeCount := length keyLines;
       afterCount := length deduplicatedKeys;
       removedCount := length keyLines - length deduplicatedKeys |}.

Definition TYPE_TO_KEY_PROMPT : list (Z * jstr) :=
  [(15, u "Format: APIKey|SecretKey"); (18, u "Format: APPID|APISecret|APIKey");
   (22, u "Format: APIKey-AppId, e.g., fastgpt-0sp2gtvfdgyi4k30jwlgwf1i-64f335d84283f05518e9e041");
   (23, u "Format: AppId|SecretId|SecretKey"); (33, u "Format: Ak|Sk|Region");
   (50, u "Format: AccessKey|SecretKey (or just ApiKey if upstream is New API)");
   (51, u "Format: Access Key ID|Secret Access Key");
   (57, u "Paste Codex OAuth JSON credential (access_token / refresh_token / account_id)")].

Definition getKeyPromptForType (type : Z) : jstr :=
  option_or (assoc type TYPE_TO_KEY_PROMPT) (u "Enter API key for this channel").
