(* ===== verification/ChannelFacts.v ===== *)
(** * Channels: theorems

    The tag view groups the channels it is given, the deduplication of keys is stable, the mask
    hides the middle of a key, and the groups are sorted with [default] first. *)

From S2P Require Import Prelude JsString JsNumber Json Channels.
Open Scope Z_scope.

(** ** Deduplication of keys *)

Lemma dedup_lines_from keys seen lines :
  (forall k, k ∈ keys <-> k ∈ seen) ->
  dedup_lines keys lines = keys ++ dedup_from seen (jfilter truthy (map trim lines)).
Proof.
  revert keys seen. induction lines as [|l lines IH]; intros keys seen Hk; cbn [dedup_lines map].
  - simpl. by rewrite app_nil_r.
  - simpl jfilter. destruct (truthy (trim l)) eqn:Ht; cbn [andb]; [|by apply IH].
    cbn [dedup_from]. case_bool_decide as Hin; cbn [negb].
    + rewrite decide_True by by apply Hk. by apply IH.
    + rewrite decide_False by by rewrite <- Hk.
      rewrite (IH (keys ++ [trim l]) (trim l :: seen)); [by rewrite <- (assoc_L (++))|].
      intros k. specialize (Hk k). set_solver.
Qed.

(** The keys of a text: its trimmed lines that are not blank, each once. *)
Definition keys_of (text : jstr) : list jstr := dedup (split_trim NEWLINE text).

Lemma dedup_lines_keys text : dedup_lines [] (split_on NEWLINE text) = keys_of text.
Proof. by apply (dedup_lines_from [] []). Qed.

Lemma keys_of_join keys :
  Forall (fun w => w <> [] /\ trimmed w /\ forallb (fun d => negb (d =? NEWLINE)%N) w = true) keys ->
  NoDup keys -> keys_of (join [NEWLINE] keys) = keys.
Proof. intros Hk Hn. unfold keys_of. rewrite split_trim_join by done. by apply dedup_id. Qed.

(** A blank text has no keys. *)
Lemma trim_blank s : trim s = [] -> forallb is_space s = true.
Proof.
  unfold trim, trim_end. intros H. apply (f_equal (@rev N)) in H. rewrite rev_involutive in H.
  simpl in H. destruct (trim_start_suffix (rev (trim_start s))) as (p & Hp & Hs).
  rewrite H, app_nil_r in Hp. destruct (trim_start s) as [|c t] eqn:Ht.
  - destruct (trim_start_suffix s) as (q & Hq & Hqs). rewrite Ht, app_nil_r in Hq. by rewrite Hq.
  - apply trim_start_head in Ht as Hc. rewrite <- Hp in Hs.
    simpl in Hs. rewrite forallb_app in Hs. simpl in Hs. rewrite Hc in Hs.
    by rewrite andb_false_r in Hs.
Qed.

Lemma trim_all_space s : forallb is_space s = true -> trim s = [].
Proof.
  intros H. unfold trim. assert (trim_start s = []) as ->; [|done].
  induction s as [|c s IH]; [done|]. simpl in *. apply andb_prop in H as [-> H]. by apply IH.
Qed.

Lemma split_on_forallb (p : N -> bool) c s :
  forallb p s = true -> Forall (fun w => forallb p w = true) (split_on c s).
Proof.
  induction s as [|d s IH]; simpl; [by repeat constructor|]. intros [Hd Hs]%andb_prop.
  specialize (IH Hs). destruct (d =? c)%N; [by constructor|].
  destruct IH as [|w ws Hw Hws]; [by repeat constructor; simpl; rewrite Hd|].
  constructor; [|done]. simpl. by rewrite Hd.
Qed.

Lemma keys_of_blank text : trim text = [] -> keys_of text = [].
Proof.
  intros H%trim_blank. unfold keys_of, split_trim.
  pose proof (split_on_forallb is_space NEWLINE text H) as Hs.
  assert (jfilter truthy (map trim (split_on NEWLINE text)) = []) as ->; [|done].
  induction Hs as [|w ws Hw _ IH]; [done|]. simpl. by rewrite (trim_all_space w Hw).
Qed.

Lemma keys_of_spec text :
  Forall (fun w => w <> [] /\ trimmed w /\ forallb (fun d => negb (d =? NEWLINE)%N) w = true) (keys_of text).
Proof. apply Forall_dedup, split_trim_spec. Qed.

(** [deduplicateKeys] keeps each key of the text once, trimmed and in the order of first
    occurrence, one per line; the counts add up; and its own result is left as it is, with
    nothing removed. *)
Theorem deduplicateKeys_spec text :
  let r := deduplicateKeys text in
  deduplicatedText r = join [NEWLINE] (keys_of text) /\
  afterCount r = length (keys_of text) /\
  (removedCount r + afterCount r = beforeCount r)%nat /\
  deduplicatedText (deduplicateKeys (deduplicatedText r)) = deduplicatedText r /\
  removedCount (deduplicateKeys (deduplicatedText r)) = 0%nat.
Proof.
  cbn zeta. assert (forall t, deduplicatedText (deduplicateKeys t) = join [NEWLINE] (keys_of t) /\
    afterCount (deduplicateKeys t) = length (keys_of t) /\
    (trim t <> [] -> beforeCount (deduplicateKeys t) = length (split_on NEWLINE t)) /\
    (removedCount (deduplicateKeys t) = beforeCount (deduplicateKeys t) - afterCount (deduplicateKeys t))%nat /\
    (afterCount (deduplicateKeys t) <= beforeCount (deduplicateKeys t))%nat) as Hall.
  { intros t. unfold deduplicateKeys. destruct (truthy (trim t)) eqn:Ht.
    - assert (truthy t = true) as -> by by destruct t. cbn [negb orb].
      cbn [deduplicatedText afterCount beforeCount removedCount]. rewrite dedup_lines_keys.
      split_and!; [done..|]. unfold keys_of, split_trim. etrans; [apply dedup_length|].
      etrans; [apply jfilter_length|]. by rewrite length_map.
    - rewrite orb_true_r. assert (trim t = []) as Hb by by destruct (trim t).
      rewrite keys_of_blank by done. by split_and!. }
  destruct (Hall text) as (Ht & Ha & _ & Hr & Hle).
  destruct (Hall (deduplicatedText (deduplicateKeys text))) as (Ht2 & Ha2 & Hb2 & Hr2 & _).
  assert (keys_of (deduplicatedText (deduplicateKeys text)) = keys_of text) as Hk.
  { rewrite Ht. apply keys_of_join; [apply keys_of_spec|apply NoDup_dedup]. }
  split_and!; [done|done|lia|by rewrite Ht2, Hk, Ht|].
  rewrite Hr2, Ha2, Hk.
  destruct (decide (trim (deduplicatedText (deduplicateKeys text)) = [])) as [Hb|Hb].
  - rewrite <- Hk, keys_of_blank by done. unfold deduplicateKeys at 1. rewrite Hb. cbn [truthy negb].
    by rewrite orb_true_r.
  - rewrite Hb2, Ht by done. rewrite Ht in Hb. rewrite split_on_join; [lia| |].
    + intros E. by rewrite E in Hb.
    + eapply Forall_impl; [apply keys_of_spec|]. naive_solver.
Qed.

(** ** Tag rows *)

(** The row of a tag, built from the channels that carry it. *)
Definition with_tag (t : jstr) (channels : list Channel) : list Channel :=
  jfilter (fun c => jeqb (tag_of c) t) channels.

Definition row_of (t : jstr) (cs : list Channel) : option TagRow :=
  match cs with
  | [] => None
  | c :: _ => Some (fold_left (fun r c => add_child c r) cs (new_row t c))
  end.

Definition group_by_tag (channels : list Channel) : list TagRow :=
  flat_map (fun t => match row_of t (with_tag t channels) with Some r => [r] | None => [] end)
    (dedup (map tag_of channels)).

Lemma add_child_tag c r : r_tag (add_child c r) = r_tag r.
Proof. done. Qed.

Lemma fold_children_tag cs r : r_tag (fold_left (fun r c => add_child c r) cs r) = r_tag r.
Proof. revert r. induction cs as [|c cs IH]; intros r; simpl; [done|]. by rewrite IH. Qed.

Lemma row_of_tag t cs r : row_of t cs = Some r -> r_tag r = t.
Proof. destruct cs as [|c cs]; [done|]. intros [= <-]. cbn [fold_left]. by rewrite fold_children_tag. Qed.

Lemma with_tag_snoc t channels c :
  with_tag t (channels ++ [c]) = with_tag t channels ++ (if jeqb (tag_of c) t then [c] else []).
Proof. unfold with_tag. rewrite jfilter_app. simpl. by destruct (jeqb (tag_of c) t). Qed.

Lemma row_of_snoc t cs c :
  row_of t (cs ++ [c]) =
    Some (add_child c (match row_of t cs with Some r => r | None => new_row t c end)).
Proof. destruct cs as [|d cs]; [done|]. cbn [app row_of]. by rewrite app_comm_cons, fold_left_app. Qed.

Lemma with_tag_none t channels : t ∉ map tag_of channels -> with_tag t channels = [].
Proof.
  intros H. unfold with_tag. destruct (jfilter _ channels) as [|c l] eqn:E; [done|].
  assert (c ∈ jfilter (fun c => jeqb (tag_of c) t) channels) as Hc by (rewrite E; by left).
  apply jfilter_elem_of in Hc as [->%jeqb_spec%eq_sym Hc]. destruct H. apply list_elem_of_fmap. eauto.
Qed.

(** The rows of some tags after one more channel. *)
Definition rows_for (channels : list Channel) (tags : list jstr) : list TagRow :=
  flat_map (fun t => match row_of t (with_tag t channels) with Some r => [r] | None => [] end) tags.

Lemma rows_for_other channels c tags :
  tag_of c ∉ tags -> rows_for (channels ++ [c]) tags = rows_for channels tags.
Proof.
  intros H. unfold rows_for. induction tags as [|t tags IH]; [done|].
  apply not_elem_of_cons in H as [Hne H]. cbn [flat_map]. rewrite IH by done.
  rewrite with_tag_snoc. assert (jeqb (tag_of c) t = false) as -> by by apply jeqb_neq.
  by rewrite app_nil_r.
Qed.

Lemma add_to_rows_fresh c rows :
  tag_of c ∉ map r_tag rows ->
  add_to_rows c rows = rows ++ [add_child c (new_row (tag_of c) c)].
Proof.
  induction rows as [|r rows IH]; [done|]. cbn [map add_to_rows]. intros H.
  apply not_elem_of_cons in H as [Hne H].
  assert (jeqb (r_tag r) (tag_of c) = false) as -> by (apply jeqb_neq; congruence). by rewrite IH.
Qed.

Lemma rows_for_tags channels tags : map r_tag (rows_for channels tags) = jfilter
  (fun t => bool_decide (t ∈ map tag_of channels)) tags.
Proof.
  induction tags as [|t tags IH]; [done|]. unfold rows_for in *. cbn [flat_map]. simpl jfilter.
  rewrite map_app, IH. clear IH. case_bool_decide as Ht.
  - destruct (with_tag t channels) as [|c cs] eqn:E.
    + apply list_elem_of_fmap in Ht as (c & -> & Hc).
      assert (c ∈ with_tag (tag_of c) channels) as Hin.
      { apply jfilter_elem_of. split; [apply jeqb_refl|done]. }
      rewrite E in Hin. by apply elem_of_nil in Hin.
    + destruct (row_of t (c :: cs)) as [r|] eqn:Hr; [|done]. apply row_of_tag in Hr. simpl. by rewrite Hr.
  - by rewrite with_tag_none.
Qed.

Lemma rows_for_same channels c tags :
  NoDup tags -> tag_of c ∈ tags -> tag_of c ∈ map tag_of channels ->
  add_to_rows c (rows_for channels tags) = rows_for (channels ++ [c]) tags.
Proof.
  intros Hnd Hin Hch. induction Hnd as [|t tags Ht Hnd IH]; [by apply elem_of_nil in Hin|].
  unfold rows_for in *. cbn [flat_map]. destruct (decide (t = tag_of c)) as [->|Hne].
  - rewrite with_tag_snoc, jeqb_refl, row_of_snoc.
    fold (rows_for (channels ++ [c]) tags). rewrite rows_for_other by done.
    destruct (with_tag (tag_of c) channels) as [|d cs] eqn:E.
    + apply list_elem_of_fmap in Hch as (c' & Hc & Hc').
      assert (c' ∈ with_tag (tag_of c) channels) as Hin'.
      { apply jfilter_elem_of. split; [by apply jeqb_spec|done]. }
      rewrite E in Hin'. by apply elem_of_nil in Hin'.
    + destruct (row_of (tag_of c) (d :: cs)) as [r|] eqn:Hr; [|done].
      apply row_of_tag in Hr as Htag. cbn [app add_to_rows]. by rewrite Htag, jeqb_refl.
  - apply elem_of_cons in Hin as [?|Hin]; [congruence|]. rewrite <- IH by done.
    rewrite with_tag_snoc. assert (jeqb (tag_of c) t = false) as -> by (apply jeqb_neq; congruence).
    rewrite app_nil_r. destruct (row_of t (with_tag t channels)) as [r|] eqn:Hr; [|done].
    apply row_of_tag in Hr as Htag. cbn [app add_to_rows]. rewrite Htag.
    by assert (jeqb t (tag_of c) = false) as -> by by apply jeqb_neq.
Qed.

Lemma aggregate_group_by channels : aggregateChannelsByTag channels = group_by_tag channels.
Proof.
  induction channels as [|c channels IH] using rev_ind; [done|].
  unfold aggregateChannelsByTag in *. rewrite fold_left_app. cbn [fold_left]. rewrite IH. clear IH.
  unfold group_by_tag. rewrite map_app. cbn [map]. rewrite dedup_snoc. case_decide as Hin.
  - rewrite app_nil_r. apply rows_for_same; [apply NoDup_dedup|by apply elem_of_dedup|done].
  - rewrite flat_map_app. cbn [flat_map]. fold (rows_for (channels ++ [c]) (dedup (map tag_of channels))).
    fold (rows_for channels (dedup (map tag_of channels))).
    rewrite rows_for_other by by rewrite elem_of_dedup.
    rewrite add_to_rows_fresh.
    + rewrite with_tag_snoc, jeqb_refl, with_tag_none by done. done.
    + rewrite rows_for_tags. intros [H _]%jfilter_elem_of. by apply bool_decide_eq_true in H.
Qed.

(** What a row says of its channels. *)
Lemma fold_children cs r :
  children (fold_left (fun r c => add_child c r) cs r) = children r ++ cs.
Proof.
  revert r. induction cs as [|c cs IH]; intros r; simpl; [by rewrite app_nil_r|].
  rewrite IH. cbn [add_child children]. by rewrite <- (assoc_L (++)).
Qed.

Lemma fold_used_quota cs r :
  r_used_quota (fold_left (fun r c => add_child c r) cs r)
  = fold_left fadd (map used_quota cs) (r_used_quota r).
Proof. revert r. induction cs as [|c cs IH]; intros r; simpl; [done|]. by rewrite IH. Qed.

Lemma fold_status cs r :
  r_status (fold_left (fun r c => add_child c r) cs r) = Some 1 <->
  r_status r = Some 1 \/ Exists (fun c => status c = 1) cs.
Proof.
  revert r. induction cs as [|c cs IH]; intros r; cbn [fold_left].
  - split; [by left|]. intros [H|H]; [done|]. by apply Exists_nil in H.
  - rewrite IH, Exists_cons. cbn [add_child r_status]. unfold merge_status.
    destruct (Z.eqb_spec (status c) 1) as [->|Hc]; [naive_solver|].
    destruct (r_status r) as [s|]; naive_solver.
Qed.

(** The names of groups in a text. *)
Definition groups_of (text : jstr) : list jstr := jfilter truthy (split_on 44 text).

Lemma groups_of_name x g : x ∈ groups_of g -> groups_of x = [x].
Proof.
  intros [Hx Hin]%jfilter_elem_of. pose proof (proj1 (Forall_forall _ _) (split_on_parts 44 g) x Hin) as Hp.
  unfold groups_of. rewrite split_on_plain by done. cbn [List.filter]. by rewrite Hx.
Qed.

Lemma groups_of_cut a b : groups_of (a ++ u "," ++ b) = groups_of a ++ groups_of b.
Proof. unfold groups_of. change (u "," ++ b) with (44%N :: b). by rewrite split_on_cut, jfilter_app. Qed.

(** The groups after a channel is added are those of the row and those of the channel. *)
Lemma merge_group_names x row channel :
  x ∈ groups_of (merge_group row channel) <-> x ∈ groups_of row \/ x ∈ groups_of channel.
Proof.
  unfold merge_group. destruct (jeqb row []) eqn:E.
  { apply jeqb_spec in E as ->. split; [by right|]. intros [H|H]; [by apply elem_of_nil in H|done]. }
  fold (groups_of row) (groups_of channel). clear E.
  assert (forall names g, (forall y, y ∈ names -> groups_of y = [y]) ->
    x ∈ groups_of (fold_left (fun g y => if bool_decide (y ∈ groups_of row) then g else g ++ u "," ++ y) names g)
    <-> x ∈ groups_of g \/ (x ∈ names /\ x ∉ groups_of row)) as Hfold.
  { induction names as [|y names IH]; intros g Hn; cbn [fold_left].
    - split; [by left|]. intros [H|[H _]]; [done|by apply elem_of_nil in H].
    - rewrite IH by (intros z Hz; apply Hn; by right). rewrite elem_of_cons. case_bool_decide as Hy.
      + naive_solver.
      + rewrite groups_of_cut, (Hn y) by by left. rewrite elem_of_app, list_elem_of_singleton. naive_solver. }
  rewrite Hfold by (intros y; apply groups_of_name). destruct (decide (x ∈ groups_of row)); naive_solver.
Qed.

Lemma fold_groups x cs r :
  x ∈ groups_of (r_group (fold_left (fun r c => add_child c r) cs r)) <->
  x ∈ groups_of (r_group r) \/ Exists (fun c => x ∈ groups_of (group c)) cs.
Proof.
  revert r. induction cs as [|c cs IH]; intros r; cbn [fold_left].
  - split; [by left|]. intros [H|H]; [done|]. by apply Exists_nil in H.
  - rewrite IH, Exists_cons. cbn [add_child r_group]. rewrite merge_group_names. tauto.
Qed.

(** A row is built from its children. *)
Lemma row_shape channels r :
  r ∈ aggregateChannelsByTag channels ->
  exists c cs, children r = c :: cs /\ children r = with_tag (r_tag r) channels /\
    r = fold_left (fun r c => add_child c r) (children r) (new_row (r_tag r) c).
Proof.
  rewrite aggregate_group_by. unfold group_by_tag. intros Hr.
  rewrite list_elem_of_In, in_flat_map in Hr. destruct Hr as (t & _ & Hr).
  destruct (row_of t (with_tag t channels)) as [r'|] eqn:Hrow; [|done].
  destruct Hr as [->|[]]. apply row_of_tag in Hrow as Ht. rewrite Ht. unfold row_of in Hrow.
  destruct (with_tag t channels) as [|c cs]; [done|]. exists c, cs. injection Hrow as <-.
  by rewrite fold_children.
Qed.

(** C32: the tag view is the grouping of the channels by tag: one row per tag, in the order the
    tags first occur; the children of a row are the channels with its tag, in order; a row is
    enabled exactly when one of them is; its used quota is their sum, in order; and the groups it
    names are exactly those that one of them names. *)
Theorem tag_rows_spec channels :
  map r_tag (aggregateChannelsByTag channels) = dedup (map tag_of channels) /\
  Forall (fun r =>
    children r = jfilter (fun c => jeqb (tag_of c) (r_tag r)) channels /\ children r <> [] /\
    (r_status r = Some 1 <-> Exists (fun c => status c = 1) (children r)) /\
    r_used_quota r = fold_left fadd (map used_quota (children r)) zero /\
    forall g, g ∈ groups_of (r_group r) <-> Exists (fun c => g ∈ groups_of (group c)) (children r))
    (aggregateChannelsByTag channels).
Proof.
  split.
  - rewrite aggregate_group_by. unfold group_by_tag.
    fold (rows_for channels (dedup (map tag_of channels))).
    rewrite rows_for_tags. apply jfilter_all, Forall_forall. intros t Ht.
    apply bool_decide_eq_true. by apply elem_of_dedup.
  - apply Forall_forall. intros r Hr. apply row_shape in Hr as (c & cs & Hc & Hw & Hr).
    split; [done|]. split; [by rewrite Hc|]. split; [|split].
    + rewrite Hr at 1. rewrite fold_status. split; [by intros [?|?]|by right].
    + rewrite Hr at 1. by rewrite fold_used_quota.
    + intros g. rewrite Hr at 1. rewrite fold_groups. split; [|by right]. intros [H|H]; [by apply elem_of_nil in H|done].
Qed.

(** ** Priorities *)

Lemma fold_priority cs r :
  r_priority (fold_left (fun r c => add_child c r) cs r)
  = fold_left merge_value (map priority cs) (r_priority r).
Proof. revert r. induction cs as [|c cs IH]; intros r; simpl; [done|]. by rewrite IH. Qed.

Lemma merge_values p ps :
  opt_feq p (Some minus_one) = false -> Forall (fun q => opt_feq q (Some minus_one) = false) ps ->
  fold_left merge_value ps p = if forallb (opt_feq p) ps then p else None.
Proof.
  intros Hp Hps. assert (fold_left merge_value ps None = None) as Hnone.
  { clear Hp. induction Hps as [|q ps _ _ IH]; [done|]. cbn [fold_left]. by destruct q. }
  induction Hps as [|q ps Hq Hps IH]; [done|]. cbn [fold_left forallb]. unfold merge_value at 2.
  rewrite Hp. destruct (opt_feq p q) eqn:Hpq; cbn [negb andb].
  - apply IH. cbn [fold_left] in Hnone. by destruct q, p.
  - cbn [fold_left] in Hnone. by destruct q.
Qed.

(** a row shows the priority its channels share, and none when they differ, as long as no
    channel has priority -1, the value that marks a row without one. *)
Theorem tag_priority_spec channels r p ps :
  r ∈ aggregateChannelsByTag channels -> map priority (children r) = p :: ps ->
  Forall (fun q => opt_feq q (Some minus_one) = false) (p :: ps) ->
  r_priority r = if forallb (opt_feq p) ps then p else None.
Proof.
  intros (c & cs & _ & _ & Hr)%row_shape Hp [Hn Hns]%Forall_cons. rewrite Hr, fold_priority, Hp.
  cbn [fold_left new_row r_priority]. rewrite <- merge_values by done. f_equal.
Qed.

Definition sample_channel (t : jstr) (prio : option num) (st : Z) : Channel :=
  {| id := 1; type := 1; key := []; openai_organization := None; test_model := None; status := st;
     name := u "c"; weight := None; created_time := zero; test_time := zero; response_time := zero;
     base_url := None; other := []; balance := zero; balance_updated_time := zero; models := [];
     group := u "default"; used_quota := zero; model_mapping := None; status_code_mapping := None;
     priority := prio; auto_ban := None; other_info := []; tag := Some t; setting := None;
     param_override := None; header_override := None; remark := [];
     channel_info := {| is_multi_key := false; multi_key_size := 0; multi_key_status_list := None;
                        multi_key_polling_index := 0; multi_key_mode := u "random" |};
     settings := u "{}" |}.

Definition five_three : list Channel :=
  [sample_channel (u "a") (Some (num_of_Z 5)) 1; sample_channel (u "a") (Some (num_of_Z 3)) 2].

Definition row_a : TagRow :=
  fold_left (fun r c => add_child c r) five_three (new_row (u "a") (sample_channel (u "a") (Some (num_of_Z 5)) 1)).

Lemma tag_priority_spec_witness : r_priority row_a = None.
Proof.
  apply (tag_priority_spec five_three row_a (Some (num_of_Z 5)) [Some (num_of_Z 3)]).
  - by left.
  - reflexivity.
  - repeat constructor.
Defined.

(** with a channel of priority -1 first, the row shows the priority of the next channel as if
    they shared it; with the two in the other order it shows none. *)
Theorem tag_priority_minus_one :
  let a := sample_channel (u "a") (Some (num_of_Z (-1))) 1 in
  let b := sample_channel (u "a") (Some (num_of_Z 5)) 1 in
  map r_priority (aggregateChannelsByTag [a; b]) = [Some (num_of_Z 5)] /\
  map r_priority (aggregateChannelsByTag [b; a]) = [None].
Proof. by vm_compute. Qed.

(** ** Masked keys *)

(** of a key longer than sixteen characters the display shows the first and the last eight
    only: two such keys that agree on these are displayed alike, in nineteen characters. *)
Theorem mask_hides_middle k k' :
  (16 < length k)%nat -> (16 < length k')%nat ->
  take 8 k = take 8 k' -> slice_last 8 k = slice_last 8 k' ->
  formatChannelKey k false = formatChannelKey k' false /\ length (formatChannelKey k false) = 19%nat.
Proof.
  intros Hk Hk' Ht Hl. unfold formatChannelKey.
  assert (forall k, (16 < length k)%nat -> truthy k = true) as Htr by (by intros [|c t]; simpl; [lia|]).
  rewrite !Htr by done. cbn [negb].
  replace (length k <=? 16)%nat with false by lia. replace (length k' <=? 16)%nat with false by lia.
  rewrite Ht, Hl. split; [done|]. rewrite <- Hl, <- Ht. rewrite !length_app, length_take.
  unfold slice_last. rewrite length_drop. change (length (u "...")) with 3%nat. lia.
Qed.

Lemma mask_hides_middle_witness :
  formatChannelKey (u "sk-abcdeFGHIJKLMNOPqrstuvwx") false = formatChannelKey (u "sk-abcde123qrstuvwx") false /\
  length (formatChannelKey (u "sk-abcdeFGHIJKLMNOPqrstuvwx") false) = 19%nat.
Proof. apply mask_hides_middle; by vm_compute; lia || done. Defined.

(** a key of at most eight characters is not masked: the display determines it. *)
Theorem mask_reveals_short k k' :
  (length k <= 8)%nat -> length k = length k' ->
  formatChannelKey k false = formatChannelKey k' false -> k = k'.
Proof.
  intros Hk Hlen. unfold formatChannelKey.
  destruct k as [|c k], k' as [|c' k']; try done. set (a := c :: k) in *. set (b := c' :: k') in *.
  change (truthy a) with true. change (truthy b) with true. cbn [negb].
  replace (length a <=? 16)%nat with true by lia. replace (length b <=? 16)%nat with true by lia.
  intros H. apply app_inj_1 in H as [Ht H]; [|rewrite !length_take; lia].
  apply app_inj_1 in H as [_ Hl]; [|done]. unfold slice_last in Hl.
  rewrite <- (take_drop 4 a), <- (take_drop 4 b). f_equal; [done|].
  assert (forall l : jstr, (length l <= 8)%nat ->
    drop 4 l = drop (8 - length l) (drop (length l - 4) l)) as Hd.
  { intros l Hlk. rewrite drop_drop. destruct (decide (4 <= length l)%nat).
    - f_equal. lia.
    - rewrite !drop_ge by lia. done. }
  rewrite (Hd a), (Hd b), Hl, Hlen by lia. done.
Qed.

Lemma mask_reveals_short_witness :
  formatChannelKey (u "secret12") false = formatChannelKey (u "secret12") false /\
  (forall c, formatChannelKey (u "secret12") false = formatChannelKey (u "secret1" ++ [c]) false ->
     u "secret12" = u "secret1" ++ [c]).
Proof.
  split; [done|]. intros c H. apply (mask_reveals_short (u "secret12") (u "secret1" ++ [c]));
    [by vm_compute; lia|done|exact H].
Defined.

(** ** Warning signs *)

Lemma attention_reason channel :
  channelNeedsAttention channel = true <-> exists r, getAttentionReason channel = Some r.
Proof. unfold channelNeedsAttention, getAttentionReason. repeat case_match; naive_solver. Qed.

(** ** Groups *)

Section GroupOrder.
Context (localeCompare : jstr -> jstr -> Z).

Definition group_gt (a b : jstr) : bool := 0 <? compare_groups localeCompare a b.

Lemma compare_groups_cases a b :
  compare_groups localeCompare a b =
    if bool_decide (a = u "default") then -1
    else if bool_decide (b = u "default") then 1 else localeCompare a b.
Proof.
  unfold compare_groups, jeqb. done.
Qed.

#[local] Instance group_consistent `{!Collation localeCompare} : ConsistentCmp group_gt.
Proof.
  split; unfold gt_le, group_gt.
  - intros a b c. rewrite !compare_groups_cases. rewrite !Z.ltb_ge.
    repeat case_bool_decide; try lia. apply collate_trans.
  - intros a b. rewrite !compare_groups_cases. rewrite Z.ltb_lt, Z.ltb_ge.
    repeat case_bool_decide; try lia. apply collate_total.
Qed.

(** [parseGroupsList] returns the trimmed names of the text that are not empty, each as
    often as it occurs, in the order of the collation, with [default] in front when it is one of
    them. *)
Theorem parseGroupsList_spec `{!Collation localeCompare} groups :
  parseGroupsList localeCompare groups ≡ₚ split_trim 44 groups /\
  StronglySorted (fun a b => compare_groups localeCompare a b <= 0) (parseGroupsList localeCompare groups) /\
  (u "default" ∈ split_trim 44 groups -> head (parseGroupsList localeCompare groups) = Some (u "default")).
Proof.
  assert (parseGroupsList localeCompare groups = sort_by group_gt (split_trim 44 groups)) as ->.
  { unfold parseGroupsList. by destruct groups. }
  pose proof (sort_by_perm group_gt (split_trim 44 groups)) as Hp.
  pose proof (sort_by_sorted group_gt (split_trim 44 groups)) as Hs.
  split; [done|]. split.
  - eapply sorted_impl; [|exact Hs]. intros x y. unfold gt_le, group_gt. lia.
  - intros Hd. rewrite <- Hp in Hd. clear Hp.
    destruct Hs as [|x l _ Hx]; [by apply elem_of_nil in Hd|]. cbn [head]. f_equal.
    apply elem_of_cons in Hd as [->|Hd]; [done|]. rewrite Forall_forall in Hx. specialize (Hx _ Hd).
    unfold gt_le, group_gt in Hx. rewrite compare_groups_cases in Hx.
    by repeat case_bool_decide.
Qed.
End GroupOrder.

Lemma parseGroupsList_spec_witness :
  parseGroupsList unit_compare (u "vip, default,,beta") ≡ₚ split_trim 44 (u "vip, default,,beta") /\
  StronglySorted (fun a b => compare_groups unit_compare a b <= 0)
    (parseGroupsList unit_compare (u "vip, default,,beta")) /\
  (u "default" ∈ split_trim 44 (u "vip, default,,beta") ->
   head (parseGroupsList unit_compare (u "vip, default,,beta")) = Some (u "default")).
Proof. exact (@parseGroupsList_spec unit_compare unit_collation (u "vip, default,,beta")). Defined.
