(* ===== verification/ChannelForm.v ===== *)
(** * The channel form

    [web/default/src/features/channels/lib/channel-form.ts]: the values of the form, what they
    are read from and the payloads they are sent as.  The form keeps two groups of options in
    JSON texts of the channel, [setting] and [settings].

    A field of the form that is missing is represented by the empty text, [false] or, where the
    code tells them apart, [None]; the options that the code copies from JSON without a test keep
    their JSON value. *)

From S2P Require Import Prelude JsString JsNumber Json Channels.
Open Scope Z_scope.

Definition MODEL_FETCHABLE_TYPES : list Z :=
  [1; 4; 14; 17; 20; 23; 24; 25; 26; 27; 31; 34; 35; 40; 42; 43; 47; 48].

(** The options kept in [setting]. *)
Record ExtraSettings := {
  force_format : json;
  thinking_to_content : json;
  proxy : json;
  pass_through_body_enabled : json;
  system_prompt : json;
  system_prompt_override : json
}.

(** The options kept in [settings]. *)
Record TypeSettings := {
  is_enterprise_account : bool;
  vertex_key_type : json;
  azure_responses_version : json;
  aws_key_type : json;
  allow_service_tier : bool;
  disable_store : bool;
  allow_safety_identifier : bool;
  allow_include_obfuscation : bool;
  allow_inference_geo : bool;
  allow_speed : bool;
  claude_beta_query : bool;
  upstream_model_update_check_enabled : bool;
  upstream_model_update_auto_sync_enabled : bool;
  upstream_model_update_ignored_models : jstr
}.

Record ChannelFormValues := {
  f_name : jstr;
  f_type : Z;
  f_base_url : jstr;
  f_key : jstr;
  f_openai_organization : jstr;
  f_models : jstr;
  f_group : list jstr;
  f_model_mapping : jstr;
  f_priority : num;
  f_weight : num;
  f_test_model : jstr;
  f_auto_ban : option num;
  f_status : Z;
  f_status_code_mapping : jstr;
  f_tag : jstr;
  f_remark : jstr;
  f_setting : jstr;
  f_param_override : jstr;
  f_header_override : jstr;
  f_settings : jstr;
  f_other : jstr;
  f_multi_key_mode : jstr;
  f_multi_key_type : jstr;
  f_batch_add_set_key_prefix_2_name : bool;
  f_key_mode : jstr;
  f_extra : ExtraSettings;
  f_typed : TypeSettings
}.

Definition default_extra : ExtraSettings :=
  {| force_format := JBool false; thinking_to_content := JBool false; proxy := JStr [];
     pass_through_body_enabled := JBool false; system_prompt := JStr [];
     system_prompt_override := JBool false |}.

Definition default_typed : TypeSettings :=
  {| is_enterprise_account := false; vertex_key_type := JStr (u "json");
     azure_responses_version := JStr []; aws_key_type := JStr (u "ak_sk");
     allow_service_tier := false; disable_store := false; allow_safety_identifier := false;
     allow_include_obfuscation := false; allow_inference_geo := false; allow_speed := false;
     claude_beta_query := false; upstream_model_update_check_enabled := false;
     upstream_model_update_auto_sync_enabled := false; upstream_model_update_ignored_models := [] |}.

Definition CHANNEL_FORM_DEFAULT_VALUES : ChannelFormValues :=
  {| f_name := []; f_type := 1; f_base_url := []; f_key := []; f_openai_organization := [];
     f_models := []; f_group := [u "default"]; f_model_mapping := []; f_priority := zero;
     f_weight := zero; f_test_model := []; f_auto_ban := Some (num_of_Z 1); f_status := 1;
     f_status_code_mapping := []; f_tag := []; f_remark := []; f_setting := [];
     f_param_override := []; f_header_override := []; f_settings := u "{}"; f_other := [];
     f_multi_key_mode := u "single"; f_multi_key_type := u "random";
     f_batch_add_set_key_prefix_2_name := false; f_key_mode := u "append";
     f_extra := default_extra; f_typed := default_typed |}.

(** ** Reading *)

(** [parsed.key], of a value that is not [null]. *)
Definition prop (k : jstr) (v : json) : option json :=
  match v with JObj f => obj_get k f | _ => None end.

(** [v || d] *)
Definition json_or (v : option json) (d : json) : json :=
  match v with Some j => if json_truthy j then j else d | None => d end.

(** [v === true] *)
Definition json_true (v : option json) : bool := match v with Some (JBool true) => true | _ => false end.

(** The first part of [transformChannelToFormDefaults]; the text [null] throws inside the [try]. *)
Definition read_extra (setting : option jstr) : ExtraSettings :=
  match setting with
  | Some ((_ :: _) as s) =>
      match json_parse s with
      | None | Some JNull => default_extra
      | Some parsed =>
          {| force_format := json_or (prop (u "force_format") parsed) (JBool false);
             thinking_to_content := json_or (prop (u "thinking_to_content") parsed) (JBool false);
             proxy := json_or (prop (u "proxy") parsed) (JStr []);
             pass_through_body_enabled :=
               json_or (prop (u "pass_through_body_enabled") parsed) (JBool false);
             system_prompt := json_or (prop (u "system_prompt") parsed) (JStr []);
             system_prompt_override := json_or (prop (u "system_prompt_override") parsed) (JBool false) |}
      end
  | _ => default_extra
  end.

Definition read_typed (settings : jstr) : TypeSettings :=
  if negb (truthy settings) then default_typed else
  match json_parse settings with
  | None | Some JNull => default_typed
  | Some parsed =>
      {| is_enterprise_account := json_true (prop (u "openrouter_enterprise") parsed);
         vertex_key_type := json_or (prop (u "vertex_key_type") parsed) (JStr (u "json"));
         azure_responses_version := json_or (prop (u "azure_responses_version") parsed) (JStr []);
         aws_key_type := json_or (prop (u "aws_key_type") parsed) (JStr (u "ak_sk"));
         allow_service_tier := json_true (prop (u "allow_service_tier") parsed);
         disable_store := json_true (prop (u "disable_store") parsed);
         allow_safety_identifier := json_true (prop (u "allow_safety_identifier") parsed);
         allow_include_obfuscation := json_true (prop (u "allow_include_obfuscation") parsed);
         allow_inference_geo := json_true (prop (u "allow_inference_geo") parsed);
         allow_speed := json_true (prop (u "allow_speed") parsed);
         claude_beta_query := json_true (prop (u "claude_beta_query") parsed);
         upstream_model_update_check_enabled :=
           json_true (prop (u "upstream_model_update_check_enabled") parsed);
         upstream_model_update_auto_sync_enabled :=
           json_true (prop (u "upstream_model_update_auto_sync_enabled") parsed);
         upstream_model_update_ignored_models :=
           match prop (u "upstream_model_update_ignored_models") parsed with
           | Some (JArr l) => json_to_string (JArr l)
           | _ => []
           end |}
  end.

(** [s || d] of an optional text. *)
Definition text_or (s : option jstr) (d : jstr) : jstr :=
  match s with Some ((_ :: _) as t) => t | _ => d end.

Definition parseGroups (groups : jstr) : list jstr :=
  if negb (truthy groups) then [] else split_trim 44 groups.
Definition parseModels (models : jstr) : list jstr :=
  if negb (truthy models) then [] else split_trim 44 models.
Definition formatModels (models : list jstr) : jstr := join (u ",") models.
Definition formatGroups (groups : list jstr) : jstr := join (u ",") groups.

Definition transformChannelToFormDefaults (channel : Channel) : ChannelFormValues :=
  {| f_name := name channel;
     f_type := type channel;
     f_base_url := text_or (base_url channel) [];
     f_key := [];
     f_openai_organization := text_or (openai_organization channel) [];
     f_models := models channel;
     f_group := parseGroups (if truthy (group channel) then group channel else u "default");
     f_model_mapping := text_or (model_mapping channel) [];
     f_priority := match priority channel with Some p => f_or p zero | None => zero end;
     f_weight := match weight channel with Some w => f_or w zero | None => zero end;
     f_test_model := text_or (test_model channel) [];
     f_auto_ban := Some (option_or (auto_ban channel) (num_of_Z 1));
     f_status := status channel;
     f_status_code_mapping := text_or (status_code_mapping channel) [];
     f_tag := text_or (tag channel) [];
     f_remark := remark channel;
     f_setting := text_or (setting channel) [];
     f_param_override := text_or (param_override channel) [];
     f_header_override := text_or (header_override channel) [];
     f_settings := if truthy (settings channel) then settings channel else u "{}";
     f_other := other channel;
     f_multi_key_mode := u "single";
     f_multi_key_type :=
       (if truthy (multi_key_mode (channel_info channel))
        then multi_key_mode (channel_info channel) else u "random");
     f_batch_add_set_key_prefix_2_name := false;
     f_key_mode := u "append";
     f_extra := read_extra (setting channel);
     f_typed := read_typed (settings channel) |}.

(** ** Writing *)

Definition setting_object (e : ExtraSettings) : list (jstr * json) :=
  [(u "force_format", json_or (Some (force_format e)) (JBool false));
   (u "thinking_to_content", json_or (Some (thinking_to_content e)) (JBool false));
   (u "proxy", json_or (Some (proxy e)) (JStr []));
   (u "pass_through_body_enabled", json_or (Some (pass_through_body_enabled e)) (JBool false));
   (u "system_prompt", json_or (Some (system_prompt e)) (JStr []));
   (u "system_prompt_override", json_or (Some (system_prompt_override e)) (JBool false))].

Definition buildSettingJSON (formData : ChannelFormValues) : jstr :=
  stringify (JObj (setting_object (f_extra formData))).

(** [settingsObj.k = v] under a condition, else [delete settingsObj.k]. *)
Definition set_or_delete (cond : bool) (k : jstr) (v : json) (o : list (jstr * json)) : list (jstr * json) :=
  if cond then obj_set k v o else if obj_has k o then obj_delete k o else o.

Definition set_when (cond : bool) (k : jstr) (v : json) (o : list (jstr * json)) : list (jstr * json) :=
  if cond then obj_set k v o else o.

(** The keys that depend on the type, then the fields passed through. *)
Definition typed_object (ty : Z) (t : TypeSettings) (o : list (jstr * json)) : list (jstr * json) :=
  let o := set_or_delete (ty =? 41) (u "vertex_key_type")
             (json_or (Some (vertex_key_type t)) (JStr (u "json"))) o in
  let o := set_or_delete ((ty =? 3) && json_truthy (azure_responses_version t))
             (u "azure_responses_version") (azure_responses_version t) o in
  let o := set_or_delete (ty =? 20) (u "openrouter_enterprise") (JBool (is_enterprise_account t)) o in
  set_or_delete (ty =? 33) (u "aws_key_type") (json_or (Some (aws_key_type t)) (JStr (u "ak_sk"))) o.

Definition passthrough_object (ty : Z) (t : TypeSettings) (o : list (jstr * json)) : list (jstr * json) :=
  let o := set_or_delete ((ty =? 1) || (ty =? 14)) (u "allow_service_tier") (JBool (allow_service_tier t)) o in
  let o := set_or_delete (ty =? 1) (u "disable_store") (JBool (disable_store t)) o in
  let o := set_or_delete (ty =? 1) (u "allow_safety_identifier") (JBool (allow_safety_identifier t)) o in
  let o := set_or_delete (ty =? 1) (u "allow_include_obfuscation") (JBool (allow_include_obfuscation t)) o in
  let o := if ty =? 1 then obj_set (u "allow_inference_geo") (JBool (allow_inference_geo t)) o
           else set_or_delete (ty =? 14) (u "allow_inference_geo") (JBool (allow_inference_geo t)) o in
  let o := set_or_delete (ty =? 14) (u "allow_speed") (JBool (allow_speed t)) o in
  set_or_delete (ty =? 14) (u "claude_beta_query") (JBool (claude_beta_query t)) o.

Definition is_array (v : option json) : bool := match v with Some (JArr _) => true | _ => false end.
Definition is_number (v : option json) : bool := match v with Some (JNum _) => true | _ => false end.

Definition upstream_object (ty : Z) (t : TypeSettings) (o : list (jstr * json)) : list (jstr * json) :=
  if negb (bool_decide (ty ∈ MODEL_FETCHABLE_TYPES)) then o else
  let check := upstream_model_update_check_enabled t in
  let o := obj_set (u "upstream_model_update_check_enabled") (JBool check) o in
  let o := obj_set (u "upstream_model_update_auto_sync_enabled")
             (JBool (check && upstream_model_update_auto_sync_enabled t)) o in
  let o := obj_set (u "upstream_model_update_ignored_models")
             (JArr (map JStr (dedup (split_trim 44 (upstream_model_update_ignored_models t))))) o in
  let o := set_when (negb (is_array (obj_get (u "upstream_model_update_last_detected_models") o))
                     || negb check)
             (u "upstream_model_update_last_detected_models") (JArr []) o in
  set_when (negb (is_number (obj_get (u "upstream_model_update_last_check_time") o)))
    (u "upstream_model_update_last_check_time") (JNum zero) o.

Definition settings_object (ty : Z) (t : TypeSettings) (o : list (jstr * json)) : list (jstr * json) :=
  upstream_object ty t (passthrough_object ty t (typed_object ty t o)).

(** The object the writing starts from: the text is parsed unless it is empty or [{}]; a parsed
    value that is neither an object nor an array has no properties to write, which throws; on an
    array the properties are written but not printed. *)
Definition buildSettingsJSON (formData : ChannelFormValues) : outcome jstr :=
  let write o := Ret (stringify (JObj (settings_object (f_type formData) (f_typed formData) o))) in
  if truthy (f_settings formData) && negb (jeqb (f_settings formData) (u "{}")) then
    match json_parse (f_settings formData) with
    | None => write []
    | Some (JObj o) => write o
    | Some (JArr l) => Ret (stringify (JArr l))
    | Some _ => Throw
    end
  else write [].

(** [s || null] and [n || null] *)
Definition or_null (s : jstr) : json := match s with [] => JNull | _ => JStr s end.
Definition num_or_null (x : num) : json := if ftruthy x then JNum x else JNull.
Definition int_json (z : Z) : json := JNum (num_of_Z z).

(** The fields both payloads share, after the name. *)
Definition common_fields (formData : ChannelFormValues) (settingsText : jstr) : list (jstr * json) :=
  [(u "openai_organization", or_null (f_openai_organization formData));
   (u "models", JStr (f_models formData));
   (u "group", JStr (formatGroups (f_group formData)));
   (u "model_mapping", or_null (f_model_mapping formData));
   (u "priority", num_or_null (f_priority formData));
   (u "weight", num_or_null (f_weight formData));
   (u "test_model", or_null (f_test_model formData));
   (u "auto_ban", JNum (option_or (f_auto_ban formData) (num_of_Z 1)));
   (u "status", int_json (f_status formData));
   (u "status_code_mapping", or_null (f_status_code_mapping formData));
   (u "tag", or_null (f_tag formData));
   (u "remark", JStr (f_remark formData));
   (u "setting", JStr (buildSettingJSON formData));
   (u "param_override", or_null (f_param_override formData));
   (u "header_override", or_null (f_header_override formData));
   (u "settings", JStr settingsText);
   (u "other", JStr (f_other formData))].

(** Empty texts become [null]. *)
Definition clean_field (kv : jstr * json) : jstr * json :=
  match kv.2 with JStr [] => (kv.1, JNull) | _ => kv end.

Record CreatePayload := {
  mode : jstr;
  multi_key_mode_sent : option jstr;
  prefix_sent : option bool;
  channel : list (jstr * json)
}.

Definition transformFormDataToCreatePayload (formData : ChannelFormValues) : outcome CreatePayload :=
  let mode := if truthy (f_multi_key_mode formData) then f_multi_key_mode formData else u "single" in
  bind! settingsText := buildSettingsJSON formData in
  Ret {| mode := mode;
         multi_key_mode_sent :=
           if jeqb mode (u "multi_to_single") then Some (f_multi_key_type formData) else None;
         prefix_sent :=
           if jeqb mode (u "batch") then Some (f_batch_add_set_key_prefix_2_name formData) else None;
         channel := map clean_field
           ([(u "name", JStr (f_name formData));
             (u "type", int_json (f_type formData));
             (u "base_url", or_null (f_base_url formData));
             (u "key", JStr (f_key formData))] ++ common_fields formData settingsText) |}.

Definition transformFormDataToUpdatePayload (formData : ChannelFormValues) (channelId : Z)
  : outcome (list (jstr * json)) :=
  bind! settingsText := buildSettingsJSON formData in
  let payload :=
    [(u "id", int_json channelId);
     (u "name", JStr (f_name formData));
     (u "type", int_json (f_type formData));
     (u "base_url", or_null (f_base_url formData))] ++ common_fields formData settingsText in
  let payload :=
    if truthy (f_key formData) && truthy (trim (f_key formData))
    then obj_set (u "key") (JStr (f_key formData)) payload else payload in
  Ret (map clean_field payload).

(** ** Validation *)

Definition validateJSON (value : jstr) : bool :=
  if negb (truthy value) || negb (truthy (trim value)) then true
  else match json_parse value with Some _ => true | None => false end.

Definition validateModelMapping (value : jstr) : bool :=
  if negb (truthy value) || negb (truthy (trim value)) then true else validateJSON value.
