(* ===== verification/ChannelFormFacts.v ===== *)
(** * The channel form: theorems

    What the form writes into the two JSON texts of a channel it reads back, and what its
    payloads carry. *)

From S2P Require Import Prelude JsString JsNumber Json JsonFacts Channels ChannelForm.
Open Scope Z_scope.

(** ** Objects that round-trip *)

Lemma obj_ok_set_or_delete c k v o :
  key_ok k = true -> json_ok v = true -> obj_ok o -> obj_ok (set_or_delete c k v o).
Proof.
  intros. unfold set_or_delete. repeat case_match; auto using obj_ok_set, obj_ok_delete.
Qed.

Lemma obj_ok_set_when c k v o :
  key_ok k = true -> json_ok v = true -> obj_ok o -> obj_ok (set_when c k v o).
Proof. intros. unfold set_when. case_match; auto using obj_ok_set. Qed.

(** Reading a key through one layer of writes. *)
Lemma get_set_or_delete c k k' v o :
  obj_get k' (set_or_delete c k v o) =
    if jeqb k k' then (if c then Some v else None) else obj_get k' o.
Proof.
  unfold set_or_delete. destruct (jeqb k k') eqn:Hk.
  - apply jeqb_spec in Hk as ->. destruct c; [by rewrite obj_get_set_eq|]. unfold obj_has.
    destruct (obj_get k' o) eqn:H; [by rewrite obj_get_delete_eq|done].
  - apply jeqb_neq in Hk. destruct c; [by rewrite obj_get_set_ne|].
    case_match; [by rewrite obj_get_delete_ne|done].
Qed.

Lemma get_set_when c k k' v o :
  obj_get k' (set_when c k v o) =
    if jeqb k k' then (if c then Some v else obj_get k' o) else obj_get k' o.
Proof. unfold set_when. destruct c; [apply get_set|by destruct (jeqb k k')]. Qed.

(** Follows a key through the layers, comparing the keys by computation. *)
Ltac read_key :=
  repeat (first [rewrite get_set_or_delete | rewrite get_set_when | rewrite get_set];
    match goal with |- context [jeqb (u ?a) (u ?b)] =>
      let r := eval vm_compute in (jeqb (u a) (u b)) in
      change (jeqb (u a) (u b)) with r; cbn iota
    end).

(** ** Extra settings *)

(** The kinds of values the form's own controls produce. *)
Definition is_bool (j : json) : bool := match j with JBool _ => true | _ => false end.
Definition is_text (j : json) : bool := match j with JStr s => forallb (fun c => c <? 65536)%N s | _ => false end.

Definition extra_wf (e : ExtraSettings) : bool :=
  is_bool (force_format e) && is_bool (thinking_to_content e) && is_text (proxy e)
  && is_bool (pass_through_body_enabled e) && is_text (system_prompt e)
  && is_bool (system_prompt_override e).

Lemma json_or_bool j : is_bool j = true -> json_or (Some j) (JBool false) = j.
Proof. by destruct j as [|[]| | | |]. Qed.

Lemma json_or_text j : is_text j = true -> json_or (Some j) (JStr []) = j.
Proof. destruct j as [| | |[|c s]| |]; done. Qed.

Lemma bool_ok j : is_bool j = true -> json_ok j = true.
Proof. by destruct j. Qed.

Lemma text_ok j : is_text j = true -> json_ok j = true.
Proof. by destruct j. Qed.

(** the options of the [setting] text survive being saved: for switches and texts as the
    form's controls produce them, reading the text that is written gives the same options. *)
Theorem setting_roundtrip formData :
  extra_wf (f_extra formData) = true ->
  read_extra (Some (buildSettingJSON formData)) = f_extra formData.
Proof.
  unfold extra_wf, buildSettingJSON. destruct (f_extra formData) as [a b c d e g].
  cbn [force_format thinking_to_content proxy pass_through_body_enabled system_prompt system_prompt_override].
  intros H. repeat apply andb_prop in H as [H ?].
  unfold setting_object.
  cbn [force_format thinking_to_content proxy pass_through_body_enabled system_prompt system_prompt_override].
  rewrite !json_or_bool, !json_or_text by done.
  set (o := [(u "force_format", a); _; _; _; _; _]).
  assert (json_ok (JObj o) = true) as Hok.
  { apply obj_ok_spec. split; [|apply (bool_decide_unpack _); by vm_compute].
    repeat constructor; auto using bool_ok, text_ok. }
  pose proof (json_roundtrip _ Hok) as Hp. unfold read_extra.
  destruct (stringify (JObj o)) as [|x t] eqn:Hs; [done|]. rewrite Hp. unfold o, prop. 
  change (obj_get (u "force_format") _) with (Some a).
  change (obj_get (u "thinking_to_content") _) with (Some b).
  change (obj_get (u "proxy") _) with (Some c).
  change (obj_get (u "pass_through_body_enabled") _) with (Some d).
  change (obj_get (u "system_prompt") _) with (Some e).
  change (obj_get (u "system_prompt_override") _) with (Some g).
  by rewrite !json_or_bool, !json_or_text.
Qed.

Definition sample_form : ChannelFormValues :=
  {| f_name := u "main"; f_type := 14; f_base_url := []; f_key := u "sk"; f_openai_organization := [];
     f_models := u "claude"; f_group := [u "default"; u "vip"]; f_model_mapping := [];
     f_priority := zero; f_weight := num_of_Z 3; f_test_model := []; f_auto_ban := None; f_status := 1;
     f_status_code_mapping := []; f_tag := []; f_remark := []; f_setting := [];
     f_param_override := []; f_header_override := []; f_settings := u "{`x`:1.5,`aws_key_type`:`ak_sk`}";
     f_other := []; f_multi_key_mode := u "batch"; f_multi_key_type := u "random";
     f_batch_add_set_key_prefix_2_name := true; f_key_mode := u "append";
     f_extra := {| force_format := JBool true; thinking_to_content := JBool false;
                   proxy := JStr (u "socks5://a`b"); pass_through_body_enabled := JBool false;
                   system_prompt := JStr (u "be \ brief"); system_prompt_override := JBool true |};
     f_typed := {| is_enterprise_account := true; vertex_key_type := JStr (u "api_key");
                   azure_responses_version := JStr (u "v1"); aws_key_type := JStr (u "api_key");
                   allow_service_tier := true; disable_store := true; allow_safety_identifier := true;
                   allow_include_obfuscation := true; allow_inference_geo := true; allow_speed := true;
                   claude_beta_query := false; upstream_model_update_check_enabled := true;
                   upstream_model_update_auto_sync_enabled := true;
                   upstream_model_update_ignored_models := u " a,b ,,a" |} |}.

Lemma setting_roundtrip_witness : read_extra (Some (buildSettingJSON sample_form)) = f_extra sample_form.
Proof. apply setting_roundtrip. by vm_compute. Defined.

(** ** Settings by type *)

(** The object the form starts from. *)
Definition start_object (formData : ChannelFormValues) : option (list (jstr * json)) :=
  if truthy (f_settings formData) && negb (jeqb (f_settings formData) (u "{}")) then
    match json_parse (f_settings formData) with
    | None => Some []
    | Some (JObj o) => Some o
    | Some _ => None
    end
  else Some [].

Definition typed_wf (t : TypeSettings) : bool :=
  is_text (vertex_key_type t) && json_truthy (vertex_key_type t)
  && is_text (azure_responses_version t)
  && is_text (aws_key_type t) && json_truthy (aws_key_type t)
  && forallb (fun c => c <? 65536)%N (upstream_model_update_ignored_models t).

(** The options of a type; those of other types are at their defaults, but for the options of upstream
    model updates, which the form leaves as the old object has them for a type whose models cannot be
    fetched. *)
Definition options_of (ty : Z) (t : TypeSettings) (old : list (jstr * json)) : TypeSettings :=
  let fetchable := bool_decide (ty ∈ MODEL_FETCHABLE_TYPES) in
  {| is_enterprise_account := (ty =? 20) && is_enterprise_account t;
     vertex_key_type := if ty =? 41 then vertex_key_type t else JStr (u "json");
     azure_responses_version := if ty =? 3 then azure_responses_version t else JStr [];
     aws_key_type := if ty =? 33 then aws_key_type t else JStr (u "ak_sk");
     allow_service_tier := ((ty =? 1) || (ty =? 14)) && allow_service_tier t;
     disable_store := (ty =? 1) && disable_store t;
     allow_safety_identifier := (ty =? 1) && allow_safety_identifier t;
     allow_include_obfuscation := (ty =? 1) && allow_include_obfuscation t;
     allow_inference_geo := ((ty =? 1) || (ty =? 14)) && allow_inference_geo t;
     allow_speed := (ty =? 14) && allow_speed t;
     claude_beta_query := (ty =? 14) && claude_beta_query t;
     upstream_model_update_check_enabled :=
       if fetchable then upstream_model_update_check_enabled t
       else json_true (obj_get (u "upstream_model_update_check_enabled") old);
     upstream_model_update_auto_sync_enabled :=
       if fetchable
       then upstream_model_update_check_enabled t && upstream_model_update_auto_sync_enabled t
       else json_true (obj_get (u "upstream_model_update_auto_sync_enabled") old);
     upstream_model_update_ignored_models :=
       if fetchable then join (u ",") (dedup (split_trim 44 (upstream_model_update_ignored_models t)))
       else match obj_get (u "upstream_model_update_ignored_models") old with
            | Some (JArr l) => json_to_string (JArr l) | _ => [] end |}.

Lemma typed_wf_spec t :
  typed_wf t = true ->
  (is_text (vertex_key_type t) = true /\ json_truthy (vertex_key_type t) = true) /\
  is_text (azure_responses_version t) = true /\
  (is_text (aws_key_type t) = true /\ json_truthy (aws_key_type t) = true) /\
  forallb (fun c => c <? 65536)%N (upstream_model_update_ignored_models t) = true.
Proof. unfold typed_wf. intros H. repeat apply andb_prop in H as [H ?]. naive_solver. Qed.

Lemma json_or_truthy j d : json_truthy j = true -> json_or (Some j) d = j.
Proof. simpl. by intros ->. Qed.

(** The names read from a text are made of its characters. *)
Lemma split_on_all (p : N -> bool) c s :
  forallb p s = true -> Forall (fun w => forallb p w = true) (split_on c s).
Proof.
  induction s as [|d s IH]; simpl; [by repeat constructor|]. intros [Hd Hs]%andb_prop.
  specialize (IH Hs). destruct (d =? c)%N; [by constructor|].
  destruct IH as [|w ws Hw Hws]; [by repeat constructor; simpl; rewrite Hd|].
  constructor; [|done]. simpl. by rewrite Hd.
Qed.

Lemma names_ok s :
  forallb (fun c => c <? 65536)%N s = true ->
  json_ok (JArr (map JStr (dedup (split_trim 44 s)))) = true.
Proof.
  intros H. cbn [json_ok]. apply forallb_Forall, Forall_fmap, Forall_dedup, Forall_forall.
  intros w [_ (v & -> & Hv)%list_elem_of_fmap]%jfilter_elem_of. cbn.
  apply trim_forallb. pose proof (split_on_all _ 44%N s H) as Hs. rewrite Forall_forall in Hs. by apply Hs.
Qed.

Lemma settings_object_ok ty t o : typed_wf t = true -> obj_ok o -> obj_ok (settings_object ty t o).
Proof.
  intros ((Hv & Hvt) & Ha & (Hw & Hwt) & Hi)%typed_wf_spec Ho.
  unfold settings_object, upstream_object, passthrough_object, typed_object.
  rewrite !json_or_truthy by done.
  assert (json_ok (azure_responses_version t) = true) by by apply text_ok.
  assert (json_ok (vertex_key_type t) = true) by by apply text_ok.
  assert (json_ok (aws_key_type t) = true) by by apply text_ok.
  pose proof (names_ok _ Hi) as Hnames.
  match goal with |- obj_ok (if _ then ?x else _) => assert (obj_ok x) as Hx end.
  { repeat (apply obj_ok_set_or_delete; [by vm_compute|done|]).
    destruct (ty =? 1); [apply obj_ok_set; [by vm_compute|done|]|];
      repeat (apply obj_ok_set_or_delete; [by vm_compute|done|]); done. }
  destruct (negb (bool_decide (ty ∈ MODEL_FETCHABLE_TYPES))); [exact Hx|].
  repeat (apply obj_ok_set_when; [by vm_compute|by vm_compute|]).
  repeat (apply obj_ok_set; [by vm_compute|done|]). exact Hx.
Qed.

Lemma geo_layer (a b : bool) k v o :
  (if a then obj_set k v o else set_or_delete b k v o) = set_or_delete (a || b) k v o.
Proof. by destruct a. Qed.

Lemma json_true_layer (c b : bool) : json_true (if c then Some (JBool b) else None) = c && b.
Proof. by destruct c, b. Qed.

Lemma json_true_bool b : json_true (Some (JBool b)) = b.
Proof. by destruct b. Qed.

Lemma json_or_layer (c : bool) j d :
  json_truthy j = true -> json_or (if c then Some j else None) d = if c then j else d.
Proof. intros H. destruct c; [by apply json_or_truthy|done]. Qed.

Lemma names_text l : json_to_string (JArr (map JStr l)) = join (u ",") l.
Proof. cbn [json_to_string]. by rewrite map_map, map_id. Qed.

(** The keys of an object that no type writes to are kept. *)
Lemma read_settings_object ty t o :
  typed_wf t = true ->
  let s := settings_object ty t o in
  {| is_enterprise_account := json_true (obj_get (u "openrouter_enterprise") s);
     vertex_key_type := json_or (obj_get (u "vertex_key_type") s) (JStr (u "json"));
     azure_responses_version := json_or (obj_get (u "azure_responses_version") s) (JStr []);
     aws_key_type := json_or (obj_get (u "aws_key_type") s) (JStr (u "ak_sk"));
     allow_service_tier := json_true (obj_get (u "allow_service_tier") s);
     disable_store := json_true (obj_get (u "disable_store") s);
     allow_safety_identifier := json_true (obj_get (u "allow_safety_identifier") s);
     allow_include_obfuscation := json_true (obj_get (u "allow_include_obfuscation") s);
     allow_inference_geo := json_true (obj_get (u "allow_inference_geo") s);
     allow_speed := json_true (obj_get (u "allow_speed") s);
     claude_beta_query := json_true (obj_get (u "claude_beta_query") s);
     upstream_model_update_check_enabled :=
       json_true (obj_get (u "upstream_model_update_check_enabled") s);
     upstream_model_update_auto_sync_enabled :=
       json_true (obj_get (u "upstream_model_update_auto_sync_enabled") s);
     upstream_model_update_ignored_models :=
       match obj_get (u "upstream_model_update_ignored_models") s with
       | Some (JArr l) => json_to_string (JArr l) | _ => [] end |}
  = options_of ty t o.
Proof.
  intros ((Hv & Hvt) & Ha & (Hw & Hwt) & Hi)%typed_wf_spec. cbn zeta.
  unfold options_of. f_equal.
  all: unfold settings_object, upstream_object, passthrough_object, typed_object.
  all: rewrite geo_layer, !json_or_truthy by done.
  all: destruct (bool_decide (ty ∈ MODEL_FETCHABLE_TYPES)); cbn [negb]; read_key.
  all: try apply json_true_layer; try (by apply json_or_layer); try done.
  all: try apply names_text.
  all: try apply json_true_bool.
  all: destruct (ty =? 3); [|reflexivity]; cbn [andb];
    by destruct (azure_responses_version t) as [| | |[|]| |].
Qed.

(** C29: The options kept in the [settings] text survive being saved.  When the text held an object
    (or was empty or no JSON, for which the form starts from an empty object), reading the text that
    is written gives the options that belong to the channel's type as they were set and the
    type-specific options of other types at their defaults.  The three options of upstream model
    updates are, for a type whose models can be fetched, as they were set, automatic synchronisation
    only together with the check and the ignored models once each; for any other type they are still
    those of the object that the text held, whatever the form says. *)
Theorem settings_roundtrip formData o :
  start_object formData = Some o -> json_ok (JObj o) = true -> typed_wf (f_typed formData) = true ->
  exists text, buildSettingsJSON formData = Ret text /\
    read_typed text = options_of (f_type formData) (f_typed formData) o.
Proof.
  intros Hs Ho%obj_ok_spec Ht.
  exists (stringify (JObj (settings_object (f_type formData) (f_typed formData) o))). split.
  - unfold buildSettingsJSON, start_object in *. destruct (_ && _); [|by injection Hs as <-].
    destruct (json_parse _) as [[]|]; by simplify_eq.
  - pose proof (settings_object_ok (f_type formData) (f_typed formData) o Ht Ho) as Hok.
    apply obj_ok_spec in Hok. pose proof (json_roundtrip _ Hok) as Hp. unfold read_typed.
    destruct (stringify_start _ Hok) as (c & tl & Hc & _).
    rewrite Hp. replace (truthy _) with true by by rewrite Hc.
    cbn [negb]. by apply read_settings_object.
Qed.

Lemma settings_roundtrip_witness :
  exists text, buildSettingsJSON sample_form = Ret text /\
    read_typed text
    = options_of 14 (f_typed sample_form) [(u "x", JNum (to_number (u "1.5"))); (u "aws_key_type", JStr (u "ak_sk"))].
Proof. apply settings_roundtrip; by vm_compute. Defined.
