(* ===== verification/Currency.v ===== *)
(** * Display of money

    [web/default/src/lib/currency.ts] and the currency part of
    [stores/system-config-store.ts]: the configuration the formatters read, and the formatters
    of amounts in USD, of quota and of payments. [Intl.NumberFormat] is a parameter. *)

From S2P Require Import Prelude JsString JsRegex JsNumber Json.
Open Scope Z_scope.

(** ** The configuration *)

Inductive CurrencyDisplayType := USD | CNY | TOKENS | CUSTOM.

#[export] Instance display_type_eq_dec : EqDecision CurrencyDisplayType.
Proof. solve_decision. Defined.

Record CreditDisplayConfig := {
  credit_enabled : bool;
  credit_label : jstr;
  quotaPerCredit : num;
  precision : num
}.

Record CurrencyConfig := {
  displayInCurrency : bool;
  quotaDisplayType : CurrencyDisplayType;
  quotaPerUnit : num;
  usdExchangeRate : num;
  customCurrencySymbol : jstr;
  customCurrencyExchangeRate : num;
  creditDisplay : CreditDisplayConfig
}.

Definition DEFAULT_CURRENCY_CONFIG : CurrencyConfig :=
  {| displayInCurrency := true; quotaDisplayType := USD; quotaPerUnit := num_of_Z 500000;
     usdExchangeRate := num_of_Z 1; customCurrencySymbol := u "¤";
     customCurrencyExchangeRate := num_of_Z 1;
     creditDisplay := {| credit_enabled := true; credit_label := u "Credits";
                         quotaPerCredit := num_of_Z 5000; precision := num_of_Z 2 |} |}.

(** What the store holds: a field may be missing from a persisted configuration. *)
Record StoredCredit := {
  st_enabled : option bool;
  st_label : option jstr;
  st_quotaPerCredit : option num;
  st_precision : option num
}.

Record StoredCurrency := {
  st_displayInCurrency : option bool;
  st_quotaDisplayType : option CurrencyDisplayType;
  st_quotaPerUnit : option num;
  st_usdExchangeRate : option num;
  st_customCurrencySymbol : option jstr;
  st_customCurrencyExchangeRate : option num;
  st_creditDisplay : option StoredCredit
}.

Definition DISPLAY_TYPE_VALUES : list (jstr * CurrencyDisplayType) :=
  [(u "USD", USD); (u "CNY", CNY); (u "TOKENS", TOKENS); (u "CUSTOM", CUSTOM)].

Definition isCurrencyDisplayType (value : json) : bool :=
  match value with JStr s => bool_decide (s ∈ map fst DISPLAY_TYPE_VALUES) | _ => false end.

Definition parseCurrencyDisplayType (value : json) (fallback : CurrencyDisplayType)
    : CurrencyDisplayType :=
  match value with JStr s => option_or (obj_get s DISPLAY_TYPE_VALUES) fallback | _ => fallback end.

(** [x && x > 0 ? x : d] *)
Definition positive_or (x : option num) (d : num) : num :=
  match x with Some v => if ftruthy v && flt zero v then v else d | None => d end.

(** [s?.trim() || d] *)
Definition trim_or (s : option jstr) (d : jstr) : jstr :=
  match s with Some t => if truthy (trim t) then trim t else d | None => d end.

Definition no_credit : StoredCredit :=
  {| st_enabled := None; st_label := None; st_quotaPerCredit := None; st_precision := None |}.

(** The fields of the stored credit display over the default ones. *)
Definition merge_credit (stored : option StoredCredit) : CreditDisplayConfig :=
  let s := option_or stored no_credit in
  let d := creditDisplay DEFAULT_CURRENCY_CONFIG in
  {| credit_enabled := option_or (st_enabled s) (credit_enabled d);
     credit_label := option_or (st_label s) (credit_label d);
     quotaPerCredit := option_or (st_quotaPerCredit s) (quotaPerCredit d);
     precision := option_or (st_precision s) (precision d) |}.

Definition clean_credit (c : CreditDisplayConfig) : CreditDisplayConfig :=
  let d := creditDisplay DEFAULT_CURRENCY_CONFIG in
  {| credit_enabled := credit_enabled c;
     credit_label := trim_or (Some (credit_label c)) (credit_label d);
     quotaPerCredit := positive_or (Some (quotaPerCredit c)) (quotaPerCredit d);
     precision := if is_finite (precision c) && fle zero (precision c)
                  then f_min (f_floor (precision c)) (num_of_Z 6) else precision d |}.

Definition of_default : StoredCurrency :=
  {| st_displayInCurrency := None; st_quotaDisplayType := None; st_quotaPerUnit := None;
     st_usdExchangeRate := None; st_customCurrencySymbol := None;
     st_customCurrencyExchangeRate := None; st_creditDisplay := None |}.

(** [state] is the store's [config?.currency]. *)
Definition getConfig (state : option StoredCurrency) : CurrencyConfig :=
  let currency := option_or state of_default in
  let d := DEFAULT_CURRENCY_CONFIG in
  {| displayInCurrency := option_or (st_displayInCurrency currency) (displayInCurrency d);
     quotaDisplayType := option_or (st_quotaDisplayType currency) (quotaDisplayType d);
     quotaPerUnit := positive_or (st_quotaPerUnit currency) (quotaPerUnit d);
     usdExchangeRate := positive_or (st_usdExchangeRate currency) (usdExchangeRate d);
     customCurrencySymbol := trim_or (st_customCurrencySymbol currency) (customCurrencySymbol d);
     customCurrencyExchangeRate :=
       positive_or (st_customCurrencyExchangeRate currency) (customCurrencyExchangeRate d);
     creditDisplay := clean_credit (merge_credit (st_creditDisplay currency)) |}.

(** ** What is displayed *)

Inductive DisplayMeta :=
| MetaCurrency (symbol currencyCode : jstr) (exchangeRate : num)
| MetaCustom (symbol : jstr) (exchangeRate : num)
| MetaTokens (perUnit : num).

Definition usd_meta : DisplayMeta := MetaCurrency (u "$") (u "USD") (num_of_Z 1).

Definition getDisplayMeta (config : CurrencyConfig) : DisplayMeta :=
  match quotaDisplayType config with
  | CNY => MetaCurrency (u "¥") (u "CNY") (usdExchangeRate config)
  | CUSTOM => MetaCustom (customCurrencySymbol config) (customCurrencyExchangeRate config)
  | TOKENS => MetaTokens (quotaPerUnit config)
  | USD => usd_meta
  end.

Definition getBillingDisplayMeta (config : CurrencyConfig) : DisplayMeta :=
  match getDisplayMeta config with MetaTokens _ => usd_meta | meta => meta end.

Definition getCurrencyDisplay (state : option StoredCurrency) : CurrencyConfig * DisplayMeta :=
  let config := getConfig state in (config, getDisplayMeta config).

(** ** Options *)

(** The digits the callers ask for are small natural numbers. *)
Record CurrencyFormatOptions := {
  o_digitsLarge : option nat;
  o_digitsSmall : option nat;
  o_abbreviate : option bool;
  o_minimumNonZero : option num;
  o_useCreditDisplay : option bool
}.

Record MergedOptions := {
  digitsLarge : nat;
  digitsSmall : nat;
  abbreviate : bool;
  minimumNonZero : num;
  useCreditDisplay : bool
}.

Definition DEFAULT_FORMAT_OPTIONS : MergedOptions :=
  {| digitsLarge := 2; digitsSmall := 4; abbreviate := true; minimumNonZero := zero;
     useCreditDisplay := true |}.

Definition mergeOptions (options : option CurrencyFormatOptions) : MergedOptions :=
  let d := DEFAULT_FORMAT_OPTIONS in
  match options with
  | None => d
  | Some o =>
      {| digitsLarge := option_or (o_digitsLarge o) (digitsLarge d);
         digitsSmall := option_or (o_digitsSmall o) (digitsSmall d);
         abbreviate := option_or (o_abbreviate o) (abbreviate d);
         minimumNonZero := option_or (o_minimumNonZero o) (minimumNonZero d);
         useCreditDisplay := option_or (o_useCreditDisplay o) (useCreditDisplay d) |}
  end.

Definition shouldUseCreditDisplay (config : CurrencyConfig) (options : option CurrencyFormatOptions)
    : bool :=
  match options with
  | Some o => match o_useCreditDisplay o with Some false => false | _ => true end
  | None => true
  end &&
  credit_enabled (creditDisplay config) && flt zero (quotaPerCredit (creditDisplay config)).

(** ** Numbers as text *)

Definition zeros_regex : regex :=
  rseq [RGroup 1 (RSeq (rl ".") (RStar false (RSet is_digit))); rplus (rl "0"); REol].
Definition point_regex : regex := RSeq (rl ".") REol.

Definition removeTrailingZeros (str : jstr) : jstr :=
  if negb (includes (u ".") str) then str else
  rreplace_first point_regex (fun _ => []) (rreplace_first zeros_regex (fun m => group 1 m) str).

Definition formatNumberWithSuffix (value : num) (large small : nat) (abbr : bool) : jstr :=
  let abs := fabs value in
  if abbr && fle (num_of_Z 1000) abs then
    removeTrailingZeros (to_fixed 1 (fdiv value (num_of_Z 1000))) ++ u "k"
  else
    let digits := if fle (num_of_Z 1) abs then large else small in
    removeTrailingZeros (to_fixed digits value).

(** [Math.pow(10, -digits)] *)
Definition pow10_neg (digits : nat) : num := num_of_decimal false 1 (- Z.of_nat digits).

Definition min_threshold (digits : nat) (minimum : num) : num :=
  if flt zero minimum then minimum else pow10_neg digits.

Definition adjustForMinimum (value : num) (digits : nat) (minimum : num) : num :=
  if feq value zero then value else
  let threshold := min_threshold digits minimum in
  let abs := fabs value in
  if flt zero abs && flt abs threshold then
    if flt zero value then threshold else fopp threshold
  else value.

(** ** The formatters *)

(** [new Intl.NumberFormat(undefined, ...).format(value)] with a maximum of fraction digits, as
    an amount of a currency and as a decimal number, in the browser's locale. *)
Section Formatters.
Context (currencyFormat : jstr -> nat -> num -> jstr) (decimalFormat : nat -> num -> jstr).

Definition formatCurrencyValue (value : num) (options : MergedOptions) (meta : DisplayMeta) : jstr :=
  match meta with
  | MetaTokens _ =>
      formatNumberWithSuffix value (digitsLarge options) (digitsSmall options) (abbreviate options)
  | _ =>
      let digits := if fle (num_of_Z 1) (fabs value) then digitsLarge options else digitsSmall options in
      let adjustedValue := adjustForMinimum value digits (minimumNonZero options) in
      match meta with
      | MetaCurrency _ currencyCode _ => currencyFormat currencyCode digits adjustedValue
      | MetaCustom symbol _ => symbol ++ decimalFormat digits adjustedValue
      | MetaTokens _ => []
      end
  end.

(** [x == null || Number.isNaN(x) ? '-' : f(x)] *)
Definition or_dash (x : option num) (f : num -> jstr) : jstr :=
  match x with Some v => if is_nan v then u "-" else f v | None => u "-" end.

Definition formatQuotaAsCredits (state : option StoredCurrency) (quota : option num)
    (options : option CurrencyFormatOptions) : jstr :=
  or_dash quota (fun q =>
    let creditConfig := creditDisplay (getConfig state) in
    let credits := fdiv q (quotaPerCredit creditConfig) in
    let digits := match options with
                  | Some {| o_digitsLarge := Some d |} => d
                  | _ => Z.to_nat (floor_Z (precision creditConfig))
                  end in
    removeTrailingZeros (to_fixed digits credits) ++ u " " ++ credit_label creditConfig).

Definition formatCurrencyFromUSD (state : option StoredCurrency) (amountUSD : option num)
    (options : option CurrencyFormatOptions) : jstr :=
  or_dash amountUSD (fun amount =>
    let '(config, meta) := getCurrencyDisplay state in
    let merged := mergeOptions options in
    match meta with
    | MetaTokens _ =>
        formatNumberWithSuffix (fmul amount (quotaPerUnit config)) 0 (digitsSmall merged)
          (abbreviate merged)
    | MetaCurrency _ _ rate | MetaCustom _ rate => formatCurrencyValue (fmul amount rate) merged meta
    end).

Definition formatBillingCurrencyFromUSD (state : option StoredCurrency) (amountUSD : option num)
    (options : option CurrencyFormatOptions) : jstr :=
  or_dash amountUSD (fun amount =>
    let '(config, _) := getCurrencyDisplay state in
    let meta := getBillingDisplayMeta config in
    let value := match meta with
                 | MetaCurrency _ _ rate | MetaCustom _ rate => fmul amount rate
                 | MetaTokens _ => amount
                 end in
    formatCurrencyValue value (mergeOptions options) meta).

Definition formatQuotaWithCurrency (state : option StoredCurrency) (quota : option num)
    (options : option CurrencyFormatOptions) : jstr :=
  or_dash quota (fun q =>
    let '(config, _) := getCurrencyDisplay state in
    if shouldUseCreditDisplay config options then formatQuotaAsCredits state (Some q) options
    else formatCurrencyFromUSD state (Some (fdiv q (quotaPerUnit config))) options).

Definition getCurrencyLabel (state : option StoredCurrency) : jstr :=
  let '(config, meta) := getCurrencyDisplay state in
  if shouldUseCreditDisplay config None then credit_label (creditDisplay config) else
  match meta with
  | MetaTokens _ => u "Tokens"
  | _ =>
      match quotaDisplayType config with
      | CNY => u "CNY"
      | CUSTOM => match meta with MetaCustom symbol _ => symbol | _ => u "Custom" end
      | USD | TOKENS => u "USD"
      end
  end.

Definition isCurrencyDisplayEnabled (state : option StoredCurrency) : bool :=
  let '(config, meta) := getCurrencyDisplay state in
  if shouldUseCreditDisplay config None then true else
  match meta with MetaTokens _ => false | _ => true end.

Definition formatPaymentGatewayAmount (state : option StoredCurrency) (amount : option num)
    (options : option CurrencyFormatOptions) : jstr :=
  or_dash amount (fun a =>
    let '(config, _) := getCurrencyDisplay state in
    let rate := usdExchangeRate config in
    let meta :=
      if bool_decide (quotaDisplayType config = USD) && ftruthy rate && negb (feq rate (num_of_Z 1))
      then MetaCurrency (u "¥") (u "CNY") (num_of_Z 1)
      else getBillingDisplayMeta config in
    formatCurrencyValue a (mergeOptions options) meta).

Definition formatLocalCurrencyAmount (state : option StoredCurrency) (amount : option num)
    (options : option CurrencyFormatOptions) : jstr :=
  or_dash amount (fun a =>
    let '(config, _) := getCurrencyDisplay state in
    formatCurrencyValue a (mergeOptions options) (getBillingDisplayMeta config)).
End Formatters.
