(* ===== verification/CurrencyFacts.v ===== *)
(** * Properties of the display of money

    The configuration the formatters work with is well-formed whatever the store holds, an amount
    that is not zero is not shown as zero, and prices are never shown in tokens. *)

From S2P Require Import Prelude JsString JsRegex JsNumber Json Currency.
Open Scope Z_scope.

(** ** The configuration *)

Lemma positive_or_positive x d : flt zero d = true -> flt zero (positive_or x d) = true.
Proof. intros Hd. destruct x as [v|]; simpl; [|done]. destruct (ftruthy v), (flt zero v) eqn:?; done. Qed.

Lemma trim_or_truthy s d : truthy d = true -> truthy (trim_or s d) = true.
Proof. intros Hd. destruct s as [t|]; simpl; [|done]. by destruct (truthy (trim t)) eqn:?. Qed.

Lemma binary_round_aux_sign m e l :
  flt (binary_round_aux 53 1024 false m e l) zero = false.
Proof.
  unfold binary_round_aux. repeat case_match; done.
Qed.

(** A positive integer does not become a negative number. *)
Lemma num_of_pos_sign p : flt (num_of_Z (Zpos p)) zero = false.
Proof.
  unfold num_of_Z, binary_normalize, binary_round. destruct (shl_align _ _ _).
  apply binary_round_aux_sign.
Qed.

Lemma f_floor_sign x : fle zero x = true -> flt (f_floor x) zero = false.
Proof.
  destruct x as [[]|[]| |[] m e]; try done. intros _.
  unfold f_floor. destruct (floor_Z _) eqn:Hz; [done|apply num_of_pos_sign|].
  exfalso. revert Hz. simpl. destruct (ratio m e) as [a b] eqn:Hr.
  assert (0 <= a /\ 0 <= b) as [Ha Hb].
  { revert Hr. unfold ratio. case_match; intros [= <- <-]; split; try lia; nia. }
  pose proof (Z.div_pos a b Ha). destruct (Z.eq_dec b 0) as [->|]; [by rewrite Z.div_0_r|].
  specialize (H ltac:(lia)). lia.
Qed.

Lemma f_min_bounds x y :
  flt x zero = false -> flt y zero = false ->
  flt (f_min x y) zero = false /\ flt y (f_min x y) = false.
Proof.
  intros Hx Hy. unfold f_min. destruct (is_nan x || is_nan y); [by destruct y as [[]|[]| |[]]|].
  destruct x as [[]|[]| |[] ??], y as [[]|[]| |[] ??]; try done;
    case_match; split; try done; apply flt_irrefl.
Qed.

(** whatever the store holds, the formatters work with positive rates and quantities, with a
    symbol and a label that are not blank, and with a precision between 0 and 6. *)
Theorem config_wf state :
  let config := getConfig state in
  let credit := creditDisplay config in
  flt zero (quotaPerUnit config) = true /\
  flt zero (usdExchangeRate config) = true /\
  flt zero (customCurrencyExchangeRate config) = true /\
  flt zero (quotaPerCredit credit) = true /\
  truthy (customCurrencySymbol config) = true /\
  truthy (credit_label credit) = true /\
  flt (precision credit) zero = false /\ flt (num_of_Z 6) (precision credit) = false.
Proof.
  cbn zeta. unfold getConfig.
  cbn [quotaPerUnit usdExchangeRate customCurrencyExchangeRate customCurrencySymbol creditDisplay
       clean_credit quotaPerCredit credit_label precision].
  split_and!; try (apply positive_or_positive; by vm_compute).
  1-2: apply trim_or_truthy; by vm_compute.
  all: destruct (is_finite _ && fle zero _) eqn:H; [|by vm_compute];
    apply andb_prop in H as [_ H]; by apply f_min_bounds; [apply f_floor_sign|vm_compute].
Qed.

(** ** Amounts that are not zero *)

Lemma pow10_neg_positive digits : (digits <= 20)%nat -> flt zero (pow10_neg digits) = true.
Proof. intros H. do 21 (destruct digits as [|digits]; [by vm_compute|]). lia. Qed.

Lemma min_threshold_positive digits m : (digits <= 20)%nat -> flt zero (min_threshold digits m) = true.
Proof.
  intros H. unfold min_threshold. destruct (flt zero m) eqn:?; [done|by apply pow10_neg_positive].
Qed.

Lemma fabs_pos x : flt zero x = true -> fabs x = x.
Proof. by destruct x as [[]|[]| |[] ??]. Qed.

Lemma fabs_opp x : fabs (fopp x) = fabs x.
Proof. by destruct x as [[]|[]| |[] ??]. Qed.

Lemma fopp_sign x : flt zero x = true -> flt zero (fopp x) = false.
Proof. by destruct x as [[]|[]| |[] ??]. Qed.

Lemma fabs_positive x : is_nan x = false -> feq x zero = false -> flt zero (fabs x) = true.
Proof. by destruct x as [[]|[]| |[] ??]. Qed.

Lemma fabs_not_nan x : is_nan (fabs x) = is_nan x.
Proof. by destruct x as [[]|[]| |[] ??]. Qed.

(** an amount that is not zero is brought up to the least amount its digits can show, with
    its sign; zero and the amounts that can be shown are kept. *)
Theorem minimum_shown value digits minimum :
  is_nan value = false -> (digits <= 20)%nat ->
  let least := min_threshold digits minimum in
  let shown := adjustForMinimum value digits minimum in
  (feq value zero = true \/ fle least (fabs value) = true -> shown = value) /\
  (feq value zero = false ->
   fle least (fabs shown) = true /\ flt zero shown = flt zero value).
Proof.
  intros Hn Hd. cbn zeta. unfold adjustForMinimum.
  pose proof (min_threshold_positive digits minimum Hd) as Ht.
  set (t := min_threshold digits minimum) in *.
  assert (is_nan t = false) as Htn by by destruct t.
  destruct (feq value zero) eqn:Hz; [done|]. rewrite fabs_positive by done. cbn [andb].
  destruct (flt (fabs value) t) eqn:Hlt.
  - assert (fle t (fabs value) = false) as Hle.
    { apply not_true_iff_false. rewrite fle_key. apply flt_key in Hlt as (_ & _ & Hk). tauto. }
    split; [intros [?|?]; congruence|]. intros _.
    destruct (flt zero value) eqn:Hs; rewrite ?fabs_opp, fabs_pos, fle_refl by done; split; try done.
    by apply fopp_sign.
  - split; [done|]. intros _. split; [|done].
    apply flt_false_fle; [by rewrite fabs_not_nan|done|done].
Qed.

Lemma minimum_shown_witness :
  let shown := adjustForMinimum (fopp (pow10_neg 7)) 4 zero in
  fle (pow10_neg 4) (fabs shown) = true /\ flt zero shown = false.
Proof. apply (minimum_shown (fopp (pow10_neg 7)) 4 zero); [by vm_compute|lia|by vm_compute]. Defined.

(** ** Prices *)

Section Prices.
Context (currencyFormat : jstr -> nat -> num -> jstr) (decimalFormat : nat -> num -> jstr).

(** The store with another way to display quota. *)
Definition with_display (t : CurrencyDisplayType) (state : option StoredCurrency)
    : option StoredCurrency :=
  let s := option_or state of_default in
  Some {| st_displayInCurrency := st_displayInCurrency s; st_quotaDisplayType := Some t;
          st_quotaPerUnit := st_quotaPerUnit s; st_usdExchangeRate := st_usdExchangeRate s;
          st_customCurrencySymbol := st_customCurrencySymbol s;
          st_customCurrencyExchangeRate := st_customCurrencyExchangeRate s;
          st_creditDisplay := st_creditDisplay s |}.

(** prices are displayed as other amounts are, except that a console that displays tokens
    shows its prices, and the amounts already in local currency, in USD. *)
Theorem billing_display state amount options :
  let fmt_billing s := formatBillingCurrencyFromUSD currencyFormat decimalFormat s amount options in
  let fmt s := formatCurrencyFromUSD currencyFormat decimalFormat s amount options in
  let fmt_local s := formatLocalCurrencyAmount currencyFormat decimalFormat s amount options in
  (quotaDisplayType (getConfig state) <> TOKENS -> fmt_billing state = fmt state) /\
  fmt_billing (with_display TOKENS state) = fmt (with_display USD state) /\
  fmt_local (with_display TOKENS state) = fmt_local (with_display USD state).
Proof.
  cbn zeta. unfold formatBillingCurrencyFromUSD, formatCurrencyFromUSD, formatLocalCurrencyAmount,
    getBillingDisplayMeta, getCurrencyDisplay, getDisplayMeta.
  split_and!; [intros Ht|done|done].
  by destruct (quotaDisplayType (getConfig state)).
Qed.
End Prices.
