(* ===== verification/Pricing.v ===== *)
(** * The price list

    [web/default/src/features/pricing]: the filters and the order of the models
    ([lib/filters.ts], [lib/model-helpers.ts]), the prices of ratio and per-request models
    ([lib/price.ts]), the prices of models with a billing expression ([lib/dynamic-price.ts]) and
    the localized description ([lib/description.ts]). *)

From S2P Require Import Prelude JsString JsRegex JsNumber Json BillingExpr Currency.
Open Scope Z_scope.

(** ** Models and constants *)

(** [None] stands for a field that is missing or [null]; a record of ratios is a list of fields. *)
Record PricingModel := {
  model_name : option jstr;
  description : option jstr;
  vendor_name : option jstr;
  quota_type : Z;
  model_ratio : num;
  completion_ratio : num;
  model_price : option num;
  cache_ratio : option num;
  create_cache_ratio : option num;
  image_ratio : option num;
  audio_ratio : option num;
  audio_completion_ratio : option num;
  enable_groups : option (list jstr);
  tags : option jstr;
  supported_endpoint_types : option (list jstr);
  group_ratio : option (list (jstr * num));
  billing_mode : option jstr;
  billing_expr : option jstr
}.

Definition SORT_NAME := u "name".
Definition SORT_PRICE_LOW := u "price-low".
Definition SORT_PRICE_HIGH := u "price-high".
Definition FILTER_ALL := u "all".
Definition QT_ALL := u "all".
Definition QT_TOKEN := u "token".
Definition QT_REQUEST := u "request".
Definition QT_VIDEO := u "video".
Definition EXCLUDED_GROUPS : list jstr := [[]; u "auto"].
Definition QUOTA_TOKEN : Z := 0.
Definition QUOTA_REQUEST : Z := 1.
Definition QUOTA_VIDEO_FORMULA : Z := 2.

Inductive TokenUnit := UnitM | UnitK.

Definition TOKEN_UNIT_DIVISORS (t : TokenUnit) : num :=
  match t with UnitM => num_of_Z 1 | UnitK => num_of_Z 1000 end.

Inductive PriceType :=
| PInput | POutput | PCache | PCreateCache | PImage | PAudioInput | PAudioOutput.

(** ** Filters *)

Section Filters.
Context (toLowerCase : jstr -> jstr) (localeCompare : jstr -> jstr -> Z).

(** [s?.toLowerCase().includes(q)] *)
Definition has_text (q : jstr) (s : option jstr) : bool :=
  match s with Some t => includes q (toLowerCase t) | None => false end.

Definition search_match (query : jstr) (m : PricingModel) : bool :=
  let lowerQuery := toLowerCase query in
  has_text lowerQuery (model_name m) || has_text lowerQuery (description m)
  || has_text lowerQuery (tags m) || has_text lowerQuery (vendor_name m).

Definition filterBySearch (models : list PricingModel) (query : jstr) : list PricingModel :=
  if negb (truthy query) then models else jfilter (search_match query) models.

Definition filterByVendor (models : list PricingModel) (vendor : jstr) : list PricingModel :=
  if jeqb vendor FILTER_ALL then models
  else jfilter (fun m => bool_decide (vendor_name m = Some vendor)) models.

(** [xs?.includes(x)] *)
Definition lists (x : jstr) (xs : option (list jstr)) : bool :=
  match xs with Some l => bool_decide (x ∈ l) | None => false end.

Definition filterByGroup (models : list PricingModel) (group : jstr) : list PricingModel :=
  if jeqb group FILTER_ALL then models else jfilter (fun m => lists group (enable_groups m)) models.

Definition target_type (quotaType : jstr) : Z :=
  if jeqb quotaType QT_TOKEN then QUOTA_TOKEN
  else if jeqb quotaType QT_VIDEO then QUOTA_VIDEO_FORMULA
  else QUOTA_REQUEST.

Definition filterByQuotaType (models : list PricingModel) (quotaType : jstr) : list PricingModel :=
  if jeqb quotaType QT_ALL then models
  else jfilter (fun m => quota_type m =? target_type quotaType) models.

Definition filterByEndpointType (models : list PricingModel) (endpointType : jstr)
    : list PricingModel :=
  if jeqb endpointType FILTER_ALL then models
  else jfilter (fun m => lists endpointType (supported_endpoint_types m)) models.

Definition getModelPrice (model : PricingModel) : num :=
  if quota_type model =? 0 then model_ratio model
  else match model_price model with Some p => f_or p zero | None => zero end.

(** [a - b > 0] as a comparator; a difference that is not a number counts as zero. *)
Definition price_gt (a b : PricingModel) : bool :=
  flt zero (fsub (getModelPrice a) (getModelPrice b)).

(** The order of each option; [None] leaves the list as it is. *)
Definition sort_order (sortBy : jstr) : option (PricingModel -> PricingModel -> bool) :=
  if jeqb sortBy SORT_NAME then
    Some (fun a b => 0 <? localeCompare (option_or (model_name a) []) (option_or (model_name b) []))
  else if jeqb sortBy SORT_PRICE_LOW then Some price_gt
  else if jeqb sortBy SORT_PRICE_HIGH then Some (fun a b => price_gt b a)
  else None.

Definition sortModels (models : list PricingModel) (sortBy : jstr) : list PricingModel :=
  match sort_order sortBy with Some gt => sort_by gt models | None => models end.

Definition tag_separators : regex := rplus (RSet (fun c => one_of (u ",;|") c || is_space c)).

Definition parseTags (tagsString : option jstr) : list jstr :=
  match tagsString with
  | None | Some [] => []
  | Some s => jfilter truthy (map trim (rsplit tag_separators s))
  end.

Definition lower_tags (m : PricingModel) : list jstr := map toLowerCase (parseTags (tags m)).

Definition extractAllTags (models : list PricingModel) : list jstr :=
  let tagSet := dedup (flat_map lower_tags models) in
  sort_by (fun a b => 0 <? localeCompare a b) tagSet.

(** A model without tags has an empty [lower_tags]. *)
Definition filterByTag (models : list PricingModel) (tag : jstr) : list PricingModel :=
  if jeqb tag FILTER_ALL then models else
  let tagLower := toLowerCase tag in
  jfilter (fun m => bool_decide (tagLower ∈ lower_tags m)) models.

Record Filters := {
  search : jstr; vendor : jstr; group : jstr; quotaType : jstr; endpointType : jstr; tag : jstr;
  sortBy : jstr
}.

Definition filterAndSortModels (models : list PricingModel) (filters : Filters) : list PricingModel :=
  let result := filterBySearch models (search filters) in
  let result := filterByVendor result (vendor filters) in
  let result := filterByGroup result (group filters) in
  let result := filterByQuotaType result (quotaType filters) in
  let result := filterByEndpointType result (endpointType filters) in
  let result := filterByTag result (tag filters) in
  sortModels result (sortBy filters).
End Filters.

(** ** Model helpers *)

Definition getAvailableGroups {V} (model : PricingModel) (usableGroup : list (jstr * V)) : list jstr :=
  let modelEnableGroups := option_or (enable_groups model) [] in
  jfilter (fun g => bool_decide (g ∈ modelEnableGroups))
    (jfilter (fun g => negb (bool_decide (g ∈ EXCLUDED_GROUPS))) (obj_keys usableGroup)).

Definition isTokenBasedModel (model : PricingModel) : bool := quota_type model =? QUOTA_TOKEN.

(** ** Prices of ratio and per-request models *)

Definition formatted_regex : regex :=
  rseq [RBol; RGroup 1 (RStar true (RSet (fun c => negb (is_digit c || one_of (u "-") c))));
        RGroup 2 (rseq [rplus (RSet (fun c => is_digit c || one_of (u "-,") c)); ROpt (rl ".");
                        RStar true (RSet is_digit)]);
        RGroup 3 (ROpt (rl "k")); REol].
Definition end_zeros_regex : regex := rseq [ROpt (rl "."); rplus (rl "0"); REol].

Definition stripTrailingZeros (formatted : jstr) : jstr :=
  match rmatch formatted_regex formatted with
  | None => formatted
  | Some m =>
      let cleanNumber := remove_chars (N.eqb 44) (JsRegex.group 2 m) in
      let parsed := parse_float cleanNumber in
      if is_nan parsed then formatted else
      let text := num_to_string parsed in
      let result := if includes (u "e") text
                    then rreplace_first end_zeros_regex (fun _ => []) (to_fixed 20 parsed)
                    else text in
      JsRegex.group 1 m ++ result ++ JsRegex.group 3 m
  end.

Definition min_ratio_step (ratios : list (jstr * num)) (minRatio : num) (group : jstr) : num :=
  match obj_get group ratios with
  | Some ratio => if flt ratio minRatio then ratio else minRatio
  | None => minRatio
  end.

Definition getMinGroupRatio (enableGroups : list jstr) (groupRatio : list (jstr * num)) : num :=
  match enableGroups with
  | [] => num_of_Z 1
  | _ =>
      let minRatio := fold_left (min_ratio_step groupRatio) enableGroups infinity in
      if feq minRatio infinity then num_of_Z 1 else minRatio
  end.

(** A ratio that is present and finite. *)
Definition hasRatio (value : option num) : bool :=
  match value with Some v => is_finite v | None => false end.

(** [hasRatio(r) ? base * Number(r) : NaN] *)
Definition times_ratio (base : num) (ratio : option num) : num :=
  match ratio with Some r => if hasRatio ratio then fmul base r else nan | None => nan end.

Definition calculateTokenPrice (model : PricingModel) (type : PriceType) (ratio : num) : num :=
  let base := fmul (fmul (model_ratio model) (num_of_Z 2)) ratio in
  match type with
  | PInput => base
  | POutput => fmul base (completion_ratio model)
  | PCache => times_ratio base (cache_ratio model)
  | PCreateCache => times_ratio base (create_cache_ratio model)
  | PImage => times_ratio base (image_ratio model)
  | PAudioInput => times_ratio base (audio_ratio model)
  | PAudioOutput =>
      if hasRatio (audio_ratio model) && hasRatio (audio_completion_ratio model)
      then times_ratio (times_ratio base (audio_ratio model)) (audio_completion_ratio model)
      else nan
  end.

Definition applyRechargeRate (price : num) (showWithRecharge : bool) (priceRate usdExchangeRate : num)
    : num :=
  if negb showWithRecharge then price else fdiv (fmul price priceRate) usdExchangeRate.

Definition price_options (small : nat) : option CurrencyFormatOptions :=
  Some {| o_digitsLarge := Some 4%nat; o_digitsSmall := Some small; o_abbreviate := Some false;
          o_minimumNonZero := None; o_useCreditDisplay := None |}.

Section Format.
Context (currencyFormat : jstr -> nat -> num -> jstr) (decimalFormat : nat -> num -> jstr).
Context (state : option StoredCurrency).

Let fmt (x : num) (small : nat) : jstr :=
  formatCurrencyFromUSD currencyFormat decimalFormat state (Some x) (price_options small).

Definition formatPrice (model : PricingModel) (type : PriceType) (tokenUnit : TokenUnit)
    (showWithRecharge : bool) (priceRate usdExchangeRate : num) : jstr :=
  if quota_type model =? QUOTA_REQUEST then u "-" else
  let minRatio := getMinGroupRatio (option_or (enable_groups model) []) (option_or (group_ratio model) []) in
  let priceInUSD := calculateTokenPrice model type minRatio in
  let priceInUSD := applyRechargeRate priceInUSD showWithRecharge priceRate usdExchangeRate in
  fmt (fdiv priceInUSD (TOKEN_UNIT_DIVISORS tokenUnit)) 6.

(** [groupRatio[group] || 1] *)
Definition ratio_or_one (groupRatio : list (jstr * num)) (group : jstr) : num :=
  match obj_get group groupRatio with Some r => f_or r (num_of_Z 1) | None => num_of_Z 1 end.

Definition formatGroupPrice (model : PricingModel) (group : jstr) (type : PriceType)
    (tokenUnit : TokenUnit) (showWithRecharge : bool) (priceRate usdExchangeRate : num)
    (groupRatio : list (jstr * num)) : jstr :=
  if quota_type model =? QUOTA_REQUEST then u "-" else
  let priceInUSD := calculateTokenPrice model type (ratio_or_one groupRatio group) in
  let priceInUSD := applyRechargeRate priceInUSD showWithRecharge priceRate usdExchangeRate in
  fmt (fdiv priceInUSD (TOKEN_UNIT_DIVISORS tokenUnit)) 6.

Definition price_or_zero (model : PricingModel) : num :=
  match model_price model with Some p => f_or p zero | None => zero end.

Definition formatFixedPrice (model : PricingModel) (group : jstr) (showWithRecharge : bool)
    (priceRate usdExchangeRate : num) (groupRatio : list (jstr * num)) : jstr :=
  if negb (quota_type model =? QUOTA_REQUEST) then u "-" else
  let priceInUSD := fmul (price_or_zero model) (ratio_or_one groupRatio group) in
  fmt (applyRechargeRate priceInUSD showWithRecharge priceRate usdExchangeRate) 4.

Definition formatRequestPrice (model : PricingModel) (showWithRecharge : bool)
    (priceRate usdExchangeRate : num) : jstr :=
  if negb (quota_type model =? QUOTA_REQUEST) then u "-" else
  let minRatio := getMinGroupRatio (option_or (enable_groups model) []) (option_or (group_ratio model) []) in
  let priceInUSD := fmul (price_or_zero model) minRatio in
  fmt (applyRechargeRate priceInUSD showWithRecharge priceRate usdExchangeRate) 4.

(** ** Prices of models with a billing expression *)

Record DynamicPriceOptions := {
  tokenUnit : TokenUnit;
  showRechargePrice : option bool;
  priceRate : option num;
  exchange_rate : option num;
  groupRatioMultiplier : option num
}.

Record DynamicPriceEntry := {
  e_key : jstr;
  e_field : jstr;
  e_label : jstr;
  e_shortLabel : jstr;
  e_value : num;
  formatted : jstr;
  variable : BillingVar
}.

Definition isDynamicPricingModel (model : PricingModel) : bool :=
  bool_decide (billing_mode model = Some (u "tiered_expr")) &&
  truthy (option_or (billing_expr model) []).

Definition getDynamicDisplayGroupRatio (model : PricingModel) : num :=
  let groups := option_or (enable_groups model) [] in
  let ratios := option_or (group_ratio model) [] in
  match groups with
  | [] => num_of_Z 1
  | _ =>
      let minRatio := fold_left (fun minRatio group =>
        match obj_get group ratios with
        | Some ratio => if flt ratio minRatio then ratio else minRatio
        | None => minRatio
        end) groups infinity in
      if feq minRatio infinity then num_of_Z 1 else minRatio
  end.

Definition formatDynamicUnitPrice (valuePerMillionTokens : num) (options : DynamicPriceOptions) : jstr :=
  let groupRatio := option_or (groupRatioMultiplier options) (num_of_Z 1) in
  let priceUSD := fdiv (fmul valuePerMillionTokens groupRatio) (TOKEN_UNIT_DIVISORS (tokenUnit options)) in
  let displayPrice :=
    applyRechargeRate priceUSD (option_or (showRechargePrice options) false)
      (option_or (priceRate options) (num_of_Z 1)) (option_or (exchange_rate options) (num_of_Z 1)) in
  formatBillingCurrencyFromUSD currencyFormat decimalFormat state (Some displayPrice) (price_options 6).

Definition getDynamicPricingTiers (model : PricingModel) : outcome (list ParsedTier) :=
  if negb (isDynamicPricingModel model) then Ret [] else
  bind! split := splitBillingExprAndRequestRules (option_or (billing_expr model) []) in
  Ret (parseTiersFromExpr (billingExpr split)).

Definition hasDynamicRequestRules (model : PricingModel) : outcome bool :=
  if negb (isDynamicPricingModel model) then Ret false else
  bind! split := splitBillingExprAndRequestRules (option_or (billing_expr model) []) in
  bind! rules := tryParseRequestRuleExpr (requestRuleExpr split) in
  Ret match rules with Some (_ :: _) => true | _ => false end.

Definition PRIMARY_DYNAMIC_FIELDS : list jstr := [u "inputPrice"; u "outputPrice"].

Definition is_primary (e : DynamicPriceEntry) : bool :=
  bool_decide (e_field e ∈ PRIMARY_DYNAMIC_FIELDS).

(** The entry of a variable: none for a price that is missing, not finite or not positive. *)
Definition price_entry (tier : ParsedTier) (options : DynamicPriceOptions) (v : BillingVar)
    : list DynamicPriceEntry :=
  match field v with
  | None | Some [] => []
  | Some f =>
      let value := option_or (obj_get f (prices tier)) nan in
      if negb (is_finite value) || fle value zero then []
      else [{| e_key := key v; e_field := f; e_label := label v; e_shortLabel := shortLabel v;
               e_value := value; formatted := formatDynamicUnitPrice value options; variable := v |}]
  end.

Definition getDynamicPriceEntries (tier : option ParsedTier) (options : DynamicPriceOptions)
    : list DynamicPriceEntry :=
  match tier with
  | None => []
  | Some t =>
      sort_by (fun a b => negb (is_primary a) && is_primary b)
        (flat_map (price_entry t options) BILLING_PRICING_VARS)
  end.

Record DynamicPricingSummary := {
  tiers : list ParsedTier;
  tier : option ParsedTier;
  tierCount : nat;
  hasRequestRules : bool;
  isSpecialExpression : bool;
  rawExpression : jstr;
  entries : list DynamicPriceEntry;
  primaryEntries : list DynamicPriceEntry;
  secondaryEntries : list DynamicPriceEntry
}.

Definition getDynamicPricingSummary (model : PricingModel) (options : DynamicPriceOptions)
    : outcome (option DynamicPricingSummary) :=
  if negb (isDynamicPricingModel model) then Ret None else
  bind! ts := getDynamicPricingTiers model in
  let t := head ts in
  let es := getDynamicPriceEntries t options in
  let raw := option_or (billing_expr model) [] in
  bind! rules := hasDynamicRequestRules model in
  Ret (Some {| tiers := ts; tier := t; tierCount := length ts; hasRequestRules := rules;
               isSpecialExpression := (0 <? length (trim raw))%nat && (length ts =? 0)%nat;
               rawExpression := raw; entries := es; primaryEntries := jfilter is_primary es;
               secondaryEntries := jfilter (fun e => negb (is_primary e)) es |}).
End Format.

(** ** Localized descriptions *)

Definition PROBABLY_JSON : regex :=
  rseq [RBol; rspaces; rl "{"; RStar true rany; rl "}"; rspaces; REol].

(** A non-blank string. *)
Definition copy_of (v : option json) : option jstr :=
  match v with Some (JStr s) => if truthy (trim s) then Some s else None | _ => None end.

Definition localizedDescription (toLowerCase : jstr -> jstr) (raw language : option jstr) : jstr :=
  let value := trim (option_or raw []) in
  if negb (truthy value) then [] else
  if negb (rtest PROBABLY_JSON value) then value else
  match json_parse value with
  | Some (JObj map) =>
      let lang := toLowerCase (match language with None | Some [] => u "en" | Some l => l end) in
      let first c := option_or (head (split_on c lang)) [] in
      let candidates := [lang; first 45%N; first 95%N; u "en"; u "zh"] in
      match first_some (fun k => copy_of (obj_get k map)) candidates with
      | Some v => v
      | None => option_or (first_some (fun v => copy_of (Some v)) (obj_values map)) []
      end
  | _ => value
  end.
