(* ===== verification/PricingFacts.v ===== *)
(** * Properties of the price list

    What the filters keep and in which order, the tags the filter offers, the ratio prices are
    shown with and the entries of a model with a billing expression. *)

From S2P Require Import Prelude JsString JsRegex JsNumber Json BillingExpr Currency Pricing.
Open Scope Z_scope.

(** ** Filters *)

Section FilterFacts.
Context (toLowerCase : jstr -> jstr) (localeCompare : jstr -> jstr -> Z).

(** What a model must satisfy to be listed. *)
Definition listed (f : Filters) (m : PricingModel) : Prop :=
  (search f = [] \/ search_match toLowerCase (search f) m = true) /\
  (vendor f = FILTER_ALL \/ vendor_name m = Some (vendor f)) /\
  (group f = FILTER_ALL \/ lists (group f) (enable_groups m) = true) /\
  (quotaType f = QT_ALL \/ quota_type m = target_type (quotaType f)) /\
  (endpointType f = FILTER_ALL \/ lists (endpointType f) (supported_endpoint_types m) = true) /\
  (tag f = FILTER_ALL \/ toLowerCase (tag f) ∈ lower_tags toLowerCase m).

#[local] Instance listed_dec f m : Decision (listed f m).
Proof. apply _. Defined.

(** A filter that is off unless [on] is a filter by a disjunction. *)
Lemma filter_off {A} (off : bool) (p : A -> bool) l :
  (if off then l else jfilter p l) = jfilter (fun x => off || p x) l.
Proof. destruct off; [|done]. symmetry. apply jfilter_all. by induction l; constructor. Qed.

Lemma jfilter_jfilter {A} (p q : A -> bool) l :
  jfilter p (jfilter q l) = jfilter (fun x => q x && p x) l.
Proof.
  induction l as [|x l IH]; simpl; [done|]. destruct (q x) eqn:Hq; simpl; [|done].
  destruct (p x); by rewrite IH.
Qed.

Lemma jfilter_ext {A} (p q : A -> bool) l : (forall x, p x = q x) -> jfilter p l = jfilter q l.
Proof. intros H. induction l as [|x l IH]; simpl; [done|]. by rewrite H, IH. Qed.

(** The models that are listed, before they are sorted. *)
Lemma filters_compose models f :
  filterByTag toLowerCase (filterByEndpointType (filterByQuotaType (filterByGroup (filterByVendor
    (filterBySearch toLowerCase models (search f)) (vendor f)) (group f)) (quotaType f))
    (endpointType f)) (tag f)
  = jfilter (fun m => bool_decide (listed f m)) models.
Proof.
  unfold filterByTag, filterByEndpointType, filterByQuotaType, filterByGroup, filterByVendor,
    filterBySearch, jeqb.
  rewrite !filter_off, !jfilter_jfilter. apply jfilter_ext. intros m.
  apply eq_true_iff_eq. rewrite bool_decide_eq_true. unfold listed.
  rewrite !andb_true_iff, !orb_true_iff, !bool_decide_eq_true, Z.eqb_eq.
  assert (negb (truthy (search f)) = true <-> search f = []) as -> by by destruct (search f).
  tauto.
Qed.

(** the price list shows exactly the models that pass every filter, each once per
    occurrence, in the order asked for when the comparator is consistent on them (as ECMAScript
    requires of a comparator), and in the order of the input when no order is asked for. *)
Theorem filter_sort_spec models f :
  let shown := filterAndSortModels toLowerCase localeCompare models f in
  let kept := jfilter (fun m => bool_decide (listed f m)) models in
  shown ≡ₚ kept /\
  match sort_order localeCompare (sortBy f) with
  | Some gt => consistent_list gt kept = true -> StronglySorted (fun a b => gt a b = false) shown
  | None => shown = kept
  end.
Proof.
  cbn zeta. unfold filterAndSortModels. rewrite filters_compose. unfold sortModels.
  destruct (sort_order localeCompare (sortBy f)) as [gt|]; [|done].
  split; [apply sort_by_perm|]. intros H.
  apply (sort_by_sorted_on gt (fun m => m ∈ jfilter (fun m => bool_decide (listed f m)) models)).
  - by apply consistent_list_on.
  - by apply Forall_forall.
Qed.

(** ** Tags *)

(** the tags that are offered are the lower-case tags of the models, each once and in the
    order of the collation, and choosing one shows the models that have it, of which there is at
    least one. *)
Theorem extract_tags_spec `{!LowerCase toLowerCase, !Collation localeCompare} models :
  let offered := extractAllTags toLowerCase localeCompare models in
  NoDup offered /\
  StronglySorted (fun a b => localeCompare a b <= 0) offered /\
  (forall t, t ∈ offered <-> exists m, m ∈ models /\ t ∈ lower_tags toLowerCase m) /\
  (forall t, t ∈ offered -> t <> FILTER_ALL ->
    filterByTag toLowerCase models t <> [] /\
    forall m, m ∈ filterByTag toLowerCase models t <-> m ∈ models /\ t ∈ lower_tags toLowerCase m).
Proof.
  cbn zeta. unfold extractAllTags.
  set (gt := fun a b => 0 <? localeCompare a b). set (found := flat_map _ models).
  assert (forall t, t ∈ found <-> exists m, m ∈ models /\ t ∈ lower_tags toLowerCase m) as Hf.
  { intros t. unfold found. rewrite list_elem_of_In, in_flat_map. by setoid_rewrite list_elem_of_In. }
  assert (forall t, t ∈ sort_by gt (dedup found) <->
                    exists m, m ∈ models /\ t ∈ lower_tags toLowerCase m) as Ho.
  { intros t. by rewrite sort_by_perm, elem_of_dedup, Hf. }
  split_and!.
  - rewrite sort_by_perm. apply NoDup_dedup.
  - assert (ConsistentCmp gt) as HC.
    { split; unfold gt_le, gt; intros *; rewrite ?Z.ltb_ge, ?Z.ltb_lt;
        [apply collate_trans|apply collate_total]. }
    eapply sorted_impl; [|exact (sort_by_sorted gt (dedup found))].
    intros x y. unfold gt_le, gt. lia.
  - done.
  - intros t (m & Hm & Ht)%Ho Hall. unfold filterByTag, jeqb.
    rewrite bool_decide_eq_false_2 by done. cbn zeta.
    assert (toLowerCase t = t) as Hl.
    { unfold lower_tags in Ht. apply list_elem_of_In, in_map_iff in Ht as (t' & <- & _).
      apply lower_idemp. }
    rewrite Hl.
    assert (forall m', m' ∈ jfilter (fun m => bool_decide (t ∈ lower_tags toLowerCase m)) models <->
      m' ∈ models /\ t ∈ lower_tags toLowerCase m') as Hk.
    { intros m'. rewrite jfilter_elem_of, bool_decide_eq_true. tauto. }
    split; [|done]. intros Hnil. by apply (not_elem_of_nil m); rewrite <- Hnil, Hk.
Qed.
End FilterFacts.

(** A model with nothing but a name, tags and a price. *)
Definition sample_model (name tag_text : string) (price : Z) : PricingModel :=
  {| model_name := Some (u name); description := None; vendor_name := None; quota_type := 0;
     model_ratio := num_of_Z price; completion_ratio := num_of_Z 1; model_price := None;
     cache_ratio := None; create_cache_ratio := None; image_ratio := None; audio_ratio := None;
     audio_completion_ratio := None; enable_groups := Some [u "default"]; tags := Some (u tag_text);
     supported_endpoint_types := None; group_ratio := None; billing_mode := None;
     billing_expr := None |}.

Definition sample_models : list PricingModel :=
  [sample_model "gpt" "Chat, vision" 3; sample_model "flux" "image" 2; sample_model "qwen" "chat" 1].

Lemma extract_tags_spec_witness :
  u "chat" ∈ extractAllTags latin_lower unit_compare sample_models /\
  (u "chat" ∈ extractAllTags latin_lower unit_compare sample_models -> u "chat" <> FILTER_ALL ->
   filterByTag latin_lower sample_models (u "chat") <> [] /\
   forall m, m ∈ filterByTag latin_lower sample_models (u "chat") <->
     m ∈ sample_models /\ u "chat" ∈ lower_tags latin_lower m).
Proof.
  split; [apply (bool_decide_unpack _); by vm_compute|].
  apply (extract_tags_spec latin_lower unit_compare sample_models).
Defined.

Example sorted_by_price :
  map model_name (filterAndSortModels latin_lower unit_compare sample_models
    {| search := []; vendor := FILTER_ALL; group := u "default"; quotaType := QT_TOKEN;
       endpointType := FILTER_ALL; tag := u "chat"; sortBy := SORT_PRICE_LOW |})
  = [Some (u "qwen"); Some (u "gpt")].
Proof. by vm_compute. Qed.

(** ** Ratios *)

Lemma min_ratio_fold ratios groups start :
  is_nan start = false ->
  let r := fold_left (min_ratio_step ratios) groups start in
  is_nan r = false /\ fle r start = true /\
  (r = start \/ exists g, g ∈ groups /\ obj_get g ratios = Some r) /\
  forall g x, g ∈ groups -> obj_get g ratios = Some x -> flt x r = false.
Proof.
  revert start. induction groups as [|g groups IH]; intros start Hs; cbn zeta; simpl.
  { split_and!; [done|by apply fle_refl|by left|]. intros g x Hg. by apply elem_of_nil in Hg. }
  set (m := min_ratio_step ratios start g).
  assert (is_nan m = false /\ fle m start = true /\ (m = start \/ obj_get g ratios = Some m) /\
          forall x, obj_get g ratios = Some x -> flt x m = false) as (Hm & Hle & Hc & Hx).
  { unfold m, min_ratio_step. destruct (obj_get g ratios) as [y|] eqn:Hg.
    - destruct (flt y start) eqn:Hlt; (split_and!; [|..|intros x [= <-]]);
        eauto using fle_refl, flt_fle, flt_irrefl. by apply flt_key in Hlt as (?&_).
    - split_and!; eauto using fle_refl. done. }
  destruct (IH m Hm) as (Hn & Hle' & Hr & Hall). cbn zeta in *.
  split_and!; [done|by eapply fle_trans| |].
  - destruct Hr as [->|(g' & Hg' & Hx')]; [|right; exists g'; split; [by right|done]].
    destruct Hc as [->|Hc]; [by left|]. right. exists g. split; [by left|done].
  - intros g' x [->|Hg']%elem_of_cons Hg; [|by eapply Hall].
    apply not_true_iff_false. intros Hlt. specialize (Hx x Hg).
    apply not_true_iff_false in Hx. apply Hx. apply flt_key. apply flt_key in Hlt as (H1 & H2 & H3).
    split_and!; [done..|]. apply fle_key in Hle' as (_ & _ & H4). revert H3 H4.
    destruct (fkey x) as [[??]?], (fkey m) as [[??]?], (fkey _) as [[??]?]. simpl. lia.
Qed.

Lemma feq_infinity x : is_nan x = false -> feq x infinity = true <-> x = infinity.
Proof. by destruct x as [[]|[]| |[] ??]. Qed.

Lemma below_infinity x : flt x infinity = false -> x = nan \/ x = infinity.
Proof. destruct x as [[]|[]| |[] ??]; simpl; auto; done. Qed.

(** C38: the ratio a price is shown with is the least ratio of the groups the model is enabled
    for, and one when none of them has a finite ratio; the price list of expressions computes the
    same ratio. *)
Theorem min_group_ratio_spec groups ratios :
  let r := getMinGroupRatio groups ratios in
  (forall g x, g ∈ groups -> obj_get g ratios = Some x -> flt x r = false) /\
  ((exists g, g ∈ groups /\ obj_get g ratios = Some r) \/
   (r = num_of_Z 1 /\
    forall g x, g ∈ groups -> obj_get g ratios = Some x -> x = nan \/ x = infinity)) /\
  (forall model, enable_groups model = Some groups -> group_ratio model = Some ratios ->
    getDynamicDisplayGroupRatio model = r).
Proof.
  cbn zeta. unfold getMinGroupRatio.
  split; [|split; [|intros model Hg Hr; unfold getDynamicDisplayGroupRatio; by rewrite Hg, Hr]].
  all: destruct groups as [|g0 groups];
    [try (right; split; [done|]); intros g x H; by apply elem_of_nil in H|].
  all: pose proof (min_ratio_fold ratios (g0 :: groups) infinity eq_refl) as (Hn & _ & Hr & Hall);
    set (r := fold_left _ _ infinity) in *.
  all: destruct (feq r infinity) eqn:He; [apply (feq_infinity r Hn) in He|].
  - intros g x Hg Hx. specialize (Hall g x Hg Hx). rewrite He in Hall.
    by destruct (below_infinity x Hall) as [-> | ->].
  - exact Hall.
  - right. split; [done|]. intros g x Hg Hx. specialize (Hall g x Hg Hx). rewrite He in Hall.
    by apply below_infinity.
  - left. destruct Hr as [Hr|Hr]; [|done]. by rewrite Hr in He.
Qed.

(** ** Entries of a billing expression *)

(** Sorting by a flag puts the flagged elements in front and keeps the order otherwise. *)
Lemma sort_by_flag {A} (flag : A -> bool) l :
  sort_by (fun a b => negb (flag a) && flag b) l
  = jfilter flag l ++ jfilter (fun x => negb (flag x)) l.
Proof.
  unfold sort_by. induction l as [|x l IH] using rev_ind; [done|].
  rewrite fold_left_app, IH, !jfilter_app. simpl. clear IH.
  assert (Forall (fun y => flag y = true) (jfilter flag l)) as Hp.
  { apply Forall_forall. intros y Hy. by apply jfilter_elem_of in Hy as [? _]. }
  assert (Forall (fun y => flag y = false) (jfilter (fun y => negb (flag y)) l)) as Hq.
  { apply Forall_forall. intros y Hy. apply jfilter_elem_of in Hy as [? _]. by apply negb_true_iff. }
  generalize dependent (jfilter flag l). generalize dependent (jfilter (fun y => negb (flag y)) l).
  intros q Hq p Hp. induction Hp as [|y p Hy _ IH]; simpl.
  - destruct (flag x) eqn:Hx; simpl; rewrite ?app_nil_r.
    + destruct Hq as [|z q Hz _]; [done|]. simpl. by rewrite Hz, Hx.
    + induction Hq as [|z q Hz _ IH]; [done|]. simpl. by rewrite Hz, Hx, IH.
  - by rewrite Hy, IH.
Qed.

Lemma flag_split {A} (flag : A -> bool) l :
  let s := sort_by (fun a b => negb (flag a) && flag b) l in
  s = jfilter flag s ++ jfilter (fun x => negb (flag x)) s.
Proof.
  cbn zeta. rewrite sort_by_flag, !jfilter_app, !jfilter_jfilter. f_equal.
  - rewrite (jfilter_ext (fun x => negb (flag x) && flag x) (fun _ => false)) by (intros x; by destruct (flag x)).
    rewrite (jfilter_ext (fun x => flag x && flag x) flag) by (intros x; by destruct (flag x)).
    replace (jfilter (fun _ => false) l) with (@nil A); [by rewrite app_nil_r|]. by induction l.
  - rewrite (jfilter_ext (fun x => flag x && negb (flag x)) (fun _ => false)) by (intros x; by destruct (flag x)).
    rewrite (jfilter_ext (fun x => negb (flag x) && negb (flag x)) (fun x => negb (flag x)))
      by (intros x; by destruct (flag x)).
    replace (jfilter (fun _ => false) l) with (@nil A); [done|]. by induction l.
Qed.

Lemma price_test x : negb (is_finite x) || fle x zero = false <-> is_finite x = true /\ flt zero x = true.
Proof. destruct x as [[]|[]| |[] ??]; simpl; naive_solver. Qed.

Section EntryFacts.
Context (currencyFormat : jstr -> nat -> num -> jstr) (decimalFormat : nat -> num -> jstr).
Context (state : option StoredCurrency).

(** The entries of a variable. *)
Lemma elem_of_price_entry t options v e :
  e ∈ price_entry currencyFormat decimalFormat state t options v <->
  exists f, field v = Some f /\ f <> [] /\ obj_get f (prices t) = Some (e_value e) /\
    is_finite (e_value e) = true /\ flt zero (e_value e) = true /\
    e = {| e_key := key v; e_field := f; e_label := label v; e_shortLabel := shortLabel v;
           e_value := e_value e;
           formatted := formatDynamicUnitPrice currencyFormat decimalFormat state (e_value e) options;
           variable := v |}.
Proof.
  unfold price_entry. destruct (field v) as [[|c f]|]; [set_solver..| |set_solver].
  destruct (negb _ || _) eqn:Ht.
  - split; [set_solver|]. intros (f' & [= <-] & _ & Hx & Hfin & Hpos & _). rewrite Hx in Ht.
    simpl in Ht. exfalso. assert (negb (is_finite (e_value e)) || fle (e_value e) zero = false); [|congruence].
    by apply price_test.
  - apply price_test in Ht as [Hfin Hpos]. rewrite list_elem_of_singleton. split.
    + intros ->. cbn [e_value]. exists (c :: f). split_and!; try done.
      by destruct (obj_get (c :: f) (prices t)).
    + intros (f' & [= <-] & _ & Hx & _ & _ & ->). by rewrite Hx.
Qed.

(** the summary of a model with a billing expression lists the positive prices of its first
    tier, input and output in front, each in the order of the billing variables; the primary and
    the secondary entries together are all entries. *)
Theorem summary_entries model options s :
  getDynamicPricingSummary currencyFormat decimalFormat state model options = Ret (Some s) ->
  entries s = primaryEntries s ++ secondaryEntries s /\
  (forall e, e ∈ entries s <-> exists t v f, head (tiers s) = Some t /\ v ∈ BILLING_PRICING_VARS /\
    field v = Some f /\ f <> [] /\ obj_get f (prices t) = Some (e_value e) /\
    is_finite (e_value e) = true /\ flt zero (e_value e) = true /\
    e = {| e_key := key v; e_field := f; e_label := label v; e_shortLabel := shortLabel v;
           e_value := e_value e;
           formatted := formatDynamicUnitPrice currencyFormat decimalFormat state (e_value e) options;
           variable := v |}).
Proof.
  unfold getDynamicPricingSummary. destruct (isDynamicPricingModel model); [|done]. cbn [negb].
  destruct (getDynamicPricingTiers model) as [ts|]; [|done]. cbn [obind].
  destruct (hasDynamicRequestRules model) as [b|]; [|done]. intros [= <-].
  cbn [entries primaryEntries secondaryEntries tiers]. unfold getDynamicPriceEntries.
  split; [destruct (head ts) as [t|]; [apply flag_split|done]|]. intros e.
  destruct (head ts) as [t|]; [|split; [intros H; by apply elem_of_nil in H|naive_solver]].
  rewrite sort_by_perm, list_elem_of_In, in_flat_map. setoid_rewrite <- list_elem_of_In.
  setoid_rewrite elem_of_price_entry. naive_solver.
Qed.
End EntryFacts.

Definition expr_model (expr : string) : PricingModel :=
  {| model_name := Some (u "m"); description := None; vendor_name := None; quota_type := 0;
     model_ratio := zero; completion_ratio := zero; model_price := None;
     cache_ratio := None; create_cache_ratio := None; image_ratio := None; audio_ratio := None;
     audio_completion_ratio := None; enable_groups := None; tags := None;
     supported_endpoint_types := None; group_ratio := None; billing_mode := Some (u "tiered_expr");
     billing_expr := Some (u expr) |}.

Definition plain_options : DynamicPriceOptions :=
  {| tokenUnit := UnitM; showRechargePrice := None; priceRate := None; exchange_rate := None;
     groupRatioMultiplier := None |}.

Definition plain_format (code : jstr) (digits : nat) (x : num) : jstr := code ++ num_to_string x.

(** A tier with the prices of [cr], [p] and [c], listed in the order [p], [c], [cr]. *)
Lemma summary_entries_witness :
  exists s,
    getDynamicPricingSummary plain_format (fun _ => num_to_string) None
      (expr_model "tier(`base`, cr * 1 + p * 2 + c * 4)") plain_options = Ret (Some s) /\
    map e_key (entries s) = [u "p"; u "c"; u "cr"] /\
    entries s = primaryEntries s ++ secondaryEntries s.
Proof.
  destruct (getDynamicPricingSummary plain_format (fun _ => num_to_string) None
              (expr_model "tier(`base`, cr * 1 + p * 2 + c * 4)") plain_options) as [[s|]|] eqn:Hs;
    [|exfalso; revert Hs; by vm_compute..].
  exists s. split; [done|]. split.
  - revert Hs. vm_compute. by intros [= <-].
  - exact (proj1 (summary_entries _ _ _ _ _ _ Hs)).
Defined.

(** ** Free groups *)

(** A group with ratio 0 is shown at the price of ratio 1 in the price of the group, while the
    list shows the model at ratio 0. *)
Lemma free_group_price currencyFormat decimalFormat state model g type unit recharge rate usd rest :
  formatGroupPrice currencyFormat decimalFormat state model g type unit recharge rate usd ((g, zero) :: rest)
  = formatGroupPrice currencyFormat decimalFormat state model g type unit recharge rate usd ((g, num_of_Z 1) :: rest) /\
  getMinGroupRatio [g] ((g, zero) :: rest) = zero.
Proof.
  unfold formatGroupPrice, getMinGroupRatio, ratio_or_one. cbn [fold_left min_ratio_step obj_get].
  unfold min_ratio_step. cbn [obj_get]. by rewrite jeqb_refl.
Qed.
