(* ===== verification/ParamOverride.v ===== *)
(** * Parameter overrides of a channel

    The rules of [web/default/src/features/channels/components/dialogs/param-override-editor-dialog.tsx]
    before any rendering: the operations the editor works on, what they are read from, their
    validation and the JSON text they are saved as; and the drafts of the forms for errors and
    for pruning.

    A fresh identifier is [po_<time>_<seed>]; the seed is a counter of the module, and the time
    of the call that uses seed [n] is [Date_now n].  A computation that takes identifiers passes
    the seed on, also when it ends with an exception. *)

From S2P Require Import Prelude JsString JsNumber Json.
Open Scope N_scope.

(** ** Data *)

Record ParamOverrideCondition := {
  c_id : jstr;
  c_path : jstr;
  c_mode : jstr;
  c_value_text : jstr;
  c_invert : bool;
  c_pass_missing_key : bool
}.

(** A rule of [prune_objects] has the fields of a condition. *)
Abbreviation PruneRule := ParamOverrideCondition.

Record ParamOverrideOperation := {
  o_id : jstr;
  o_description : jstr;
  o_path : jstr;
  o_mode : jstr;
  o_from : jstr;
  o_to : jstr;
  o_value_text : jstr;
  o_keep_origin : bool;
  o_logic : jstr;
  o_conditions : list ParamOverrideCondition
}.

Definition OPERATION_MODE_OPTIONS : list (jstr * jstr) :=
  [(u "Set Field", u "set"); (u "Delete Field", u "delete"); (u "Append to End", u "append");
   (u "Prepend to Start", u "prepend"); (u "Copy Field", u "copy"); (u "Move Field", u "move");
   (u "String Replace", u "replace"); (u "Regex Replace", u "regex_replace");
   (u "Trim Prefix", u "trim_prefix"); (u "Trim Suffix", u "trim_suffix");
   (u "Ensure Prefix", u "ensure_prefix"); (u "Ensure Suffix", u "ensure_suffix");
   (u "Trim Space", u "trim_space"); (u "To Lowercase", u "to_lower");
   (u "To Uppercase", u "to_upper"); (u "Return Custom Error", u "return_error");
   (u "Prune Object Items", u "prune_objects"); (u "Pass Through Headers", u "pass_headers");
   (u "Sync Fields", u "sync_fields"); (u "Set Request Header", u "set_header");
   (u "Delete Request Header", u "delete_header"); (u "Copy Request Header", u "copy_header");
   (u "Move Request Header", u "move_header")].

Definition OPERATION_MODE_VALUES : list jstr := map snd OPERATION_MODE_OPTIONS.

Definition CONDITION_MODE_OPTIONS : list (jstr * jstr) :=
  [(u "Exact Match", u "full"); (u "Prefix", u "prefix"); (u "Suffix", u "suffix");
   (u "Contains", u "contains"); (u "Greater Than", u "gt"); (u "Greater Than or Equal", u "gte");
   (u "Less Than", u "lt"); (u "Less Than or Equal", u "lte")].

Definition CONDITION_MODE_VALUES : list jstr := map snd CONDITION_MODE_OPTIONS.

(** A flag that is absent is [false]; [to: false] and no [to] differ only in what is rendered. *)
Record Meta := {
  m_path : bool;
  m_pathOptional : bool;
  m_value : bool;
  m_from : bool;
  m_to : bool;
  m_keepOrigin : bool;
  m_pathAlias : bool
}.

Definition set_meta : Meta :=
  {| m_path := true; m_pathOptional := false; m_value := true; m_from := false; m_to := false;
     m_keepOrigin := true; m_pathAlias := false |}.

Definition path_meta (value from : bool) : Meta :=
  {| m_path := true; m_pathOptional := false; m_value := value; m_from := from; m_to := false;
     m_keepOrigin := false; m_pathAlias := false |}.

Definition transfer_meta (header : bool) : Meta :=
  {| m_path := false; m_pathOptional := false; m_value := false; m_from := true; m_to := true;
     m_keepOrigin := header; m_pathAlias := header |}.

Definition value_meta (pathOptional keepOrigin : bool) : Meta :=
  {| m_path := false; m_pathOptional := pathOptional; m_value := true; m_from := false; m_to := false;
     m_keepOrigin := keepOrigin; m_pathAlias := false |}.

Definition MODE_META : list (jstr * Meta) :=
  [(u "delete", path_meta false false); (u "set", set_meta); (u "append", set_meta);
   (u "prepend", set_meta); (u "copy", transfer_meta false); (u "move", transfer_meta false);
   (u "replace", path_meta false true); (u "regex_replace", path_meta false true);
   (u "trim_prefix", path_meta true false); (u "trim_suffix", path_meta true false);
   (u "ensure_prefix", path_meta true false); (u "ensure_suffix", path_meta true false);
   (u "trim_space", path_meta false false); (u "to_lower", path_meta false false);
   (u "to_upper", path_meta false false); (u "return_error", value_meta false false);
   (u "prune_objects", value_meta true false); (u "pass_headers", value_meta false true);
   (u "sync_fields", transfer_meta false); (u "set_header", set_meta);
   (u "delete_header", path_meta false false); (u "copy_header", transfer_meta true);
   (u "move_header", transfer_meta true)].

Definition VALUE_REQUIRED_MODES : list jstr :=
  [u "trim_prefix"; u "trim_suffix"; u "ensure_prefix"; u "ensure_suffix"; u "set_header";
   u "return_error"; u "prune_objects"; u "pass_headers"].

Definition FROM_REQUIRED_MODES : list jstr :=
  [u "copy"; u "move"; u "replace"; u "regex_replace"; u "copy_header"; u "move_header"; u "sync_fields"].

Definition TO_REQUIRED_MODES : list jstr :=
  [u "copy"; u "move"; u "copy_header"; u "move_header"; u "sync_fields"].

(** [set.has(s)] *)
Definition has (s : jstr) (l : list jstr) : bool := existsb (jeqb s) l.

(** [MODE_META[mode] || MODE_META.set] *)
Definition meta_of (mode : jstr) : Meta := option_or (obj_get mode MODE_META) set_meta.

(** ** Values and their texts *)

Definition toValueText (value : option json) : jstr :=
  match value with
  | None => []
  | Some (JStr s) => s
  | Some j => stringify j
  end.

Definition parseLooseValue (valueText : jstr) : json :=
  let raw := trim valueText in
  match raw with
  | [] => JStr []
  | _ => match json_parse raw with Some j => j | None => JStr raw end
  end.

Definition verifyJSON (text : jstr) : bool :=
  match json_parse text with Some _ => true | None => false end.

Definition mode_field (values : list jstr) (default : jstr) (j : json) : jstr :=
  match field (u "mode") j with
  | Some (JStr s) => if has s values then s else default
  | _ => default
  end.

(** ** Computations that take identifiers *)

Definition M (A : Type) : Type := N -> option A * N.

Definition ret {A} (a : A) : M A := fun n => (Some a, n).
Definition throw {A} : M A := fun n => (None, n).
Definition bind {A B} (c : M A) (k : A -> M B) : M B :=
  fun n => match c n with (Some a, n') => k a n' | (None, n') => (None, n') end.

Notation "'let!' x := c 'in' k" := (bind c (fun x => k))
  (at level 10, x pattern, c at level 200, k at level 200).

(** [xs.map(f)], left to right. *)
Fixpoint mapM {A B} (f : A -> M B) (l : list A) : M (list B) :=
  match l with
  | [] => ret []
  | x :: t => let! y := f x in let! r := mapM f t in ret (y :: r)
  end.

Section Override.
Context (Date_now : N -> N) (toUpperCase toLowerCase : jstr -> jstr).
(** The translation of a message, with the number of the rule where it names one. *)
Context (t : jstr -> option N -> jstr).

Definition local_id (seed : N) : jstr :=
  u "po_" ++ string_of_N (Date_now seed) ++ u "_" ++ string_of_N seed.

Definition nextLocalId : M jstr := fun seed => (Some (local_id seed), seed + 1).

(** ** Conditions and operations *)

Definition normalizeCondition (condition : json) : M ParamOverrideCondition :=
  let! id := nextLocalId in
  match condition with
  | JNull => throw
  | _ => ret {| c_id := id; c_path := str_field (u "path") condition;
                c_mode := mode_field CONDITION_MODE_VALUES (u "full") condition;
                c_value_text := toValueText (field (u "value") condition);
                c_invert := true_field (u "invert") condition;
                c_pass_missing_key := true_field (u "pass_missing_key") condition |}
  end.

Definition createDefaultCondition : M ParamOverrideCondition := normalizeCondition (JObj []).

(** [String(operation.logic || 'OR').toUpperCase() === 'AND' ? 'AND' : 'OR'] *)
Definition logic_field (operation : json) : option jstr :=
  match to_str (option_or (truthy_field (field (u "logic") operation)) (JStr (u "OR"))) with
  | Some s => Some (if jeqb (toUpperCase s) (u "AND") then u "AND" else u "OR")
  | None => None
  end.

Definition conditions_field (operation : json) : M (list ParamOverrideCondition) :=
  match field (u "conditions") operation with
  | Some (JArr l) => mapM normalizeCondition l
  | _ => ret []
  end.

Definition normalizeOperation (operation : json) : M ParamOverrideOperation :=
  let! id := nextLocalId in
  match operation with
  | JNull => throw
  | _ =>
      match logic_field operation with
      | None => throw
      | Some logic =>
          let! conditions := conditions_field operation in
          ret {| o_id := id; o_description := str_field (u "description") operation;
                 o_path := str_field (u "path") operation;
                 o_mode := mode_field OPERATION_MODE_VALUES (u "set") operation;
                 o_from := str_field (u "from") operation; o_to := str_field (u "to") operation;
                 o_value_text := toValueText (field (u "value") operation);
                 o_keep_origin := true_field (u "keep_origin") operation;
                 o_logic := logic; o_conditions := conditions |}
      end
  end.

Definition createDefaultOperation : M ParamOverrideOperation :=
  normalizeOperation (JObj [(u "mode", JStr (u "set"))]).

Definition isOperationBlank (operation : ParamOverrideOperation) : bool :=
  let hasCondition := existsb (fun c =>
    truthy (trim (c_path c)) || truthy (trim (c_value_text c)) || negb (jeqb (c_mode c) (u "full"))
    || c_invert c || c_pass_missing_key c) (o_conditions operation) in
  jeqb (o_mode operation) (u "set") && negb (truthy (trim (o_path operation)))
  && negb (truthy (trim (o_from operation))) && negb (truthy (trim (o_to operation)))
  && negb (truthy (trim (o_value_text operation))) && negb (o_keep_origin operation)
  && negb hasCondition.

(** ** Order *)

Inductive drop_position := Before | After.

Fixpoint find_index {A} (f : A -> bool) (l : list A) : option nat :=
  match l with
  | [] => None
  | x :: r => if f x then Some O else option_map S (find_index f r)
  end.

(** [l.splice(i, 0, x)] *)
Definition insert_at {A} (i : nat) (x : A) (l : list A) : list A := take i l ++ x :: drop i l.

Definition reorderOperations (ops : list ParamOverrideOperation) (sourceId targetId : jstr)
    (position : drop_position) : list ParamOverrideOperation :=
  if negb (truthy sourceId) || negb (truthy targetId) || jeqb sourceId targetId then ops else
  match find_index (fun o => jeqb (o_id o) sourceId) ops with
  | None => ops
  | Some srcIdx =>
      match ops !! srcIdx with
      | None => ops
      | Some moved =>
          let next := take srcIdx ops ++ drop (S srcIdx) ops in
          match find_index (fun o => jeqb (o_id o) targetId) next with
          | None => ops
          | Some insertIdx =>
              insert_at (match position with After => S insertIdx | Before => insertIdx end) moved next
          end
      end
  end.

(** [label · path] in the list of rules. *)
Definition getOperationSummary (operation : ParamOverrideOperation) (index : nat) : jstr :=
  let mode := if truthy (o_mode operation) then o_mode operation else u "set" in
  let modeLabel := option_or (option_map fst (find (fun o => jeqb o.2 mode) OPERATION_MODE_OPTIONS)) mode in
  let or_else (a b : jstr) := if truthy a then a else b in
  let from := trim (o_from operation) in
  let to := trim (o_to operation) in
  let path := if jeqb mode (u "sync_fields") then [] else trim (o_path operation) in
  string_of_N (N.of_nat (index + 1)) ++ u ". " ++ modeLabel ++ u " · "
  ++ or_else path (or_else from (or_else to (u "-"))).

(** ** Sync endpoints *)

Definition parseSyncTargetSpec (spec : jstr) : jstr * jstr :=
  let raw := trim spec in
  if negb (truthy raw) then (u "json", []) else
  match index_of (u ":") raw with
  | None => (u "json", raw)
  | Some idx =>
      let prefix := toLowerCase (trim (take idx raw)) in
      let key := trim (drop (idx + 1) raw) in
      if jeqb prefix (u "header") then (u "header", key) else (u "json", key)
  end.

Definition buildSyncTargetSpec (type key : jstr) : jstr :=
  let normalizedType := if jeqb type (u "header") then u "header" else u "json" in
  let normalizedKey := trim key in
  if truthy normalizedKey then normalizedType ++ u ":" ++ normalizedKey else [].

(** ** The form of [return_error] *)

Record ReturnErrorDraft := {
  re_message : jstr;
  re_statusCode : num;
  re_code : jstr;
  re_type : jstr;
  re_skipRetry : bool;
  re_simpleMode : bool
}.

(** [Number.isInteger(v) && v >= 100 && v <= 599 ? v : 400] *)
Definition status_or_400 (v : num) : num :=
  if is_finite v && feq (f_floor v) v && fle (num_of_Z 100) v && fle v (num_of_Z 599)
  then v else num_of_Z 400.

(** [String(a || b || '').trim()], [None] for a [TypeError]. *)
Definition text_field (ks : list jstr) (j : json) : option jstr :=
  match first_some (fun k => truthy_field (field k j)) ks with
  | Some v => option_map trim (to_str v)
  | None => Some []
  end.

Definition simple_error (message : jstr) : ReturnErrorDraft :=
  {| re_message := message; re_statusCode := num_of_Z 400; re_code := []; re_type := [];
     re_skipRetry := true; re_simpleMode := true |}.

(** The draft of a JSON object, [None] when a conversion throws. *)
Definition error_of_object (parsed : json) : option ReturnErrorDraft :=
  let statusRaw := match field (u "status_code") parsed with
                   | Some v => Some v
                   | None => field (u "status") parsed
                   end in
  match to_num statusRaw, text_field [u "message"; u "msg"] parsed, text_field [u "code"] parsed,
        text_field [u "type"] parsed with
  | Some status, Some message, Some code, Some type =>
      Some {| re_message := message; re_statusCode := status_or_400 status; re_code := code;
              re_type := type; re_skipRetry := negb (false_field (u "skip_retry") parsed);
              re_simpleMode := false |}
  | _, _, _, _ => None
  end.

Definition parseReturnErrorDraft (valueText : jstr) : ReturnErrorDraft :=
  let raw := trim valueText in
  if negb (truthy raw) then simple_error [] else
  match json_parse raw with
  | Some (JObj f) => option_or (error_of_object (JObj f)) (simple_error raw)
  | _ => simple_error raw
  end.

Definition buildReturnErrorValueText (draft : ReturnErrorDraft) : jstr :=
  let message := trim (re_message draft) in
  if re_simpleMode draft then message else
  let code := trim (re_code draft) in
  let type := trim (re_type draft) in
  stringify (JObj
    ([(u "message", JStr message); (u "status_code", JNum (status_or_400 (re_statusCode draft)))]
     ++ (if truthy code then [(u "code", JStr code)] else [])
     ++ (if truthy type then [(u "type", JStr type)] else [])
     ++ (if re_skipRetry draft then [] else [(u "skip_retry", JBool false)]))).

(** ** The form of [prune_objects] *)

Record PruneObjectsDraft := {
  pd_simpleMode : bool;
  pd_typeText : jstr;
  pd_logic : jstr;
  pd_recursive : bool;
  pd_rules : list PruneRule
}.

Definition normalizePruneRule (rule : json) : M PruneRule := normalizeCondition rule.

Definition simple_prune (typeText : jstr) : PruneObjectsDraft :=
  {| pd_simpleMode := true; pd_typeText := typeText; pd_logic := u "AND"; pd_recursive := true;
     pd_rules := [] |}.

(** One rule per entry of an object of expected values. *)
Definition rules_of_entries (f : list (jstr * json)) : M (list PruneRule) :=
  mapM (fun kv => normalizePruneRule
    (JObj [(u "path", JStr kv.1); (u "mode", JStr (u "full")); (u "value", kv.2)])) (obj_order f).

Definition is_object (j : json) : bool := match j with JArr _ | JObj _ => true | _ => false end.

Definition prune_rules (parsed : json) : M (list PruneRule) :=
  let! a := match field (u "where") parsed with
            | Some (JObj f) => rules_of_entries f
            | _ => ret []
            end in
  let! b := match field (u "conditions") parsed with
            | Some (JArr l) => mapM normalizePruneRule (jfilter is_object l)
            | Some (JObj f) => rules_of_entries f
            | _ => ret []
            end in
  ret (a ++ b).

Definition is_defined (v : option json) : bool := match v with Some _ => true | None => false end.

(** [String(parsed.logic || 'AND').toUpperCase() === 'OR' ? 'OR' : 'AND'] *)
Definition prune_logic (logic : option json) : option jstr :=
  match to_str (option_or (truthy_field logic) (JStr (u "AND"))) with
  | Some s => Some (if jeqb (toUpperCase s) (u "OR") then u "OR" else u "AND")
  | None => None
  end.

(** [return raw] as the type when the text is no JSON or a conversion throws. *)
Definition parsePruneObjectsDraft (valueText : jstr) : M PruneObjectsDraft :=
  let raw := trim valueText in
  if negb (truthy raw) then ret (simple_prune []) else
  match json_parse raw with
  | None => ret (simple_prune raw)
  | Some (JStr s) => ret (simple_prune (trim s))
  | Some (JObj f) =>
      let parsed := JObj f in
      let! rules := prune_rules parsed in
      match (match field (u "type") parsed with Some v => option_map trim (to_str v) | None => Some [] end),
            prune_logic (field (u "logic") parsed) with
      | Some typeText, Some logic =>
          ret {| pd_simpleMode := negb (is_defined (field (u "logic") parsed)
                   || is_defined (field (u "recursive") parsed) || is_defined (field (u "where") parsed)
                   || is_defined (field (u "conditions") parsed));
                 pd_typeText := typeText; pd_logic := logic;
                 pd_recursive := negb (false_field (u "recursive") parsed); pd_rules := rules |}
      | _, _ => ret (simple_prune raw)
      end
  | Some JNull => ret (simple_prune [])
  | Some j => ret (simple_prune (match to_str j with Some s => trim s | None => raw end))
  end.

Definition rule_payload (rule : PruneRule) : json :=
  let valueRaw := trim (c_value_text rule) in
  JObj ([(u "path", JStr (trim (c_path rule)));
         (u "mode", JStr (if has (c_mode rule) CONDITION_MODE_VALUES then c_mode rule else u "full"))]
        ++ (if truthy valueRaw then [(u "value", parseLooseValue valueRaw)] else [])
        ++ (if c_invert rule then [(u "invert", JBool true)] else [])
        ++ (if c_pass_missing_key rule then [(u "pass_missing_key", JBool true)] else [])).

Definition buildPruneObjectsValueText (draft : PruneObjectsDraft) : jstr :=
  let typeText := trim (pd_typeText draft) in
  if pd_simpleMode draft then typeText else
  let logic := if truthy (pd_logic draft) then pd_logic draft else u "AND" in
  let conditions := map rule_payload (jfilter (fun r => truthy (trim (c_path r))) (pd_rules draft)) in
  if negb (truthy typeText) && match conditions with [] => true | _ => false end
  then stringify (JObj [(u "logic", JStr (u "AND"))])
  else stringify (JObj
    ((if truthy typeText then [(u "type", JStr typeText)] else [])
     ++ (if jeqb (toUpperCase logic) (u "OR") then [(u "logic", JStr (u "OR"))] else [])
     ++ (if pd_recursive draft then [] else [(u "recursive", JBool false)])
     ++ match conditions with [] => [] | _ => [(u "conditions", JArr conditions)] end)).

(** ** Headers *)

(** [xs.map((i) => String(i ?? '').trim()).filter(Boolean)], [None] for a [TypeError]. *)
Fixpoint header_names (l : list json) : option (list jstr) :=
  match l with
  | [] => Some []
  | i :: r =>
      match (match i with JNull => Some [] | _ => to_str i end), header_names r with
      | Some s, Some names => Some (if truthy (trim s) then trim s :: names else names)
      | _, _ => None
      end
  end.

Definition parsePassHeaderNames (rawValue : json) : option (list jstr) :=
  match rawValue with
  | JArr l => header_names l
  | JObj f =>
      match obj_get (u "headers") f with
      | Some (JArr l) => header_names l
      | _ => match obj_get (u "header") f with Some j => header_names [j] | None => Some [] end
      end
  | JStr s => Some (split_trim 44 s)
  | _ => Some []
  end.

(** ** Validation *)

(** The checks of [prune_objects] and [pass_headers] for an empty text come after the same check
    of the modes that need a value, and are left out.

    The outcome of a check: no error, a message, or an exception of a conversion. *)
Inductive check := Valid | Invalid (message : jstr) | Thrown.

(** [return_error] of a JSON object needs a message. *)
Definition error_message_missing (raw : jstr) : bool :=
  match json_parse raw with
  | Some (JObj f) =>
      match text_field [u "message"] (JObj f) with Some m => negb (truthy m) | None => false end
  | _ => false
  end.

Definition validate_op (op : ParamOverrideOperation) (line : N) : check :=
  let mode := if truthy (o_mode op) then o_mode op else u "set" in
  let meta := meta_of mode in
  let pathValue := trim (o_path op) in
  let raw := trim (o_value_text op) in
  let aliased := m_pathAlias meta && truthy pathValue in
  if m_path meta && negb (truthy pathValue)
  then Invalid (t (u "Rule {{line}} is missing target path") (Some line))
  else if has mode FROM_REQUIRED_MODES && negb (truthy (trim (o_from op))) && negb aliased
  then Invalid (t (u "Rule {{line}} is missing source field") (Some line))
  else if has mode TO_REQUIRED_MODES && negb (truthy (trim (o_to op))) && negb aliased
  then Invalid (t (u "Rule {{line}} is missing target field") (Some line))
  else if has mode VALUE_REQUIRED_MODES && negb (truthy raw)
  then Invalid (t (u "Rule {{line}} is missing value") (Some line))
  else if jeqb mode (u "return_error") && error_message_missing raw
  then Invalid (t (u "Rule {{line}} return_error requires a message field") (Some line))
  else if jeqb mode (u "pass_headers") then
    match parsePassHeaderNames (parseLooseValue raw) with
    | None => Thrown
    | Some [] => Invalid (t (u "Rule {{line}} pass_headers format is invalid") (Some line))
    | Some _ => Valid
    end
  else Valid.

Fixpoint validate_from (line : N) (operations : list ParamOverrideOperation) : check :=
  match operations with
  | [] => Valid
  | op :: r => match validate_op op line with Valid => validate_from (line + 1) r | c => c end
  end.

Definition validateOperations (operations : list ParamOverrideOperation) : check :=
  validate_from 1 operations.

(** ** The saved text *)

Definition buildConditionPayload (condition : ParamOverrideCondition) : option json :=
  let path := trim (c_path condition) in
  if negb (truthy path) then None else
  Some (JObj ([(u "path", JStr path);
               (u "mode", JStr (if truthy (c_mode condition) then c_mode condition else u "full"));
               (u "value", parseLooseValue (c_value_text condition))]
              ++ (if c_invert condition then [(u "invert", JBool true)] else [])
              ++ (if c_pass_missing_key condition then [(u "pass_missing_key", JBool true)] else []))).

(** [if (b) payload.k = v] *)
Definition put_if (b : bool) (k : jstr) (v : json) (payload : list (jstr * json)) : list (jstr * json) :=
  if b then obj_set k v payload else payload.

(** [!payload.k], for a field that is absent or a text. *)
Definition empty_field (k : jstr) (payload : list (jstr * json)) : bool :=
  match obj_get k payload with Some j => negb (json_truthy j) | None => true end.

Definition operation_payload (operation : ParamOverrideOperation) : json :=
  let mode := if truthy (o_mode operation) then o_mode operation else u "set" in
  let meta := meta_of mode in
  let description := trim (o_description operation) in
  let path := trim (o_path operation) in
  let from := trim (o_from operation) in
  let to := trim (o_to operation) in
  let conditions := omap buildConditionPayload (o_conditions operation) in
  let p := [(u "mode", JStr mode)] in
  let p := put_if (truthy description) (u "description") (JStr description) p in
  let p := put_if (m_path meta) (u "path") (JStr path) p in
  let p := put_if (m_pathOptional meta && truthy path) (u "path") (JStr path) p in
  let p := put_if (m_value meta) (u "value") (parseLooseValue (o_value_text operation)) p in
  let p := put_if (m_keepOrigin meta && o_keep_origin operation) (u "keep_origin") (JBool true) p in
  let p := put_if (m_from meta) (u "from") (JStr from) p in
  let p := put_if (negb (m_to meta) && truthy to) (u "to") (JStr to) p in
  let p := put_if (m_to meta) (u "to") (JStr to) p in
  let p := put_if (m_pathAlias meta && empty_field (u "from") p && truthy path) (u "from") (JStr path) p in
  let p := put_if (m_pathAlias meta && empty_field (u "to") p && truthy path) (u "to") (JStr path) p in
  match conditions with
  | [] => JObj p
  | _ => JObj (obj_set (u "logic") (JStr (if jeqb (o_logic operation) (u "AND") then u "AND" else u "OR"))
                 (obj_set (u "conditions") (JArr conditions) p))
  end.

(** A text, or the message of an exception. *)
Definition built := (jstr + jstr)%type.

Definition operations_json (ops : list ParamOverrideOperation) : json :=
  JObj [(u "operations", JArr (map operation_payload ops))].

(** The message of a [TypeError] is left open. *)
Definition buildOperationsJson (type_error : jstr) (sourceOperations : list ParamOverrideOperation)
    (validate : bool) : built :=
  let filteredOps := jfilter (fun o => negb (isOperationBlank o)) sourceOperations in
  match filteredOps with
  | [] => inl []
  | _ =>
      match (if validate then validateOperations filteredOps else Valid) with
      | Invalid ((_ :: _) as message) => inr message
      | Thrown => inr type_error
      | _ => inl (stringify_indent (operations_json filteredOps))
      end
  end.

(** ** The initial state *)

Inductive edit_mode := EditVisual | EditJson.
Inductive visual_mode := VisualOperations | VisualLegacy.

Record EditorState := {
  es_editMode : edit_mode;
  es_visualMode : visual_mode;
  es_legacyValue : jstr;
  es_operations : list ParamOverrideOperation;
  es_jsonText : jstr;
  es_jsonError : jstr
}.

(** The operations of a JSON value, or a default one. *)
Definition read_operations (l : list json) : M (list ParamOverrideOperation) :=
  match l with
  | [] => let! o := createDefaultOperation in ret [o]
  | _ => mapM normalizeOperation l
  end.

Definition parseInitialState (text : jstr) : M EditorState :=
  let trimmed := trim text in
  let with_default em vm legacy json err :=
    let! o := createDefaultOperation in
    ret {| es_editMode := em; es_visualMode := vm; es_legacyValue := legacy; es_operations := [o];
           es_jsonText := json; es_jsonError := err |} in
  if negb (truthy trimmed) then with_default EditVisual VisualOperations [] [] [] else
  match json_parse trimmed with
  | None => with_default EditJson VisualOperations [] text (u "Invalid JSON format")
  | Some parsed =>
      let pretty_text := stringify_indent parsed in
      match parsed, field (u "operations") parsed with
      | JObj _, Some (JArr l) =>
          let! ops := read_operations l in
          ret {| es_editMode := EditVisual; es_visualMode := VisualOperations; es_legacyValue := [];
                 es_operations := ops; es_jsonText := pretty_text; es_jsonError := [] |}
      | JObj _, _ => with_default EditVisual VisualLegacy pretty_text pretty_text []
      | _, _ => with_default EditJson VisualOperations [] pretty_text []
      end
  end.

End Override.
