(* ===== verification/OverrideEditor.v ===== *)
(** * The editor of parameter overrides

    The component [ParamOverrideEditorDialog] of [param-override-editor-dialog.tsx] as a state
    machine: its state, one function per callback, and the steps of an open dialog.  After every
    callback the effect that keeps the selected rule valid runs ([settle]).

    A patch of a rule, a condition or a draft changes the fields its form offers, never the
    identifier; a mode or a logic comes from the options of its select. *)

From stdpp Require Import relations.
From S2P Require Import Prelude JsString JsNumber Json ParamOverride.
Open Scope N_scope.

(** ** Templates *)

Definition js (s : string) : json := JStr (u s).

Definition LEGACY_TEMPLATE : json := JObj [(u "temperature", JNum zero); (u "max_tokens", JNum (num_of_Z 1000))].

Definition OPERATION_TEMPLATE : json :=
  JObj [(u "operations", JArr [JObj
    [(u "description", js "Set default temperature for openai/* models.");
     (u "path", js "temperature"); (u "mode", js "set"); (u "value", JNum (to_number (u "0.7")));
     (u "conditions", JArr [JObj [(u "path", js "model"); (u "mode", js "prefix"); (u "value", js "openai/")]]);
     (u "logic", js "AND")]])].

Definition HEADER_PASSTHROUGH_TEMPLATE : json :=
  JObj [(u "operations", JArr [JObj
    [(u "description", js "Pass through X-Request-Id header to upstream.");
     (u "mode", js "pass_headers"); (u "value", JArr [js "X-Request-Id"]); (u "keep_origin", JBool true)]])].

Definition GEMINI_IMAGE_4K_TEMPLATE : json :=
  JObj [(u "operations", JArr [JObj
    [(u "description", js "Set imageSize to 4K when model contains gemini/image and ends with 4k.");
     (u "mode", js "set"); (u "path", js "generationConfig.imageConfig.imageSize"); (u "value", js "4K");
     (u "conditions", JArr
       [JObj [(u "path", js "original_model"); (u "mode", js "contains"); (u "value", js "gemini")];
        JObj [(u "path", js "original_model"); (u "mode", js "contains"); (u "value", js "image")];
        JObj [(u "path", js "original_model"); (u "mode", js "suffix"); (u "value", js "4k")]]);
     (u "logic", js "AND")]])].

Definition CODEX_CLI_HEADER_PASSTHROUGH_HEADERS : list jstr :=
  [u "Originator"; u "Session_id"; u "User-Agent"; u "X-Codex-Beta-Features"; u "X-Codex-Turn-Metadata"].

Definition CLAUDE_CLI_HEADER_PASSTHROUGH_HEADERS : list jstr :=
  [u "X-Stainless-Arch"; u "X-Stainless-Lang"; u "X-Stainless-Os"; u "X-Stainless-Package-Version";
   u "X-Stainless-Retry-Count"; u "X-Stainless-Runtime"; u "X-Stainless-Runtime-Version";
   u "X-Stainless-Timeout"; u "User-Agent"; u "X-App"; u "Anthropic-Beta";
   u "Anthropic-Dangerous-Direct-Browser-Access"; u "Anthropic-Version"].

Definition buildPassHeadersTemplate (headers : list jstr) : json :=
  JObj [(u "operations", JArr [JObj
    [(u "mode", js "pass_headers"); (u "value", JArr (map JStr headers)); (u "keep_origin", JBool true)]])].

(** The tokens of the [anthropic-beta] header: [None] drops a token. *)
Definition BEDROCK_TOKENS : list (jstr * option jstr) :=
  [(u "advanced-tool-use-2025-11-20", Some (u "tool-search-tool-2025-10-19"));
   (u "bash_20241022", None); (u "bash_20250124", None); (u "code-execution-2025-08-25", None);
   (u "compact-2026-01-12", Some (u "compact-2026-01-12"));
   (u "computer-use-2025-01-24", Some (u "computer-use-2025-01-24"));
   (u "computer-use-2025-11-24", Some (u "computer-use-2025-11-24"));
   (u "context-1m-2025-08-07", Some (u "context-1m-2025-08-07"));
   (u "context-management-2025-06-27", Some (u "context-management-2025-06-27"));
   (u "effort-2025-11-24", None); (u "fast-mode-2026-02-01", None); (u "files-api-2025-04-14", None);
   (u "fine-grained-tool-streaming-2025-05-14", None);
   (u "interleaved-thinking-2025-05-14", Some (u "interleaved-thinking-2025-05-14"));
   (u "mcp-client-2025-11-20", None); (u "mcp-client-2025-04-04", None);
   (u "mcp-servers-2025-12-04", None); (u "output-128k-2025-02-19", None);
   (u "structured-output-2024-03-01", None); (u "prompt-caching-scope-2026-01-05", None);
   (u "skills-2025-10-02", None); (u "structured-outputs-2025-11-13", None);
   (u "text_editor_20241022", None); (u "text_editor_20250124", None);
   (u "token-efficient-tools-2025-02-19", None);
   (u "tool-search-tool-2025-10-19", Some (u "tool-search-tool-2025-10-19"));
   (u "web-fetch-2025-09-10", None); (u "web-search-2025-03-05", None); (u "oauth-2025-04-20", None)].

Definition AWS_BEDROCK_ANTHROPIC_COMPAT_TEMPLATE : json :=
  JObj [(u "operations", JArr
    [JObj [(u "description", js "Normalize anthropic-beta header tokens for Bedrock compatibility.");
           (u "mode", js "set_header"); (u "path", js "anthropic-beta");
           (u "value", JObj (map (fun kv => (kv.1, match kv.2 with Some s => JStr s | None => JNull end))
                               BEDROCK_TOKENS))];
     JObj [(u "description", js "Remove all tools[*].custom.input_examples before upstream relay.");
           (u "mode", js "delete"); (u "path", js "tools.*.custom.input_examples")]])].

Inductive preset_kind := PresetOperations | PresetLegacy.

Definition TEMPLATE_PRESET_CONFIG : list (jstr * (preset_kind * json)) :=
  [(u "operations_default", (PresetOperations, OPERATION_TEMPLATE));
   (u "legacy_default", (PresetLegacy, LEGACY_TEMPLATE));
   (u "pass_headers_auth", (PresetOperations, HEADER_PASSTHROUGH_TEMPLATE));
   (u "gemini_image_4k", (PresetOperations, GEMINI_IMAGE_4K_TEMPLATE));
   (u "claude_cli_headers_passthrough",
     (PresetOperations, buildPassHeadersTemplate CLAUDE_CLI_HEADER_PASSTHROUGH_HEADERS));
   (u "codex_cli_headers_passthrough",
     (PresetOperations, buildPassHeadersTemplate CODEX_CLI_HEADER_PASSTHROUGH_HEADERS));
   (u "aws_bedrock_anthropic_beta_override", (PresetOperations, AWS_BEDROCK_ANTHROPIC_COMPAT_TEMPLATE))].

(** ** State *)

(** The state of a drag. *)
Record DragState := {
  draggedOperationId : jstr;
  dragOverOperationId : jstr;
  dragOverPosition : drop_position
}.

(** [core] has the six states that are read from the edited value. *)
Record Editor := {
  core : EditorState;
  operationSearch : jstr;
  selectedOperationId : jstr;
  expandedConditions : list (jstr * bool);
  drag : DragState;
  templatePresetKey : jstr
}.

Definition operations (ed : Editor) : list ParamOverrideOperation := es_operations (core ed).

Definition no_drag : DragState :=
  {| draggedOperationId := []; dragOverOperationId := []; dragOverPosition := Before |}.

Definition set_core (c : EditorState) (ed : Editor) : Editor :=
  {| core := c; operationSearch := operationSearch ed; selectedOperationId := selectedOperationId ed;
     expandedConditions := expandedConditions ed; drag := drag ed; templatePresetKey := templatePresetKey ed |}.

Definition setSelectedOperationId (id : jstr) (ed : Editor) : Editor :=
  {| core := core ed; operationSearch := operationSearch ed; selectedOperationId := id;
     expandedConditions := expandedConditions ed; drag := drag ed; templatePresetKey := templatePresetKey ed |}.

Definition setExpandedConditions (e : list (jstr * bool)) (ed : Editor) : Editor :=
  {| core := core ed; operationSearch := operationSearch ed; selectedOperationId := selectedOperationId ed;
     expandedConditions := e; drag := drag ed; templatePresetKey := templatePresetKey ed |}.

Definition set_drag (d : DragState) (ed : Editor) : Editor :=
  {| core := core ed; operationSearch := operationSearch ed; selectedOperationId := selectedOperationId ed;
     expandedConditions := expandedConditions ed; drag := d; templatePresetKey := templatePresetKey ed |}.

Definition setTemplatePresetKey (k : jstr) (ed : Editor) : Editor :=
  {| core := core ed; operationSearch := operationSearch ed; selectedOperationId := selectedOperationId ed;
     expandedConditions := expandedConditions ed; drag := drag ed; templatePresetKey := k |}.

Definition setOperationSearch (s : jstr) (ed : Editor) : Editor :=
  {| core := core ed; operationSearch := s; selectedOperationId := selectedOperationId ed;
     expandedConditions := expandedConditions ed; drag := drag ed; templatePresetKey := templatePresetKey ed |}.

Definition core_of em vm legacy ops text err : EditorState :=
  {| es_editMode := em; es_visualMode := vm; es_legacyValue := legacy; es_operations := ops;
     es_jsonText := text; es_jsonError := err |}.

Definition setOperations (ops : list ParamOverrideOperation) (ed : Editor) : Editor :=
  let c := core ed in
  set_core (core_of (es_editMode c) (es_visualMode c) (es_legacyValue c) ops (es_jsonText c) (es_jsonError c)) ed.

Definition setJson (text err : jstr) (ed : Editor) : Editor :=
  let c := core ed in
  set_core (core_of (es_editMode c) (es_visualMode c) (es_legacyValue c) (es_operations c) text err) ed.

Definition setLegacyValue (v : jstr) (ed : Editor) : Editor :=
  let c := core ed in
  set_core (core_of (es_editMode c) (es_visualMode c) v (es_operations c) (es_jsonText c) (es_jsonError c)) ed.

(** [operations\[0\]?.id || ''] *)
Definition first_id (ops : list ParamOverrideOperation) : jstr :=
  match ops with o :: _ => o_id o | [] => [] end.

(** The effect that keeps the selection valid. *)
Definition settle (ed : Editor) : Editor :=
  match operations ed with
  | [] => setSelectedOperationId [] ed
  | o :: _ =>
      if existsb (fun o => jeqb (o_id o) (selectedOperationId ed)) (operations ed) then ed
      else setSelectedOperationId (o_id o) ed
  end.

(** ** Patches *)

Inductive op_patch :=
| PatchMode (mode : jstr)
| PatchPath (path : jstr)
| PatchDescription (description : jstr)
| PatchValue (value_text : jstr)
| PatchKeepOrigin (b : bool)
| PatchFrom (from : jstr)
| PatchTo (to : jstr)
| PatchFromTo (from to : jstr)
| PatchLogic (logic : jstr).

Definition patch_op (p : op_patch) (o : ParamOverrideOperation) : ParamOverrideOperation :=
  {| o_id := o_id o;
     o_description := match p with PatchDescription d => d | _ => o_description o end;
     o_path := match p with PatchPath s => s | _ => o_path o end;
     o_mode := match p with PatchMode m => m | _ => o_mode o end;
     o_from := match p with PatchFrom s | PatchFromTo s _ => s | _ => o_from o end;
     o_to := match p with PatchTo s | PatchFromTo _ s => s | _ => o_to o end;
     o_value_text := match p with PatchValue s => s | _ => o_value_text o end;
     o_keep_origin := match p with PatchKeepOrigin b => b | _ => o_keep_origin o end;
     o_logic := match p with PatchLogic l => l | _ => o_logic o end;
     o_conditions := o_conditions o |}.

Inductive cond_patch :=
| CondPath (path : jstr)
| CondMode (mode : jstr)
| CondValue (value_text : jstr)
| CondInvert (b : bool)
| CondPassMissing (b : bool).

Definition patch_cond (p : cond_patch) (c : ParamOverrideCondition) : ParamOverrideCondition :=
  {| c_id := c_id c;
     c_path := match p with CondPath s => s | _ => c_path c end;
     c_mode := match p with CondMode m => m | _ => c_mode c end;
     c_value_text := match p with CondValue s => s | _ => c_value_text c end;
     c_invert := match p with CondInvert b => b | _ => c_invert c end;
     c_pass_missing_key := match p with CondPassMissing b => b | _ => c_pass_missing_key c end |}.

(** [{ ...o, conditions }] *)
Definition with_conditions (cs : list ParamOverrideCondition) (o : ParamOverrideOperation) : ParamOverrideOperation :=
  {| o_id := o_id o; o_description := o_description o; o_path := o_path o; o_mode := o_mode o;
     o_from := o_from o; o_to := o_to o; o_value_text := o_value_text o; o_keep_origin := o_keep_origin o;
     o_logic := o_logic o; o_conditions := cs |}.

(** [prev.map((o) => (o.id === id ? f(o) : o))] *)
Definition update_at (id : jstr) (f : ParamOverrideOperation -> ParamOverrideOperation)
    (ops : list ParamOverrideOperation) : list ParamOverrideOperation :=
  map (fun o => if jeqb (o_id o) id then f o else o) ops.

(** The same where [f] takes identifiers. *)
Definition update_atM (id : jstr) (f : ParamOverrideOperation -> M ParamOverrideOperation)
    (ops : list ParamOverrideOperation) : M (list ParamOverrideOperation) :=
  mapM (fun o => if jeqb (o_id o) id then f o else ret o) ops.

Section Editor.
Context (Date_now : N -> N) (toUpperCase toLowerCase : jstr -> jstr).
Context (t : jstr -> option N -> jstr) (type_error : jstr).

(** ** Opening *)

Definition initialize (value : jstr) : M Editor :=
  let! state := parseInitialState Date_now toUpperCase value in
  ret {| core := state; operationSearch := []; selectedOperationId := first_id (es_operations state);
         expandedConditions := []; drag := no_drag;
         templatePresetKey := match es_visualMode state with
                              | VisualLegacy => u "legacy_default"
                              | VisualOperations => u "operations_default"
                              end |}.

(** ** What is shown *)

Definition operationCount (ed : Editor) : nat :=
  length (jfilter (fun o => negb (isOperationBlank o)) (operations ed)).

Definition filteredOperations (ed : Editor) : list ParamOverrideOperation :=
  let keyword := toLowerCase (trim (operationSearch ed)) in
  if negb (truthy keyword) then operations ed else
  jfilter (fun op =>
    includes keyword (toLowerCase (join (u " ") (jfilter truthy
      [o_description op; o_mode op; o_path op; o_from op; o_to op; o_value_text op])))) (operations ed).

Definition selectedOperation (ed : Editor) : option ParamOverrideOperation :=
  find (fun o => jeqb (o_id o) (selectedOperationId ed)) (operations ed).

(** The drafts that the forms of the selected rule show. *)
Definition returnErrorDraft (ed : Editor) : option ReturnErrorDraft :=
  match selectedOperation ed with
  | Some o => if jeqb (o_mode o) (u "return_error") then Some (parseReturnErrorDraft (o_value_text o)) else None
  | None => None
  end.

Definition pruneObjectsDraft (ed : Editor) : M (option PruneObjectsDraft) :=
  match selectedOperation ed with
  | Some o =>
      if jeqb (o_mode o) (u "prune_objects")
      then let! draft := parsePruneObjectsDraft Date_now toUpperCase (o_value_text o) in ret (Some draft)
      else ret None
  | None => ret None
  end.

(** Rendering builds the argument of [useState] for the rules anew, and reads the draft of
    [prune_objects] again unless it is still remembered ([memo]). *)
Definition render (memo : bool) (ed : Editor) : M (option PruneObjectsDraft) :=
  let! _ := createDefaultOperation Date_now toUpperCase in
  if memo then ret None else pruneObjectsDraft ed.

(** The four most frequent modes; no mode is an array index, so the entries come in the order
    of first occurrence before the stable sort. *)
Definition count_modes (ops : list ParamOverrideOperation) : list (jstr * nat) :=
  fold_left (fun counts op =>
    let mode := if truthy (o_mode op) then o_mode op else u "set" in
    obj_set mode (S (option_or (obj_get mode counts) O)) counts) ops [].

Definition topOperationModes (ed : Editor) : list (jstr * nat) :=
  take 4 (sort_by (fun a b => (a.2 <? b.2)%nat) (obj_order (count_modes (operations ed)))).

(** ** Rules *)

Definition updateOperation (id : jstr) (p : op_patch) (ed : Editor) : Editor :=
  setOperations (update_at id (patch_op p) (operations ed)) ed.

Definition addOperation (ed : Editor) : M Editor :=
  let! created := createDefaultOperation Date_now toUpperCase in
  ret (setSelectedOperationId (o_id created) (setOperations (operations ed ++ [created]) ed)).

(** The values that [duplicateOperation] hands to [normalizeOperation]. *)
Definition condition_source (c : ParamOverrideCondition) : json :=
  JObj [(u "path", JStr (c_path c)); (u "mode", JStr (c_mode c));
        (u "value", parseLooseValue (c_value_text c)); (u "invert", JBool (c_invert c));
        (u "pass_missing_key", JBool (c_pass_missing_key c))].

Definition operation_source (o : ParamOverrideOperation) : json :=
  JObj [(u "description", JStr (o_description o)); (u "path", JStr (o_path o)); (u "mode", JStr (o_mode o));
        (u "value", parseLooseValue (o_value_text o)); (u "keep_origin", JBool (o_keep_origin o));
        (u "from", JStr (o_from o)); (u "to", JStr (o_to o)); (u "logic", JStr (o_logic o));
        (u "conditions", JArr (map condition_source (o_conditions o)))].

(** The identifier of the copy is known to the callback only when React runs the updater at
    once ([eager]). *)
Definition duplicateOperation (eager : bool) (id : jstr) (ed : Editor) : M Editor :=
  match find_index (fun o => jeqb (o_id o) id) (operations ed) with
  | None => ret ed
  | Some idx =>
      match operations ed !! idx with
      | None => ret ed
      | Some source =>
          let! cloned := normalizeOperation Date_now toUpperCase (operation_source source) in
          let ed' := setOperations (insert_at (S idx) cloned (operations ed)) ed in
          ret (if eager then setSelectedOperationId (o_id cloned) ed' else ed')
      end
  end.

Definition removeOperation (id : jstr) (ed : Editor) : M Editor :=
  if (length (operations ed) <=? 1)%nat then
    let! created := createDefaultOperation Date_now toUpperCase in ret (setOperations [created] ed)
  else ret (setOperations (jfilter (fun o => negb (jeqb (o_id o) id)) (operations ed)) ed).

(** ** Conditions *)

Definition addCondition (id : jstr) (ed : Editor) : M Editor :=
  let! created := createDefaultCondition Date_now in
  ret (setExpandedConditions (obj_set (c_id created) true (expandedConditions ed))
         (setOperations (update_at id (fun o => with_conditions (o_conditions o ++ [created]) o)
                           (operations ed)) ed)).

Definition updateCondition (id cid : jstr) (p : cond_patch) (ed : Editor) : Editor :=
  setOperations (update_at id (fun o =>
    with_conditions (map (fun c => if jeqb (c_id c) cid then patch_cond p c else c) (o_conditions o)) o)
    (operations ed)) ed.

Definition removeCondition (id cid : jstr) (ed : Editor) : Editor :=
  setOperations (update_at id (fun o =>
    with_conditions (jfilter (fun c => negb (jeqb (c_id c) cid)) (o_conditions o)) o) (operations ed)) ed.

(** [setExpandedConditions] to [b] for every condition of the selected rule. *)
Definition expand_all (b : bool) (ed : Editor) : Editor :=
  match selectedOperation ed with
  | None => ed
  | Some o => setExpandedConditions
                (fold_left (fun e c => obj_set (c_id c) b e) (o_conditions o) (expandedConditions ed)) ed
  end.

(** ** Drafts *)

Definition updateReturnErrorDraft (id : jstr) (f : ReturnErrorDraft -> ReturnErrorDraft) (ed : Editor) : Editor :=
  setOperations (update_at id (fun o =>
    patch_op (PatchValue (buildReturnErrorValueText (f (parseReturnErrorDraft (o_value_text o))))) o)
    (operations ed)) ed.

Definition updatePruneObjectsDraft (id : jstr) (f : PruneObjectsDraft -> M PruneObjectsDraft) (ed : Editor) : M Editor :=
  let! ops := update_atM id (fun o =>
    let! draft := parsePruneObjectsDraft Date_now toUpperCase (o_value_text o) in
    let! next := f draft in
    ret (patch_op (PatchValue (buildPruneObjectsValueText toUpperCase next)) o)) (operations ed) in
  ret (setOperations ops ed).

(** [{ ...draft, rules }] and [{ ...draft, simpleMode }] *)
Definition with_rules (rules : list PruneRule) (d : PruneObjectsDraft) : PruneObjectsDraft :=
  {| pd_simpleMode := pd_simpleMode d; pd_typeText := pd_typeText d; pd_logic := pd_logic d;
     pd_recursive := pd_recursive d; pd_rules := rules |}.

Definition with_simple (b : bool) (d : PruneObjectsDraft) : PruneObjectsDraft :=
  {| pd_simpleMode := b; pd_typeText := pd_typeText d; pd_logic := pd_logic d;
     pd_recursive := pd_recursive d; pd_rules := pd_rules d |}.

Definition addPruneRule (id : jstr) : Editor -> M Editor :=
  updatePruneObjectsDraft id (fun draft =>
    let! rule := normalizePruneRule Date_now (JObj []) in
    ret (with_simple false (with_rules (pd_rules draft ++ [rule]) draft))).

Definition updatePruneRule (id ruleId : jstr) (p : cond_patch) : Editor -> M Editor :=
  updatePruneObjectsDraft id (fun draft =>
    ret (with_rules (map (fun r => if jeqb (c_id r) ruleId then patch_cond p r else r) (pd_rules draft)) draft)).

Definition removePruneRule (id ruleId : jstr) : Editor -> M Editor :=
  updatePruneObjectsDraft id (fun draft =>
    ret (with_rules (jfilter (fun r => negb (jeqb (c_id r) ruleId)) (pd_rules draft)) draft)).

(** ** Drag and drop *)

Definition handleDragStart (id : jstr) (ed : Editor) : Editor :=
  setSelectedOperationId id
    (set_drag {| draggedOperationId := id; dragOverOperationId := dragOverOperationId (drag ed);
                 dragOverPosition := dragOverPosition (drag ed) |} ed).

(** [lower]: whether the pointer is in the lower half of the target. *)
Definition handleDragOver (lower : bool) (id : jstr) (ed : Editor) : Editor :=
  let dragged := draggedOperationId (drag ed) in
  if negb (truthy dragged) || jeqb dragged id then ed else
  set_drag {| draggedOperationId := dragged; dragOverOperationId := id;
              dragOverPosition := if lower then After else Before |} ed.

(** [data]: the text of the [dataTransfer] of the event. *)
Definition handleDrop (data id : jstr) (ed : Editor) : Editor :=
  let d := drag ed in
  let sourceId := if truthy (draggedOperationId d) then draggedOperationId d else data in
  let position := if jeqb (dragOverOperationId d) id then dragOverPosition d else Before in
  set_drag no_drag
    (if truthy sourceId && truthy id && negb (jeqb sourceId id)
     then setSelectedOperationId sourceId
            (setOperations (reorderOperations (operations ed) sourceId id position) ed)
     else ed).

(** ** Mode switching *)

(** A legacy text must be a JSON object. *)
Definition legacy_json (text : jstr) : built :=
  let trimmed := trim text in
  if negb (truthy trimmed) then inl [] else
  match json_parse trimmed with
  | None => inr (t (u "Parameter override must be valid JSON format") None)
  | Some (JObj f) => inl (stringify_indent (JObj f))
  | Some _ => inr (t (u "Legacy format must be a JSON object") None)
  end.

Definition buildVisualJson (ed : Editor) : built :=
  match es_visualMode (core ed) with
  | VisualLegacy => legacy_json (es_legacyValue (core ed))
  | VisualOperations => buildOperationsJson t type_error (operations ed) true
  end.

(** The text of a build that does not throw. *)
Definition built_text (b : built) : jstr := match b with inl s => s | inr _ => [] end.

Definition switchToJsonMode (ed : Editor) : Editor :=
  let c := core ed in
  match es_editMode c with
  | EditJson => ed
  | EditVisual =>
      let '(text, err) :=
        match buildVisualJson ed with
        | inl text => (text, [])
        | inr message =>
            (match es_visualMode c with
             | VisualLegacy => es_legacyValue c
             | VisualOperations => built_text (buildOperationsJson t type_error (es_operations c) false)
             end,
             if truthy message then message else t (u "Parameter configuration error") None)
        end in
      set_core (core_of EditJson (es_visualMode c) (es_legacyValue c) (es_operations c) text err) ed
  end.

Definition switchToVisualMode (ed : Editor) : M Editor :=
  let c := core ed in
  let text := es_jsonText c in
  match es_editMode c with
  | EditVisual => ret ed
  | EditJson =>
      let trimmed := trim text in
      if negb (truthy trimmed) then
        let! fallback := createDefaultOperation Date_now toUpperCase in
        ret (setSelectedOperationId (o_id fallback)
               (set_core (core_of EditVisual VisualOperations [] [fallback] text []) ed))
      else
        match json_parse trimmed with
        | None => ret ed
        | Some parsed =>
            match parsed, field (u "operations") parsed with
            | JObj _, Some (JArr l) =>
                let! nextOps := read_operations Date_now toUpperCase l in
                ret (setTemplatePresetKey (u "operations_default")
                       (setSelectedOperationId (first_id nextOps)
                          (set_core (core_of EditVisual VisualOperations [] nextOps text []) ed)))
            | JObj _, _ =>
                let! fallback := createDefaultOperation Date_now toUpperCase in
                ret (setTemplatePresetKey (u "legacy_default")
                       (setSelectedOperationId (o_id fallback)
                          (set_core (core_of EditVisual VisualLegacy (stringify_indent parsed) [fallback] text []) ed)))
            | _, _ => ret ed
            end
        end
  end.

(** ** Templates *)

Inductive fill_mode := Fill | Append.

(** [{ ...a, ...b }] *)
Definition spread2 (a b : json) : json := JObj (assign (assign [] (spread a)) (spread b)).

Definition fill_legacy (text : jstr) (ed : Editor) : M Editor :=
  let! created := createDefaultOperation Date_now toUpperCase in
  ret (set_core (core_of EditVisual VisualLegacy text [created] text []) ed).

Definition preset (key : jstr) : preset_kind * json :=
  option_or (obj_get key TEMPLATE_PRESET_CONFIG) (PresetOperations, OPERATION_TEMPLATE).

Definition preset_operations (payload : json) : list json :=
  match field (u "operations") payload with Some (JArr l) => l | _ => [] end.

Definition fillTemplate (mode : fill_mode) (ed : Editor) : M Editor :=
  let c := core ed in
  let '(kind, payload) := preset (templatePresetKey ed) in
  match kind with
  | PresetLegacy =>
      match mode, es_visualMode c with
      | Append, VisualLegacy =>
          let trimmed := trim (es_legacyValue c) in
          if negb (truthy trimmed) then fill_legacy (stringify_indent (spread2 payload (JObj []))) ed
          else match json_parse trimmed with
               | None => ret ed
               | Some current => fill_legacy (stringify_indent (spread2 payload current)) ed
               end
      | _, _ => fill_legacy (stringify_indent payload) ed
      end
  | PresetOperations =>
      let! added := mapM (normalizeOperation Date_now toUpperCase) (preset_operations payload) in
      match mode with
      | Append =>
          let existing := match es_visualMode c with
                          | VisualOperations => jfilter (fun o => negb (isOperationBlank o)) (es_operations c)
                          | VisualLegacy => []
                          end in
          let nextOps := existing ++ added in
          ret (setSelectedOperationId (first_id nextOps)
                 (set_core (core_of EditVisual VisualOperations [] nextOps [] []) ed))
      | Fill =>
          let! finalOps := match added with
                           | [] => let! o := createDefaultOperation Date_now toUpperCase in ret [o]
                           | _ => ret added
                           end in
          ret (setSelectedOperationId (first_id finalOps)
                 (set_core (core_of EditVisual VisualOperations (es_legacyValue c) finalOps
                    (stringify_indent (JObj [(u "operations", JArr (preset_operations payload))])) []) ed))
      end
  end.

Definition resetEditorState (ed : Editor) : M Editor :=
  let! fallback := createDefaultOperation Date_now toUpperCase in
  ret (setTemplatePresetKey (u "operations_default")
         (setSelectedOperationId (o_id fallback)
            (set_core (core_of EditVisual VisualOperations [] [fallback] [] []) ed))).

(** ** The JSON text *)

Definition handleJsonChange (nextValue : jstr) (ed : Editor) : Editor :=
  let trimmed := trim nextValue in
  setJson nextValue
    (if negb (truthy trimmed) || verifyJSON trimmed then [] else t (u "JSON format error") None) ed.

Definition formatJson (ed : Editor) : Editor :=
  let trimmed := trim (es_jsonText (core ed)) in
  if negb (truthy trimmed) then ed else
  match json_parse trimmed with
  | None => ed
  | Some j => setJson (stringify_indent j) [] ed
  end.

(** What saving hands to [onSave], or the message of the toast. *)
Definition save_result (ed : Editor) : built :=
  match es_editMode (core ed) with
  | EditVisual => buildVisualJson ed
  | EditJson =>
      let trimmed := trim (es_jsonText (core ed)) in
      if negb (truthy trimmed) then inl [] else
      match json_parse trimmed with
      | None => inr (t (u "Parameter override must be valid JSON format") None)
      | Some j => inl (stringify_indent j)
      end
  end.

Definition visualValidationError (ed : Editor) : jstr :=
  match es_editMode (core ed), buildVisualJson ed with
  | EditVisual, inr message => if truthy message then message else t (u "Parameter configuration error") None
  | _, _ => []
  end.

(** ** Steps *)

Inductive event :=
| EvUpdateOperation (id : jstr) (p : op_patch)
| EvAddOperation
| EvDuplicate (eager : bool) (id : jstr)
| EvRemoveOperation (id : jstr)
| EvAddCondition (id : jstr)
| EvUpdateCondition (id cid : jstr) (p : cond_patch)
| EvRemoveCondition (id cid : jstr)
| EvExpandAll (b : bool)
| EvExpand (cid : jstr) (b : bool)
| EvErrorDraft (id : jstr) (f : ReturnErrorDraft -> ReturnErrorDraft)
| EvPruneDraft (id : jstr) (f : PruneObjectsDraft -> PruneObjectsDraft)
| EvAddPruneRule (id : jstr)
| EvUpdatePruneRule (id ruleId : jstr) (p : cond_patch)
| EvRemovePruneRule (id ruleId : jstr)
| EvSelect (id : jstr)
| EvSearch (s : jstr)
| EvDragStart (id : jstr)
| EvDragOver (lower : bool) (id : jstr)
| EvDrop (data id : jstr)
| EvDragEnd
| EvLegacyValue (v : jstr)
| EvJsonMode
| EvVisualMode
| EvPreset (key : jstr)
| EvTemplate (mode : fill_mode)
| EvReset
| EvJsonChange (v : jstr)
| EvFormat.

Definition handle (e : event) (ed : Editor) : M Editor :=
  match e with
  | EvUpdateOperation id p => ret (updateOperation id p ed)
  | EvAddOperation => addOperation ed
  | EvDuplicate eager id => duplicateOperation eager id ed
  | EvRemoveOperation id => removeOperation id ed
  | EvAddCondition id => addCondition id ed
  | EvUpdateCondition id cid p => ret (updateCondition id cid p ed)
  | EvRemoveCondition id cid => ret (removeCondition id cid ed)
  | EvExpandAll b => ret (expand_all b ed)
  | EvExpand cid b => ret (setExpandedConditions (obj_set cid b (expandedConditions ed)) ed)
  | EvErrorDraft id f => ret (updateReturnErrorDraft id f ed)
  | EvPruneDraft id f => updatePruneObjectsDraft id (fun d => ret (f d)) ed
  | EvAddPruneRule id => addPruneRule id ed
  | EvUpdatePruneRule id rid p => updatePruneRule id rid p ed
  | EvRemovePruneRule id rid => removePruneRule id rid ed
  | EvSelect id => ret (setSelectedOperationId id ed)
  | EvSearch s => ret (setOperationSearch s ed)
  | EvDragStart id => ret (handleDragStart id ed)
  | EvDragOver lower id => ret (handleDragOver lower id ed)
  | EvDrop data id => ret (handleDrop data id ed)
  | EvDragEnd => ret (set_drag no_drag ed)
  | EvLegacyValue v => ret (setLegacyValue v ed)
  | EvJsonMode => ret (switchToJsonMode ed)
  | EvVisualMode => switchToVisualMode ed
  | EvPreset key => ret (setTemplatePresetKey (if truthy key then key else u "operations_default") ed)
  | EvTemplate mode => fillTemplate mode ed
  | EvReset => resetEditorState ed
  | EvJsonChange v => ret (handleJsonChange v ed)
  | EvFormat => ret (formatJson ed)
  end.

(** What the selects offer. *)
Definition event_ok (e : event) : bool :=
  match e with
  | EvUpdateOperation _ (PatchMode m) => has m OPERATION_MODE_VALUES
  | EvUpdateOperation _ (PatchLogic l) => has l [u "OR"; u "AND"]
  | EvUpdateCondition _ _ (CondMode m) | EvUpdatePruneRule _ _ (CondMode m) => has m CONDITION_MODE_VALUES
  | _ => true
  end.

(** The dialog in the page: closed, or open on a state; the seed outlives it. *)
Record Dialog := {
  editor : option Editor;
  localIdSeed : N;
  saved : list jstr   (* the texts handed to [onSave], the last one first *)
}.

(** A callback that throws leaves the state as it was; rendering takes identifiers. *)
Inductive dialog_step : Dialog -> Dialog -> Prop :=
| StepOpen d value ed n :
    initialize value (localIdSeed d) = (Some ed, n) ->
    dialog_step d {| editor := Some (settle ed); localIdSeed := n; saved := saved d |}
| StepEvent d ed e ed' n :
    editor d = Some ed -> event_ok e = true -> handle e ed (localIdSeed d) = (Some ed', n) ->
    dialog_step d {| editor := Some (settle ed'); localIdSeed := n; saved := saved d |}
| StepThrow d ed e n :
    editor d = Some ed -> event_ok e = true -> handle e ed (localIdSeed d) = (None, n) ->
    dialog_step d {| editor := Some ed; localIdSeed := n; saved := saved d |}
| StepRender d ed memo r n :
    editor d = Some ed -> render memo ed (localIdSeed d) = (r, n) ->
    dialog_step d {| editor := Some ed; localIdSeed := n; saved := saved d |}
| StepSave d ed text :
    editor d = Some ed -> save_result ed = inl text ->
    dialog_step d {| editor := None; localIdSeed := localIdSeed d; saved := text :: saved d |}
| StepClose d :
    dialog_step d {| editor := None; localIdSeed := localIdSeed d; saved := saved d |}.

Definition initial_dialog : Dialog := {| editor := None; localIdSeed := 0; saved := [] |}.

Definition reachable (d : Dialog) : Prop := rtc dialog_step initial_dialog d.

End Editor.
