(* ===== verification/OverrideFacts.v ===== *)
(** * Parameter overrides: theorems

    Fresh identifiers, which operations create them, and the order of rules after a drop. *)

From stdpp Require Import relations.
From S2P Require Import Prelude JsString JsNumber Json JsonFacts ParamOverride OverrideEditor.
Open Scope N_scope.

(** ** Identifiers *)

Lemma split_unique (c : N) (a b a' b' : jstr) :
  c ∉ a -> c ∉ a' -> a ++ c :: b = a' ++ c :: b' -> a = a' /\ b = b'.
Proof.
  revert a'. induction a as [|x a IH]; intros [|x' a'] Ha Ha' H; simpl in H.
  - by injection H.
  - injection H as <- _. destruct Ha'. by left.
  - injection H as -> _. destruct Ha. by left.
  - injection H as <- H. apply not_elem_of_cons in Ha as [_ Ha], Ha' as [_ Ha'].
    destruct (IH a' Ha Ha' H) as [-> ->]. done.
Qed.

Lemma digits_no_underscore n : 95 ∉ string_of_N n.
Proof.
  intros H. pose proof (string_of_N_digits n) as Hd. rewrite forallb_Forall, Forall_forall in Hd.
  apply Hd in H. by vm_compute in H.
Qed.

Section Identifiers.
Context (Date_now : N -> N).

Lemma local_id_inj m n : local_id Date_now m = local_id Date_now n -> m = n.
Proof.
  unfold local_id. intros H. apply app_inv_head in H. change (u "_" ++ ?x) with (95 :: x) in H.
  apply split_unique in H as [_ H]; [|apply digits_no_underscore..]. by apply string_of_N_inj in H.
Qed.

Lemma local_id_nonempty n : local_id Date_now n <> [].
Proof. done. Qed.

(** Identifiers issued from seed [n] up to seed [m], each once. *)
Definition issued_in (n m : N) (id : jstr) : Prop := exists k, n <= k < m /\ id = local_id Date_now k.

Definition issues (n m : N) (ids : list jstr) : Prop :=
  n <= m /\ NoDup ids /\ Forall (issued_in n m) ids.

Lemma issued_in_mono n m n' m' id : n' <= n -> m <= m' -> issued_in n m id -> issued_in n' m' id.
Proof. intros H1 H2 (k & Hk & ->). exists k. split; [lia|done]. Qed.

Lemma issued_apart n m k id : issued_in n m id -> issued_in m k id -> False.
Proof. intros (a & Ha & ->) (b & Hb & H%local_id_inj). lia. Qed.

Lemma issues_nil n m : n <= m -> issues n m [].
Proof. intros. split_and!; [done|constructor|constructor]. Qed.

Lemma issues_app n m k a b : issues n m a -> issues m k b -> issues n k (a ++ b).
Proof.
  intros (H1 & Hda & Ha) (H2 & Hdb & Hb). split_and!; [lia| |].
  - apply NoDup_app. split_and!; [done| |done]. intros x Hxa Hxb.
    rewrite Forall_forall in Ha, Hb. eapply issued_apart; [by apply Ha|by apply Hb].
  - apply Forall_app. split; (eapply Forall_impl; [eassumption|]); intros id;
      apply issued_in_mono; lia.
Qed.

Lemma issues_one n : issues n (n + 1) [local_id Date_now n].
Proof. split_and!; [lia|apply NoDup_singleton|]. constructor; [|constructor]. exists n. split; [lia|done]. Qed.

(** A computation that issues the identifiers of its result, which satisfies [P]. *)
Definition gives {A} (ids : A -> list jstr) (P : A -> Prop) (c : M A) : Prop :=
  forall n r m, c n = (r, m) -> n <= m /\ forall a, r = Some a -> issues n m (ids a) /\ P a.

Lemma gives_ret {A} (ids : A -> list jstr) (P : A -> Prop) a : ids a = [] -> P a -> gives ids P (ret a).
Proof.
  intros Hi HP n r m [= <- <-]. split; [lia|]. intros ? [= <-]. rewrite Hi. split; [|done].
  apply issues_nil. lia.
Qed.

Lemma gives_throw {A} (ids : A -> list jstr) (P : A -> Prop) : gives ids P throw.
Proof. intros n r m [= <- <-]. split; [lia|done]. Qed.

Lemma gives_bind {A B} (ids : A -> list jstr) (P : A -> Prop) (idsB : B -> list jstr) (Q : B -> Prop)
    (c : M A) (k : A -> M B) :
  gives ids P c ->
  (forall a, P a -> gives (fun b => drop (length (ids a)) (idsB b))
                      (fun b => take (length (ids a)) (idsB b) = ids a /\ Q b) (k a)) ->
  gives idsB Q (bind c k).
Proof.
  intros Hc Hk n r m H. unfold bind in H. destruct (c n) as [[a|] n1] eqn:E.
  - destruct (Hc _ _ _ E) as [H1 Ha]. destruct (Ha a eq_refl) as [Hi HP].
    destruct (Hk a HP _ _ _ H) as [H2 Hb]. split; [lia|]. intros b ->.
    destruct (Hb b eq_refl) as (Hi' & Ht & HQ). split; [|done].
    rewrite <- (take_drop (length (ids a)) (idsB b)), Ht. by eapply issues_app.
  - injection H as <- <-. destruct (Hc _ _ _ E) as [H1 _]. done.
Qed.

Lemma gives_mapM {A B} (ids : B -> list jstr) (P : B -> Prop) (f : A -> M B) l :
  (forall a, a ∈ l -> gives ids P (f a)) ->
  gives (fun bs => flat_map ids bs) (fun bs => Forall P bs /\ length bs = length l) (mapM f l).
Proof.
  intros Hf. induction l as [|a l IH]; [by apply gives_ret|]. cbn [mapM].
  eapply gives_bind; [apply Hf; by left|]. intros b Hb.
  assert (forall a, a ∈ l -> gives ids P (f a)) as Hf' by (intros; apply Hf; by right).
  intros n r m H. unfold bind in H. destruct (mapM f l n) as [[bs|] n1] eqn:E.
  - destruct (IH Hf' _ _ _ E) as [H1 Ha]. destruct (Ha bs eq_refl) as (Hi & HP & Hlen).
    injection H as <- <-. split; [done|]. intros ? [= <-]. cbn [flat_map length].
    rewrite drop_app_length, take_app_length. split_and!; [done..|by constructor|by rewrite Hlen].
  - injection H as <- <-. destruct (IH Hf' _ _ _ E) as [H1 _]. done.
Qed.

(** ** Typed rules *)

Definition cond_typed (c : ParamOverrideCondition) : Prop := has (c_mode c) CONDITION_MODE_VALUES = true.

Definition op_typed (o : ParamOverrideOperation) : Prop :=
  has (o_mode o) OPERATION_MODE_VALUES = true /\ has (o_logic o) [u "OR"; u "AND"] = true /\
  Forall cond_typed (o_conditions o).

Definition op_ids (o : ParamOverrideOperation) : list jstr := o_id o :: map c_id (o_conditions o).

Lemma nextLocalId_gives : gives (fun id => [id]) (fun _ => True) (nextLocalId Date_now).
Proof. intros n r m [= <- <-]. split; [lia|]. intros ? [= <-]. split; [apply issues_one|done]. Qed.

Lemma mode_field_has values d j : has d values = true -> has (mode_field values d j) values = true.
Proof. intros Hd. unfold mode_field. repeat case_match; done. Qed.

Lemma normalizeCondition_gives j : gives (fun c => [c_id c]) cond_typed (normalizeCondition Date_now j).
Proof.
  eapply gives_bind; [apply nextLocalId_gives|]. intros id _.
  destruct j; try apply gives_throw; (apply gives_ret; [done|]; split; [done|]);
    apply mode_field_has; by vm_compute.
Qed.

Context (toUpperCase : jstr -> jstr).

Lemma flat_map_singleton {A B} (f : A -> B) l : flat_map (fun x => [f x]) l = map f l.
Proof. induction l as [|x l IH]; [done|]. simpl. by rewrite IH. Qed.

Lemma conditions_gives j :
  gives (map c_id) (Forall cond_typed) (conditions_field Date_now j).
Proof.
  unfold conditions_field. destruct (field _ j) as [[]|]; try by apply gives_ret.
  intros n r m H. destruct (gives_mapM (fun c => [c_id c]) cond_typed (normalizeCondition Date_now) l
    (fun a _ => normalizeCondition_gives a) n r m H) as [H1 H2].
  split; [done|]. intros cs Hcs. destruct (H2 cs Hcs) as (Hi & HP & _). rewrite flat_map_singleton in Hi. done.
Qed.

Lemma logic_field_typed j l : logic_field toUpperCase j = Some l -> has l [u "OR"; u "AND"] = true.
Proof. unfold logic_field. case_match; [|done]. intros [= <-]. by case_match. Qed.

Lemma normalizeOperation_gives j : gives op_ids op_typed (normalizeOperation Date_now toUpperCase j).
Proof.
  eapply gives_bind; [apply nextLocalId_gives|]. intros id _.
  assert (gives (fun b => drop (length [id]) (op_ids b)) (fun b => take (length [id]) (op_ids b) = [id] /\ op_typed b)
    match logic_field toUpperCase j with
    | None => throw
    | Some logic =>
        let! conditions := conditions_field Date_now j in
        ret {| o_id := id; o_description := str_field (u "description") j; o_path := str_field (u "path") j;
               o_mode := mode_field OPERATION_MODE_VALUES (u "set") j; o_from := str_field (u "from") j;
               o_to := str_field (u "to") j; o_value_text := toValueText (field (u "value") j);
               o_keep_origin := true_field (u "keep_origin") j; o_logic := logic; o_conditions := conditions |}
    end) as H; [|by destruct j; try apply gives_throw].
  destruct (logic_field toUpperCase j) as [logic|] eqn:Hl; [|apply gives_throw].
  eapply gives_bind; [apply conditions_gives|]. intros cs Hcs. apply gives_ret; cbn [op_ids o_id o_conditions length drop take].
  - by rewrite drop_0, drop_ge.
  - rewrite drop_0, take_ge by done. split; [reflexivity|]. split; [reflexivity|].
    unfold op_typed. cbn [o_mode o_logic o_conditions].
    split; [apply mode_field_has; by vm_compute|]. split; [by eapply logic_field_typed|done].
Qed.

Lemma createDefaultOperation_gives : gives op_ids op_typed (createDefaultOperation Date_now toUpperCase).
Proof. apply normalizeOperation_gives. Qed.

Lemma operations_gives l :
  gives (flat_map op_ids) (fun os => Forall op_typed os /\ length os = length l)
    (mapM (normalizeOperation Date_now toUpperCase) l).
Proof. apply gives_mapM. intros a _. apply normalizeOperation_gives. Qed.

Lemma default_list_gives :
  gives (flat_map op_ids) (fun os => Forall op_typed os /\ os <> [])
    (let! o := createDefaultOperation Date_now toUpperCase in ret [o]).
Proof.
  eapply gives_bind; [apply createDefaultOperation_gives|]. intros o Ho. apply gives_ret.
  - cbn [flat_map]. rewrite app_nil_r. by rewrite drop_ge.
  - cbn [flat_map]. rewrite app_nil_r, take_ge by done. split; [done|]. split; [by constructor|done].
Qed.

Lemma read_operations_gives l :
  gives (flat_map op_ids) (fun os => Forall op_typed os /\ os <> []) (read_operations Date_now toUpperCase l).
Proof.
  unfold read_operations. destruct l as [|j l]; [apply default_list_gives|].
  intros n r m H. destruct (operations_gives (j :: l) n r m H) as [H1 H2]. split; [done|].
  intros os Hos. destruct (H2 os Hos) as (Hi & HP & Hlen). split; [done|]. split; [done|]. by destruct os.
Qed.

End Identifiers.

(** ** Order *)

Lemma find_index_Some {A} (f : A -> bool) l i :
  find_index f l = Some i ->
  exists a x b, l = a ++ x :: b /\ length a = i /\ f x = true /\ Forall (fun y => f y = false) a.
Proof.
  revert i. induction l as [|y l IH]; intros i; [done|]. cbn [find_index].
  destruct (f y) eqn:Hy; [intros [= <-]; by exists [], y, l|].
  destruct (find_index f l) as [j|]; [|done]. intros [= <-].
  destruct (IH j eq_refl) as (a & x & b & -> & <- & Hx & Ha). exists (y :: a), x, b.
  split_and!; [done..|by constructor].
Qed.

Lemma find_index_None {A} (f : A -> bool) l : find_index f l = None <-> Forall (fun y => f y = false) l.
Proof.
  induction l as [|y l IH]; [done|]. cbn [find_index]. rewrite Forall_cons, <- IH.
  destruct (f y); [naive_solver|]. destruct (find_index f l); naive_solver.
Qed.

Lemma find_index_app {A} (f : A -> bool) a x b :
  Forall (fun y => f y = false) a -> f x = true -> find_index f (a ++ x :: b) = Some (length a).
Proof. intros Ha Hx. induction Ha as [|y a Hy _ IH]; simpl; [by rewrite Hx|]. by rewrite Hy, IH. Qed.

(** The two rules in their new order. *)
Definition placed (position : drop_position) (moved target : ParamOverrideOperation) :=
  match position with Before => [moved; target] | After => [target; moved] end.

Lemma insert_placed position moved target a b :
  insert_at (match position with After => S (length a) | Before => length a end) moved (a ++ target :: b)
  = a ++ placed position moved target ++ b.
Proof.
  unfold insert_at. destruct position; [by rewrite take_app_length, drop_app_length|].
  change (target :: b) with ([target] ++ b). rewrite (assoc_L (++)).
  replace (S (length a)) with (length (a ++ [target])) by (rewrite length_app; simpl; lia).
  rewrite take_app_length, drop_app_length. by rewrite <- (assoc_L (++)).
Qed.

Lemma reorder_cases ops sourceId targetId position :
  reorderOperations ops sourceId targetId position = ops \/
  exists a b moved target, o_id moved = sourceId /\ o_id target = targetId /\
    reorderOperations ops sourceId targetId position = a ++ placed position moved target ++ b /\
    exists c d, ops = c ++ moved :: d /\ c ++ d = a ++ target :: b /\
      Forall (fun o => o_id o <> sourceId) c.
Proof.
  unfold reorderOperations. destruct (_ || _); [by left|].
  destruct (find_index _ ops) as [i|] eqn:Hi; [|by left].
  apply find_index_Some in Hi as (c & moved & d & -> & <- & Hm%jeqb_spec & Hc).
  rewrite list_lookup_middle by done.
  rewrite take_app_length, (drop_app_ge c) by lia. replace (S (length c) - length c)%nat with 1%nat by lia.
  change (drop 1 (moved :: d)) with d.
  destruct (find_index (fun o => jeqb (o_id o) targetId) (c ++ d)) as [j|] eqn:Hj; [|by left].
  apply find_index_Some in Hj as (a & target & b & He & <- & Ht%jeqb_spec & _).
  right. exists a, b, moved, target. split_and!; [done..| |].
  - rewrite He. apply insert_placed.
  - exists c, d. split_and!; [done..|]. eapply Forall_impl; [exact Hc|]. cbn beta. intros o Ho Heq.
    by rewrite Heq, jeqb_refl in Ho.
Qed.

Lemma reorder_perm ops s tgt p : reorderOperations ops s tgt p ≡ₚ ops.
Proof.
  destruct (reorder_cases ops s tgt p) as [-> |(a & b & moved & target & _ & _ & -> & c & d & -> & H & _)]; [done|].
  rewrite <- (Permutation_middle c d), H. destruct p; simpl.
  - by rewrite Permutation_middle.
  - rewrite <- (Permutation_middle a b target), (Permutation_middle (target :: a) b moved). simpl.
    by rewrite <- Permutation_middle.
Qed.

(** dropping a rule on another one moves it right before or right after that rule and keeps
    the order of the others: without the moved rule the list is what it was without it. *)
Theorem reorder_spec ops sourceId targetId position :
  NoDup (map o_id ops) -> sourceId ∈ map o_id ops -> targetId ∈ map o_id ops ->
  sourceId <> targetId -> sourceId <> [] -> targetId <> [] ->
  exists a b moved target, o_id moved = sourceId /\ o_id target = targetId /\
    reorderOperations ops sourceId targetId position = a ++ placed position moved target ++ b /\
    a ++ target :: b = jfilter (fun o => negb (jeqb (o_id o) sourceId)) ops.
Proof.
  intros Hnd Hs Ht Hne Hs0 Ht0.
  assert (exists c moved d, ops = c ++ moved :: d /\ o_id moved = sourceId) as (c & moved & d & -> & Hm).
  { apply list_elem_of_fmap in Hs as (o & -> & (c & d & ->)%list_elem_of_split). by exists c, o, d. }
  rewrite map_app in *. cbn [map] in *. rewrite Hm in Hnd, Ht.
  apply NoDup_app in Hnd as (_ & Hcd & [Hd _]%NoDup_cons).
  assert (Forall (fun o => jeqb (o_id o) sourceId = false) c /\ Forall (fun o => jeqb (o_id o) sourceId = false) d)
    as [Hc Hd'].
  { split; apply Forall_forall; intros o Ho; apply jeqb_neq; intros He.
    - destruct (Hcd sourceId); [|by left]. rewrite <- He. by apply list_elem_of_fmap_2.
    - destruct Hd. rewrite <- He. by apply list_elem_of_fmap_2. }
  assert (jfilter (fun o => negb (jeqb (o_id o) sourceId)) (c ++ moved :: d) = c ++ d) as ->.
  { rewrite jfilter_app. cbn [List.filter]. rewrite Hm, jeqb_refl. cbn [negb].
    rewrite !jfilter_all; [done|..]; (eapply Forall_impl; [eassumption|]); cbn beta; by intros o ->. }
  assert (exists a target b, c ++ d = a ++ target :: b /\ o_id target = targetId /\
    Forall (fun o => jeqb (o_id o) targetId = false) a) as (a & target & b & Hab & Htg & Ha).
  { destruct (find_index (fun o => jeqb (o_id o) targetId) (c ++ d)) as [j|] eqn:Hj.
    - apply find_index_Some in Hj as (a & x & b & -> & _ & Hx%jeqb_spec & Ha). by exists a, x, b.
    - apply find_index_None in Hj. rewrite Forall_forall in Hj. exfalso.
      apply elem_of_app in Ht as [Ht|[Ht|Ht]%elem_of_cons]; [|done|];
        apply list_elem_of_fmap in Ht as (o & -> & Ho);
        (assert (jeqb (o_id o) (o_id o) = false) as He by (apply Hj; set_solver));
        by rewrite jeqb_refl in He. }
  exists a, b, moved, target. split_and!; [done..| |done].
  unfold reorderOperations. rewrite !(proj2 (truthy_spec _)) by done. rewrite (proj2 (jeqb_neq _ _)) by done.
  cbn [negb orb]. rewrite find_index_app by (done || by apply jeqb_spec).
  rewrite list_lookup_middle, take_app_length, (drop_app_ge c) by lia.
  replace (S (length c) - length c)%nat with 1%nat by lia. change (drop 1 (moved :: d)) with d.
  rewrite Hab, find_index_app by (done || by apply jeqb_spec). apply insert_placed.
Qed.

(** Three rules that only have identifiers. *)
Definition sample_rule (id : jstr) : ParamOverrideOperation :=
  {| o_id := id; o_description := []; o_path := u "model"; o_mode := u "set"; o_from := []; o_to := [];
     o_value_text := u "1"; o_keep_origin := false; o_logic := u "OR"; o_conditions := [] |}.

Definition sample_rules : list ParamOverrideOperation := map sample_rule [u "a"; u "b"; u "c"].

Lemma reorder_spec_witness :
  reorderOperations sample_rules (u "a") (u "c") Before = map sample_rule [u "b"; u "a"; u "c"] /\
  exists a b moved target, o_id moved = u "a" /\ o_id target = u "c" /\
    reorderOperations sample_rules (u "a") (u "c") Before = a ++ placed Before moved target ++ b /\
    a ++ target :: b = jfilter (fun o => negb (jeqb (o_id o) (u "a"))) sample_rules.
Proof.
  split; [reflexivity|].
  apply (reorder_spec sample_rules (u "a") (u "c") Before);
    try (intros H; discriminate H); apply (bool_decide_unpack _); vm_compute; exact I.
Defined.
