(* ===== verification/OverrideInvariant.v ===== *)
(** * The editor of parameter overrides: invariant

    In every reachable state of the dialog the rules have modes the editor knows, their
    identifiers and those of their conditions are distinct, there is a rule and one of them is
    selected, and the JSON text is valid where no error is shown.  What is saved is empty or the
    printed form of a JSON value, and rules are saved only when they are valid. *)

From stdpp Require Import relations.
From S2P Require Import Prelude JsString JsNumber Json JsonFacts ParamOverride OverrideEditor OverrideFacts.
Open Scope N_scope.

(** ** Computations that only move the seed *)

Definition mono {A} (c : M A) : Prop := forall n r m, c n = (r, m) -> n <= m.

Lemma mono_ret {A} (a : A) : mono (ret a).
Proof. intros n r m [= _ <-]. lia. Qed.

Lemma mono_bind {A B} (c : M A) (k : A -> M B) : mono c -> (forall a, mono (k a)) -> mono (bind c k).
Proof.
  intros Hc Hk n r m. unfold bind. destruct (c n) as [[a|] n1] eqn:E; intros H.
  - pose proof (Hc _ _ _ E). pose proof (Hk _ _ _ _ H). lia.
  - injection H as _ <-. by eapply Hc.
Qed.

Lemma mono_gives {A} Date_now ids (P : A -> Prop) c : gives Date_now ids P c -> mono c.
Proof. intros H n r m E. by destruct (H _ _ _ E). Qed.

Lemma mono_mapM {A B} (f : A -> M B) l : (forall a, mono (f a)) -> mono (mapM f l).
Proof.
  intros Hf. induction l as [|a l IH]; [apply mono_ret|]. cbn [mapM].
  apply mono_bind; [done|]. intros b. apply mono_bind; [done|]. intros bs. apply mono_ret.
Qed.

Section Seeds.
Context (Date_now : N -> N) (toUpperCase : jstr -> jstr).

Lemma mono_rule j : mono (normalizePruneRule Date_now j).
Proof. eapply mono_gives, normalizeCondition_gives. Qed.

Lemma mono_prune_rules j : mono (prune_rules Date_now j).
Proof.
  unfold prune_rules. apply mono_bind.
  - repeat case_match; try apply mono_ret. apply mono_mapM. intros a. apply mono_rule.
  - intros a. apply mono_bind; [|intros b; apply mono_ret].
    repeat case_match; try apply mono_ret; apply mono_mapM; intros; apply mono_rule.
Qed.

Lemma mono_parsePrune s : mono (parsePruneObjectsDraft Date_now toUpperCase s).
Proof.
  unfold parsePruneObjectsDraft. case_match; [apply mono_ret|].
  destruct (json_parse (trim s)) as [[]|]; try apply mono_ret.
  apply mono_bind; [apply mono_prune_rules|]. intros rules. repeat case_match; apply mono_ret.
Qed.

Lemma mono_render memo ed : mono (render Date_now toUpperCase memo ed).
Proof.
  unfold render, pruneObjectsDraft. apply mono_bind; [eapply mono_gives, createDefaultOperation_gives|]. intros _.
  repeat case_match; try apply mono_ret. apply mono_bind; [apply mono_parsePrune|]. intros. apply mono_ret.
Qed.

End Seeds.

Section Invariant.
Context (Date_now : N -> N) (toUpperCase : jstr -> jstr).
Context (t : jstr -> option N -> jstr) (type_error : jstr).

Abbreviation all_ids := (flat_map op_ids).

Definition ids_ok (seed : N) (ops : list ParamOverrideOperation) : Prop :=
  NoDup (all_ids ops) /\ Forall (issued_in Date_now 0 seed) (all_ids ops).

(** A text without error: empty, valid JSON, or printed from a JSON value. *)
Definition text_ok (s : jstr) : Prop :=
  trim s = [] \/ verifyJSON (trim s) = true \/ exists j, s = stringify_indent j.

Record core_ok (seed : N) (c : EditorState) : Prop := {
  ok_some : es_operations c <> [];
  ok_ids : ids_ok seed (es_operations c);
  ok_typed : Forall op_typed (es_operations c);
  ok_text : es_editMode c = EditJson -> es_jsonError c = [] -> text_ok (es_jsonText c)
}.

Definition editor_ok (seed : N) (ed : Editor) : Prop :=
  core_ok seed (core ed) /\ selectedOperationId ed ∈ map o_id (operations ed).

Lemma settle_core ed : core (settle ed) = core ed.
Proof. unfold settle. by repeat case_match. Qed.

Lemma settle_ok seed ed : core_ok seed (core ed) -> editor_ok seed (settle ed).
Proof.
  intros H. split; [by rewrite settle_core|]. unfold operations. rewrite settle_core. fold (operations ed).
  unfold settle. pose proof (ok_some _ _ H) as Hne. fold (operations ed) in Hne.
  destruct (operations ed) as [|o ops] eqn:E; [done|]. rewrite <- E.
  destruct (existsb _ _) eqn:Hx; [|rewrite E; by left].
  apply existsb_exists in Hx as (x & Hx & He%jeqb_spec). rewrite <- He.
  apply list_elem_of_fmap_2. by apply list_elem_of_In.
Qed.

(** ** Identifiers of changed lists *)

Lemma ids_ok_sub seed ops ops' : all_ids ops' ⊆+ all_ids ops -> ids_ok seed ops -> ids_ok seed ops'.
Proof.
  intros Hsub [Hn Hf]. apply submseteq_Permutation in Hsub as (k & Hk). split.
  - rewrite Hk in Hn. by apply NoDup_app in Hn as (? & _).
  - rewrite Hk in Hf. by apply Forall_app in Hf as [? _].
Qed.

Lemma issued_mono n m ids : n <= m -> Forall (issued_in Date_now 0 n) ids -> Forall (issued_in Date_now 0 m) ids.
Proof. intros H Hf. eapply Forall_impl; [exact Hf|]. intros id. apply issued_in_mono; lia. Qed.

Lemma ids_ok_mono n m ops : n <= m -> ids_ok n ops -> ids_ok m ops.
Proof. intros H [Hn Hf]. split; [done|by eapply issued_mono]. Qed.

Lemma ids_ok_new n m ops ops' new :
  all_ids ops' ⊆+ all_ids ops ++ new -> ids_ok n ops -> issues Date_now n m new -> ids_ok m ops'.
Proof.
  intros Hsub [Hn Hf] Hi. assert (issues Date_now 0 n (all_ids ops)) as Ho by (split_and!; [lia|done..]).
  destruct (issues_app _ _ _ _ _ _ Ho Hi) as (_ & Hn' & Hf').
  apply submseteq_Permutation in Hsub as (k & Hk). split.
  - rewrite Hk in Hn'. by apply NoDup_app in Hn' as (? & _).
  - rewrite Hk in Hf'. by apply Forall_app in Hf' as [? _].
Qed.

Lemma ids_ok_fresh n m new : issues Date_now n m (all_ids new) -> ids_ok m new.
Proof.
  intros (Hle & Hn & Hf). split; [done|]. eapply Forall_impl; [exact Hf|]. intros id. apply issued_in_mono; lia.
Qed.

Lemma all_ids_perm ops ops' : ops ≡ₚ ops' -> all_ids ops ≡ₚ all_ids ops'.
Proof. intros H. by rewrite H. Qed.

Lemma o_ids_sub ops : map o_id ops ⊆+ all_ids ops.
Proof.
  induction ops as [|o ops IH]; [done|]. cbn [map flat_map op_ids app].
  apply submseteq_skip. by apply submseteq_inserts_l.
Qed.

Lemma o_ids_nodup seed ops : ids_ok seed ops -> NoDup (map o_id ops).
Proof.
  intros [Hn _]. pose proof (o_ids_sub ops) as Hs. apply submseteq_Permutation in Hs as (k & Hk).
  rewrite Hk in Hn. by apply NoDup_app in Hn as (? & _).
Qed.

Lemma update_at_same id f ops :
  (forall o, op_ids (f o) = op_ids o) -> all_ids (update_at id f ops) = all_ids ops.
Proof.
  intros Hf. induction ops as [|o ops IH]; [done|]. cbn [update_at map flat_map].
  fold (update_at id f ops). rewrite IH. by destruct (jeqb _ _); [rewrite Hf|].
Qed.

Lemma update_at_typed id f ops :
  (forall o, op_typed o -> op_typed (f o)) -> Forall op_typed ops -> Forall op_typed (update_at id f ops).
Proof. intros Hf H. apply Forall_map. eapply Forall_impl; [exact H|]. cbn beta. intros o Ho. case_match; auto. Qed.

Lemma update_at_nonempty id f ops : ops <> [] -> update_at id f ops <> [].
Proof. by destruct ops. Qed.

Lemma update_at_miss id f ops : id ∉ map o_id ops -> update_at id f ops = ops.
Proof.
  induction ops as [|o ops IH]; [done|]. cbn [map update_at]. intros [Hne Hin]%not_elem_of_cons.
  rewrite (proj2 (jeqb_neq (o_id o) id)) by done. f_equal. by apply IH.
Qed.

Lemma update_at_add id c ops :
  NoDup (map o_id ops) ->
  all_ids (update_at id (fun o => with_conditions (o_conditions o ++ [c]) o) ops) ⊆+ all_ids ops ++ [c_id c].
Proof.
  induction ops as [|o ops IH]; [by intros _; apply submseteq_nil_l|]. cbn [map flat_map].
  intros [Hin Hnd]%NoDup_cons. cbn [update_at map flat_map]. fold (update_at id (fun o => with_conditions (o_conditions o ++ [c]) o) ops).
  destruct (jeqb (o_id o) id) eqn:E.
  - apply jeqb_spec in E as <-. rewrite update_at_miss by done.
    apply Permutation_submseteq. unfold op_ids. cbn [o_id o_conditions with_conditions].
    rewrite map_app. cbn [map app]. constructor. rewrite <- !(assoc_L (++)).
    apply Permutation_app_head. apply Permutation_app_comm.
  - rewrite <- (assoc_L (++)). apply submseteq_skips_l. by apply IH.
Qed.

(** A part of the rules, or of their conditions. *)
Lemma filter_ids f ops : all_ids (jfilter f ops) ⊆+ all_ids ops.
Proof.
  induction ops as [|o ops IH]; [done|]. cbn [List.filter flat_map].
  destruct (f o); [by apply submseteq_skips_l|by apply submseteq_inserts_l].
Qed.

Lemma update_at_sub id f ops :
  (forall o, op_ids (f o) ⊆+ op_ids o) -> all_ids (update_at id f ops) ⊆+ all_ids ops.
Proof.
  intros Hf. induction ops as [|o ops IH]; [done|]. cbn [update_at map flat_map].
  fold (update_at id f ops). by destruct (jeqb _ _); apply submseteq_app.
Qed.

(** ** Steps *)

(** What a callback keeps. *)
Definition keeps (n : N) (h : M Editor) : Prop :=
  forall r m, h n = (r, m) -> n <= m /\ forall ed, r = Some ed -> core_ok m (core ed).

Lemma keeps_ret n ed : core_ok n (core ed) -> keeps n (ret ed).
Proof. intros H r m [= <- <-]. split; [lia|]. by intros ? [= <-]. Qed.

(** A computation of rules or conditions before the new state. *)
Lemma keeps_bind {A} ids (P : A -> Prop) n (c : M A) (k : A -> Editor) :
  gives Date_now ids P c ->
  (forall a m, issues Date_now n m (ids a) -> P a -> core_ok m (core (k a))) ->
  keeps n (let! a := c in ret (k a)).
Proof.
  intros Hc Hk r m H. unfold bind in H. destruct (c n) as [[a|] n1] eqn:E; injection H as <- <-.
  - destruct (Hc _ _ _ E) as [H1 Ha]. destruct (Ha a eq_refl) as [Hi HP]. split; [done|].
    intros ? [= <-]. by apply Hk.
  - destruct (Hc _ _ _ E) as [H1 _]. by split.
Qed.

Lemma set_ops_ok n m ops ed :
  core_ok n (core ed) -> ops <> [] -> ids_ok m ops -> Forall op_typed ops ->
  core_ok m (core (setOperations ops ed)).
Proof. intros [_ _ _ Htext] Hne Hids Hty. by split. Qed.

(** A state that is shown in the visual mode. *)
Lemma visual_ok m vm legacy ops text err :
  ops <> [] -> ids_ok m ops -> Forall op_typed ops -> core_ok m (core_of EditVisual vm legacy ops text err).
Proof. intros. by split. Qed.

Lemma patch_ids p o : op_ids (patch_op p o) = op_ids o.
Proof. done. Qed.

Lemma patch_typed id p o : event_ok (EvUpdateOperation id p) = true -> op_typed o -> op_typed (patch_op p o).
Proof.
  intros Hp (Hm & Hl & Hc). unfold op_typed. cbn [patch_op o_mode o_logic o_conditions].
  split_and!; [by destruct p|by destruct p|done].
Qed.

Lemma with_value_typed v o : op_typed o -> op_typed (patch_op (PatchValue v) o).
Proof. by apply (patch_typed []). Qed.

Lemma with_conditions_typed cs o : Forall cond_typed cs -> op_typed o -> op_typed (with_conditions cs o).
Proof. intros Hcs (Hm & Hl & _). split_and!; done. Qed.

Lemma update_ops_ok n id f ed :
  (forall o, op_ids (f o) = op_ids o) -> (forall o, op_typed o -> op_typed (f o)) ->
  core_ok n (core ed) -> core_ok n (core (setOperations (update_at id f (operations ed)) ed)).
Proof.
  intros Hf Ht Hok. pose proof Hok as [H1 [H2 H3] H4 _]. eapply set_ops_ok; [done|..].
  - by apply update_at_nonempty.
  - unfold ids_ok. by rewrite update_at_same.
  - by apply update_at_typed.
Qed.

Lemma default_ok n (k : ParamOverrideOperation -> Editor) :
  (forall o m, ids_ok m [o] -> op_typed o -> core_ok m (core (k o))) ->
  keeps n (let! o := createDefaultOperation Date_now toUpperCase in ret (k o)).
Proof.
  intros Hk. eapply keeps_bind; [apply createDefaultOperation_gives|]. intros o m Hi Ho. apply Hk; [|done].
  eapply ids_ok_fresh. cbn [flat_map]. by rewrite app_nil_r.
Qed.

Lemma addOperation_ok n ed : core_ok n (core ed) -> keeps n (addOperation Date_now toUpperCase ed).
Proof.
  intros Hok. pose proof Hok as [H1 H2 H3 _]. eapply keeps_bind; [apply createDefaultOperation_gives|].
  intros o m Hi Ho. apply (set_ops_ok n m (operations ed ++ [o])); [done|..].
  - intros H. by apply app_nil in H as [_ ?].
  - eapply ids_ok_new; [|exact H2|exact Hi]. apply Permutation_submseteq.
    rewrite flat_map_app. cbn [flat_map]. by rewrite app_nil_r.
  - apply Forall_app. split; [done|by constructor].
Qed.

Lemma insert_at_perm {A} i (x : A) l : insert_at i x l ≡ₚ x :: l.
Proof. unfold insert_at. rewrite <- Permutation_middle. by rewrite take_drop. Qed.

Lemma duplicate_ok n eager id ed :
  core_ok n (core ed) -> keeps n (duplicateOperation Date_now toUpperCase eager id ed).
Proof.
  intros Hok. pose proof Hok as [H1 H2 H3 _]. unfold duplicateOperation.
  destruct (find_index _ _) as [i|]; [|by apply keeps_ret].
  destruct (operations ed !! i) as [src|]; [|by apply keeps_ret].
  eapply keeps_bind; [apply normalizeOperation_gives|]. intros o m Hi Ho.
  assert (core_ok m (core (setOperations (insert_at (S i) o (operations ed)) ed))) as H; [|by destruct eager].
  apply (set_ops_ok n m); [done|..].
  - intros H. by apply app_nil in H as [_ ?].
  - eapply ids_ok_new; [|exact H2|exact Hi]. apply Permutation_submseteq.
    rewrite (all_ids_perm _ _ (insert_at_perm (S i) o (operations ed))). cbn [flat_map].
    apply Permutation_app_comm.
  - rewrite insert_at_perm. by constructor.
Qed.

Lemma remove_nonempty id ops :
  NoDup (map o_id ops) -> (1 < length ops)%nat -> jfilter (fun o => negb (jeqb (o_id o) id)) ops <> [].
Proof.
  intros Hnd Hlen H. destruct ops as [|a [|b ops]]; simpl in Hlen; [lia..|]. cbn [map] in Hnd.
  apply NoDup_cons in Hnd as [Hab _].
  assert (forall o, o ∈ a :: b :: ops -> o_id o = id) as Hall.
  { intros o Ho. destruct (jeqb (o_id o) id) eqn:E; [by apply jeqb_spec|]. exfalso.
    assert (o ∈ jfilter (fun o => negb (jeqb (o_id o) id)) (a :: b :: ops)) as Hin
      by (apply jfilter_elem_of; by rewrite E).
    rewrite H in Hin. by apply elem_of_nil in Hin. }
  destruct Hab. rewrite (Hall a), <- (Hall b) by set_solver. by left.
Qed.

Lemma removeOperation_ok n id ed :
  core_ok n (core ed) -> keeps n (removeOperation Date_now toUpperCase id ed).
Proof.
  intros Hok. pose proof Hok as [H1 H2 H3 _]. unfold removeOperation. case_match eqn:Hlen.
  - apply default_ok. intros o m Hi Ho. apply (set_ops_ok n m); [done..|]. by constructor.
  - apply Nat.leb_gt in Hlen. apply keeps_ret, (set_ops_ok n n); [done|..].
    + apply remove_nonempty; [by eapply o_ids_nodup|done].
    + eapply ids_ok_sub; [|exact H2]. apply filter_ids.
    + apply Forall_forall. intros o [_ Ho]%jfilter_elem_of. rewrite Forall_forall in H3. by apply H3.
Qed.

Lemma addCondition_ok n id ed : core_ok n (core ed) -> keeps n (addCondition Date_now id ed).
Proof.
  intros Hok. pose proof Hok as [H1 H2 H3 _]. eapply keeps_bind; [apply normalizeCondition_gives|].
  intros c m Hi Hc. apply (set_ops_ok n m); [done|..].
  - by apply update_at_nonempty.
  - eapply ids_ok_new; [|exact H2|exact Hi]. apply update_at_add. by eapply o_ids_nodup.
  - apply update_at_typed; [|done]. intros o Ho. apply with_conditions_typed; [|done].
    apply Forall_app. split; [apply Ho|by constructor].
Qed.

Lemma updateCondition_ok n id cid p ed :
  event_ok (EvUpdateCondition id cid p) = true ->
  core_ok n (core ed) -> core_ok n (core (updateCondition id cid p ed)).
Proof.
  intros Hp. apply update_ops_ok.
  - intros o. unfold op_ids. cbn [o_id o_conditions with_conditions]. f_equal. rewrite map_map.
    apply map_ext. intros c. by case_match.
  - intros o Ho. apply with_conditions_typed; [|done]. apply Forall_map.
    eapply Forall_impl; [apply Ho|]. cbn beta. intros c Hc. case_match; [|done].
    unfold cond_typed. cbn [patch_cond c_mode]. by destruct p.
Qed.

Lemma removeCondition_ok n id cid ed : core_ok n (core ed) -> core_ok n (core (removeCondition id cid ed)).
Proof.
  intros Hok. pose proof Hok as [H1 H2 H3 _]. apply (set_ops_ok n n); [done|..].
  - by apply update_at_nonempty.
  - eapply ids_ok_sub; [|exact H2]. apply update_at_sub. intros o. unfold op_ids.
    cbn [o_id o_conditions with_conditions]. apply submseteq_skip.
    induction (o_conditions o) as [|c cs IH]; [done|]. cbn [List.filter map].
    case_match; cbn [map]; [by apply submseteq_skip|by apply submseteq_cons].
  - apply update_at_typed; [|done]. intros o Ho. apply with_conditions_typed; [|done].
    apply Forall_forall. intros c [_ Hc]%jfilter_elem_of. destruct Ho as (_ & _ & Ho).
    rewrite Forall_forall in Ho. by apply Ho.
Qed.

(** Rules that are rewritten one by one. *)
Lemma mapM_update (f : ParamOverrideOperation -> M ParamOverrideOperation) ops n r m :
  (forall o, mono (f o)) ->
  (forall o k o' k', f o k = (Some o', k') -> op_ids o' = op_ids o /\ (op_typed o -> op_typed o')) ->
  mapM f ops n = (r, m) ->
  n <= m /\ forall ops', r = Some ops' -> all_ids ops' = all_ids ops /\ length ops' = length ops /\
    (Forall op_typed ops -> Forall op_typed ops').
Proof.
  intros Hm Hf H. split; [by eapply (mono_mapM f ops)|]. revert n r m H.
  induction ops as [|o ops IH]; intros n r m H ops' ->; cbn [mapM] in H.
  - injection H as <- _. done.
  - unfold bind in H. destruct (f o n) as [[o'|] n1] eqn:E; [|done].
    destruct (mapM f ops n1) as [[os|] n2] eqn:E2; [|done]. injection H as <- <-.
    destruct (Hf _ _ _ _ E) as [Hi Ht]. destruct (IH _ _ _ E2 os eq_refl) as (Hi' & Hl & Ht').
    cbn [flat_map length]. rewrite Hi, Hi', Hl. split_and!; [done..|].
    intros [??]%Forall_cons. constructor; auto.
Qed.

Lemma pruneDraft_ok n id f ed :
  (forall d, mono (f d)) -> core_ok n (core ed) ->
  keeps n (updatePruneObjectsDraft Date_now toUpperCase id f ed).
Proof.
  intros Hf Hok r m H. pose proof Hok as [H1 [H2 H2'] H3 _]. unfold updatePruneObjectsDraft, bind at 1 in H.
  destruct (update_atM id _ (operations ed) n) as [ro n1] eqn:E.
  apply mapM_update in E as [Hle Hops].
  - destruct ro as [ops|]; injection H as <- <-; [|done]. split; [done|]. intros ? [= <-].
    destruct (Hops ops eq_refl) as (Hi & Hl & Ht). apply (set_ops_ok n n1); [done|..|auto].
    + intros ->. simpl in Hl. unfold operations in Hl. by destruct (es_operations (core ed)).
    + unfold ids_ok. rewrite Hi. split; [done|]. by eapply issued_mono.
  - intros o. destruct (jeqb (o_id o) id); [|apply mono_ret]. apply mono_bind; [apply mono_parsePrune|]. intros d.
    apply mono_bind; [done|]. intros. apply mono_ret.
  - intros o k o' k'. destruct (jeqb (o_id o) id); [|by intros [= <- _]]. unfold bind.
    destruct (parsePruneObjectsDraft _ _ _ k) as [[d|] k1]; [|done]. destruct (f d k1) as [[d'|] k2]; [|done].
    intros [= <- _]. split; [done|]. apply with_value_typed.
Qed.

Lemma handleDrop_ok n data id ed : core_ok n (core ed) -> core_ok n (core (handleDrop data id ed)).
Proof.
  intros Hok. pose proof Hok as [H1 H2 H3 _]. unfold handleDrop. cbv zeta.
  set (src := if truthy _ then _ else data). set (pos := if jeqb _ id then _ else Before).
  destruct (truthy src && truthy id && negb (jeqb src id)); [|exact Hok].
  pose proof (reorder_perm (operations ed) src id pos) as Hp. apply (set_ops_ok n n); [done|..].
  - intros He. rewrite He in Hp. apply Permutation_nil_l in Hp. by destruct H1.
  - eapply ids_ok_sub; [|exact H2]. by apply Permutation_submseteq, all_ids_perm.
  - by rewrite Hp.
Qed.

(** ** Texts *)

Lemma build_ops_text ops b s :
  buildOperationsJson t type_error ops b = inl s -> s = [] \/ exists j, s = stringify_indent j.
Proof.
  unfold buildOperationsJson. destruct (jfilter _ ops) as [|o os]; [intros [= <-]; by left|].
  intros H. right. destruct (if b then _ else _) as [|[|c m]|]; try done; injection H as <-; by eexists.
Qed.

Lemma legacy_text s s' : legacy_json t s = inl s' -> s' = [] \/ exists j, s' = stringify_indent j.
Proof.
  unfold legacy_json. case_match; [intros [= <-]; by left|]. destruct (json_parse (trim s)) as [[]|]; try done.
  intros [= <-]. right. by eexists.
Qed.

Lemma visual_text ed s :
  buildVisualJson t type_error ed = inl s -> s = [] \/ exists j, s = stringify_indent j.
Proof. unfold buildVisualJson. case_match; [apply build_ops_text|apply legacy_text]. Qed.

Lemma switchJson_ok n ed :
  (forall k o, k <> [] -> t k o <> []) ->
  core_ok n (core ed) -> core_ok n (core (switchToJsonMode t type_error ed)).
Proof.
  intros Ht Hok. pose proof Hok as [H1 H2 H3 _]. unfold switchToJsonMode.
  destruct (es_editMode (core ed)); [|done].
  destruct (buildVisualJson t type_error ed) as [s|e] eqn:E; split; try done.
  - intros _ _. apply visual_text in E as [-> |Hj]; [by left|by right; right].
  - intros _. cbn [es_jsonError core set_core core_of]. destruct (truthy e) eqn:He.
    + apply truthy_spec in He. done.
    + intros Hn. by apply Ht in Hn.
Qed.

Lemma switchVisual_ok n ed : core_ok n (core ed) -> keeps n (switchToVisualMode Date_now toUpperCase ed).
Proof.
  intros Hok. unfold switchToVisualMode. destruct (es_editMode (core ed)); [by apply keeps_ret|].
  destruct (negb _).
  { apply default_ok. intros o m Hi Ho. apply visual_ok; [done..|by constructor]. }
  destruct (json_parse _) as [j|]; [|by apply keeps_ret].
  destruct j as [| | | | |f]; try by apply keeps_ret.
  assert (keeps n (let! fallback := createDefaultOperation Date_now toUpperCase in
    ret (setTemplatePresetKey (u "legacy_default") (setSelectedOperationId (o_id fallback)
      (set_core (core_of EditVisual VisualLegacy (stringify_indent (JObj f)) [fallback] (es_jsonText (core ed)) []) ed)))))
    as Hlegacy.
  { apply default_ok. intros o m Hi Ho. apply visual_ok; [done..|by constructor]. }
  destruct (field _ _) as [[]|]; try exact Hlegacy.
  eapply keeps_bind; [apply read_operations_gives|]. intros ops m Hi [Ht Hne].
  apply visual_ok; [done| |done]. by eapply ids_ok_fresh.
Qed.

Lemma fill_legacy_ok n text ed : keeps n (fill_legacy Date_now toUpperCase text ed).
Proof. apply default_ok. intros o m Hi Ho. apply visual_ok; [done..|by constructor]. Qed.

(** No template is empty. *)
Lemma preset_nonempty key payload :
  preset key = (PresetOperations, payload) -> preset_operations payload <> [].
Proof.
  unfold preset, TEMPLATE_PRESET_CONFIG. cbn [obj_get]. repeat case_match; by intros [= <-].
Qed.

Lemma fillTemplate_ok n mode ed : core_ok n (core ed) -> keeps n (fillTemplate Date_now toUpperCase mode ed).
Proof.
  intros Hok. pose proof Hok as [H1 H2 H3 _]. unfold fillTemplate.
  destruct (preset (templatePresetKey ed)) as [[] payload] eqn:Hp.
  2: { destruct mode, (es_visualMode (core ed)); try apply fill_legacy_ok. destruct (negb _); [apply fill_legacy_ok|].
       destruct (json_parse _); [apply fill_legacy_ok|by apply keeps_ret]. }
  apply preset_nonempty in Hp. intros r m H. unfold bind at 1 in H.
  destruct (mapM _ (preset_operations payload) n) as [ro n1] eqn:E.
  destruct (operations_gives Date_now toUpperCase _ _ _ _ E) as [Hle Hg].
  destruct ro as [added|]; [|by injection H as <- <-]. destruct (Hg added eq_refl) as (Hi & Ht & Hl).
  assert (added <> []) as Hne by (intros ->; by destruct (preset_operations payload)).
  destruct mode.
  - destruct added as [|a added]; [done|]. injection H as <- <-. split; [done|]. intros ? [= <-].
    apply visual_ok; [done| |done]. by eapply ids_ok_fresh.
  - injection H as <- <-. split; [done|]. intros ? [= <-].
    set (existing := match es_visualMode (core ed) with VisualOperations => _ | VisualLegacy => _ end).
    assert (all_ids existing ⊆+ all_ids (es_operations (core ed)) /\ Forall op_typed existing) as [Hs Hte].
    { unfold existing. destruct (es_visualMode _); [|split; [apply submseteq_nil_l|constructor]].
      split; [apply filter_ids|]. apply Forall_forall. intros o [_ Ho]%jfilter_elem_of.
      rewrite Forall_forall in H3. by apply H3. }
    apply visual_ok.
    + intros Hn. by apply app_nil in Hn as [_ ?].
    + eapply ids_ok_new; [|exact H2|exact Hi]. rewrite flat_map_app. by apply submseteq_app.
    + by apply Forall_app.
Qed.

Lemma handleJsonChange_ok n v ed :
  (forall k o, k <> [] -> t k o <> []) ->
  core_ok n (core ed) -> core_ok n (core (handleJsonChange t v ed)).
Proof.
  intros Ht [H1 H2 H3 _]. split; try done. cbn [core set_core setJson core_of es_editMode es_jsonError es_jsonText handleJsonChange].
  intros _. destruct (truthy (trim v)) eqn:Hv; cbn [negb orb].
  - destruct (verifyJSON (trim v)) eqn:Hj; intros He; [by right; left|]. by apply Ht in He.
  - intros _. left. by destruct (trim v).
Qed.

Lemma formatJson_ok n ed : core_ok n (core ed) -> core_ok n (core (formatJson ed)).
Proof.
  intros Hok. pose proof Hok as [H1 H2 H3 _]. unfold formatJson. case_match; [done|].
  destruct (json_parse _) as [j|]; [|done]. split; try done. intros _ _. right; right. by eexists.
Qed.

Lemma addPrune_mono d :
  mono (let! rule := normalizePruneRule Date_now (JObj []) in
        ret (with_simple false (with_rules (pd_rules d ++ [rule]) d))).
Proof. apply mono_bind; [apply mono_rule|]. intros. apply mono_ret. Qed.

Lemma expand_all_core b ed : core (expand_all b ed) = core ed.
Proof. unfold expand_all. by case_match. Qed.

Lemma handleDragOver_core lower id ed : core (handleDragOver lower id ed) = core ed.
Proof. unfold handleDragOver. by case_match. Qed.

Lemma handle_ok n e ed :
  (forall k o, k <> [] -> t k o <> []) -> event_ok e = true -> core_ok n (core ed) ->
  keeps n (handle Date_now toUpperCase t type_error e ed).
Proof.
  intros Ht He Hok. destruct e; cbn [handle];
    try (apply keeps_ret; exact Hok).
  - apply keeps_ret. apply update_ops_ok; [done| |done]. intros o. by eapply patch_typed.
  - by apply addOperation_ok.
  - by apply duplicate_ok.
  - by apply removeOperation_ok.
  - by apply addCondition_ok.
  - apply keeps_ret. by apply updateCondition_ok.
  - apply keeps_ret. by apply removeCondition_ok.
  - apply keeps_ret. by rewrite expand_all_core.
  - apply keeps_ret. apply update_ops_ok; [done| |done]. intros o. apply with_value_typed.
  - apply pruneDraft_ok; [intros; apply mono_ret|done].
  - apply pruneDraft_ok; [apply addPrune_mono|done].
  - apply pruneDraft_ok; [intros; apply mono_ret|done].
  - apply pruneDraft_ok; [intros; apply mono_ret|done].
  - apply keeps_ret. by rewrite handleDragOver_core.
  - apply keeps_ret. by apply handleDrop_ok.
  - apply keeps_ret. by destruct Hok; split.
  - apply keeps_ret. by apply switchJson_ok.
  - by apply switchVisual_ok.
  - by apply fillTemplate_ok.
  - apply default_ok. intros o m Hi Ho. apply visual_ok; [done..|by constructor].
  - apply keeps_ret. by apply handleJsonChange_ok.
  - apply keeps_ret. by apply formatJson_ok.
Qed.

Lemma initialize_ok n value :
  keeps n (initialize Date_now toUpperCase value).
Proof.
  intros r m H. unfold initialize, bind at 1 in H.
  destruct (parseInitialState Date_now toUpperCase value n) as [rs m1] eqn:E.
  assert (n <= m1 /\ forall c, rs = Some c -> core_ok m1 c) as [Hle Hc].
  2: { destruct rs as [c|]; injection H as <- <-; (split; [done|]); [|done]. intros ? [= <-]. by apply Hc. }
  clear H r m. unfold parseInitialState in E.
  assert (forall em vm legacy text err, (em = EditJson -> err = [] -> text_ok text) ->
    forall r k, (let! o := createDefaultOperation Date_now toUpperCase in
      ret {| es_editMode := em; es_visualMode := vm; es_legacyValue := legacy; es_operations := [o];
             es_jsonText := text; es_jsonError := err |}) n = (r, k) ->
    n <= k /\ forall c, r = Some c -> core_ok k c) as Hdef.
  { intros em vm legacy text err Htx r k Hr. unfold bind in Hr.
    destruct (createDefaultOperation _ _ n) as [[o|] k1] eqn:Eo; injection Hr as <- <-;
      destruct (createDefaultOperation_gives _ _ _ _ _ Eo) as [Hle Ho]; (split; [done|]); [|done].
    intros ? [= <-]. destruct (Ho o eq_refl) as [Hi Hty]. split; cbn; [done| |by constructor|done].
    eapply ids_ok_fresh. cbn [flat_map]. by rewrite app_nil_r. }
  destruct (negb _); [by eapply Hdef in E|].
  destruct (json_parse (trim value)) as [j|] eqn:Hj; [|by eapply Hdef in E].
  destruct j as [| | | | |f]; try (eapply Hdef in E; [exact E|intros _ _; right; right; by eexists]).
  destruct (field _ _) as [[]|]; try by (eapply Hdef in E).
  unfold bind in E. destruct (read_operations _ _ l n) as [[ops|] k1] eqn:Eo; injection E as <- <-;
    destruct (read_operations_gives _ _ _ _ _ _ Eo) as [Hle Ho]; (split; [done|]); [|done].
  intros ? [= <-]. destruct (Ho ops eq_refl) as (Hi & Hty & Hne). apply visual_ok; [done| |done].
  by eapply ids_ok_fresh.
Qed.

(** ** Reachable states *)

Definition dialog_ok (d : Dialog) : Prop :=
  match editor d with Some ed => editor_ok (localIdSeed d) ed | None => True end.

Lemma core_ok_mono n m c : n <= m -> core_ok n c -> core_ok m c.
Proof. intros Hle [H1 H2 H3 H4]. split; try done. by eapply ids_ok_mono. Qed.

Lemma dialog_step_ok d d' :
  (forall k o, k <> [] -> t k o <> []) -> dialog_ok d ->
  dialog_step Date_now toUpperCase t type_error d d' -> dialog_ok d'.
Proof.
  intros Ht Hd. destruct 1 as [d value ed n Hi|d ed e ed' n Hed He Hh|d ed e n Hed He Hh|d ed memo r n Hed Hr|d ed text Hed Hs|d];
    unfold dialog_ok in *; cbn; try done.
  - apply initialize_ok in Hi as [_ Hi]. apply settle_ok. by apply Hi.
  - rewrite Hed in Hd. apply (handle_ok _ _ _ Ht He (proj1 Hd)) in Hh as [_ Hh]. apply settle_ok. by apply Hh.
  - rewrite Hed in Hd. apply (handle_ok _ _ _ Ht He (proj1 Hd)) in Hh as [Hle _]. destruct Hd as [Hc Hsel].
    split; [|done]. by eapply core_ok_mono.
  - rewrite Hed in Hd. destruct Hd as [Hc Hsel]. split; [|done]. eapply core_ok_mono; [|exact Hc].
    by eapply mono_render.
Qed.

Lemma reachable_ok d :
  (forall k o, k <> [] -> t k o <> []) -> reachable Date_now toUpperCase t type_error d -> dialog_ok d.
Proof. intros Ht. revert d. apply rtc_ind_r; [done|]. intros d1 d2 _ Hs Hd1. by eapply dialog_step_ok. Qed.

End Invariant.

(** C3: in every reachable state of an open dialog there is a rule, the selected one is among the
    rules, the identifiers of the rules and of their conditions are all distinct, every rule has
    a mode and a logic of the editor and conditions with a mode of the editor, and where the JSON
    text is edited and no error is shown, the text is empty, valid JSON or printed from a value. *)
Theorem override_invariant Date_now toUpperCase t type_error d ed :
  (forall k o, k <> [] -> t k o <> []) ->
  reachable Date_now toUpperCase t type_error d -> editor d = Some ed ->
  selectedOperationId ed ∈ map o_id (operations ed) /\ NoDup (flat_map op_ids (operations ed)) /\
  Forall op_typed (operations ed) /\
  (es_editMode (core ed) = EditJson -> es_jsonError (core ed) = [] -> text_ok (es_jsonText (core ed))).
Proof.
  intros Ht Hr Hed. pose proof (reachable_ok _ _ _ _ d Ht Hr) as Hd. unfold dialog_ok in Hd. rewrite Hed in Hd. destruct Hd as [[_ [Hn _] Hty Htx] Hsel]. done.
Qed.

(** The dialog after opening an empty value and adding a rule. *)
Definition sample_now (n : N) : N := 1700000000000 + n.
Definition sample_t (k : jstr) (_ : option N) : jstr := k.

Definition opened : Editor :=
  match initialize sample_now id [] 0 with (Some ed, _) => settle ed | (None, _) => Build_Editor (core_of EditVisual VisualOperations [] [] [] []) [] [] [] no_drag [] end.

Definition added_rule : Editor :=
  match addOperation sample_now id opened 1 with (Some ed, _) => settle ed | (None, _) => opened end.

Definition added_dialog : Dialog := {| editor := Some added_rule; localIdSeed := 2; saved := [] |}.

Lemma added_rule_reachable : reachable sample_now id sample_t [] added_dialog.
Proof.
  eapply rtc_l; [eapply (StepOpen _ _ _ _ initial_dialog []); vm_compute; reflexivity|].
  eapply rtc_l; [eapply (StepEvent _ _ _ _ _ _ EvAddOperation); [reflexivity..|vm_compute; reflexivity]|].
  match goal with |- rtc _ ?x ?y => assert (x = y) as ->; [vm_compute; reflexivity|apply rtc_refl] end.
Qed.

Lemma override_invariant_witness :
  (forall k o, k <> [] -> sample_t k o <> []) /\
  selectedOperationId added_rule = local_id sample_now 1 /\
  selectedOperationId added_rule ∈ map o_id (operations added_rule).
Proof.
  split; [done|]. split; [vm_compute; reflexivity|].
  apply (override_invariant sample_now id sample_t [] added_dialog added_rule); [done|exact added_rule_reachable|done].
Defined.

(** ** What is saved *)

Definition PATH_MODES : list jstr :=
  [u "set"; u "delete"; u "append"; u "prepend"; u "replace"; u "regex_replace"; u "trim_prefix";
   u "trim_suffix"; u "ensure_prefix"; u "ensure_suffix"; u "trim_space"; u "to_lower"; u "to_upper";
   u "set_header"; u "delete_header"].

Definition HEADER_TRANSFERS : list jstr := [u "copy_header"; u "move_header"].

(** What a rule needs before it is saved. *)
Record op_complete (o : ParamOverrideOperation) : Prop := {
  needs_path : has (o_mode o) PATH_MODES = true -> trim (o_path o) <> [];
  needs_from : has (o_mode o) FROM_REQUIRED_MODES = true ->
    trim (o_from o) <> [] \/ (has (o_mode o) HEADER_TRANSFERS = true /\ trim (o_path o) <> []);
  needs_to : has (o_mode o) TO_REQUIRED_MODES = true ->
    trim (o_to o) <> [] \/ (has (o_mode o) HEADER_TRANSFERS = true /\ trim (o_path o) <> []);
  needs_value : has (o_mode o) VALUE_REQUIRED_MODES = true -> trim (o_value_text o) <> [];
  needs_message : o_mode o = u "return_error" -> error_message_missing (trim (o_value_text o)) = false;
  needs_headers : o_mode o = u "pass_headers" ->
    exists h hs, parsePassHeaderNames (parseLooseValue (trim (o_value_text o))) = Some (h :: hs)
}.

Lemma mode_flags m :
  has m OPERATION_MODE_VALUES = true ->
  truthy m = true /\ m_path (meta_of m) = has m PATH_MODES /\ m_pathAlias (meta_of m) = has m HEADER_TRANSFERS.
Proof.
  unfold has at 1. intros (x & Hx & ->%jeqb_spec)%existsb_exists.
  assert (forallb (fun m => truthy m && Bool.eqb (m_path (meta_of m)) (has m PATH_MODES)
    && Bool.eqb (m_pathAlias (meta_of m)) (has m HEADER_TRANSFERS)) OPERATION_MODE_VALUES = true) as H
    by by vm_compute.
  rewrite forallb_forall in H. specialize (H x Hx). apply andb_prop in H as [[H1 H2]%andb_prop H3].
  by apply eqb_prop in H2, H3.
Qed.

Lemma truthy_false s : truthy s = false <-> s = [].
Proof. by destruct s. Qed.

(** A test that must hold, before the other ones. *)
Lemma need_iff (b : bool) (msg : jstr) (rest : check) (P Q : Prop) :
  (b = false <-> P) -> (rest = Valid <-> Q) -> (if b then Invalid msg else rest) = Valid <-> P /\ Q.
Proof. intros HP HQ. destruct b; [|by rewrite HQ, <- HP; naive_solver]. split; [done|]. intros [H%HP _]. done. Qed.

Lemma validate_op_complete t o line :
  has (o_mode o) OPERATION_MODE_VALUES = true -> validate_op t o line = Valid <-> op_complete o.
Proof.
  intros Hm. destruct (mode_flags _ Hm) as (Ht & Hp & Ha). unfold validate_op. rewrite Ht, Hp, Ha. cbv zeta.
  transitivity (
    (has (o_mode o) PATH_MODES = true -> trim (o_path o) <> []) /\
    (has (o_mode o) FROM_REQUIRED_MODES = true ->
      trim (o_from o) <> [] \/ (has (o_mode o) HEADER_TRANSFERS = true /\ trim (o_path o) <> [])) /\
    (has (o_mode o) TO_REQUIRED_MODES = true ->
      trim (o_to o) <> [] \/ (has (o_mode o) HEADER_TRANSFERS = true /\ trim (o_path o) <> [])) /\
    (has (o_mode o) VALUE_REQUIRED_MODES = true -> trim (o_value_text o) <> []) /\
    (o_mode o = u "return_error" -> error_message_missing (trim (o_value_text o)) = false) /\
    (o_mode o = u "pass_headers" ->
      exists h hs, parsePassHeaderNames (parseLooseValue (trim (o_value_text o))) = Some (h :: hs))).
  2: { split; [intros (?&?&?&?&?&?); by split|intros []; split_and!; assumption]. }
  repeat apply need_iff; rewrite <- ?truthy_spec.
  1-4: repeat match goal with |- context [has ?m ?l] => destruct (has m l) | |- context [truthy ?x] => destruct (truthy x) end;
       cbn; naive_solver.
  - destruct (jeqb (o_mode o) (u "return_error")) eqn:E; cbn [andb].
    + apply jeqb_spec in E. split; [done|]. intros H. by apply H.
    + apply jeqb_neq in E. split; [|done]. intros _ H. by destruct E.
  - destruct (jeqb (o_mode o) (u "pass_headers")) eqn:E.
    + apply jeqb_spec in E. destruct (parsePassHeaderNames _) as [[|h hs]|].
      * split; [done|]. intros H. by destruct (H E) as (? & ? & ?).
      * split; [|done]. intros _ _. by exists h, hs.
      * split; [done|]. intros H. by destruct (H E) as (? & ? & ?).
    + apply jeqb_neq in E. split; [|done]. intros _ H. by destruct E.
Qed.

Lemma validate_from_complete t line ops :
  Forall (fun o => has (o_mode o) OPERATION_MODE_VALUES = true) ops ->
  validate_from t line ops = Valid <-> Forall op_complete ops.
Proof.
  intros Hm. revert line. induction Hm as [|o ops Ho _ IH]; intros line; [done|]. cbn [validate_from].
  rewrite Forall_cons, <- (validate_op_complete t o line Ho), <- (IH (line + 1)).
  destruct (validate_op t o line); naive_solver.
Qed.

(** The message of an invalid rule is one of the translated messages. *)
Lemma validate_from_message t line ops m :
  (forall k o, k <> [] -> t k o <> []) -> validate_from t line ops = Invalid m -> m <> [].
Proof.
  intros Ht. revert line. induction ops as [|o ops IH]; intros line; [done|]. cbn [validate_from].
  destruct (validate_op t o line) as [|m'|] eqn:E; [apply IH| |done]. intros [= <-].
  unfold validate_op in E. revert E. cbv zeta. repeat case_match; try done; intros [= <-]; by apply Ht.
Qed.

(** The rules that are written. *)
Definition written (ed : Editor) : list ParamOverrideOperation :=
  jfilter (fun o => negb (isOperationBlank o)) (operations ed).

Lemma save_iff t type_error ed s :
  (forall k o, k <> [] -> t k o <> []) -> Forall op_typed (written ed) ->
  es_editMode (core ed) = EditVisual -> es_visualMode (core ed) = VisualOperations ->
  save_result t type_error ed = inl s <->
  Forall op_complete (written ed) /\
  s = match written ed with [] => [] | ops => stringify_indent (operations_json ops) end.
Proof.
  intros Ht Hty Hem Hvm.
  assert (Forall (fun o => has (o_mode o) OPERATION_MODE_VALUES = true) (written ed)) as Hm
    by (eapply Forall_impl; [exact Hty|]; by intros o [? _]).
  unfold save_result, buildVisualJson. rewrite Hem, Hvm. unfold buildOperationsJson. fold (written ed).
  rewrite <- (validate_from_complete t 1 _ Hm). fold (validateOperations t (written ed)).
  pose proof (validate_from_message t 1 (written ed)) as Hmsg. fold (validateOperations t (written ed)) in Hmsg.
  destruct (written ed) as [|o ops]; [by split; [intros [= <-]|intros [_ ->]]|].
  destruct (validateOperations t (o :: ops)) as [|[|c m]|].
  - by split; [intros [= <-]|intros [_ ->]].
  - by destruct (Hmsg [] Ht).
  - by split; [|intros [? _]].
  - by split; [|intros [? _]].
Qed.

Lemma written_typed Date_now toUpperCase t type_error d ed :
  (forall k o, k <> [] -> t k o <> []) ->
  reachable Date_now toUpperCase t type_error d -> editor d = Some ed -> Forall op_typed (written ed).
Proof.
  intros Ht Hr Hed. pose proof (reachable_ok _ _ _ _ d Ht Hr) as Hd. unfold dialog_ok in Hd. rewrite Hed in Hd.
  destruct Hd as [[_ _ Hty _] _]. apply Forall_forall. intros o [_ Ho]%jfilter_elem_of.
  rewrite Forall_forall in Hty. by apply Hty.
Qed.

(** C14: in every reachable state that shows rules, saving succeeds exactly when every rule that is
    not blank has the fields its mode needs; the text is then empty without such rules, and else
    the indented JSON of these rules in order.  Otherwise nothing is saved. *)
Theorem override_save_spec Date_now toUpperCase t type_error d ed s :
  (forall k o, k <> [] -> t k o <> []) ->
  reachable Date_now toUpperCase t type_error d -> editor d = Some ed ->
  es_editMode (core ed) = EditVisual -> es_visualMode (core ed) = VisualOperations ->
  save_result t type_error ed = inl s <->
  Forall op_complete (written ed) /\
  s = match written ed with [] => [] | ops => stringify_indent (operations_json ops) end.
Proof. intros Ht Hr Hed. by apply save_iff, (written_typed _ _ _ _ d ed Ht Hr Hed). Qed.

Lemma override_save_spec_witness :
  (forall k o, k <> [] -> sample_t k o <> []) /\
  (save_result sample_t [] added_rule = inl [] <->
   Forall op_complete (written added_rule) /\
   [] = match written added_rule with [] => [] | ops => stringify_indent (operations_json ops) end).
Proof.
  split; [done|].
  apply (override_save_spec sample_now id sample_t [] added_dialog added_rule []); [done|exact added_rule_reachable|done..].
Defined.
