(* ===== verification/OverrideRoundtrip.v ===== *)
(** * Parameter overrides: what a text keeps

    Reading back what the editor of parameter overrides saved: which part of a rule survives,
    when a rule survives whole, and where opening and saving changes a rule. *)

From stdpp Require Import relations.
From S2P Require Import Prelude JsString JsNumber Json JsonFacts ParamOverride OverrideEditor OverrideFacts OverrideInvariant.
Open Scope N_scope.

(** ** Rules without their identifiers *)

Definition cond_content (c : ParamOverrideCondition) : ParamOverrideCondition :=
  {| c_id := []; c_path := c_path c; c_mode := c_mode c; c_value_text := c_value_text c;
     c_invert := c_invert c; c_pass_missing_key := c_pass_missing_key c |}.

Definition content (o : ParamOverrideOperation) : ParamOverrideOperation :=
  {| o_id := []; o_description := o_description o; o_path := o_path o; o_mode := o_mode o;
     o_from := o_from o; o_to := o_to o; o_value_text := o_value_text o; o_keep_origin := o_keep_origin o;
     o_logic := o_logic o; o_conditions := map cond_content (o_conditions o) |}.

(** The text of a value that was written and read back. *)
Definition settled (valueText : jstr) : jstr := toValueText (Some (parseLooseValue valueText)).

(** What is kept of a condition with a path. *)
Definition kept_cond (c : ParamOverrideCondition) : ParamOverrideCondition :=
  {| c_id := []; c_path := trim (c_path c); c_mode := c_mode c; c_value_text := settled (c_value_text c);
     c_invert := c_invert c; c_pass_missing_key := c_pass_missing_key c |}.

Definition kept_conds (cs : list ParamOverrideCondition) : list ParamOverrideCondition :=
  map kept_cond (jfilter (fun c => truthy (trim (c_path c))) cs).

(** What is kept of a rule: the fields of its mode, trimmed; a header transfer without a source
    or a target takes the path. *)
Definition kept (o : ParamOverrideOperation) : ParamOverrideOperation :=
  let meta := meta_of (o_mode o) in
  let path := trim (o_path o) in
  let or_path (s : jstr) := if m_pathAlias meta && negb (truthy s) then path else s in
  {| o_id := [];
     o_description := trim (o_description o);
     o_path := if m_path meta || m_pathOptional meta then path else [];
     o_mode := o_mode o;
     o_from := if m_from meta then or_path (trim (o_from o)) else [];
     o_to := or_path (trim (o_to o));
     o_value_text := if m_value meta then settled (o_value_text o) else [];
     o_keep_origin := m_keepOrigin meta && o_keep_origin o;
     o_logic := match kept_conds (o_conditions o) with [] => u "OR" | _ => o_logic o end;
     o_conditions := kept_conds (o_conditions o) |}.

(** ** Reading a payload *)

Lemma get_put_if b k v p k' :
  obj_get k' (put_if b k v p) = if b && jeqb k k' then Some v else obj_get k' p.
Proof. unfold put_if. destruct b; [apply get_set|done]. Qed.

(** A header transfer has a source and a target, and no mode has both kinds of path. *)
Lemma meta_flags m :
  has m OPERATION_MODE_VALUES = true ->
  truthy m = true /\ (m_pathAlias (meta_of m) = true -> m_from (meta_of m) = true /\ m_to (meta_of m) = true).
Proof.
  unfold has. intros (x & Hx & ->%jeqb_spec)%existsb_exists.
  assert (forallb (fun m => truthy m && implb (m_pathAlias (meta_of m)) (m_from (meta_of m) && m_to (meta_of m)))
    OPERATION_MODE_VALUES = true) as H by by vm_compute.
  rewrite forallb_forall in H. specialize (H x Hx). apply andb_prop in H as [H1 H2]. split; [done|].
  intros Ha. rewrite Ha in H2. by apply andb_prop in H2.
Qed.

(** Comparing literal names. *)
Ltac names :=
  repeat match goal with |- context [jeqb (u ?a) (u ?b)] =>
    let r := eval vm_compute in (jeqb (u a) (u b)) in change (jeqb (u a) (u b)) with r end;
  rewrite ?andb_true_r, ?andb_false_r; cbn [negb andb orb].

Ltac gets := repeat (rewrite ?get_set, ?get_put_if; names).

(** The fields of a payload. *)
Record payload_fields (o : ParamOverrideOperation) (f : list (jstr * json)) : Prop := {
  pf_mode : obj_get (u "mode") f = Some (JStr (o_mode o));
  pf_description : str_field (u "description") (JObj f) = o_description (kept o);
  pf_path : str_field (u "path") (JObj f) = o_path (kept o);
  pf_from : str_field (u "from") (JObj f) = o_from (kept o);
  pf_to : str_field (u "to") (JObj f) = o_to (kept o);
  pf_value : obj_get (u "value") f =
    if m_value (meta_of (o_mode o)) then Some (parseLooseValue (o_value_text o)) else None;
  pf_keep : true_field (u "keep_origin") (JObj f) = o_keep_origin (kept o);
  pf_logic : obj_get (u "logic") f =
    match omap buildConditionPayload (o_conditions o) with
    | [] => None
    | _ => Some (JStr (if jeqb (o_logic o) (u "AND") then u "AND" else u "OR"))
    end;
  pf_conditions : obj_get (u "conditions") f =
    match omap buildConditionPayload (o_conditions o) with
    | [] => None
    | cs => Some (JArr cs)
    end
}.

Lemma payload_reads o :
  has (o_mode o) OPERATION_MODE_VALUES = true -> exists f, operation_payload o = JObj f /\ payload_fields o f.
Proof.
  intros Hm. destruct (meta_flags _ Hm) as [Ht Ha]. unfold operation_payload. rewrite Ht. cbv zeta.
  destruct (omap buildConditionPayload (o_conditions o)) as [|c cs] eqn:Hcs;
    (eexists; split; [reflexivity|]); unfold empty_field;
    split; rewrite ?Hcs; unfold str_field, true_field, field, kept, settled; cbn [o_description o_path o_from o_to o_value_text o_keep_origin];
    gets; try reflexivity; revert Ha; clear; generalize (meta_of (o_mode o)); intros meta Ha; cbn [obj_get]; names;
    destruct meta as [[] [] v from to k []]; cbn in *;
    try (destruct (Ha eq_refl) as [-> ->]);
    repeat match goal with
           | |- context [match trim ?s with _ => _ end] => destruct (trim s)
           | |- context [if ?b then _ else _] => is_var b; destruct b
           | |- context [trim ?s] => destruct (trim s)
           end; try reflexivity; by destruct (k && _).
Qed.

(** ** Reading rules *)

Lemma mapM_reads {A B C} (f : A -> M B) (g : B -> C) l (cs : list C) :
  Forall2 (fun a c => forall n, exists b m, f a n = (Some b, m) /\ g b = c) l cs ->
  forall n, exists bs m, mapM f l n = (Some bs, m) /\ map g bs = cs.
Proof.
  induction 1 as [|a c l cs Ha _ IH]; intros n; [by exists [], n|].
  destruct (Ha n) as (b & m & Hf & <-), (IH m) as (bs & m' & Hr & <-). exists (b :: bs), m'.
  split; [|done]. cbn [mapM]. unfold bind at 1. rewrite Hf. unfold bind. by rewrite Hr.
Qed.

Lemma has_truthy m values : forallb truthy values = true -> has m values = true -> truthy m = true.
Proof.
  intros Hv. unfold has. intros (x & Hx & ->%jeqb_spec)%existsb_exists. rewrite forallb_forall in Hv. by apply Hv.
Qed.

Section Reading.
Context (Date_now : N -> N) (toUpperCase : jstr -> jstr).

Lemma rule_condition_reads c j n :
  cond_typed c -> buildConditionPayload c = Some j ->
  exists c' m, normalizeCondition Date_now j n = (Some c', m) /\ cond_content c' = kept_cond c.
Proof.
  intros Hc. unfold buildConditionPayload. destruct (truthy (trim (c_path c))); [|done]. cbn [negb].
  rewrite (has_truthy _ CONDITION_MODE_VALUES eq_refl Hc). intros [= <-].
  do 2 eexists. split; [unfold normalizeCondition, bind, nextLocalId; cbn [ret]; reflexivity|].
  unfold cond_content, kept_cond, settled, mode_field, str_field, true_field, field.
  destruct (c_invert c), (c_pass_missing_key c); cbn [app obj_get]; names; cbn iota; by rewrite Hc.
Qed.

Lemma rule_conditions_read cs n :
  Forall cond_typed cs ->
  exists cs' m, mapM (normalizeCondition Date_now) (omap buildConditionPayload cs) n = (Some cs', m) /\
    map cond_content cs' = kept_conds cs.
Proof.
  intros Hcs. apply mapM_reads. unfold kept_conds. induction Hcs as [|c cs Hc _ IH]; [constructor|].
  cbn [omap list_omap List.filter]. destruct (buildConditionPayload c) as [j|] eqn:Hj.
  - replace (truthy (trim (c_path c))) with true
      by (unfold buildConditionPayload in Hj; by destruct (truthy (trim (c_path c)))).
    constructor; [|done]. intros n'. by apply rule_condition_reads.
  - replace (truthy (trim (c_path c))) with false
      by (unfold buildConditionPayload in Hj; by destruct (truthy (trim (c_path c)))).
    done.
Qed.

Lemma kept_conds_nil cs : omap buildConditionPayload cs = [] <-> kept_conds cs = [].
Proof.
  unfold kept_conds. induction cs as [|c cs IH]; [done|]. cbn [omap list_omap List.filter].
  unfold buildConditionPayload at 1. by destruct (truthy (trim (c_path c))).
Qed.

Hypothesis upper_AND : toUpperCase (u "AND") = u "AND".
Hypothesis upper_OR : toUpperCase (u "OR") = u "OR".

Lemma logic_reads o f :
  has (o_logic o) [u "OR"; u "AND"] = true -> payload_fields o f ->
  logic_field toUpperCase (JObj f) = Some (o_logic (kept o)).
Proof.
  intros Hl Hf. unfold logic_field. cbn [field]. rewrite (pf_logic _ _ Hf). cbn [o_logic kept].
  destruct (omap buildConditionPayload (o_conditions o)) as [|j cs] eqn:Hcs.
  - apply kept_conds_nil in Hcs as ->. change (to_str _) with (Some (u "OR")). cbn iota. by rewrite upper_OR.
  - destruct (kept_conds (o_conditions o)) eqn:Hk; [by rewrite (proj2 (kept_conds_nil _) Hk) in Hcs|].
    unfold has in Hl. cbn [existsb] in Hl.
    destruct (jeqb (o_logic o) (u "AND")) eqn:HA.
    + apply jeqb_spec in HA as ->. change (to_str _) with (Some (u "AND")). cbn iota. by rewrite upper_AND.
    + rewrite !orb_false_r in Hl. apply jeqb_spec in Hl as ->. change (to_str _) with (Some (u "OR")).
      cbn iota. by rewrite upper_OR.
Qed.

Lemma operation_reads o n :
  op_typed o ->
  exists o' m, normalizeOperation Date_now toUpperCase (operation_payload o) n = (Some o', m) /\
    content o' = kept o.
Proof.
  intros (Hm & Hl & Hc). destruct (payload_reads o Hm) as (f & -> & Hf).
  assert (conditions_field Date_now (JObj f)
    = mapM (normalizeCondition Date_now) (omap buildConditionPayload (o_conditions o))) as Hcf.
  { unfold conditions_field. cbn [field]. rewrite (pf_conditions _ _ Hf).
    by destruct (omap buildConditionPayload (o_conditions o)). }
  destruct (rule_conditions_read (o_conditions o) (n + 1) Hc) as (cs & m & Hcs & Hk).
  do 2 eexists. split.
  - unfold normalizeOperation, bind at 1, nextLocalId. rewrite (logic_reads o f Hl Hf), Hcf.
    unfold bind. rewrite Hcs. reflexivity.
  - unfold content. cbn [o_description o_path o_mode o_from o_to o_value_text o_keep_origin o_logic o_conditions].
    rewrite (pf_description _ _ Hf), (pf_path _ _ Hf), (pf_from _ _ Hf), (pf_to _ _ Hf), 
      (pf_keep _ _ Hf), Hk. unfold mode_field. cbn [field]. rewrite (pf_mode _ _ Hf), (pf_value _ _ Hf), Hm.
    unfold kept. by destruct (m_value (meta_of (o_mode o))).
Qed.

End Reading.

Lemma saved_text_trim ops : trim (stringify_indent (operations_json ops)) = stringify_indent (operations_json ops).
Proof.
  unfold stringify_indent, operations_json. rewrite pretty_obj by done.
  change (u "{" ++ ?x) with (123 :: x). change (u "}") with [125].
  rewrite !(assoc_L (++)). eapply (trim_ends 123 125); reflexivity.
Qed.

Section Saved.
Context (Date_now : N -> N) (toUpperCase : jstr -> jstr).
Hypothesis upper_AND : toUpperCase (u "AND") = u "AND".
Hypothesis upper_OR : toUpperCase (u "OR") = u "OR".

Lemma saved_text_reads ops n :
  ops <> [] -> Forall op_typed ops -> json_ok (operations_json ops) = true ->
  exists os m, parseInitialState Date_now toUpperCase (stringify_indent (operations_json ops)) n
    = (Some {| es_editMode := EditVisual; es_visualMode := VisualOperations; es_legacyValue := [];
               es_operations := os; es_jsonText := stringify_indent (operations_json ops);
               es_jsonError := [] |}, m) /\
    map content os = map kept ops.
Proof.
  intros Hne Hty Hok. destruct (mapM_reads (normalizeOperation Date_now toUpperCase) content
    (map operation_payload ops) (map kept ops)) with (n := n) as (os & m & Hr & Hk).
  { apply Forall2_fmap, Forall_Forall2_diag. eapply Forall_impl; [exact Hty|]. intros o Ho n'. by apply operation_reads. }
  exists os, m. split; [|done]. unfold parseInitialState. rewrite saved_text_trim, json_roundtrip_indent by done.
  replace (truthy (stringify_indent (operations_json ops))) with true
    by (unfold stringify_indent, operations_json; by rewrite pretty_obj).
  cbn [negb]. unfold operations_json at 1 2. cbn [field obj_get]. names. cbn iota.
  unfold read_operations, bind. destruct ops as [|o ops]; [done|]. cbn [map] in *. by rewrite Hr.
Qed.

End Saved.

(** The rule of an empty dialog. *)
Definition blank_rule : ParamOverrideOperation :=
  {| o_id := []; o_description := []; o_path := []; o_mode := u "set"; o_from := []; o_to := [];
     o_value_text := []; o_keep_origin := false; o_logic := u "OR"; o_conditions := [] |}.

Lemma initialize_saved Date_now toUpperCase t type_error ed text n :
  toUpperCase (u "AND") = u "AND" -> toUpperCase (u "OR") = u "OR" ->
  (forall k o, k <> [] -> t k o <> []) -> Forall op_typed (written ed) ->
  es_editMode (core ed) = EditVisual -> es_visualMode (core ed) = VisualOperations ->
  json_ok (operations_json (written ed)) = true -> save_result t type_error ed = inl text ->
  exists ed' m, initialize Date_now toUpperCase text n = (Some ed', m) /\
    es_editMode (core ed') = EditVisual /\ es_visualMode (core ed') = VisualOperations /\
    es_jsonText (core ed') = text /\
    map content (operations ed') = match written ed with [] => [blank_rule] | ops => map kept ops end.
Proof.
  intros HA HO Ht Hty Hem Hvm Hok Hs. apply save_iff in Hs as [_ ->]; [|done..].
  destruct (written ed) as [|o ops].
  - do 2 eexists. split.
    + unfold initialize, parseInitialState, bind at 1. cbn [trim].
      unfold createDefaultOperation, normalizeOperation, bind, nextLocalId, conditions_field, ret.
      assert (logic_field toUpperCase (JObj [(u "mode", JStr (u "set"))]) = Some (u "OR")) as ->
        by (unfold logic_field; change (to_str _) with (Some (u "OR")); cbn iota; by rewrite HO).
      reflexivity.
    + done.
  - destruct (saved_text_reads Date_now toUpperCase HA HO (o :: ops) n) as (os & m & Hp & Hk); [done..|].
    do 2 eexists. split; [unfold initialize, bind; rewrite Hp; reflexivity|]. done.
Qed.

(** C8: opening what was saved shows the rules again: every rule that was not blank, in order, with
    the fields its mode uses; or a single blank rule when nothing was written. *)
Theorem override_reopen Date_now toUpperCase t type_error d ed text n :
  toUpperCase (u "AND") = u "AND" -> toUpperCase (u "OR") = u "OR" ->
  (forall k o, k <> [] -> t k o <> []) ->
  reachable Date_now toUpperCase t type_error d -> editor d = Some ed ->
  es_editMode (core ed) = EditVisual -> es_visualMode (core ed) = VisualOperations ->
  json_ok (operations_json (written ed)) = true -> save_result t type_error ed = inl text ->
  exists ed' m, initialize Date_now toUpperCase text n = (Some ed', m) /\
    es_editMode (core ed') = EditVisual /\ es_visualMode (core ed') = VisualOperations /\
    es_jsonText (core ed') = text /\
    map content (operations ed') = match written ed with [] => [blank_rule] | ops => map kept ops end.
Proof.
  intros HA HO Ht Hr Hed. by apply initialize_saved, (written_typed _ _ _ _ d ed Ht Hr Hed).
Qed.

(** ** Values that are stable *)

(** The value is not written as a quoted JSON text. *)
Definition loose (valueText : jstr) : bool :=
  match json_parse (trim valueText) with Some (JStr _) => false | _ => true end.

(** A value that is not quoted reads the same after it was written and read. *)
Lemma settled_stable vt :
  loose vt = true -> json_ok (parseLooseValue vt) = true ->
  parseLooseValue (settled vt) = parseLooseValue vt /\ trim (settled vt) = settled vt /\
  (trim vt <> [] -> settled vt <> []).
Proof.
  unfold loose, settled. intros Hl Hok.
  assert (forall s, trim s = s -> s <> [] ->
    parseLooseValue s = match json_parse s with Some j => j | None => JStr s end) as Hp.
  { intros s H1 H2. unfold parseLooseValue. rewrite H1. by destruct s. }
  destruct (decide (trim vt = [])) as [He|Hne].
  - unfold parseLooseValue in *. rewrite He. done.
  - assert (parseLooseValue vt = match json_parse (trim vt) with Some j => j | None => JStr (trim vt) end) as Hv
      by (unfold parseLooseValue; by destruct (trim vt)).
    rewrite Hv in *. destruct (json_parse (trim vt)) as [j|] eqn:Hj.
    + destruct (stringify_trim j Hok) as [Ht Hn]. pose proof (json_roundtrip j Hok) as Hr.
      assert (toValueText (Some j) = stringify j) as -> by by destruct j.
      by rewrite Hp, Hr by done.
    + cbn [toValueText]. rewrite Hp, Hj by (done || apply trim_idemp). by rewrite trim_idemp.
Qed.

(** ** Saving again *)

Lemma payload_content o : operation_payload (content o) = operation_payload o.
Proof.
  unfold operation_payload, content.
  cbn [o_description o_path o_mode o_from o_to o_value_text o_keep_origin o_logic o_conditions].
  assert (forall cs, omap buildConditionPayload (map cond_content cs) = omap buildConditionPayload cs) as ->; [|done].
  intros cs. induction cs as [|c cs IH]; [done|]. cbn [map omap list_omap]. by rewrite IH.
Qed.

Lemma blank_content o : isOperationBlank (content o) = isOperationBlank o.
Proof.
  unfold isOperationBlank, content.
  cbn [o_description o_path o_mode o_from o_to o_value_text o_keep_origin o_logic o_conditions].
  assert (forall f, (forall c, f (cond_content c) = f c) ->
    existsb f (map cond_content (o_conditions o)) = existsb f (o_conditions o)) as Hf.
  { intros f Hf. induction (o_conditions o) as [|c cs IH]; [done|]. cbn [map existsb]. by rewrite IH, Hf. }
  by rewrite Hf.
Qed.

(** The value of a rule that uses it and the values of its conditions are not quoted. *)
Definition rule_loose (o : ParamOverrideOperation) : bool :=
  (negb (m_value (meta_of (o_mode o))) || loose (o_value_text o))
  && forallb (fun c => loose (c_value_text c)) (o_conditions o).

Lemma cond_kept c j :
  loose (c_value_text c) = true -> buildConditionPayload c = Some j -> json_ok j = true ->
  truthy (trim (c_path c)) = true /\ buildConditionPayload (kept_cond c) = Some j.
Proof.
  intros Hl. unfold buildConditionPayload. cbn [c_path c_mode c_value_text c_invert c_pass_missing_key kept_cond].
  rewrite trim_idemp. destruct (truthy (trim (c_path c))) eqn:Hp; [|done]. cbn [negb]. intros [= <-] Hj.
  split; [done|]. apply obj_ok_spec in Hj as [Hj _].
  assert (json_ok (parseLooseValue (c_value_text c)) = true) as Hv.
  { rewrite Forall_forall in Hj. apply (Hj (u "value", parseLooseValue (c_value_text c))).
    by do 2 right; left. }
  by rewrite (proj1 (settled_stable _ Hl Hv)).
Qed.

Lemma conds_kept cs :
  forallb (fun c => loose (c_value_text c)) cs = true ->
  forallb json_ok (omap buildConditionPayload cs) = true ->
  omap buildConditionPayload (kept_conds cs) = omap buildConditionPayload cs.
Proof.
  unfold kept_conds. induction cs as [|c cs IH]; [done|]. cbn [forallb omap list_omap List.filter].
  intros [Hl Hls]%andb_prop. destruct (buildConditionPayload c) as [j|] eqn:Hb.
  - cbn [forallb]. intros [Hj Hjs]%andb_prop. destruct (cond_kept c j Hl Hb Hj) as [-> Hk].
    cbn [map omap list_omap]. by rewrite Hk, IH.
  - replace (truthy (trim (c_path c))) with false; [by apply IH|].
    unfold buildConditionPayload in Hb. by destruct (truthy (trim (c_path c))).
Qed.

(** The flags of a mode have one of four shapes. *)
Inductive meta_shape : Meta -> Prop :=
| shape_set : meta_shape set_meta
| shape_path v f : meta_shape (path_meta v f)
| shape_transfer h : meta_shape (transfer_meta h)
| shape_value p k : meta_shape (value_meta p k).

Lemma meta_shaped m : meta_shape (meta_of m).
Proof.
  unfold meta_of, MODE_META. cbn [obj_get].
  repeat match goal with |- context [jeqb ?a m] => destruct (jeqb a m); [cbn [option_or]; constructor|] end.
  constructor.
Qed.

Lemma obj_get_ok k f v : obj_ok f -> obj_get k f = Some v -> json_ok v = true.
Proof.
  intros [H _]. induction H as [|[k' v'] f [_ Hv] _ IH]; [done|]. cbn [obj_get].
  destruct (jeqb k' k); [by intros [= <-]|done].
Qed.

Lemma payload_values_ok o :
  has (o_mode o) OPERATION_MODE_VALUES = true -> json_ok (operation_payload o) = true ->
  (m_value (meta_of (o_mode o)) = true -> json_ok (parseLooseValue (o_value_text o)) = true) /\
  forallb json_ok (omap buildConditionPayload (o_conditions o)) = true.
Proof.
  intros Hm. destruct (payload_reads o Hm) as (f & -> & Hf). intros Hok%obj_ok_spec. split.
  - intros Hv. apply (obj_get_ok (u "value") f); [done|]. by rewrite (pf_value _ _ Hf), Hv.
  - pose proof (pf_conditions _ _ Hf) as Hc. destruct (omap buildConditionPayload (o_conditions o)) as [|j js]; [done|].
    exact (obj_get_ok _ _ _ Hok Hc).
Qed.

Lemma payload_kept o :
  has (o_mode o) OPERATION_MODE_VALUES = true -> rule_loose o = true -> json_ok (operation_payload o) = true ->
  operation_payload (kept o) = operation_payload o.
Proof.
  intros Hm [Hl Hc]%andb_prop Hok. destruct (meta_flags _ Hm) as [Ht _].
  destruct (payload_values_ok o Hm Hok) as [Hv Hcs].
  assert (m_value (meta_of (o_mode o)) = true ->
    parseLooseValue (settled (o_value_text o)) = parseLooseValue (o_value_text o)) as Hset.
  { intros Hmv. rewrite Hmv in Hl. by apply settled_stable, Hv. }
  pose proof (conds_kept _ Hc Hcs) as Hck. pose proof (kept_conds_nil (o_conditions o)) as Hnil.
  unfold operation_payload, kept.
  cbn [o_description o_path o_mode o_from o_to o_value_text o_keep_origin o_logic o_conditions].
  rewrite Ht, Hck, trim_idemp. cbv zeta. clear Hl Hc Hv Hcs Hck Hok.
  match goal with
  | |- match _ with [] => JObj ?p | _ => _ end = match _ with [] => JObj ?q | _ => _ end => assert (p = q) as ->
  end.
  - revert Hset. generalize (settled (o_value_text o)) (parseLooseValue (o_value_text o)). intros vt v. clear Hnil.
    generalize (meta_of (o_mode o)) (meta_shaped (o_mode o)). intros meta Hs Hset.
    pose proof (trim_idemp (o_path o)) as H1. pose proof (trim_idemp (o_from o)) as H2.
    pose proof (trim_idemp (o_to o)) as H3.
    destruct Hs as [|[] []|[]|[] []];
      cbn [m_path m_pathOptional m_value m_from m_to m_keepOrigin m_pathAlias set_meta path_meta transfer_meta
           value_meta negb andb orb]; try (rewrite (Hset eq_refl));
      destruct (trim (o_path o)), (trim (o_from o)), (trim (o_to o)); cbn [truthy negb];
      rewrite ?H1, ?H2, ?H3; try reflexivity;
      destruct (truthy (trim (o_description o))), (o_keep_origin o); reflexivity.
  - destruct (omap buildConditionPayload (o_conditions o)) as [|j js]; [done|].
    destruct (kept_conds (o_conditions o)); [|reflexivity]. by discriminate (proj2 Hnil eq_refl).
Qed.

(** ** Kept rules are complete *)

(** The modes that need a field have it. *)
Lemma required_fields m :
  has m OPERATION_MODE_VALUES = true ->
  (has m FROM_REQUIRED_MODES = true -> m_from (meta_of m) = true) /\
  (has m VALUE_REQUIRED_MODES = true -> m_value (meta_of m) = true).
Proof.
  unfold has at 1. intros (x & Hx & ->%jeqb_spec)%existsb_exists.
  assert (forallb (fun m => implb (has m FROM_REQUIRED_MODES) (m_from (meta_of m))
    && implb (has m VALUE_REQUIRED_MODES) (m_value (meta_of m))) OPERATION_MODE_VALUES = true) as H by by vm_compute.
  rewrite forallb_forall in H. specialize (H x Hx). apply andb_prop in H as [H1 H2].
  split; intros E; [rewrite E in H1|rewrite E in H2]; done.
Qed.

(** Whether a message is missing depends on the value only. *)
Lemma missing_value a b :
  parseLooseValue a = parseLooseValue b -> trim a <> [] -> trim b <> [] ->
  error_message_missing (trim a) = error_message_missing (trim b).
Proof.
  intros H Ha Hb. unfold parseLooseValue, error_message_missing in *.
  destruct (trim a) as [|x a']; [done|]. destruct (trim b) as [|y b']; [done|].
  destruct (json_parse (x :: a')) as [[]|], (json_parse (y :: b')) as [[]|]; try reflexivity; try discriminate H; by injection H as ->.
Qed.

Lemma parse_loose_trim vt : parseLooseValue (trim vt) = parseLooseValue vt.
Proof. unfold parseLooseValue. by rewrite trim_idemp. Qed.

Lemma or_path_nonempty (alias : bool) (s p : jstr) :
  s <> [] \/ (alias = true /\ p <> []) -> (if alias && negb (truthy s) then p else s) <> [].
Proof. destruct alias, s; cbn; naive_solver. Qed.

Lemma trim_either (b : bool) x y : trim (if b then trim x else trim y) = if b then trim x else trim y.
Proof. destruct b; apply trim_idemp. Qed.

Lemma kept_complete o :
  has (o_mode o) OPERATION_MODE_VALUES = true -> rule_loose o = true -> json_ok (operation_payload o) = true ->
  op_complete o -> op_complete (kept o).
Proof.
  intros Hm [Hl _]%andb_prop Hok [Hp Hf Ht Hv He Hh].
  destruct (mode_flags _ Hm) as (_ & Hmp & Hma). destruct (required_fields _ Hm) as [Hrf Hrv].
  destruct (payload_values_ok o Hm Hok) as [Hvok _].
  assert (has (o_mode o) VALUE_REQUIRED_MODES = true ->
    parseLooseValue (settled (o_value_text o)) = parseLooseValue (o_value_text o) /\
    trim (settled (o_value_text o)) = settled (o_value_text o) /\ settled (o_value_text o) <> []) as Hs.
  { intros H. rewrite (Hrv H) in Hl. destruct (settled_stable (o_value_text o)) as (H1 & H2 & H3); auto. }
  split; cbn [o_mode o_path o_from o_to o_value_text kept]; rewrite ?Hmp, ?Hma.
  - intros H. rewrite H. cbn [orb]. rewrite trim_idemp. by apply Hp.
  - intros H. left. rewrite (Hrf H). specialize (Hf H).
    rewrite trim_either. by apply or_path_nonempty.
  - intros H. left. rewrite trim_either. by apply or_path_nonempty, Ht.
  - intros H. rewrite (Hrv H). destruct (Hs H) as (_ & -> & ?). done.
  - intros H. assert (has (o_mode o) VALUE_REQUIRED_MODES = true) as Hr by by rewrite H.
    destruct (Hs Hr) as (H1 & H2 & H3). rewrite (Hrv Hr), <- (He H).
    apply missing_value; [done|by rewrite H2|by apply Hv].
  - intros H. assert (has (o_mode o) VALUE_REQUIRED_MODES = true) as Hr by by rewrite H.
    destruct (Hs Hr) as (H1 & _). rewrite (Hrv Hr), parse_loose_trim, H1, <- parse_loose_trim. by apply Hh.
Qed.

(** A complete rule is not blank, so it is written again. *)
Lemma complete_not_blank o : has (o_mode o) OPERATION_MODE_VALUES = true -> op_complete o -> isOperationBlank o = false.
Proof.
  intros Hm Ho. unfold isOperationBlank. destruct (jeqb (o_mode o) (u "set")) eqn:E; [|done].
  apply jeqb_spec in E. replace (truthy (trim (o_path o))) with true; [done|].
  symmetry. apply truthy_spec, (needs_path _ Ho). by rewrite E.
Qed.

Lemma complete_content o : op_complete (content o) <-> op_complete o.
Proof. by split; intros []; split. Qed.

Lemma cons_eq_inv {A} (x y : A) l k : x :: l = y :: k -> x = y /\ l = k.
Proof. by intros [= -> ->]. Qed.

(** Saving depends on the content of the rules. *)
Lemma save_content t type_error ed rules :
  es_editMode (core ed) = EditVisual -> es_visualMode (core ed) = VisualOperations ->
  map content (operations ed) = map kept rules ->
  Forall op_typed rules -> forallb rule_loose rules = true -> json_ok (operations_json rules) = true ->
  Forall op_complete rules -> rules <> [] ->
  save_result t type_error ed = inl (stringify_indent (operations_json rules)).
Proof.
  intros Hem Hvm Hc Hty Hl Hok Hcm Hne.
  assert (forallb json_ok (map operation_payload rules) = true) as Hj
    by (apply obj_ok_spec in Hok as [Hok _]; by apply Forall_inv in Hok as [_ Hok]).
  assert (Forall (fun o => has (o_mode o) OPERATION_MODE_VALUES = true /\ op_complete (kept o) /\
    operation_payload (kept o) = operation_payload o) rules) as Hk.
  { rewrite forallb_Forall in Hl. rewrite forallb_Forall in Hj. rewrite Forall_fmap in Hj. rewrite Forall_forall in *. intros o Ho.
    pose proof (Hty o Ho) as (Hm & _). pose proof (Hl o Ho). pose proof (Hj o Ho). pose proof (Hcm o Ho).
    split_and!; [done|by apply kept_complete|by apply payload_kept]. }
  assert (Forall (fun o' => has (o_mode o') OPERATION_MODE_VALUES = true /\ op_complete o') (operations ed) /\
    map operation_payload (operations ed) = map operation_payload rules) as [Hall Hpay].
  { clear Hty Hl Hok Hj Hcm Hne. revert Hc. generalize (operations ed). induction Hk as [|o rules (Hm & Ho & Hp) _ IH];
      intros [|o' ops]; try done. cbn [map]. intros H. apply cons_eq_inv in H as [Ho' Hops]. destruct (IH ops Hops) as [H1 H2]. split.
    - constructor; [|done]. split; [|by apply complete_content; rewrite Ho'].
      change (o_mode o') with (o_mode (content o')). by rewrite Ho'.
    - by rewrite <- payload_content, Ho', Hp, H2. }
  assert (jfilter (fun o => negb (isOperationBlank o)) (operations ed) = operations ed) as Hw.
  { apply jfilter_all. eapply Forall_impl; [exact Hall|]. intros o [H1 H2]. by rewrite complete_not_blank. }
  unfold save_result, buildVisualJson, buildOperationsJson. rewrite Hem, Hvm, Hw.
  assert (validateOperations t (operations ed) = Valid) as ->.
  { apply validate_from_complete; (eapply Forall_impl; [exact Hall|]); naive_solver. }
  unfold operations_json. rewrite Hpay. by destruct (operations ed), rules.
Qed.

(** what was saved is stable: when no value is written as a quoted JSON text, opening it and
    saving again writes the same text. *)
Theorem override_resave Date_now toUpperCase t type_error d ed text n :
  toUpperCase (u "AND") = u "AND" -> toUpperCase (u "OR") = u "OR" ->
  (forall k o, k <> [] -> t k o <> []) ->
  reachable Date_now toUpperCase t type_error d -> editor d = Some ed ->
  es_editMode (core ed) = EditVisual -> es_visualMode (core ed) = VisualOperations ->
  json_ok (operations_json (written ed)) = true -> forallb rule_loose (written ed) = true ->
  save_result t type_error ed = inl text ->
  exists ed' m, initialize Date_now toUpperCase text n = (Some ed', m) /\
    save_result t type_error (settle ed') = inl text.
Proof.
  intros HA HO Ht Hr Hed Hem Hvm Hok Hl Hs. pose proof (written_typed _ _ _ _ d ed Ht Hr Hed) as Hty.
  destruct (initialize_saved Date_now toUpperCase t type_error ed text n HA HO Ht Hty Hem Hvm Hok Hs)
    as (ed' & m & Hi & Hem' & Hvm' & _ & Hc).
  exists ed', m. split; [done|]. apply save_iff in Hs as [Hcm ->]; [|done..].
  rewrite <- (settle_core ed') in Hem', Hvm'.
  assert (operations (settle ed') = operations ed') as Hset by (unfold operations; by rewrite settle_core).
  rewrite <- Hset in Hc.
  destruct (written ed) as [|o ops]; [|by apply save_content].
  destruct (operations (settle ed')) as [|o' [|]] eqn:He; [done| |done]. cbn [map] in Hc. apply cons_eq_inv in Hc as [Hc _].
  unfold save_result, buildVisualJson, buildOperationsJson. rewrite Hem', Hvm', He. cbn [List.filter].
  by rewrite <- blank_content, Hc.
Qed.

(** ** A dialog opened on two rules *)

Definition rules_text : jstr :=
  u "{`operations`: [{`mode`: `set`, `path`: ` temperature `, `value`: 0.7, `conditions`: [{`path`: `model`, `mode`: `prefix`, `value`: `gpt`}]}, {`mode`: `copy_header`, `path`: `X-Id`}]}".

Definition rules_editor : Editor :=
  match initialize sample_now id rules_text 0 with (Some ed, _) => settle ed | (None, _) => added_rule end.

Definition rules_dialog : Dialog := {| editor := Some rules_editor; localIdSeed := 3; saved := [] |}.

Definition rules_saved : jstr := match save_result sample_t [] rules_editor with inl s => s | inr _ => [] end.

Lemma rules_reachable : reachable sample_now id sample_t [] rules_dialog.
Proof.
  eapply rtc_l; [eapply (StepOpen _ _ _ _ initial_dialog rules_text); vm_compute; reflexivity|].
  match goal with |- rtc _ ?x ?y => assert (x = y) as ->; [vm_compute; reflexivity|apply rtc_refl] end.
Qed.

Lemma rules_save : save_result sample_t [] rules_editor = inl rules_saved.
Proof. vm_compute. reflexivity. Qed.

Lemma override_reopen_witness :
  length (written rules_editor) = 2%nat /\
  exists ed' m, initialize sample_now id rules_saved 7 = (Some ed', m) /\
    es_editMode (core ed') = EditVisual /\ es_visualMode (core ed') = VisualOperations /\
    es_jsonText (core ed') = rules_saved /\
    map content (operations ed') = match written rules_editor with [] => [blank_rule] | ops => map kept ops end.
Proof.
  split; [vm_compute; reflexivity|].
  apply (override_reopen sample_now id sample_t [] rules_dialog rules_editor rules_saved 7);
    [reflexivity|reflexivity|done|exact rules_reachable|reflexivity|vm_compute; reflexivity..|exact rules_save].
Defined.

Lemma override_resave_witness :
  forallb rule_loose (written rules_editor) = true /\
  exists ed' m, initialize sample_now id rules_saved 7 = (Some ed', m) /\
    save_result sample_t [] (settle ed') = inl rules_saved.
Proof.
  split; [vm_compute; reflexivity|].
  apply (override_resave sample_now id sample_t [] rules_dialog rules_editor rules_saved 7);
    [reflexivity|reflexivity|done|exact rules_reachable|reflexivity|vm_compute; reflexivity..|exact rules_save].
Defined.

(** ** A quoted value *)

Lemma settle_save t type_error ed : save_result t type_error (settle ed) = save_result t type_error ed.
Proof. unfold save_result, buildVisualJson, operations. by rewrite settle_core. Qed.

Definition quoted_text : jstr := u "{`operations`: [{`mode`: `set`, `path`: `user`, `value`: `123`}]}".

(** a text value that reads as JSON changes its type: the rule that sets a field to the text
    [123] is written as the number 123 by opening it and saving it unchanged. *)
Theorem override_retypes Date_now toUpperCase t type_error n :
  toUpperCase (u "OR") = u "OR" ->
  exists ed m, initialize Date_now toUpperCase quoted_text n = (Some ed, m) /\
    json_parse quoted_text = Some (JObj [(u "operations", JArr [JObj
      [(u "mode", JStr (u "set")); (u "path", JStr (u "user")); (u "value", JStr (u "123"))]])]) /\
    exists text, save_result t type_error (settle ed) = inl text /\
      json_parse text = Some (JObj [(u "operations", JArr [JObj
        [(u "mode", JStr (u "set")); (u "path", JStr (u "user")); (u "value", JNum (num_of_Z 123))]])]).
Proof.
  intros HO.
  assert (json_parse (trim quoted_text) = Some (JObj [(u "operations", JArr [JObj
      [(u "mode", JStr (u "set")); (u "path", JStr (u "user")); (u "value", JStr (u "123"))]])])) as Hp
    by (vm_compute; reflexivity).
  do 2 eexists. split; [|split; [vm_compute; reflexivity|]].
  - unfold initialize, parseInitialState, bind at 1. rewrite Hp. cbn [negb field obj_get]. names. cbn iota.
    unfold read_operations, mapM, normalizeOperation, bind, nextLocalId, conditions_field, ret.
    assert (forall f, field (u "logic") f = None -> logic_field toUpperCase f = Some (u "OR")) as Hl
      by (intros f Hf; unfold logic_field; rewrite Hf; change (to_str _) with (Some (u "OR")); cbn iota; by rewrite HO).
    rewrite Hl by reflexivity. reflexivity.
  - exists (stringify_indent (JObj [(u "operations", JArr [JObj
        [(u "mode", JStr (u "set")); (u "path", JStr (u "user")); (u "value", JNum (num_of_Z 123))]])])).
    split; [|vm_compute; reflexivity]. rewrite settle_save. vm_compute. reflexivity.
Qed.

Lemma override_retypes_witness :
  exists ed m, initialize sample_now id quoted_text 0 = (Some ed, m) /\
    json_parse quoted_text = Some (JObj [(u "operations", JArr [JObj
      [(u "mode", JStr (u "set")); (u "path", JStr (u "user")); (u "value", JStr (u "123"))]])]) /\
    exists text, save_result sample_t [] (settle ed) = inl text /\
      json_parse text = Some (JObj [(u "operations", JArr [JObj
        [(u "mode", JStr (u "set")); (u "path", JStr (u "user")); (u "value", JNum (num_of_Z 123))]])]).
Proof. apply (override_retypes sample_now id sample_t [] 0). reflexivity. Defined.
