(* ===== verification/OverrideForms.v ===== *)
(** * Parameter overrides: the forms of a rule

    The forms of [return_error], [prune_objects] and [sync_fields] keep their fields in the texts
    of a rule: what these texts give back, and which edits of the forms are lost. *)

From S2P Require Import Prelude JsString JsNumber Json JsonFacts ParamOverride OverrideEditor OverrideFacts OverrideInvariant OverrideRoundtrip.
Open Scope N_scope.

(** ** The rules of [prune_objects] *)

Lemma bind_ext {A B} (c c' : M A) (k : A -> M B) n : c n = c' n -> bind c k n = bind c' k n.
Proof. intros H. unfold bind. by rewrite H. Qed.

(** Two computations that agree from an identifier on agree on a list. *)
Lemma mapM_ext {A B} n0 (f g : A -> M B) l n :
  (forall a, mono (f a)) -> n0 <= n -> (forall a k, n0 <= k -> f a k = g a k) -> mapM f l n = mapM g l n.
Proof.
  intros Hm Hn Hfg. revert n Hn. induction l as [|a l IH]; intros n Hn; [done|]. cbn [mapM]. unfold bind.
  rewrite <- (Hfg a n Hn). destruct (f a n) as [[b|] n1] eqn:E; [|done]. apply Hm in E. by rewrite IH by lia.
Qed.

Section PruneRules.
Context (Date_now : N -> N) (toUpperCase : jstr -> jstr).

Abbreviation rule_ids := (map c_id).

Lemma rules_gives {A} (f : A -> json) l :
  gives Date_now rule_ids (fun _ => True) (mapM (fun a => normalizePruneRule Date_now (f a)) l).
Proof.
  intros n r m H. destruct (gives_mapM Date_now (fun c => [c_id c]) cond_typed
    (fun a => normalizePruneRule Date_now (f a)) l (fun a _ => normalizeCondition_gives _ (f a)) n r m H) as [H1 H2].
  split; [done|]. intros cs Hcs. destruct (H2 cs Hcs) as (Hi & _). by rewrite flat_map_singleton in Hi.
Qed.

Lemma prune_rules_gives j : gives Date_now rule_ids (fun _ => True) (prune_rules Date_now j).
Proof.
  eapply gives_bind with (ids := rule_ids) (P := fun _ => True).
  - destruct (field (u "where") j) as [[]|]; try (by apply gives_ret). apply rules_gives.
  - intros a _. eapply gives_bind with (ids := rule_ids) (P := fun _ => True).
    + destruct (field (u "conditions") j) as [[]|]; try (by apply gives_ret); [apply (rules_gives (fun j => j))|].
      apply rules_gives.
    + intros b _. apply gives_ret; rewrite map_app, drop_app_length; [by rewrite drop_ge|].
      by rewrite take_ge, take_app_length.
Qed.

Lemma parsePrune_gives s :
  gives Date_now (fun d => rule_ids (pd_rules d)) (fun _ => True) (parsePruneObjectsDraft Date_now toUpperCase s).
Proof.
  unfold parsePruneObjectsDraft. destruct (negb _); [by apply gives_ret|].
  destruct (json_parse (trim s)) as [[]|]; try (by apply gives_ret).
  intros n r m H. unfold bind in H. destruct (prune_rules Date_now _ n) as [[rules|] k] eqn:E;
    destruct (prune_rules_gives _ _ _ _ E) as [Hle Hi]; [|injection H as <- <-; done].
  destruct (Hi rules eq_refl) as [Hissued _].
  assert (m = k /\ exists d, r = Some d /\ (pd_rules d = rules \/ pd_rules d = [])) as (-> & d & -> & Hd).
  { revert H. repeat case_match; intros [= <- <-]; (split; [done|]); eexists; (split; [reflexivity|]); first [by left|by right]. }
  split; [done|]. intros ? [= <-]. split; [|done]. destruct Hd as [-> | ->]; [done|]. by apply issues_nil.
Qed.

(** A form of the rules that acts the same on the drafts of later identifiers acts the same. *)
Lemma pruneDraft_ext id f g ed n :
  (forall d, mono (f d)) ->
  (forall d k k', n <= k -> issues Date_now k k' (rule_ids (pd_rules d)) -> f d k' = g d k') ->
  updatePruneObjectsDraft Date_now toUpperCase id f ed n = updatePruneObjectsDraft Date_now toUpperCase id g ed n.
Proof.
  intros Hm Hfg. unfold updatePruneObjectsDraft, update_atM. apply bind_ext. apply (mapM_ext n); [|done|].
  - intros o. destruct (jeqb (o_id o) id); [|apply mono_ret]. apply mono_bind; [apply mono_parsePrune|]. intros d.
    apply mono_bind; [apply Hm|]. intros. apply mono_ret.
  - intros o k Hk. destruct (jeqb (o_id o) id); [|done]. unfold bind.
    destruct (parsePruneObjectsDraft Date_now toUpperCase (o_value_text o) k) as [[d|] k'] eqn:E; [|done].
    destruct (parsePrune_gives _ _ _ _ E) as [_ Hi]. destruct (Hi d eq_refl) as [Hi' _]. by rewrite (Hfg d k k').
Qed.

(** An identifier issued before is none of these. *)
Lemma stale_id k k' n rid rules :
  issued_in Date_now k n rid -> n <= k' -> forall m, issues Date_now k' m (rule_ids rules) ->
  Forall (fun r => jeqb (c_id r) rid = false) rules.
Proof.
  intros Hr Hle m (_ & _ & Hi). rewrite Forall_fmap in Hi. eapply Forall_impl; [exact Hi|].
  intros r Hri. apply jeqb_neq. intros He. apply (issued_apart Date_now k k' m rid).
  - by eapply issued_in_mono; [| |exact Hr].
  - cbn in Hri. by rewrite He in Hri.
Qed.

(** the rules of [prune_objects] that a form shows cannot be edited or removed: the draft is
    read again with new identifiers before it is changed, so a change or a removal of a rule that
    was shown only writes the draft back. *)
Theorem prune_rules_stale t type_error vt k draft n r id ed seed :
  parsePruneObjectsDraft Date_now toUpperCase vt k = (Some draft, n) -> r ∈ pd_rules draft -> n <= seed ->
  handle Date_now toUpperCase t type_error (EvRemovePruneRule id (c_id r)) ed seed
  = handle Date_now toUpperCase t type_error (EvPruneDraft id (fun d => d)) ed seed /\
  forall p, handle Date_now toUpperCase t type_error (EvUpdatePruneRule id (c_id r) p) ed seed
    = handle Date_now toUpperCase t type_error (EvPruneDraft id (fun d => d)) ed seed.
Proof.
  intros Hp Hr Hle. destruct (parsePrune_gives _ _ _ _ Hp) as [_ Hi].
  destruct (Hi draft eq_refl) as [(_ & _ & Hids) _]. rewrite Forall_fmap, Forall_forall in Hids.
  specialize (Hids r Hr). cbn [handle].
  split; [|intros p]; (apply pruneDraft_ext; [intros; apply mono_ret|]); intros d k1 k2 Hk1 Hiss;
    pose proof (stale_id k k1 n (c_id r) (pd_rules d) Hids ltac:(lia) k2 Hiss) as Hst;
    unfold ret; do 3 f_equal; destruct d as [s ty lo re rules]; cbn [pd_rules] in *; unfold with_rules; cbn [pd_simpleMode pd_typeText pd_logic pd_recursive]; f_equal.
  - apply jfilter_all. eapply Forall_impl; [exact Hst|]. by intros x ->.
  - clear -Hst. induction Hst as [|x rules Hx _ IH]; [done|]. cbn [map]. by rewrite Hx, IH.
Qed.

End PruneRules.

Definition shown_text : jstr := u "{`type`:`redacted_thinking`,`conditions`:[{`path`:`id`,`mode`:`full`,`value`:1}]}".

Definition shown_draft : PruneObjectsDraft :=
  match parsePruneObjectsDraft sample_now id shown_text 0 with (Some d, _) => d | (None, _) => simple_prune [] end.

Definition shown_rule : PruneRule :=
  {| c_id := local_id sample_now 0; c_path := u "id"; c_mode := u "full"; c_value_text := u "1";
     c_invert := false; c_pass_missing_key := false |}.

Lemma prune_rules_stale_witness :
  shown_rule ∈ pd_rules shown_draft /\
  handle sample_now id sample_t [] (EvRemovePruneRule (u "a") (c_id shown_rule)) rules_editor 4
  = handle sample_now id sample_t [] (EvPruneDraft (u "a") (fun d => d)) rules_editor 4.
Proof.
  assert (shown_rule ∈ pd_rules shown_draft) as H.
  { assert (pd_rules shown_draft = [shown_rule]) as -> by (vm_compute; reflexivity). by left. }
  split; [exact H|].
  apply (prune_rules_stale sample_now id sample_t [] shown_text 0 shown_draft 1 shown_rule (u "a") rules_editor 4);
    [vm_compute; reflexivity|exact H|lia].
Defined.

(** ** The endpoints of [sync_fields] *)

(** the text of an endpoint gives back its type and its key, also for a key with a colon; an
    endpoint without a key is stored as the empty text, which is read as [json]: the type of an
    endpoint is lost until it has a key. *)
Theorem sync_spec_roundtrip toLowerCase type key :
  toLowerCase (u "header") = u "header" -> toLowerCase (u "json") = u "json" ->
  has type [u "json"; u "header"] = true ->
  parseSyncTargetSpec toLowerCase (buildSyncTargetSpec type key)
  = if truthy (trim key) then (type, trim key) else (u "json", []).
Proof.
  intros Hh Hj Ht. unfold buildSyncTargetSpec. destruct (truthy (trim key)) eqn:Hk; [|reflexivity].
  destruct (trim_trimmed key) as [_ Hend].
  assert (forall p, forallb (fun c => negb (is_space c) && negb (c =? 58)) p = true -> p <> [] ->
    parseSyncTargetSpec toLowerCase (p ++ u ":" ++ trim key)
    = if jeqb (toLowerCase p) (u "header") then (u "header", trim key) else (u "json", trim key)) as H.
  { intros p Hp Hne. unfold parseSyncTargetSpec.
    assert (trim (p ++ u ":" ++ trim key) = p ++ u ":" ++ trim key) as ->.
    { apply trim_id. split.
      - intros c s Hs. destruct p as [|d p]; [done|]. injection Hs as -> _. cbn [forallb] in Hp.
        by apply andb_prop in Hp as [[Hp%negb_true_iff _]%andb_prop _].
      - intros c s Hs. destruct (trim key) as [|d l] using rev_ind; [done|].
        rewrite !(assoc_L (++)) in Hs. apply app_inj_2 in Hs as [_ [= ->]]; [|done]. by apply (Hend c l). }
    assert (truthy (p ++ u ":" ++ trim key) = true) as -> by by destruct p.
    assert (index_of (u ":") (p ++ u ":" ++ trim key) = Some (length p)) as ->.
    { apply (index_of_after 58 []); [done|]. clear -Hp. induction p as [|c p IH]; [done|].
      cbn [forallb] in Hp. apply andb_prop in Hp as [[_ Hc%negb_true_iff]%andb_prop Hp]. unfold includes in *.
      cbn [index_of starts_with]. rewrite N.eqb_sym, Hc. cbn [andb]. specialize (IH Hp).
      by destruct (index_of [58] p). }
    cbn [negb]. rewrite take_app_length, drop_app_ge by lia. replace (length p + 1 - length p)%nat with 1%nat by lia.
    change (drop 1 (u ":" ++ trim key)) with (trim key). rewrite trim_idemp.
    assert (trim p = p) as ->; [|done]. apply trim_no_space. revert Hp. apply forallb_impl. by intros c [??]%andb_prop. }
  unfold has in Ht. cbn [existsb] in Ht. rewrite orb_false_r in Ht. apply orb_prop in Ht as [Ht|Ht];
    apply jeqb_spec in Ht as ->; names; cbn iota; rewrite H by done; rewrite ?Hh, ?Hj; reflexivity.
Qed.

Lemma sync_spec_roundtrip_witness :
  parseSyncTargetSpec id (buildSyncTargetSpec (u "header") (u " a:b ")) = (u "header", u "a:b") /\
  parseSyncTargetSpec id (buildSyncTargetSpec (u "header") (u " a:b "))
  = if truthy (trim (u " a:b ")) then (u "header", trim (u " a:b ")) else (u "json", []).
Proof. split; [reflexivity|]. apply (sync_spec_roundtrip id (u "header") (u " a:b ")); reflexivity. Defined.

(** ** The form of [return_error] *)

Abbreviation units := (forallb (fun c => c <? 65536)).

(** The names of a record that is written with optional fields are distinct and not indices. *)
Ltac fields_ok :=
  apply obj_ok_spec; split;
  [repeat first [apply Forall_app; split | case_match | constructor]; cbn; split_and?; auto; reflexivity
  |repeat case_match; apply (bool_decide_unpack _); vm_compute; exact I].

Lemma status_or_400_idemp v : status_or_400 (status_or_400 v) = status_or_400 v.
Proof.
  unfold status_or_400 at 2 3.
  destruct (is_finite v && feq (f_floor v) v && fle (num_of_Z 100) v && fle v (num_of_Z 599)) eqn:E; [|reflexivity].
  unfold status_or_400. by rewrite E.
Qed.

(** What the form shows for a draft that was stored. *)
Definition stored_error (d : ReturnErrorDraft) : ReturnErrorDraft :=
  if re_simpleMode d then simple_error (trim (re_message d)) else
  {| re_message := trim (re_message d); re_statusCode := status_or_400 (re_statusCode d);
     re_code := trim (re_code d); re_type := trim (re_type d); re_skipRetry := re_skipRetry d;
     re_simpleMode := false |}.

Definition object_text (s : jstr) : bool := match json_parse s with Some (JObj _) => true | _ => false end.

Lemma parse_error_object f :
  json_ok (JObj f) = true ->
  parseReturnErrorDraft (stringify (JObj f)) = option_or (error_of_object (JObj f)) (simple_error (stringify (JObj f))).
Proof.
  intros Hok. destruct (stringify_trim _ Hok) as [Ht Hn]. unfold parseReturnErrorDraft.
  rewrite Ht, (proj2 (truthy_spec _) Hn), (json_roundtrip _ Hok). reflexivity.
Qed.

(** the form of [return_error] shows what was stored: a full draft keeps its message, code and
    type without outer spaces, its status when it is one of 100 to 599 and 400 otherwise, and
    whether to skip the retry; a simple draft keeps its message unless that is the text of a
    JSON object. *)
Theorem error_form_roundtrip d :
  units (re_message d) = true -> units (re_code d) = true -> units (re_type d) = true ->
  num_ok (status_or_400 (re_statusCode d)) = true ->
  (re_simpleMode d = true -> object_text (trim (re_message d)) = false) ->
  parseReturnErrorDraft (buildReturnErrorValueText d) = stored_error d.
Proof.
  intros Hm%trim_forallb Hc%trim_forallb Ht%trim_forallb Hs Hsimple.
  unfold buildReturnErrorValueText, stored_error. cbv zeta. destruct (re_simpleMode d).
  - specialize (Hsimple eq_refl). unfold object_text in Hsimple. unfold parseReturnErrorDraft. rewrite trim_idemp.
    destruct (trim (re_message d)) as [|c s]; [reflexivity|]. cbn [truthy negb].
    by destruct (json_parse (c :: s)) as [[]|].
  - pose proof (status_or_400_idemp (re_statusCode d)) as Hst.
    rewrite parse_error_object by (cbn [app]; fields_ok).
    unfold error_of_object, text_field, false_field, truthy_field, field. cbn [app obj_get first_some]. names. cbn iota.
    revert Hst. generalize (status_or_400 (re_statusCode d)). intros st Hst.
    pose proof (trim_idemp (re_message d)) as H1. pose proof (trim_idemp (re_code d)) as H2.
    pose proof (trim_idemp (re_type d)) as H3.
    destruct (trim (re_message d)), (trim (re_code d)), (trim (re_type d)), (re_skipRetry d);
      cbn [app obj_get truthy]; names; cbn [json_truthy truthy to_str json_to_string option_map option_or to_num first_some];
      rewrite ?H1, ?H2, ?H3, ?Hst; reflexivity.
Qed.

Definition sample_error : ReturnErrorDraft :=
  {| re_message := u " not allowed "; re_statusCode := num_of_Z 403; re_code := u "forbidden"; re_type := [];
     re_skipRetry := false; re_simpleMode := false |}.

Lemma error_form_roundtrip_witness :
  re_message (stored_error sample_error) = u "not allowed" /\
  parseReturnErrorDraft (buildReturnErrorValueText sample_error) = stored_error sample_error.
Proof.
  split; [reflexivity|]. apply (error_form_roundtrip sample_error); vm_compute; reflexivity.
Defined.

(** ** The form of [prune_objects] *)

Definition draft_content (d : PruneObjectsDraft) : PruneObjectsDraft :=
  with_rules (map cond_content (pd_rules d)) d.

(** What the form shows for a draft in the advanced mode that was stored. *)
Definition stored_prune (d : PruneObjectsDraft) : PruneObjectsDraft :=
  let type := trim (pd_typeText d) in
  let rules := kept_conds (pd_rules d) in
  match type, rules with
  | [], [] => {| pd_simpleMode := false; pd_typeText := []; pd_logic := u "AND"; pd_recursive := true; pd_rules := [] |}
  | _, _ => {| pd_simpleMode := jeqb (pd_logic d) (u "AND") && pd_recursive d
                 && match rules with [] => true | _ => false end;
               pd_typeText := type; pd_logic := pd_logic d; pd_recursive := pd_recursive d; pd_rules := rules |}
  end.

Section PruneForm.
Context (Date_now : N -> N) (toUpperCase : jstr -> jstr).
Hypothesis upper_AND : toUpperCase (u "AND") = u "AND".
Hypothesis upper_OR : toUpperCase (u "OR") = u "OR".

Lemma rule_reads r n :
  cond_typed r -> truthy (trim (c_path r)) = true ->
  exists r' m, normalizePruneRule Date_now (rule_payload r) n = (Some r', m) /\ cond_content r' = kept_cond r.
Proof.
  intros Hr Hp. do 2 eexists.
  split; [unfold normalizePruneRule, normalizeCondition, bind, nextLocalId, rule_payload; cbn [ret]; reflexivity|].
  unfold cond_content, kept_cond, settled, mode_field, str_field, true_field, field.
  assert (parseLooseValue (trim (c_value_text r)) = parseLooseValue (c_value_text r)) as Hv by apply parse_loose_trim.
  destruct (truthy (trim (c_value_text r))) eqn:Ht.
  2: { assert (parseLooseValue (c_value_text r) = JStr []) as E
         by (unfold parseLooseValue; apply truthy_false in Ht; by rewrite Ht).
       rewrite E. destruct (c_invert r), (c_pass_missing_key r); cbn [app obj_get]; names; cbn iota; by rewrite !Hr. }
  rewrite Hv. destruct (c_invert r), (c_pass_missing_key r); cbn [app obj_get]; names; cbn iota; by rewrite !Hr.
Qed.

Lemma rules_read rules n :
  Forall cond_typed rules ->
  exists rs m, mapM (normalizePruneRule Date_now)
      (map rule_payload (jfilter (fun r => truthy (trim (c_path r))) rules)) n = (Some rs, m) /\
    map cond_content rs = kept_conds rules.
Proof.
  intros Hr. apply mapM_reads, Forall2_fmap, Forall_Forall2_diag, Forall_forall.
  intros r [Hp Hin]%jfilter_elem_of n'. rewrite Forall_forall in Hr. by apply rule_reads; [apply Hr|].
Qed.

Lemma payloads_objects rules : jfilter is_object (map rule_payload rules) = map rule_payload rules.
Proof. apply jfilter_all, Forall_fmap, Forall_forall. by intros r _. Qed.

Lemma logic_none : prune_logic toUpperCase None = Some (u "AND").
Proof. unfold prune_logic. change (to_str _) with (Some (u "AND")). cbn iota. by rewrite upper_AND. Qed.

Lemma logic_AND : prune_logic toUpperCase (Some (JStr (u "AND"))) = Some (u "AND").
Proof. exact logic_none. Qed.

Lemma logic_OR : prune_logic toUpperCase (Some (JStr (u "OR"))) = Some (u "OR").
Proof. unfold prune_logic. change (to_str _) with (Some (u "OR")). cbn iota. by rewrite upper_OR. Qed.

Definition defined_in (k : jstr) (f : list (jstr * json)) : bool := is_defined (obj_get k f).

(** Reading an object without [where] whose logic is a text and whose type is a text. *)
Lemma parse_prune_object f rules type n :
  json_ok (JObj f) = true -> obj_get (u "where") f = None ->
  obj_get (u "conditions") f = match rules with [] => None | _ => Some (JArr (map rule_payload rules)) end ->
  obj_get (u "type") f = match type with [] => None | _ => Some (JStr type) end -> trim type = type ->
  forall logic, prune_logic toUpperCase (obj_get (u "logic") f) = Some logic ->
  parsePruneObjectsDraft Date_now toUpperCase (stringify (JObj f)) n
  = match mapM (normalizePruneRule Date_now) (map rule_payload rules) n with
    | (Some rs, m) =>
        (Some {| pd_simpleMode := negb (defined_in (u "logic") f || defined_in (u "recursive") f
                   || match rules with [] => false | _ => true end);
                 pd_typeText := type; pd_logic := logic;
                 pd_recursive := negb (false_field (u "recursive") (JObj f)); pd_rules := rs |}, m)
    | (None, m) => (None, m)
    end.
Proof.
  intros Hok Hw Hc Hty Htr logic Hlo. destruct (stringify_trim _ Hok) as [Ht Hn]. unfold parsePruneObjectsDraft.
  rewrite Ht, (proj2 (truthy_spec _) Hn), (json_roundtrip _ Hok). cbn [negb].
  unfold prune_rules, defined_in, bind at 1 2. cbn [field]. rewrite Hw, Hc, Hty, Hlo.
  assert (match match type with [] => None | _ => Some (JStr type) end with
          | Some v => option_map trim (to_str v) | None => Some [] end = Some type) as ->
    by (destruct type as [|c type]; [done|]; cbn [to_str json_to_string option_map]; by rewrite Htr).
  destruct rules as [|r rules]; cbn [is_defined]; rewrite ?orb_false_r; [reflexivity|].
  rewrite payloads_objects. cbn [ret]. unfold bind.
  destruct (mapM (normalizePruneRule Date_now) (map rule_payload (r :: rules)) n) as [[rs|] m]; reflexivity.
Qed.

(** the form of [prune_objects] shows what was stored of a draft in the advanced mode: its type
    without outer spaces, its logic, whether it is recursive, and its rules that have a path;
    with no type and no such rule, the logic and the recursion are those of a new form, and with
    a type and nothing else the form is back in the simple mode. *)
Theorem prune_form_roundtrip d n :
  pd_simpleMode d = false -> has (pd_logic d) [u "AND"; u "OR"] = true ->
  Forall cond_typed (pd_rules d) -> units (pd_typeText d) = true ->
  forallb json_ok (map rule_payload (jfilter (fun r => truthy (trim (c_path r))) (pd_rules d))) = true ->
  exists draft m, parsePruneObjectsDraft Date_now toUpperCase (buildPruneObjectsValueText toUpperCase d) n
      = (Some draft, m) /\
    draft_content draft = stored_prune d.
Proof.
  intros Hs Hl Hr Ht%trim_forallb Hok. destruct (rules_read (pd_rules d) n Hr) as (rs & m & Hm & Hk).
  unfold buildPruneObjectsValueText, stored_prune. rewrite Hs. cbv zeta. unfold kept_conds in *.
  pose proof (trim_idemp (pd_typeText d)) as Htr.
  set (rules := jfilter (fun r => truthy (trim (c_path r))) (pd_rules d)) in *.
  set (type := trim (pd_typeText d)) in *. clearbody rules type.
  assert (truthy (pd_logic d) = true /\ jeqb (toUpperCase (pd_logic d)) (u "OR") = negb (jeqb (pd_logic d) (u "AND"))
    /\ (jeqb (pd_logic d) (u "AND") = true -> pd_logic d = u "AND")
    /\ (jeqb (pd_logic d) (u "AND") = false -> pd_logic d = u "OR")) as (Hlt & Hlu & Hla & Hlo).
  { unfold has in Hl. cbn [existsb] in Hl. rewrite orb_false_r in Hl. apply orb_prop in Hl as [Hl|Hl];
      apply jeqb_spec in Hl as ->; rewrite ?upper_AND, ?upper_OR; done. }
  rewrite Hlt, Hlu.
  assert (forall f logic, json_ok (JObj f) = true -> obj_get (u "where") f = None ->
    obj_get (u "conditions") f = match rules with [] => None | _ => Some (JArr (map rule_payload rules)) end ->
    obj_get (u "type") f = match type with [] => None | _ => Some (JStr type) end ->
    prune_logic toUpperCase (obj_get (u "logic") f) = Some logic ->
    exists draft m, parsePruneObjectsDraft Date_now toUpperCase (stringify (JObj f)) n = (Some draft, m) /\
      draft_content draft = {| pd_simpleMode := negb (defined_in (u "logic") f || defined_in (u "recursive") f
                   || match rules with [] => false | _ => true end);
                 pd_typeText := type; pd_logic := logic;
                 pd_recursive := negb (false_field (u "recursive") (JObj f)); pd_rules := map kept_cond rules |}) as H.
  { intros f logic H1 H2 H3 H4 H5. do 2 eexists. split.
    - rewrite (parse_prune_object f rules type n H1 H2 H3 H4 Htr logic H5), Hm. reflexivity.
    - unfold draft_content, with_rules. cbn [pd_simpleMode pd_typeText pd_logic pd_recursive pd_rules]. by rewrite Hk. }
  set (f := (if truthy type then [(u "type", JStr type)] else [])
     ++ (if negb (jeqb (pd_logic d) (u "AND")) then [(u "logic", JStr (u "OR"))] else [])
     ++ (if pd_recursive d then [] else [(u "recursive", JBool false)])
     ++ match map rule_payload rules with [] => [] | _ => [(u "conditions", JArr (map rule_payload rules))] end).
  assert (json_ok (JObj f) = true) as Hf.
  { assert (json_ok (JArr (map rule_payload rules)) = true) as Ha by exact Hok. unfold f. clear -Ha Ht.
    apply obj_ok_spec. destruct type as [|c type], (jeqb (pd_logic d) (u "AND")), (pd_recursive d), rules as [|r rules];
      cbn [truthy negb app map] in *; (split;
      [repeat (apply Forall_cons; split; [split; [reflexivity|first [exact Ha|exact Ht|reflexivity]]|]); apply Forall_nil; exact I
      |cbn [map fst]; apply (bool_decide_unpack _); reflexivity]). }
  destruct (H f (pd_logic d)) as (draft & m' & Hp & Hd); [done|..].
  1-4: unfold f; destruct type as [|c type], (jeqb (pd_logic d) (u "AND")) eqn:E, (pd_recursive d), rules as [|r rules];
    cbn [truthy negb app map obj_get]; names; cbn iota; rewrite ?logic_none, ?logic_OR;
    first [reflexivity | by rewrite Hla | by rewrite Hlo].
  destruct type as [|c type], rules as [|r rules].
  1: { destruct (H [(u "logic", JStr (u "AND"))] (u "AND")) as (draft' & m'' & Hp' & Hd');
         [reflexivity..|apply logic_AND|]. exists draft', m''. split; [exact Hp'|]. rewrite Hd'. reflexivity. }
  all: exists draft, m'; (split; [exact Hp|]); rewrite Hd; unfold f, defined_in, false_field;
    destruct (jeqb (pd_logic d) (u "AND")), (pd_recursive d); reflexivity.
Qed.
End PruneForm.

Definition sample_prune : PruneObjectsDraft :=
  {| pd_simpleMode := false; pd_typeText := u " thinking "; pd_logic := u "OR"; pd_recursive := false;
     pd_rules := [shown_rule] |}.

Lemma prune_form_roundtrip_witness :
  stored_prune sample_prune
  = {| pd_simpleMode := false; pd_typeText := u "thinking"; pd_logic := u "OR"; pd_recursive := false;
       pd_rules := [cond_content shown_rule] |} /\
  exists draft m, parsePruneObjectsDraft sample_now id (buildPruneObjectsValueText id sample_prune) 0
      = (Some draft, m) /\
    draft_content draft = stored_prune sample_prune.
Proof.
  split; [vm_compute; reflexivity|].
  apply (prune_form_roundtrip sample_now id eq_refl eq_refl sample_prune 0); try (vm_compute; reflexivity).
  repeat constructor.
Defined.
