(* ===== verification/Navigation.v ===== *)
(** * Navigation of the console

    Which entries the sidebar and the top navigation show:
    - [web/default/src/hooks/use-sidebar-config.ts]: the sidebar, filtered by the modules the
      administrator allows and the ones the user keeps;
    - [web/default/src/hooks/use-sidebar-data.ts]: the entries of the sidebar;
    - [web/default/src/features/system-settings/maintenance/config.ts] and the sections
      [sidebar-modules-section.tsx] and [header-navigation-section.tsx]: the settings of the
      administrator;
    - [web/default/src/features/profile/components/sidebar-modules-card.tsx]: the settings of the
      user;
    - [web/default/src/hooks/use-top-nav-links.ts]: the top navigation;
    - [web/default/src/lib/billing-visibility.ts]: how much of the billing a user sees.

    Names of sections, modules and groups are taken as own properties: the names that objects
    inherit ([constructor], [__proto__] and the like) are left out. *)

From S2P Require Import Prelude JsString JsNumber Json.
Open Scope N_scope.

(** ** Configurations *)

(** A section: [enabled] and its modules. *)
Definition SidebarSectionConfig := list (jstr * bool).
Definition SidebarModulesAdminConfig := list (jstr * SidebarSectionConfig).

Definition DEFAULT_SIDEBAR_MODULES : SidebarModulesAdminConfig :=
  [(u "chat", [(u "enabled", true); (u "playground", true); (u "chat", true)]);
   (u "console", [(u "enabled", true); (u "detail", true); (u "token", true); (u "log", true);
                  (u "midjourney", true); (u "task", true)]);
   (u "personal", [(u "enabled", true); (u "topup", true); (u "personal", true)]);
   (u "admin", [(u "enabled", true); (u "channel", true); (u "models", true); (u "redemption", true);
                (u "user", true); (u "setting", true); (u "subscription", true)])].

Definition section_fields (s : SidebarSectionConfig) : list (jstr * json) :=
  map (fun kv => (kv.1, JBool kv.2)) s.

Definition config_fields (c : SidebarModulesAdminConfig) : list (jstr * json) :=
  map (fun kv => (kv.1, JObj (section_fields kv.2))) c.

(** [Object.entries(j)], [None] for the [TypeError] of [null]. *)
Definition entries (j : json) : option (list (jstr * json)) :=
  match j with JNull => None | _ => Some (spread j) end.

(** [!value || value.trim() === ''] *)
Definition blank (value : option jstr) : bool :=
  match value with Some s => negb (truthy (trim s)) | None => true end.

(** ** The sidebar *)

(** The sections the administrator configured, as the sidebar reads them; no value of JSON is
    [undefined], so every module of a default section is there after the spread. *)
Definition merge_section (merged : list (jstr * json)) (d : jstr * SidebarSectionConfig) : list (jstr * json) :=
  obj_set d.1
    (JObj (match truthy_field (obj_get d.1 merged) with
           | None => section_fields d.2
           | Some existingSection => assign (section_fields d.2) (spread existingSection)
           end)) merged.

Definition mergeWithDefaultSidebarModules (config : json) : list (jstr * json) :=
  fold_left merge_section DEFAULT_SIDEBAR_MODULES (assign [] (spread config)).

Definition URL_TO_CONFIG_MAP : list (jstr * (jstr * jstr)) :=
  [(u "/playground", (u "chat", u "playground"));
   (u "/dashboard", (u "console", u "detail"));
   (u "/dashboard/overview", (u "console", u "detail"));
   (u "/dashboard/models", (u "console", u "detail"));
   (u "/dashboard/users", (u "console", u "detail"));
   (u "/keys", (u "console", u "token"));
   (u "/usage-logs", (u "console", u "log"));
   (u "/usage-logs/common", (u "console", u "log"));
   (u "/usage-logs/drawing", (u "console", u "midjourney"));
   (u "/usage-logs/task", (u "console", u "task"));
   (u "/wallet", (u "personal", u "topup"));
   (u "/profile", (u "personal", u "personal"));
   (u "/channels", (u "admin", u "channel"));
   (u "/models", (u "admin", u "models"));
   (u "/models/metadata", (u "admin", u "models"));
   (u "/models/deployments", (u "admin", u "models"));
   (u "/users", (u "admin", u "user"));
   (u "/redemption-codes", (u "admin", u "redemption"));
   (u "/subscriptions", (u "admin", u "subscription"));
   (u "/system-settings", (u "admin", u "setting"));
   (u "/system-settings/general", (u "admin", u "setting"))].

Definition parseSidebarConfig (value : option jstr) : list (jstr * json) :=
  match value with
  | Some s =>
      if blank value then config_fields DEFAULT_SIDEBAR_MODULES else
      match json_parse s with
      | Some parsed => mergeWithDefaultSidebarModules parsed
      | None => config_fields DEFAULT_SIDEBAR_MODULES
      end
  | None => config_fields DEFAULT_SIDEBAR_MODULES
  end.

(** [None]: the user does not narrow anything. *)
Definition parseUserSidebarConfig (value : option jstr) : option json :=
  match value with
  | Some s =>
      if blank value then None else
      match json_parse s with
      | Some ((JObj _ | JArr _) as parsed) => Some parsed
      | _ => None
      end
  | None => None
  end.

Definition admin_allows (section module : jstr) (adminConfig : list (jstr * json)) : bool :=
  match truthy_field (obj_get section adminConfig) with
  | Some s => match truthy_field (field (u "enabled") s) with Some _ => true_field module s | None => false end
  | None => false
  end.

Definition user_allows (section module : jstr) (userConfig : option json) : bool :=
  match userConfig with
  | None => true
  | Some c =>
      match truthy_field (field section c) with
      | None => true
      | Some s => negb (false_field (u "enabled") s) && negb (false_field module s)
      end
  end.

Definition isModuleEnabled (url : jstr) (adminConfig : list (jstr * json)) (userConfig : option json) : bool :=
  match obj_get url URL_TO_CONFIG_MAP with
  | None => true
  | Some (section, module) => admin_allows section module adminConfig && user_allows section module userConfig
  end.

(** Titles and urls; icons, badges and the urls that mark an entry as active play no role. *)
Inductive NavItem :=
| NavLink (title url : jstr) (configUrls : option (list jstr))
| NavCollapsible (title : jstr) (items : list (jstr * jstr))
| NavChatPresets (title : jstr).

Record NavGroup := { g_id : jstr; g_title : jstr; g_items : list NavItem }.

Definition isNavItemVisible (adminConfig : list (jstr * json)) (userConfig : option json) (item : NavItem) : bool :=
  match item with
  | NavChatPresets _ => admin_allows (u "chat") (u "chat") adminConfig && user_allows (u "chat") (u "chat") userConfig
  | NavLink _ url configUrls =>
      if truthy url
      then existsb (fun url => isModuleEnabled url adminConfig userConfig) (option_or configUrls [url])
      else true
  | NavCollapsible _ items => existsb (fun sub => isModuleEnabled sub.2 adminConfig userConfig) items
  end.

Definition filter_subitems (adminConfig : list (jstr * json)) (userConfig : option json) (item : NavItem) : NavItem :=
  match item with
  | NavCollapsible title items =>
      NavCollapsible title (jfilter (fun sub => isModuleEnabled sub.2 adminConfig userConfig) items)
  | item => item
  end.

Definition filterNavItems (items : list NavItem) (adminConfig : list (jstr * json)) (userConfig : option json) : list NavItem :=
  jfilter (isNavItemVisible adminConfig userConfig) (map (filter_subitems adminConfig userConfig) items).

(** [sidebar_settings]: the permission of the user, when the server sends it. *)
Definition useSidebarConfig (SidebarModulesAdmin : option jstr) (sidebar_settings : option bool)
    (sidebar_modules : option jstr) (navGroups : list NavGroup) : list NavGroup :=
  let adminConfig := parseSidebarConfig SidebarModulesAdmin in
  let userConfig := match sidebar_settings with
                    | Some false => None
                    | _ => parseUserSidebarConfig sidebar_modules
                    end in
  jfilter (fun g => match g_items g with [] => false | _ => true end)
    (map (fun g => {| g_id := g_id g; g_title := g_title g;
                      g_items := filterNavItems (g_items g) adminConfig userConfig |}) navGroups).

Section Texts.
Context (t toLowerCase : jstr -> jstr).

Definition link (title url : jstr) : NavItem := NavLink (t title) url None.

Definition sidebar_groups : list NavGroup :=
  [{| g_id := u "general"; g_title := t (u "General");
      g_items := [link (u "Overview") (u "/dashboard/overview"); link (u "Dashboard") (u "/dashboard/models");
                  link (u "API Keys") (u "/keys"); link (u "Usage Logs") (u "/usage-logs/common");
                  NavLink (t (u "Task Logs")) (u "/usage-logs/task")
                    (Some [u "/usage-logs/drawing"; u "/usage-logs/task"])] |};
   {| g_id := u "personal"; g_title := t (u "Personal");
      g_items := [link (u "Wallet") (u "/wallet"); link (u "Profile") (u "/profile")] |};
   {| g_id := u "admin"; g_title := t (u "Admin");
      g_items := [link (u "Channels") (u "/channels"); link (u "Models") (u "/models/metadata");
                  link (u "Users") (u "/users"); link (u "Redemption Codes") (u "/redemption-codes");
                  link (u "Subscription Management") (u "/subscriptions");
                  link (u "System Settings") (u "/system-settings/general")] |}].

(** ** The settings of the administrator *)

Definition SIDEBAR_MODULES_DEFAULT : SidebarModulesAdminConfig :=
  [(u "chat", [(u "enabled", true); (u "playground", true); (u "chat", true)]);
   (u "console", [(u "enabled", true); (u "detail", true); (u "token", true); (u "log", true);
                  (u "midjourney", true); (u "task", true)]);
   (u "personal", [(u "enabled", true); (u "topup", true); (u "personal", true)]);
   (u "admin", [(u "enabled", true); (u "channel", true); (u "models", true); (u "redemption", true);
                (u "user", true); (u "setting", true); (u "subscription", true)])].

Definition toBoolean (value : option json) (fallback : bool) : bool :=
  match value with
  | Some (JBool b) => b
  | Some (JNum x) => feq x (num_of_Z 1)
  | Some (JStr s) =>
      let normalized := toLowerCase (trim s) in
      if jeqb normalized (u "true") || jeqb normalized (u "1") then true
      else if jeqb normalized (u "false") || jeqb normalized (u "0") then false
      else fallback
  | _ => fallback
  end.

(** [defaults\[section\]?.\[module\] ?? true] *)
Definition module_fallback (sectionKey moduleKey : jstr) : bool :=
  option_or (obj_get moduleKey (option_or (obj_get sectionKey SIDEBAR_MODULES_DEFAULT) [(u "enabled", true)])) true.

Definition read_module (sectionKey : jstr) (sectionConfig : SidebarSectionConfig) (kv : jstr * json) : SidebarSectionConfig :=
  if jeqb kv.1 (u "enabled") then sectionConfig
  else obj_set kv.1 (toBoolean (Some kv.2) (module_fallback sectionKey kv.1)) sectionConfig.

(** A section that was read, [None] for a value that is no object. *)
Definition read_section (sectionKey : jstr) (raw : json) : option SidebarSectionConfig :=
  match raw with
  | JObj _ | JArr _ =>
      Some (fold_left (read_module sectionKey) (spread raw)
              [(u "enabled", toBoolean (field (u "enabled") raw) (module_fallback sectionKey (u "enabled")))])
  | _ => None
  end.

(** The modules of a default section that are missing. *)
Definition add_missing (config : SidebarSectionConfig) (result : SidebarSectionConfig) : SidebarSectionConfig :=
  fold_left (fun r kv => match obj_get kv.1 r with Some _ => r | None => obj_set kv.1 kv.2 r end) config result.

Definition parseSidebarModulesAdmin (value : option jstr) : SidebarModulesAdminConfig :=
  match value with
  | Some s =>
      if blank value then SIDEBAR_MODULES_DEFAULT else
      match json_parse s with
      | Some parsed =>
          match entries parsed with
          | Some es =>
              let result := fold_left (fun result kv =>
                match read_section kv.1 kv.2 with
                | Some sectionConfig => obj_set kv.1 sectionConfig result
                | None => result
                end) es [] in
              fold_left (fun result d =>
                obj_set d.1 (match obj_get d.1 result with
                             | Some r => add_missing d.2 r
                             | None => d.2
                             end) result) SIDEBAR_MODULES_DEFAULT result
          | None => SIDEBAR_MODULES_DEFAULT
          end
      | None => SIDEBAR_MODULES_DEFAULT
      end
  | None => SIDEBAR_MODULES_DEFAULT
  end.

Definition serializeSidebarModulesAdmin (config : SidebarModulesAdminConfig) : jstr :=
  stringify (JObj (config_fields config)).

(** What the section of the settings writes, if anything. *)
Definition submit_sidebar (values : SidebarModulesAdminConfig) (initialSerialized : jstr) : option jstr :=
  let serialized := serializeSidebarModulesAdmin values in
  if jeqb serialized initialSerialized then None else Some serialized.

(** ** The top navigation and its settings *)

Inductive nav_value := NavFlag (b : bool) | NavPricing (enabled requireAuth : bool).

Definition HeaderNavModulesConfig := list (jstr * nav_value).

Definition HEADER_NAV_DEFAULT : HeaderNavModulesConfig :=
  [(u "home", NavFlag true); (u "console", NavFlag true); (u "pricing", NavPricing true false);
   (u "docs", NavFlag true); (u "about", NavFlag true)].

(** [Boolean(base\[key\])] *)
Definition base_flag (key : jstr) : bool :=
  match obj_get key HEADER_NAV_DEFAULT with Some (NavFlag b) => b | Some (NavPricing _ _) => true | None => false end.

Definition header_entry (result : HeaderNavModulesConfig) (kv : jstr * json) : HeaderNavModulesConfig :=
  let '(key, raw) := kv in
  if jeqb key (u "pricing") then
    match raw with
    | JObj _ | JArr _ =>
        obj_set key (NavPricing (toBoolean (field (u "enabled") raw) true)
                                (toBoolean (field (u "requireAuth") raw) false)) result
    | _ => result
    end
  else
    match raw with
    | JBool b => obj_set key (NavFlag b) result
    | JStr _ | JNum _ => obj_set key (NavFlag (toBoolean (Some raw) (base_flag key))) result
    | _ => result
    end.

Definition parseHeaderNavModules (value : option jstr) : HeaderNavModulesConfig :=
  match value with
  | Some ((_ :: _) as s) =>
      match json_parse s with
      | Some parsed =>
          match entries parsed with
          | Some es => fold_left header_entry es HEADER_NAV_DEFAULT
          | None => HEADER_NAV_DEFAULT
          end
      | None => HEADER_NAV_DEFAULT
      end
  | _ => HEADER_NAV_DEFAULT
  end.

Definition nav_json (v : nav_value) : json :=
  match v with
  | NavFlag b => JBool b
  | NavPricing e r => JObj [(u "enabled", JBool e); (u "requireAuth", JBool r)]
  end.

Definition serializeHeaderNavModules (config : HeaderNavModulesConfig) : jstr :=
  stringify (JObj (map (fun kv => (kv.1, nav_json kv.2)) config)).

Record HeaderNavFormValues := {
  f_home : bool;
  f_console : bool;
  f_pricingEnabled : bool;
  f_pricingRequireAuth : bool;
  f_docs : bool;
  f_about : bool
}.

(** [config.k === undefined ? default : Boolean(config.k)] *)
Definition flag_value (k : jstr) (config : HeaderNavModulesConfig) (d : bool) : bool :=
  match obj_get k config with Some (NavFlag b) => b | Some (NavPricing _ _) => true | None => d end.

(** The two flags of [config.pricing]; a flag has none. *)
Definition pricing_value (config : HeaderNavModulesConfig) : bool * bool :=
  match obj_get (u "pricing") config with Some (NavPricing e r) => (e, r) | _ => (true, false) end.

Definition toFormValues (config : HeaderNavModulesConfig) : HeaderNavFormValues :=
  {| f_home := flag_value (u "home") config true; f_console := flag_value (u "console") config true;
     f_pricingEnabled := (pricing_value config).1; f_pricingRequireAuth := (pricing_value config).2;
     f_docs := flag_value (u "docs") config true; f_about := flag_value (u "about") config true |}.

Definition header_payload (config : HeaderNavModulesConfig) (values : HeaderNavFormValues) : HeaderNavModulesConfig :=
  assign config
    [(u "home", NavFlag (f_home values)); (u "console", NavFlag (f_console values));
     (u "docs", NavFlag (f_docs values)); (u "about", NavFlag (f_about values));
     (u "pricing", NavPricing (f_pricingEnabled values) (f_pricingRequireAuth values))].

(** What the section of the settings writes, if anything. *)
Definition submit_header (config : HeaderNavModulesConfig) (initialSerialized : jstr)
    (values : HeaderNavFormValues) : option jstr :=
  let serialized := serializeHeaderNavModules (header_payload config values) in
  if jeqb serialized initialSerialized then None else Some serialized.

Definition DEFAULT_HEADER_NAV_MODULES : json :=
  JObj [(u "home", JBool true); (u "services", JBool true); (u "console", JBool true);
        (u "pricing", JObj [(u "enabled", JBool true); (u "requireAuth", JBool false)]);
        (u "docs", JBool true); (u "about", JBool true)].

Record TopNavLink := { l_title : jstr; l_href : jstr; l_disabled : option bool; l_external : option bool }.

Definition nav_link (title href : jstr) : TopNavLink :=
  {| l_title := t title; l_href := href; l_disabled := None; l_external := None |}.

Definition header_modules (raw : option jstr) : json :=
  match raw with
  | Some s =>
      if blank raw then DEFAULT_HEADER_NAV_MODULES
      else option_or (json_parse s) DEFAULT_HEADER_NAV_MODULES
  | None => DEFAULT_HEADER_NAV_MODULES
  end.

Definition ascii_lower (c : N) : N := if in_range 65 90 c then c + 32 else c.

(** [/^https?:\/\//i.test(s)] *)
Definition is_http (s : jstr) : bool :=
  let s := map ascii_lower s in starts_with (u "http://") s || starts_with (u "https://") s.

Definition object_value (v : option json) : option json :=
  match v with Some ((JObj _ | JArr _) as j) => Some j | _ => None end.

Definition enabled_object (v : option json) : bool :=
  match object_value v with
  | Some j => match truthy_field (field (u "enabled") j) with Some _ => true | None => false end
  | None => false
  end.

Definition useTopNavLinks (HeaderNavModules docsLink : option jstr) (isAuthed : bool) : list TopNavLink :=
  let modules := header_modules HeaderNavModules in
  let shown k (l : TopNavLink) := if false_field k modules then [] else [l] in
  let services := field (u "services") modules in
  let pricing := field (u "pricing") modules in
  shown (u "home") (nav_link (u "Home") (u "/"))
  ++ (if true_field (u "services") modules || enabled_object services
      then [nav_link (u "Services") (u "/services/video-generation")] else [])
  ++ shown (u "console") (nav_link (u "Console") (u "/dashboard"))
  ++ (if enabled_object pricing
      then [{| l_title := t (u "Model Square"); l_href := u "/pricing";
               l_disabled := Some (match pricing with
                                   | Some p => match truthy_field (field (u "requireAuth") p) with
                                               | Some _ => negb isAuthed
                                               | None => false
                                               end
                                   | None => false
                                   end);
               l_external := None |}]
      else [])
  ++ shown (u "docs")
       (match docsLink with
        | Some ((_ :: _) as l) =>
            {| l_title := t (u "Docs"); l_href := l; l_disabled := None; l_external := Some (is_http l) |}
        | _ => nav_link (u "Docs") (u "/docs")
        end)
  ++ shown (u "about") (nav_link (u "About") (u "/about")).

(** ** How much of the billing is shown *)

Inductive BillingVisibilityMode := Credits | Summary | Detailed | Internal.

Definition mode_of (s : jstr) : option BillingVisibilityMode :=
  if jeqb s (u "credits") then Some Credits
  else if jeqb s (u "summary") then Some Summary
  else if jeqb s (u "detailed") then Some Detailed
  else if jeqb s (u "internal") then Some Internal
  else None.

Definition DEFAULT_BILLING_VISIBILITY_MODE : BillingVisibilityMode := Credits.

Definition DEFAULT_BILLING_GROUP_MODES : list (jstr * BillingVisibilityMode) :=
  [(u "default", Credits); (u "trial", Credits); (u "beta", Summary); (u "invited", Detailed);
   (u "b2b", Detailed); (u "enterprise", Detailed)].

Definition normalizeBillingVisibilityMode (mode : option json) (fallback : BillingVisibilityMode) : BillingVisibilityMode :=
  match mode with Some (JStr s) => option_or (mode_of s) fallback | _ => fallback end.

Definition group_entry (parsed : list (jstr * BillingVisibilityMode)) (kv : jstr * json) : list (jstr * BillingVisibilityMode) :=
  let key := toLowerCase (trim kv.1) in
  if truthy key
  then obj_set key (normalizeBillingVisibilityMode (Some kv.2) DEFAULT_BILLING_VISIBILITY_MODE) parsed
  else parsed.

Definition parseBillingVisibilityGroupModes (value : option json) (fallback : list (jstr * BillingVisibilityMode)) : list (jstr * BillingVisibilityMode) :=
  let raw := match value with Some (JStr s) => json_parse s | v => v end in
  match raw with
  | Some (JObj f) =>
      match fold_left group_entry (obj_order f) [] with
      | [] => fallback
      | parsed => parsed
      end
  | _ => fallback
  end.

Record BillingVisibilitySettings := {
  bv_defaultMode : BillingVisibilityMode;
  bv_groupModes : list (jstr * BillingVisibilityMode)
}.

Definition parseBillingVisibilitySettings (defaultMode groupModes : option json) : BillingVisibilitySettings :=
  {| bv_defaultMode := normalizeBillingVisibilityMode defaultMode DEFAULT_BILLING_VISIBILITY_MODE;
     bv_groupModes := parseBillingVisibilityGroupModes groupModes DEFAULT_BILLING_GROUP_MODES |}.

(** A [Map] of the rows keeps the last value of a key. *)
Definition billingVisibilitySettingsFromOptionRows (options : list (jstr * jstr)) : BillingVisibilitySettings :=
  let byKey := assign [] options in
  parseBillingVisibilitySettings
    (option_map JStr (obj_get (u "billing_visibility_setting.default_mode") byKey))
    (option_map JStr (obj_get (u "billing_visibility_setting.group_modes") byKey)).

Definition userBillingVisibilityMode (mode : BillingVisibilityMode) : BillingVisibilityMode :=
  match mode with Internal => Detailed | m => m end.

Definition ADMIN : num := num_of_Z 10.

Definition resolveBillingVisibilityMode (role : option num) (group : option jstr)
    (defaultMode : option BillingVisibilityMode) (groupModes : option (list (jstr * BillingVisibilityMode)))
    (explicitMode : option json) : BillingVisibilityMode :=
  if fle ADMIN (option_or role zero) then Internal else
  match truthy_field explicitMode with
  | Some m => userBillingVisibilityMode (normalizeBillingVisibilityMode (Some m) DEFAULT_BILLING_VISIBILITY_MODE)
  | None =>
      let defaultMode := option_or defaultMode DEFAULT_BILLING_VISIBILITY_MODE in
      let groupModes := option_or groupModes DEFAULT_BILLING_GROUP_MODES in
      let group := match group with
                   | Some g => if truthy (toLowerCase (trim g)) then toLowerCase (trim g) else u "default"
                   | None => u "default"
                   end in
      userBillingVisibilityMode (option_or (obj_get group groupModes) defaultMode)
  end.

End Texts.

(** ** The settings of the user *)

Definition sectionDefs : list (jstr * list jstr) :=
  [(u "chat", [u "playground"; u "chat"]);
   (u "console", [u "detail"; u "token"; u "log"; u "midjourney"; u "task"]);
   (u "personal", [u "topup"; u "personal"])].

Definition card_defaults : json :=
  JObj (map (fun sec => (sec.1, JObj ((u "enabled", JBool true) :: map (fun m => (m, JBool true)) sec.2))) sectionDefs).

(** What is loaded from the [sidebar_modules] of the answer; [None] when the text is no JSON, which
    leaves the configuration as it is. *)
Definition loadConfig (sidebar_modules : option json) : option json :=
  match truthy_field sidebar_modules with
  | Some (JStr raw) => json_parse raw
  | Some raw => Some raw
  | None => Some card_defaults
  end.

(** [{ ...prev, \[k\]: { ...prev\[k\], \[m\]: val } }], [None] for the [TypeError] of [null]. *)
Definition toggleModule (sectionKey moduleKey : jstr) (val : bool) (prev : json) : option json :=
  match prev with
  | JNull => None
  | _ =>
      let section := match field sectionKey prev with Some s => assign [] (spread s) | None => [] end in
      Some (JObj (obj_set sectionKey (JObj (obj_set moduleKey (JBool val) section)) (assign [] (spread prev))))
  end.

Definition toggleSection (sectionKey : jstr) (val : bool) (prev : json) : option json :=
  toggleModule sectionKey (u "enabled") val prev.

(** The switches of a section and of a module. *)
Definition section_switch (section : jstr) (config : json) : bool :=
  match field section config with Some s => negb (false_field (u "enabled") s) | None => true end.

Definition module_switch (section module : jstr) (config : json) : bool :=
  match field section config with Some s => negb (false_field module s) | None => true end.

(** The text that is saved. *)
Definition save_card (config : json) : jstr := stringify config.
