(* ===== verification/NavigationFacts.v ===== *)
(** * Navigation: theorems

    What the administrator submits is what the settings show afterwards, the sidebar shows an
    entry exactly when the switches of the administrator and of the user are on, a user only hides
    entries, what saving the header settings does to the top navigation, and who sees the internal
    billing. *)

From S2P Require Import Prelude JsString JsNumber Json JsonFacts Navigation.
Open Scope N_scope.

(** ** Submitting the sidebar settings *)

(** The names of a configuration. *)
Definition shape (c : SidebarModulesAdminConfig) : list (jstr * list jstr) :=
  map (fun kv => (kv.1, map fst kv.2)) c.

(** A section starts with [enabled] and names nothing twice. *)
Definition section_wf (ms : list jstr) : Prop :=
  (exists r, ms = u "enabled" :: r) /\ NoDup ms.

Record shape_wf (sh : list (jstr * list jstr)) : Prop := {
  sh_nodup : NoDup (map fst sh);
  sh_sections : Forall (fun kv => section_wf kv.2) sh;
  sh_defaults : forall k d, (k, d) ∈ SIDEBAR_MODULES_DEFAULT ->
    exists ms, (k, ms) ∈ sh /\ forall m, m ∈ map fst d -> m ∈ ms
}.

(** No name is an array index, and names are made of code units. *)
Definition names_ok (sh : list (jstr * list jstr)) : bool :=
  forallb (fun kv => key_ok kv.1 && forallb key_ok kv.2) sh.

Lemma shape_keys c : map fst (shape c) = map fst c.
Proof. unfold shape. by rewrite map_map. Qed.

Lemma section_fields_ok s :
  NoDup (map fst s) -> forallb key_ok (map fst s) = true -> json_ok (JObj (section_fields s)) = true.
Proof.
  intros Hn Hk. apply obj_ok_spec. unfold section_fields. split.
  - rewrite forallb_Forall, Forall_fmap in Hk. rewrite Forall_fmap. eapply Forall_impl; [exact Hk|]. by intros kv ?.
  - by rewrite map_map.
Qed.

Lemma config_ok c :
  shape_wf (shape c) -> names_ok (shape c) = true -> json_ok (JObj (config_fields c)) = true.
Proof.
  intros [Hn Hs _] Hk. apply obj_ok_spec. unfold config_fields. split.
  - rewrite Forall_fmap. unfold names_ok in Hk. rewrite forallb_Forall in Hk. unfold shape in Hk, Hs.
    rewrite Forall_fmap in Hk, Hs. rewrite Forall_forall in *. intros kv Hin.
    destruct (Hs kv Hin) as [_ Hnd]. apply Hk in Hin. cbn in *. apply andb_prop in Hin as [H1 H2].
    split; [done|]. by apply section_fields_ok.
  - rewrite map_map. by rewrite shape_keys in Hn.
Qed.

Lemma plain_fields (f : list (jstr * json)) : json_ok (JObj f) = true -> spread (JObj f) = f.
Proof.
  intros [Hf _]%obj_ok_spec. cbn [spread]. apply obj_order_plain. rewrite forallb_Forall.
  eapply Forall_impl; [exact Hf|]. intros kv [Hk _]. unfold key_ok in Hk. by apply andb_prop in Hk as [_ Hk].
Qed.

(** The text of an object is not blank and reads as the object. *)
Lemma object_text_reads f :
  json_ok (JObj f) = true ->
  blank (Some (stringify (JObj f))) = false /\ json_parse (stringify (JObj f)) = Some (JObj f).
Proof.
  intros Hok. destruct (stringify_trim _ Hok) as [Ht Hn]. split; [|by apply json_roundtrip].
  unfold blank. by rewrite Ht, (proj2 (truthy_spec _) Hn).
Qed.

Lemma read_modules toLowerCase k0 s acc :
  NoDup (map fst (acc ++ s)) -> u "enabled" ∉ map fst s ->
  fold_left (read_module toLowerCase k0) (section_fields s) acc = acc ++ s.
Proof.
  revert acc. induction s as [|[k b] s IH]; intros acc Hn He; [by rewrite app_nil_r|].
  cbn [map fst section_fields fold_left snd] in *. apply not_elem_of_cons in He as [Hk He]. unfold read_module at 2. cbn [fst snd].
  rewrite (proj2 (jeqb_neq k (u "enabled"))) by done. cbn [toBoolean].
  rewrite obj_set_fresh.
  - rewrite IH, <- (assoc_L (++)); [done| |done]. by rewrite <- (assoc_L (++)).
  - rewrite map_app in Hn. apply NoDup_app in Hn as (_ & Hd & _). intros Hin. apply (Hd k Hin). by left.
Qed.

Lemma read_section_json toLowerCase k s :
  section_wf (map fst s) -> json_ok (JObj (section_fields s)) = true ->
  read_section toLowerCase k (JObj (section_fields s)) = Some s.
Proof.
  intros [[r Hr] Hn] Hok. cbn [read_section]. rewrite (plain_fields _ Hok).
  destruct s as [|[e b] s]; [done|]. cbn [map fst] in Hr, Hn. injection Hr as -> _. pose proof Hn as [He _]%NoDup_cons.
  change (section_fields ((u "enabled", b) :: s)) with ((u "enabled", JBool b) :: section_fields s).
  cbn [fold_left field obj_get]. unfold read_module at 2. cbn [fst]. rewrite !jeqb_refl. cbn [toBoolean]. f_equal.
  by apply read_modules.
Qed.

(** The sections that were read, in order. *)
Lemma read_sections toLowerCase c acc :
  Forall (fun kv => section_wf (map fst kv.2) /\ json_ok (JObj (section_fields kv.2)) = true) c ->
  NoDup (map fst (acc ++ c)) ->
  fold_left (fun result kv =>
    match read_section toLowerCase kv.1 kv.2 with
    | Some sectionConfig => obj_set kv.1 sectionConfig result
    | None => result
    end) (config_fields c) acc = acc ++ c.
Proof.
  revert acc. induction c as [|[k s] c IH]; intros acc Hc Hn; [by rewrite app_nil_r|].
  apply Forall_cons in Hc as [[Hw Hok] Hc].
  change (config_fields ((k, s) :: c)) with ((k, JObj (section_fields s)) :: config_fields c).
  cbn [fold_left fst snd]. rewrite read_section_json by done. rewrite obj_set_fresh.
  - rewrite IH, <- (assoc_L (++)); [done|done|]. by rewrite <- (assoc_L (++)).
  - rewrite map_app in Hn. apply NoDup_app in Hn as (_ & Hd & _). intros Hin. apply (Hd k Hin). by left.
Qed.

Lemma obj_get_some {V} k (l : list (jstr * V)) : k ∈ map fst l -> exists v, obj_get k l = Some v.
Proof.
  induction l as [|[k' v] l IH]; cbn [map fst obj_get]; [by intros ?%elem_of_nil|].
  intros H. destruct (jeqb k' k) eqn:E; [by exists v|]. apply jeqb_neq in E. apply IH.
  by apply elem_of_cons in H as [-> |H].
Qed.

Lemma add_missing_full d r : (forall m, m ∈ map fst d -> m ∈ map fst r) -> add_missing d r = r.
Proof.
  unfold add_missing. induction d as [|[m b] d IH]; intros H; [done|]. cbn [fold_left fst snd].
  destruct (obj_get m r) as [v|] eqn:E; [apply IH; intros; apply H; by right|].
  destruct (obj_get_some m r) as [v Hv]; [apply H; by left|]. by rewrite Hv in E.
Qed.

Lemma obj_set_same {V} k (v : V) l : obj_get k l = Some v -> obj_set k v l = l.
Proof.
  induction l as [|[k' v'] l IH]; [done|]. cbn [obj_get obj_set]. destruct (jeqb k' k) eqn:E.
  - apply jeqb_spec in E as ->. by intros [= ->].
  - intros H. by rewrite IH.
Qed.

(** Nothing is missing. *)
Lemma add_defaults_full (ds c : SidebarModulesAdminConfig) :
  (forall k (d : SidebarSectionConfig), (k, d) ∈ ds ->
    exists r : SidebarSectionConfig, obj_get (V := SidebarSectionConfig) k c = Some r /\ forall m, m ∈ map fst d -> m ∈ map fst r) ->
  fold_left (fun result d => obj_set d.1 (match obj_get d.1 result with
      | Some r => add_missing d.2 r | None => d.2 end) result) ds c = c.
Proof.
  induction ds as [|[k d] ds IH]; intros H; [done|]. cbn [fold_left fst snd].
  destruct (H k d) as (r & Hr & Hm); [by left|]. rewrite Hr, add_missing_full, obj_set_same by done.
  apply IH. intros k' d' Hin. apply H. by right.
Qed.

Lemma shape_section c k ms :
  shape_wf (shape c) -> (k, ms) ∈ shape c -> exists s : SidebarSectionConfig,
    obj_get (V := SidebarSectionConfig) k c = Some s /\ map fst s = ms.
Proof.
  intros Hw (kv & [= -> ->] & Hin)%list_elem_of_fmap. destruct kv as [k s]. exists s. split; [|done].
  apply obj_get_elem; [|done]. rewrite <- shape_keys. apply (sh_nodup _ Hw).
Qed.

Lemma sections_ok c :
  shape_wf (shape c) -> names_ok (shape c) = true ->
  Forall (fun kv => section_wf (map fst kv.2) /\ json_ok (JObj (section_fields kv.2)) = true) c.
Proof.
  intros [_ Hs _] Hk. unfold names_ok in Hk. rewrite forallb_Forall in Hk. unfold shape in Hk, Hs.
  rewrite Forall_fmap in Hk, Hs. rewrite Forall_forall in *. intros kv Hin. pose proof (Hs kv Hin) as [He Hn].
  apply Hk in Hin. cbn in *. apply andb_prop in Hin as [_ Hin]. split; [done|]. by apply section_fields_ok.
Qed.

Lemma modules_text_roundtrip toLowerCase c :
  shape_wf (shape c) -> names_ok (shape c) = true ->
  parseSidebarModulesAdmin toLowerCase (Some (serializeSidebarModulesAdmin c)) = c.
Proof.
  intros Hw Hk. pose proof (config_ok c Hw Hk) as Hok. destruct (object_text_reads _ Hok) as [Hb Hp].
  unfold parseSidebarModulesAdmin, serializeSidebarModulesAdmin. rewrite Hb, Hp. unfold entries.
  rewrite (plain_fields _ Hok), (read_sections _ c []); [|by apply sections_ok|].
  - apply add_defaults_full. intros k d Hin. destruct (sh_defaults _ Hw k d Hin) as (ms & Hms & Hsub).
    destruct (shape_section c k ms Hw Hms) as (s & Hs & <-). by exists s.
  - rewrite <- shape_keys. apply (sh_nodup _ Hw).
Qed.

(** ** What the settings read is well formed *)

Lemma set_keys_subset {V} k (v : V) o m : m ∈ map fst o -> m ∈ map fst (obj_set k v o).
Proof. rewrite obj_set_keys. case_bool_decide; [done|]. intros. apply elem_of_app. by left. Qed.

Lemma set_keys_new {V} k (v : V) o : k ∈ map fst (obj_set k v o).
Proof. rewrite obj_set_keys. case_bool_decide; [done|]. apply elem_of_app. right. by left. Qed.

Lemma set_nodup {V} k (v : V) o : NoDup (map fst o) -> NoDup (map fst (obj_set k v o)).
Proof.
  intros Hn. rewrite obj_set_keys. case_bool_decide as Hk; [done|]. apply NoDup_app.
  split_and!; [done| |apply NoDup_singleton]. by intros x Hx ->%list_elem_of_singleton.
Qed.

Lemma set_section_wf k (b : bool) s : section_wf (map fst s) -> section_wf (map fst (obj_set k b s)).
Proof.
  intros [[r Hr] Hn]. split; [|by apply set_nodup]. rewrite obj_set_keys. case_bool_decide; [by exists r|].
  rewrite Hr. by exists (r ++ [k]).
Qed.

Lemma read_section_wf toLowerCase k raw s :
  read_section toLowerCase k raw = Some s -> section_wf (map fst s).
Proof.
  assert (forall l acc, section_wf (map fst acc) ->
    section_wf (map fst (fold_left (read_module toLowerCase k) l acc))) as H.
  { intros l. induction l as [|kv l IH]; intros acc Ha; [done|]. cbn [fold_left]. apply IH. unfold read_module.
    destruct (jeqb kv.1 (u "enabled")); [done|]. by apply set_section_wf. }
  assert (forall b : bool, section_wf (map fst [(u "enabled", b)])) as H0
    by (intros b; split; [by exists []|apply NoDup_singleton]).
  unfold read_section. destruct raw; try done; intros E; apply Some_inj in E as <-; apply H, H0.
Qed.

Definition config_wf (c : SidebarModulesAdminConfig) : Prop :=
  NoDup (map fst c) /\ Forall (fun kv => section_wf (map fst kv.2)) c.

Lemma set_config_wf k s c : config_wf c -> section_wf (map fst s) -> config_wf (obj_set k s c).
Proof. intros [Hn Hs] Hw. split; [by apply set_nodup|by apply obj_set_Forall]. Qed.

Lemma add_missing_wf d s : section_wf (map fst s) -> section_wf (map fst (add_missing d s)).
Proof.
  unfold add_missing. revert s. induction d as [|kv d IH]; intros s Hs; [done|]. cbn [fold_left]. apply IH.
  destruct (obj_get kv.1 s); [done|]. by apply set_section_wf.
Qed.

Lemma add_missing_keeps d s m : m ∈ map fst s -> m ∈ map fst (add_missing d s).
Proof.
  unfold add_missing. revert s. induction d as [|kv d IH]; intros s Hs; [done|]. cbn [fold_left]. apply IH.
  destruct (obj_get kv.1 s); [done|]. by apply set_keys_subset.
Qed.

Lemma add_missing_adds d s m : m ∈ map fst d -> m ∈ map fst (add_missing d s).
Proof.
  unfold add_missing. revert s. induction d as [|[k b] d IH]; intros s; cbn [map fst]; [by intros ?%elem_of_nil|].
  intros [-> |Hm]%elem_of_cons; cbn [fold_left fst snd]; [|by apply IH].
  apply (add_missing_keeps d). destruct (obj_get k s) as [v|] eqn:E; [|apply set_keys_new].
  apply obj_get_in in E. apply list_elem_of_fmap. by exists (k, v).
Qed.

(** Adding the default sections. *)
Definition add_default (result : SidebarModulesAdminConfig) (d : jstr * SidebarSectionConfig) : SidebarModulesAdminConfig :=
  obj_set d.1 (match obj_get d.1 result with Some r => add_missing d.2 r | None => d.2 end) result.

Definition has_modules (k : jstr) (d : SidebarSectionConfig) (c : SidebarModulesAdminConfig) : Prop :=
  exists s : SidebarSectionConfig, obj_get (V := SidebarSectionConfig) k c = Some s /\
    forall m, m ∈ map fst d -> m ∈ map fst s.

Lemma add_default_keeps k d d' c : has_modules k d c -> has_modules k d (add_default c d').
Proof.
  intros (s & Hs & Hm). unfold add_default. destruct (decide (d'.1 = k)) as [<-|Hne].
  - exists (add_missing d'.2 s). rewrite Hs, obj_get_set_eq. split; [done|]. intros m Hin.
    by apply add_missing_keeps, Hm.
  - exists s. by rewrite obj_get_set_ne.
Qed.

Lemma add_default_has k d c : has_modules k d (add_default c (k, d)).
Proof.
  unfold add_default. cbn [fst snd]. eexists. split; [apply obj_get_set_eq|]. intros m Hm.
  destruct (obj_get k c); [by apply add_missing_adds|done].
Qed.

Lemma add_defaults_has ds c k d :
  (k, d) ∈ ds \/ has_modules k d c -> has_modules k d (fold_left add_default ds c).
Proof.
  revert c. induction ds as [|d' ds IH]; intros c; [by intros [?%elem_of_nil|?]|].
  cbn [fold_left]. intros [[<-|Hin]%elem_of_cons|Hh]; apply IH; [right; apply add_default_has|by left|].
  right. by apply add_default_keeps.
Qed.

Lemma add_defaults_wf ds c :
  Forall (fun kv : jstr * SidebarSectionConfig => section_wf (map fst kv.2)) ds -> config_wf c ->
  config_wf (fold_left add_default ds c).
Proof.
  intros Hds. revert c. induction Hds as [|d ds Hd _ IH]; intros c Hc; [done|]. cbn [fold_left]. apply IH.
  unfold add_default. apply set_config_wf; [done|]. destruct (obj_get d.1 c) as [s|] eqn:E; [|done].
  apply add_missing_wf. apply obj_get_in in E. destruct Hc as [_ Hc]. rewrite Forall_forall in Hc. exact (Hc _ E).
Qed.

Lemma defaults_wf : config_wf SIDEBAR_MODULES_DEFAULT.
Proof.
  split; [apply (bool_decide_unpack _); by vm_compute|].
  repeat constructor; try (by eexists); apply (bool_decide_unpack _); by vm_compute.
Qed.

Lemma shape_wf_intro c :
  config_wf c -> (forall k d, (k, d) ∈ SIDEBAR_MODULES_DEFAULT -> has_modules k d c) -> shape_wf (shape c).
Proof.
  intros [Hn Hs] Hd. split.
  - by rewrite shape_keys.
  - unfold shape. by rewrite Forall_fmap.
  - intros k d Hin. destruct (Hd k d Hin) as (s & Hs' & Hm). exists (map fst s). split; [|done].
    apply list_elem_of_fmap. exists (k, s). split; [done|]. by apply obj_get_in.
Qed.

Lemma parse_settings_wf toLowerCase v : shape_wf (shape (parseSidebarModulesAdmin toLowerCase v)).
Proof.
  assert (shape_wf (shape SIDEBAR_MODULES_DEFAULT)) as H0.
  { apply shape_wf_intro; [apply defaults_wf|]. intros k d Hin. exists d. split; [|done].
    apply obj_get_elem; [apply defaults_wf|done]. }
  unfold parseSidebarModulesAdmin. destruct v as [s|]; [|done]. destruct (blank (Some s)); [done|].
  destruct (json_parse s) as [parsed|]; [|done]. destruct (entries parsed) as [es|]; [|done].
  cbv zeta. change (fun result d => obj_set d.1 _ result) with add_default.
  apply shape_wf_intro; [apply add_defaults_wf; [apply defaults_wf|]|intros; apply add_defaults_has; by left].
  assert (config_wf []) as Hnil by (split; constructor). revert Hnil. generalize (@nil (jstr * SidebarSectionConfig)).
  induction es as [|kv es IH]; intros acc Hacc; [done|]. cbn [fold_left]. apply IH.
  destruct (read_section toLowerCase kv.1 kv.2) as [sec|] eqn:E; [|done].
  apply set_config_wf; [done|]. by eapply read_section_wf.
Qed.

(** ** The settings and the sidebar *)

(** what the administrator submits is what the settings show afterwards: for any text the
    server held, the switches of the form, set in any way, are read back from the text that is
    written. *)
Theorem sidebar_settings_roundtrip toLowerCase v values :
  shape values = shape (parseSidebarModulesAdmin toLowerCase v) -> names_ok (shape values) = true ->
  parseSidebarModulesAdmin toLowerCase (Some (serializeSidebarModulesAdmin values)) = values.
Proof. intros Hs Hk. apply modules_text_roundtrip; [|done]. rewrite Hs. apply parse_settings_wf. Qed.








(** A text of the server with a section that is off and a module that is not known. *)
Definition sample_settings : jstr := u "{`console`:{`enabled`:true,`log`:`0`,`audit`:1},`chat`:{`enabled`:false}}".

Definition sample_values : SidebarModulesAdminConfig := parseSidebarModulesAdmin id (Some sample_settings).


Lemma sidebar_settings_roundtrip_witness :
  obj_get (u "chat") sample_values = Some [(u "enabled", false); (u "playground", true); (u "chat", true)] /\
  parseSidebarModulesAdmin id (Some (serializeSidebarModulesAdmin sample_values)) = sample_values.
Proof.
  split; [vm_compute; reflexivity|].
  apply (sidebar_settings_roundtrip id (Some sample_settings) sample_values); vm_compute; reflexivity.
Defined.

(** ** A user only hides *)

(** The links that are shown, with their titles; the list of chats has no url. *)
Definition item_links (item : NavItem) : list (jstr * jstr) :=
  match item with
  | NavLink title url _ => [(title, url)]
  | NavCollapsible _ items => items
  | NavChatPresets title => [(title, [])]
  end.

Definition nav_links (groups : list NavGroup) : list (jstr * jstr) :=
  flat_map (fun g => flat_map item_links (g_items g)) groups.

Lemma enabled_narrows url adminConfig userConfig :
  isModuleEnabled url adminConfig userConfig = true -> isModuleEnabled url adminConfig None = true.
Proof.
  unfold isModuleEnabled. destruct (obj_get url URL_TO_CONFIG_MAP) as [[section module]|]; [|done].
  intros [Ha _]%andb_prop. by rewrite Ha.
Qed.

Lemma existsb_impl {A} (p q : A -> bool) l :
  (forall x, p x = true -> q x = true) -> existsb p l = true -> existsb q l = true.
Proof. intros Hpq. rewrite !existsb_exists. naive_solver. Qed.

Lemma visible_narrows adminConfig userConfig item :
  isNavItemVisible adminConfig userConfig (filter_subitems adminConfig userConfig item) = true ->
  isNavItemVisible adminConfig None (filter_subitems adminConfig None item) = true.
Proof.
  destruct item as [title url urls|title items|title]; cbn [filter_subitems isNavItemVisible].
  - destruct (truthy url); [|done]. apply existsb_impl. intros x. apply enabled_narrows.
  - rewrite !existsb_exists. intros (sub & Hin & Hsub). exists sub. apply filter_In in Hin as [Hin _].
    pose proof (enabled_narrows _ _ _ Hsub) as H. split; [|done]. apply filter_In. done.
  - intros [Ha _]%andb_prop. by rewrite Ha.
Qed.

Lemma jfilter_sublist {A} (p q : A -> bool) l :
  (forall x, p x = true -> q x = true) -> jfilter p l `sublist_of` jfilter q l.
Proof.
  intros H. induction l as [|x l IH]; [constructor|]. cbn [List.filter].
  destruct (p x) eqn:E; [rewrite (H x E); by constructor|]. destruct (q x); [by constructor|done].
Qed.

Lemma item_narrows adminConfig userConfig item :
  item_links (filter_subitems adminConfig userConfig item) `sublist_of` item_links (filter_subitems adminConfig None item).
Proof.
  destruct item as [title url urls|title items|title]; cbn [filter_subitems item_links]; try done.
  apply jfilter_sublist. intros x. apply enabled_narrows.
Qed.

Lemma items_narrow adminConfig userConfig items :
  flat_map item_links (filterNavItems items adminConfig userConfig)
  `sublist_of` flat_map item_links (filterNavItems items adminConfig None).
Proof.
  unfold filterNavItems. induction items as [|item items IH]; [constructor|]. cbn [map List.filter].
  destruct (isNavItemVisible adminConfig userConfig (filter_subitems adminConfig userConfig item)) eqn:E.
  - rewrite (visible_narrows _ _ _ E). cbn [flat_map]. apply sublist_app; [apply item_narrows|done].
  - destruct (isNavItemVisible adminConfig None _); [|done]. cbn [flat_map]. by apply sublist_inserts_l.
Qed.

Lemma groups_links (f : NavGroup -> list NavItem) gs :
  nav_links (jfilter (fun g => match g_items g with [] => false | _ => true end)
    (map (fun g => {| g_id := g_id g; g_title := g_title g; g_items := f g |}) gs))
  = flat_map (fun g => flat_map item_links (f g)) gs.
Proof.
  unfold nav_links. induction gs as [|g gs IH]; [done|]. cbn [map List.filter g_items flat_map].
  destruct (f g) as [|i items] eqn:E; [done|]. cbn [flat_map g_items]. by rewrite IH.
Qed.

(** ** The entries that are shown *)

Section Shown.

(** Whether a module is on for the url of an entry, and for the list of chats. *)
Context (on : jstr -> bool) (chats : bool).



End Shown.





(** ** The card of the user *)

(** whatever a user stores, the links of the sidebar are among the ones shown without it, in
    the same order; an account that cannot configure the sidebar sees all of these. *)
Theorem user_only_hides admin sidebar_settings user groups :
  nav_links (useSidebarConfig admin sidebar_settings user groups)
    `sublist_of` nav_links (useSidebarConfig admin sidebar_settings None groups) /\
  useSidebarConfig admin (Some false) user groups = useSidebarConfig admin (Some false) None groups.
Proof.
  split; [|done]. unfold useSidebarConfig. rewrite !groups_links.
  assert (match sidebar_settings with Some false => None | _ => parseUserSidebarConfig None end = None) as ->
    by by destruct sidebar_settings as [[]|].
  set (userConfig := match sidebar_settings with Some false => None | _ => parseUserSidebarConfig user end).
  induction groups as [|g groups IH]; [constructor|]. cbn [flat_map]. apply sublist_app; [apply items_narrow|done].
Qed.

(** ** The top navigation *)

(** The links by their targets. *)
Definition hrefs (links : list TopNavLink) : list jstr := map l_href links.

(** a console whose header was never configured links to the services; once its header
    settings are saved, with any choice of switches, it no longer does, and its links are the ones
    of the switches. *)
Theorem header_save_drops_services t toLowerCase docs authed values :
  let text := serializeHeaderNavModules (header_payload (parseHeaderNavModules toLowerCase None) values) in
  u "/services/video-generation" ∈ hrefs (useTopNavLinks t None docs authed) /\
  hrefs (useTopNavLinks t (Some text) docs authed)
  = (if f_home values then [u "/"] else []) ++ (if f_console values then [u "/dashboard"] else [])
    ++ (if f_pricingEnabled values then [u "/pricing"] else [])
    ++ (if f_docs values then [match docs with Some ((_ :: _) as l) => l | _ => u "/docs" end] else [])
    ++ (if f_about values then [u "/about"] else []).
Proof.
  cbv zeta. split; [apply (list_elem_of_lookup_2 _ 1); reflexivity|].
  destruct values as [h c pe pr d a].
  assert (forall b1 b2 b3 b4 b5 b6,
    header_modules (Some (serializeHeaderNavModules (header_payload (parseHeaderNavModules toLowerCase None)
      {| f_home := b1; f_console := b2; f_pricingEnabled := b3; f_pricingRequireAuth := b4; f_docs := b5; f_about := b6 |})))
    = JObj [(u "home", JBool b1); (u "console", JBool b2);
            (u "pricing", JObj [(u "enabled", JBool b3); (u "requireAuth", JBool b4)]);
            (u "docs", JBool b5); (u "about", JBool b6)]) as Hm
    by (intros [] [] [] [] [] []; vm_compute; reflexivity).
  unfold useTopNavLinks. rewrite Hm. unfold hrefs. rewrite !map_app.
  destruct h, c, pe, d, a; destruct docs as [[|ch docs]|]; reflexivity.
Qed.

(** ** Billing *)

(** the internal view of the billing is for administrators: it is resolved exactly for a role
    of at least 10, whatever the modes of groups, the default and the mode of the user say. *)
Theorem internal_billing_admin toLowerCase role group defaultMode groupModes explicitMode :
  resolveBillingVisibilityMode toLowerCase role group defaultMode groupModes explicitMode = Internal <->
  fle ADMIN (option_or role zero) = true.
Proof.
  unfold resolveBillingVisibilityMode. destruct (fle ADMIN (option_or role zero)); [done|].
  split; [|done]. assert (forall m, userBillingVisibilityMode m <> Internal) as H by by intros [].
  destruct (truthy_field explicitMode); intros E; by apply H in E.
Qed.
