(* ===== verification/TableUrl.v ===== *)
(** * The state of a table in the url

    The hook [web/default/src/hooks/use-table-url-state.ts]: the page, the filters of the columns
    and the text filter of a table, kept in the search parameters of the url.

    A search record is a finite map; a parameter that is set to [undefined] is not in it.  Pages,
    page sizes and counts of pages are integers (below 2^53, where the arithmetic of doubles is
    exact); every other parameter is a JSON value. *)

From stdpp Require Import gmap relations.
From S2P Require Import Prelude JsString JsNumber Json.
Open Scope Z_scope.

Inductive search_value := SvNum (n : Z) | SvJson (j : json).

Abbreviation SearchRecord := (gmap jstr search_value).

(** ** Configuration *)

Inductive col_type := TypeString | TypeArray.

(** [serialize] and [deserialize] default to the identity. *)
Record ColumnFilterCfg := {
  cf_columnId : jstr;
  cf_searchKey : jstr;
  cf_type : option col_type;
  cf_serialize : option (json -> search_value);
  cf_deserialize : option (option search_value -> option search_value)
}.

Record Params := {
  pageKey : jstr;
  pageSizeKey : jstr;
  defaultPage : Z;
  defaultPageSize : Z;
  globalFilterKey : jstr;
  globalFilterEnabled : bool;
  trimGlobal : bool;
  columnFiltersCfg : list ColumnFilterCfg
}.

(** The values that are used when the caller gives none. *)
Definition default_params (columns : list ColumnFilterCfg) : Params :=
  {| pageKey := u "page"; pageSizeKey := u "pageSize"; defaultPage := 1; defaultPageSize := 20;
     globalFilterKey := u "filter"; globalFilterEnabled := true; trimGlobal := true;
     columnFiltersCfg := columns |}.

Record PaginationState := { pageIndex : Z; pageSize : Z }.

Record ColumnFilter := { f_id : jstr; f_value : json }.
Abbreviation ColumnFiltersState := (list ColumnFilter).

Section Hook.
Context (p : Params).

(** ** Reading the url *)

Definition deserialize (cfg : ColumnFilterCfg) (raw : option search_value) : option search_value :=
  match cf_deserialize cfg with Some f => f raw | None => raw end.

Definition serialize (cfg : ColumnFilterCfg) (value : json) : search_value :=
  match cf_serialize cfg with Some f => f value | None => SvJson value end.

(** The filter of a column, if the url has one; a column without a type is read as an array. *)
Definition read_filter (search : SearchRecord) (cfg : ColumnFilterCfg) : option ColumnFilter :=
  match cf_type cfg, deserialize cfg (search !! cf_searchKey cfg) with
  | Some TypeString, Some (SvJson (JStr s)) =>
      if truthy (trim s) then Some {| f_id := cf_columnId cfg; f_value := JStr s |} else None
  | Some TypeString, _ => None
  | _, Some (SvJson (JArr ((_ :: _) as l))) => Some {| f_id := cf_columnId cfg; f_value := JArr l |}
  | _, _ => None
  end.

Definition initialColumnFilters (search : SearchRecord) : ColumnFiltersState :=
  omap (read_filter search) (columnFiltersCfg p).

Definition num_param (k : jstr) (d : Z) (search : SearchRecord) : Z :=
  match search !! k with Some (SvNum n) => n | _ => d end.

Definition pagination (search : SearchRecord) : PaginationState :=
  {| pageIndex := Z.max 0 (num_param (pageKey p) (defaultPage p) search - 1);
     pageSize := num_param (pageSizeKey p) (defaultPageSize p) search |}.

Definition initialGlobalFilter (search : SearchRecord) : option jstr :=
  if globalFilterEnabled p then
    Some (match search !! globalFilterKey p with Some (SvJson (JStr s)) => s | _ => [] end)
  else None.

(** ** Writing the url *)

(** [{ ...search, \[k\]: v }] *)
Definition put (k : jstr) (v : option search_value) (search : SearchRecord) : SearchRecord :=
  match v with Some x => <[k := x]> search | None => delete k search end.

Definition onPaginationChange (next : PaginationState) (search : SearchRecord) : SearchRecord :=
  let nextPage := pageIndex next + 1 in
  put (pageSizeKey p) (if pageSize next =? defaultPageSize p then None else Some (SvNum (pageSize next)))
    (put (pageKey p) (if nextPage <=? defaultPage p then None else Some (SvNum nextPage)) search).

(** The parameter of a column. *)
Definition filter_param (next : ColumnFiltersState) (cfg : ColumnFilterCfg) : option search_value :=
  let value := option_map f_value (find (fun f => jeqb (f_id f) (cf_columnId cfg)) next) in
  match cf_type cfg with
  | Some TypeString =>
      match value with
      | Some (JStr s) => if truthy (trim s) then Some (serialize cfg (JStr s)) else None
      | _ => None
      end
  | _ =>
      match value with
      | Some (JArr ((_ :: _) as l)) => Some (serialize cfg (JArr l))
      | _ => None
      end
  end.

Definition onColumnFiltersChange (next : ColumnFiltersState) (search : SearchRecord) : SearchRecord :=
  fold_left (fun s cfg => put (cf_searchKey cfg) (filter_param next cfg) s) (columnFiltersCfg p)
    (put (pageKey p) None search).

(** The value and the url of a new text filter. *)
Definition filter_text (next : jstr) : jstr := if trimGlobal p then trim next else next.

Definition onGlobalFilterChange (next : jstr) (search : SearchRecord) : SearchRecord :=
  let value := filter_text next in
  put (globalFilterKey p) (if truthy value then Some (SvJson (JStr value)) else None)
    (put (pageKey p) None search).

Inductive reset_to := ResetFirst | ResetLast.

(** The url of the navigation, if there is one. *)
Definition ensurePageInRange (pageCount : Z) (resetTo : reset_to) (search : SearchRecord) : option SearchRecord :=
  let pageNum := num_param (pageKey p) (defaultPage p) search in
  if (0 <? pageCount) && (pageCount <? pageNum)
  then Some (put (pageKey p) (match resetTo with ResetLast => Some (SvNum pageCount) | ResetFirst => None end) search)
  else None.

(** ** The hook in a page *)

Record HookState := {
  search : SearchRecord;
  columnFilters : ColumnFiltersState;
  globalFilter : option jstr
}.

Definition mount (s : SearchRecord) : HookState :=
  {| search := s; columnFilters := initialColumnFilters s; globalFilter := initialGlobalFilter s |}.

(** Going to another url runs the effect that reads the column filters again. *)
Definition navigate (s : SearchRecord) (st : HookState) : HookState :=
  {| search := s; columnFilters := initialColumnFilters s; globalFilter := globalFilter st |}.

Inductive hook_step : HookState -> HookState -> Prop :=
| StepPage st next : hook_step st (navigate (onPaginationChange next (search st)) st)
| StepColumns st next : hook_step st (navigate (onColumnFiltersChange next (search st)) st)
| StepText st next :
    globalFilterEnabled p = true ->
    hook_step st (navigate (onGlobalFilterChange next (search st))
                    {| search := search st; columnFilters := columnFilters st;
                       globalFilter := Some (filter_text next) |})
| StepEnsure st pageCount resetTo s :
    ensurePageInRange pageCount resetTo (search st) = Some s -> hook_step st (navigate s st)
| StepOutside st s : hook_step st (navigate s st).

End Hook.
