(* ===== verification/TableUrlFacts.v ===== *)
(** * The state of a table in the url: theorems

    What is written to the url is read back from it, the page of a table settles in its range,
    and which part of the state follows the url. *)

From stdpp Require Import gmap relations.
From S2P Require Import Prelude JsString JsNumber Json TableUrl.
Open Scope Z_scope.

Lemma lookup_put (k : jstr) (v : option search_value) (s : SearchRecord) : put k v s !! k = v.
Proof. unfold put. destruct v; [apply lookup_insert_eq|apply lookup_delete_eq]. Qed.

Lemma lookup_put_ne (k k' : jstr) (v : option search_value) (s : SearchRecord) : k <> k' -> put k v s !! k' = s !! k'.
Proof. intros H. unfold put. destruct v; [by apply lookup_insert_ne|by apply lookup_delete_ne]. Qed.

(** ** Column filters *)

(** What was written is read back, and nothing is read from nothing. *)
Record faithful (cfg : ColumnFilterCfg) : Prop := {
  reads_written : forall v, deserialize cfg (Some (serialize cfg v)) = Some (SvJson v);
  reads_nothing : deserialize cfg None = None
}.

Lemma plain_faithful id key ty :
  faithful {| cf_columnId := id; cf_searchKey := key; cf_type := ty; cf_serialize := None; cf_deserialize := None |}.
Proof. by split. Qed.

(** The filter of a column among the chosen ones, if it filters: a text that is not blank, or an
    array that is not empty. *)
Definition chosen (next : ColumnFiltersState) (cfg : ColumnFilterCfg) : option ColumnFilter :=
  match cf_type cfg, option_map f_value (find (fun f => jeqb (f_id f) (cf_columnId cfg)) next) with
  | Some TypeString, Some (JStr s) =>
      if truthy (trim s) then Some {| f_id := cf_columnId cfg; f_value := JStr s |} else None
  | Some TypeString, _ => None
  | _, Some (JArr ((_ :: _) as l)) => Some {| f_id := cf_columnId cfg; f_value := JArr l |}
  | _, _ => None
  end.

Lemma read_chosen next cfg s :
  faithful cfg -> s !! cf_searchKey cfg = filter_param next cfg -> read_filter s cfg = chosen next cfg.
Proof.
  intros [Hw Hn] Hs. unfold read_filter, chosen. rewrite Hs. unfold filter_param.
  destruct (cf_type cfg) as [[]|]; destruct (option_map f_value _) as [[| | |t|[|x l]|]|]; rewrite ?Hn, ?Hw; try done.
  destruct (truthy (trim t)) eqn:Ht; rewrite ?Hn, ?Hw; [by rewrite Ht|done].
Qed.

(** The parameters after the ones of the columns were written. *)
Lemma columns_lookup next cfgs s k :
  NoDup (map cf_searchKey cfgs) ->
  fold_left (fun s cfg => put (cf_searchKey cfg) (filter_param next cfg) s) cfgs s !! k
  = match find (fun cfg => jeqb (cf_searchKey cfg) k) cfgs with
    | Some cfg => filter_param next cfg
    | None => s !! k
    end.
Proof.
  revert s. induction cfgs as [|cfg cfgs IH]; intros s Hn; [done|]. cbn [map] in Hn.
  apply NoDup_cons in Hn as [Hk Hn]. cbn [fold_left find]. rewrite IH by done.
  destruct (jeqb (cf_searchKey cfg) k) eqn:E.
  - apply jeqb_spec in E as <-. destruct (find _ cfgs) as [c|] eqn:Hf; [|apply lookup_put].
    apply find_some in Hf as [Hin Hc%jeqb_spec]. destruct Hk. apply list_elem_of_fmap.
    exists c. split; [done|]. by apply list_elem_of_In.
  - apply jeqb_neq in E. destruct (find _ cfgs); [done|]. by apply lookup_put_ne.
Qed.

Lemma find_key cfgs cfg :
  NoDup (map cf_searchKey cfgs) -> cfg ∈ cfgs ->
  find (fun c => jeqb (cf_searchKey c) (cf_searchKey cfg)) cfgs = Some cfg.
Proof.
  induction cfgs as [|c cfgs IH]; [by intros _ ?%elem_of_nil|]. cbn [map find].
  intros [Hk Hn]%NoDup_cons [<-|Hin]%elem_of_cons; [by rewrite jeqb_refl|].
  destruct (jeqb _ _) eqn:E; [|by apply IH]. apply jeqb_spec in E. destruct Hk. rewrite E.
  by apply list_elem_of_fmap_2.
Qed.

Lemma find_no_key cfgs k : k ∉ map cf_searchKey cfgs -> find (fun c => jeqb (cf_searchKey c) k) cfgs = None.
Proof.
  induction cfgs as [|c cfgs IH]; [done|]. cbn [map find]. intros [Hne Hk]%not_elem_of_cons.
  rewrite (proj2 (jeqb_neq _ _)) by done. by apply IH.
Qed.

(** Distinct parameters for the columns, the page, its size and the text. *)
Record keys_distinct (p : Params) : Prop := {
  kd_columns : NoDup (map cf_searchKey (columnFiltersCfg p));
  kd_others : Forall (fun k => k ∉ map cf_searchKey (columnFiltersCfg p)) [pageKey p; pageSizeKey p; globalFilterKey p];
  kd_fixed : NoDup [pageKey p; pageSizeKey p; globalFilterKey p]
}.

Lemma omap_ext_in {A B} (f g : A -> option B) (l : list A) : (forall x, x ∈ l -> f x = g x) -> omap f l = omap g l.
Proof.
  induction l as [|x l IH]; intros H; [done|]. cbn [omap list_omap]. rewrite (H x) by by left.
  rewrite IH; [done|]. intros y Hy. apply H. by right.
Qed.

(** C24: choosing filters writes them to the url so that the same filters are read from it, one for
    each column that filters, in the order of the columns; the table is back on its first page,
    and its page size and its text filter stay. *)
Theorem filters_roundtrip p next s :
  keys_distinct p -> Forall faithful (columnFiltersCfg p) ->
  let s' := onColumnFiltersChange p next s in
  initialColumnFilters p s' = omap (chosen next) (columnFiltersCfg p) /\
  pagination p s' = {| pageIndex := Z.max 0 (defaultPage p - 1); pageSize := pageSize (pagination p s) |} /\
  initialGlobalFilter p s' = initialGlobalFilter p s.
Proof.
  intros [Hc Ho Hf] Hfaith s'. rewrite !Forall_cons in Ho. destruct Ho as (H1 & H2 & H3 & _).
  apply NoDup_cons in Hf as [Hpk Hf]. apply NoDup_cons in Hf as [Hsk _].
  apply not_elem_of_cons in Hpk as [Hps Hpg]. apply not_elem_of_cons in Hpg as [Hpg _].
  assert (forall k, k ∉ map cf_searchKey (columnFiltersCfg p) -> s' !! k = put (pageKey p) None s !! k) as Hout.
  { intros k Hk. unfold s', onColumnFiltersChange. rewrite columns_lookup by done. by rewrite find_no_key. }
  split_and!.
  - apply omap_ext_in. intros cfg Hin. rewrite Forall_forall in Hfaith. apply read_chosen; [by apply Hfaith|].
    unfold s', onColumnFiltersChange. rewrite columns_lookup by done. by rewrite find_key.
  - unfold pagination, num_param. rewrite !Hout, lookup_put, lookup_put_ne by done. done.
  - unfold initialGlobalFilter. rewrite Hout by done. by rewrite lookup_put_ne.
Qed.

(** ** Pages *)

(** going to a page and a page size writes them to the url so that the same page and size are
    read from it; the filters of the columns and the text filter stay. *)
Theorem pagination_roundtrip p next s :
  keys_distinct p -> defaultPage p = 1 -> 0 <= pageIndex next ->
  let s' := onPaginationChange p next s in
  pagination p s' = next /\ initialColumnFilters p s' = initialColumnFilters p s /\
  initialGlobalFilter p s' = initialGlobalFilter p s.
Proof.
  intros [Hc Ho Hf] Hd Hi s'. rewrite !Forall_cons in Ho. destruct Ho as (H1 & H2 & H3 & _).
  apply NoDup_cons in Hf as [Hpk Hf]. apply NoDup_cons in Hf as [Hsk _].
  apply not_elem_of_cons in Hpk as [Hps Hpg]. apply not_elem_of_cons in Hpg as [Hpg _].
  apply not_elem_of_cons in Hsk as [Hsk _].
  assert (forall k, k <> pageKey p -> k <> pageSizeKey p -> s' !! k = s !! k) as Hout.
  { intros k ? ?. unfold s', onPaginationChange. cbv zeta. by rewrite !lookup_put_ne by done. }
  split_and!.
  - unfold pagination, num_param, s', onPaginationChange. cbv zeta. rewrite lookup_put, lookup_put_ne, lookup_put by done.
    destruct next as [i sz]. cbn [pageIndex pageSize] in *. rewrite Hd.
    destruct (Z.leb_spec (i + 1) 1), (Z.eqb_spec sz (defaultPageSize p)); f_equal; lia.
  - apply omap_ext_in. intros cfg Hin. unfold read_filter. rewrite Hout; [done|..].
    + intros He. apply H1. rewrite <- He. by apply list_elem_of_fmap_2.
    + intros He. apply H2. rewrite <- He. by apply list_elem_of_fmap_2.
  - unfold initialGlobalFilter. by rewrite Hout.
Qed.


(** ** What follows the url *)

(** in every state that can be reached, by the user or by a navigation from elsewhere, the
    filters of the columns are the ones of the url. *)
Theorem columns_follow_url p s st :
  rtc (hook_step p) (mount p s) st -> columnFilters st = initialColumnFilters p (search st).
Proof. revert st. apply rtc_ind_r; [done|]. intros st1 st2 _ Hs _. by destruct Hs. Qed.

(** ** A table of channels *)

Definition column (id key : jstr) (ty : col_type) : ColumnFilterCfg :=
  {| cf_columnId := id; cf_searchKey := key; cf_type := Some ty; cf_serialize := None; cf_deserialize := None |}.

Definition channel_params : Params :=
  default_params [column (u "status") (u "status") TypeArray; column (u "type") (u "type") TypeArray;
                  column (u "group") (u "group") TypeArray; column (u "model") (u "model") TypeString].

Definition channel_filters : ColumnFiltersState :=
  [{| f_id := u "model"; f_value := JStr (u "gpt") |}; {| f_id := u "status"; f_value := JArr [JStr (u "enabled")] |};
   {| f_id := u "group"; f_value := JArr [] |}].

Definition channel_search : SearchRecord := {[ u "page" := SvNum 4; u "filter" := SvJson (JStr (u "eu")) ]}.

Lemma channel_keys : keys_distinct channel_params.
Proof.
  split; [apply (bool_decide_unpack _); vm_compute; exact I| |apply (bool_decide_unpack _); vm_compute; exact I].
  apply (bool_decide_unpack _). vm_compute. exact I.
Qed.

Lemma filters_roundtrip_witness :
  initialColumnFilters channel_params (onColumnFiltersChange channel_params channel_filters channel_search)
  = [{| f_id := u "status"; f_value := JArr [JStr (u "enabled")] |}; {| f_id := u "model"; f_value := JStr (u "gpt") |}].
Proof.
  destruct (filters_roundtrip channel_params channel_filters channel_search) as [H _];
    [exact channel_keys|repeat constructor|].
  rewrite H. vm_compute. reflexivity.
Defined.

Lemma pagination_roundtrip_witness :
  pagination channel_params (onPaginationChange channel_params {| pageIndex := 2; pageSize := 50 |} channel_search)
  = {| pageIndex := 2; pageSize := 50 |}.
Proof.
  apply (pagination_roundtrip channel_params {| pageIndex := 2; pageSize := 50 |} channel_search);
    [exact channel_keys|reflexivity|cbn; lia].
Defined.


Lemma columns_follow_url_witness :
  columnFilters (navigate channel_params ∅ (mount channel_params channel_search))
  = initialColumnFilters channel_params (search (navigate channel_params ∅ (mount channel_params channel_search))).
Proof. apply (columns_follow_url channel_params channel_search). eapply rtc_once, StepOutside. Defined.

(** The text filter does not follow the url: a navigation to a url without one leaves it. *)
Lemma text_filter_stale :
  exists st, rtc (hook_step channel_params) (mount channel_params channel_search) st /\
    globalFilter st = Some (u "eu") /\ initialGlobalFilter channel_params (search st) = Some [].
Proof.
  exists (navigate channel_params ∅ (mount channel_params channel_search)).
  split; [eapply rtc_once, StepOutside|]. by vm_compute.
Qed.
