(* ===== verification/Utf8.v ===== *)
(** * UTF-8

    The bytes of a text, as the server and [TextEncoder] write them, and [new TextDecoder().decode],
    with the states and the boundaries of the Encoding standard: a wrong byte gives U+FFFD and is
    looked at again.  A text without lone surrogates is read back. *)

From S2P Require Import Prelude JsString.
Open Scope N_scope.

(** ** Encoding *)

Definition high_surrogate (c : N) : bool := in_range 55296 56319 c.
Definition low_surrogate (c : N) : bool := in_range 56320 57343 c.

(** The bytes of a code point. *)
Definition utf8_bytes (c : N) : list N :=
  if c <? 128 then [c]
  else if c <? 2048 then [192 + c / 64; 128 + c mod 64]
  else if c <? 65536 then [224 + c / 4096; 128 + (c / 64) mod 64; 128 + c mod 64]
  else [240 + c / 262144; 128 + (c / 4096) mod 64; 128 + (c / 64) mod 64; 128 + c mod 64].

Definition pair_point (h l : N) : N := 65536 + (h - 55296) * 1024 + (l - 56320).

(** A lone surrogate is written as U+FFFD. *)
Fixpoint utf8_encode (s : jstr) : list N :=
  match s with
  | [] => []
  | c :: t =>
      if high_surrogate c then
        match t with
        | d :: t' => if low_surrogate d then utf8_bytes (pair_point c d) ++ utf8_encode t'
                     else utf8_bytes 65533 ++ utf8_encode t
        | [] => utf8_bytes 65533
        end
      else (if low_surrogate c then utf8_bytes 65533 else utf8_bytes c) ++ utf8_encode t
  end.

(** ** Decoding *)

Record decoder := { cp : N; needed : nat; lower : N; upper : N }.

Definition idle : decoder := {| cp := 0; needed := 0; lower := 128; upper := 191 |}.

(** The code units of a code point. *)
Definition point_units (c : N) : jstr :=
  if c <? 65536 then [c] else [55296 + (c - 65536) / 1024; 56320 + (c - 65536) mod 1024].

(** A byte that starts a sequence: what it gives, and the state after it. *)
Definition first_byte (b : N) : jstr * decoder :=
  if b <? 128 then ([b], idle)
  else if in_range 194 223 b then ([], {| cp := b - 192; needed := 1; lower := 128; upper := 191 |})
  else if in_range 224 239 b then
    ([], {| cp := b - 224; needed := 2; lower := if b =? 224 then 160 else 128;
            upper := if b =? 237 then 159 else 191 |})
  else if in_range 240 244 b then
    ([], {| cp := b - 240; needed := 3; lower := if b =? 240 then 144 else 128;
            upper := if b =? 244 then 143 else 191 |})
  else ([65533], idle).

Definition next_byte (d : decoder) (b : N) : jstr * decoder :=
  match needed d with
  | O => first_byte b
  | S n =>
      if in_range (lower d) (upper d) b then
        let c := cp d * 64 + (b - 128) in
        match n with
        | O => (point_units c, idle)
        | _ => ([], {| cp := c; needed := n; lower := 128; upper := 191 |})
        end
      else let '(out, d') := first_byte b in (65533 :: out, d')
  end.

Fixpoint decode_from (d : decoder) (bs : list N) : jstr :=
  match bs with
  | [] => match needed d with O => [] | _ => [65533] end
  | b :: t => let '(out, d') := next_byte d b in out ++ decode_from d' t
  end.

(** A byte order mark at the start is dropped. *)
Definition utf8_decode (bs : list N) : jstr :=
  match decode_from idle bs with 65279 :: t => t | s => s end.

Example decode_wrong_bytes : utf8_decode [65; 240; 159; 152; 66; 192; 195] = u "A�B��".
Proof. vm_compute. reflexivity. Qed.

(** ** Round trip *)

(** Takes the branch of the first test that arithmetic decides. *)
Ltac branch :=
  match goal with
  | |- context [if ?b then _ else _] =>
      first [replace b with true by lia | replace b with false by lia]; cbv iota
  end.

(** Texts of code units in which every surrogate is in a pair. *)
Fixpoint well_formed (s : jstr) : bool :=
  match s with
  | [] => true
  | c :: t =>
      if high_surrogate c then
        match t with d :: t' => low_surrogate d && well_formed t' | [] => false end
      else negb (low_surrogate c) && (c <? 65536) && well_formed t
  end.

(** The bits of a code point, spread over its bytes. *)
Inductive spread_bits (c : N) : list N -> Prop :=
| One : c < 128 -> spread_bits c [c]
| Two a b : 2 <= a < 32 -> b < 64 -> c = a * 64 + b -> spread_bits c [192 + a; 128 + b]
| Three a b d : a < 16 -> b < 64 -> d < 64 -> c = a * 4096 + b * 64 + d -> 2048 <= c ->
    spread_bits c [224 + a; 128 + b; 128 + d]
| Four a b d e : a < 5 -> b < 64 -> d < 64 -> e < 64 -> c = a * 262144 + b * 4096 + d * 64 + e -> 65536 <= c ->
    spread_bits c [240 + a; 128 + b; 128 + d; 128 + e].

Lemma utf8_bytes_spread c : c < 1114112 -> spread_bits c (utf8_bytes c).
Proof.
  intros Hc. unfold utf8_bytes.
  destruct (N.ltb_spec c 128); [by constructor|destruct (N.ltb_spec c 2048); [|destruct (N.ltb_spec c 65536)]].
  - constructor; Z.to_euclidean_division_equations; lia.
  - constructor; Z.to_euclidean_division_equations; lia.
  - constructor; Z.to_euclidean_division_equations; lia.
Qed.

Lemma point_units_pair h l :
  high_surrogate h = true -> low_surrogate l = true -> point_units (pair_point h l) = [h; l].
Proof.
  unfold high_surrogate, low_surrogate, in_range, point_units, pair_point. intros Hh Hl. branch.
  f_equal; [|f_equal]; Z.to_euclidean_division_equations; lia.
Qed.

(** The bytes of a code point are read as its code units. *)
Lemma decode_sequence c bs :
  c < 1114112 -> (c < 55296 \/ 57343 < c) ->
  decode_from idle (utf8_bytes c ++ bs) = point_units c ++ decode_from idle bs.
Proof.
  intros Hc Hs. destruct (utf8_bytes_spread c Hc) as [H|a b Ha Hb E|a b d Ha Hb Hd E H|a b d e Ha Hb Hd He E H];
    cbn [app decode_from]; unfold next_byte at 1, first_byte, in_range, idle; cbn [needed].
  - unfold point_units. by repeat branch.
  - repeat branch. cbn [app decode_from]. unfold next_byte, in_range. cbn [needed lower upper cp]. branch.
    do 2 f_equal. lia.
  - repeat branch. cbn [app decode_from]. unfold next_byte at 1, in_range. cbn [needed lower upper cp].
    destruct (N.eqb_spec (224 + a) 224), (N.eqb_spec (224 + a) 237); try lia; branch;
      cbn [app decode_from]; unfold next_byte, in_range; cbn [needed lower upper cp]; branch; do 2 f_equal; lia.
  - repeat branch. cbn [app decode_from]. unfold next_byte at 1, in_range. cbn [needed lower upper cp].
    destruct (N.eqb_spec (240 + a) 240), (N.eqb_spec (240 + a) 244); try lia; branch;
      cbn [app decode_from]; unfold next_byte at 1, in_range; cbn [needed lower upper cp]; branch;
      cbn [app decode_from]; unfold next_byte, in_range; cbn [needed lower upper cp]; branch; do 2 f_equal; lia.
Qed.

Lemma utf8_decode_encode s : well_formed s = true -> decode_from idle (utf8_encode s) = s.
Proof.
  remember (length s) as n eqn:Hn. revert s Hn. induction n as [n IH] using lt_wf_ind. intros [|c t] ->; [done|].
  cbn [well_formed utf8_encode length] in *. destruct (high_surrogate c) eqn:Hc.
  - destruct t as [|d t]; [done|]. intros [Hd Ht]%andb_prop. rewrite Hd, decode_sequence, point_units_pair by
      (done || (unfold high_surrogate, low_surrogate, in_range, pair_point in *; lia)).
    cbn [app length] in *. do 2 f_equal. apply (IH (length t)); [lia|done..].
  - intros [[Hl Hb]%andb_prop Ht]%andb_prop. apply negb_true_iff in Hl. rewrite Hl.
    rewrite decode_sequence by (unfold high_surrogate, low_surrogate, in_range in *; lia).
    unfold point_units. rewrite (proj2 (N.ltb_lt c 65536)) by lia. cbn [app]. f_equal.
    apply (IH (length t)); [lia|done..].
Qed.

(** A text that does not start with a byte order mark is read back. *)
Lemma utf8_roundtrip s :
  well_formed s = true -> (forall t, s <> 65279 :: t) -> utf8_decode (utf8_encode s) = s.
Proof.
  intros Hs Hbom. unfold utf8_decode. rewrite utf8_decode_encode by done. destruct s as [|c t]; [done|].
  destruct (N.eq_dec c 65279) as [->|Hc]; [by destruct (Hbom t)|].
  destruct c as [|p]; [done|]. repeat (destruct p as [p|p|]; try done).
Qed.

Lemma utf8_encode_bytes s : forallb (fun c => c <? 65536) s = true -> Forall (fun b => b < 256) (utf8_encode s).
Proof.
  assert (forall c, c < 1114112 -> Forall (fun b => b < 256) (utf8_bytes c)) as Hb.
  { intros c Hc. destruct (utf8_bytes_spread c Hc); repeat constructor; lia. }
  remember (length s) as n eqn:Hn. revert s Hn. induction n as [n IH] using lt_wf_ind. intros [|c t] ->; [by constructor|].
  cbn [forallb utf8_encode length]. intros [Hc Ht]%andb_prop.
  assert (Forall (fun b => b < 256) (utf8_encode t)) as Hrec by (apply (IH (length t)); [simpl; lia|done|done]).
  assert (Forall (fun b => b < 256) (utf8_bytes 65533)) as Hrep by (by apply Hb).
  destruct (high_surrogate c) eqn:Hh.
  - destruct t as [|d t']; [done|]. cbn [forallb] in Ht. apply andb_prop in Ht as [Hd Ht].
    destruct (low_surrogate d) eqn:Hl; apply Forall_app; (split; [|first [done|apply (IH (length t')); [simpl; lia|done|done]]]); [|done].
    apply Hb. unfold high_surrogate, low_surrogate, in_range, pair_point in *. lia.
  - apply Forall_app. split; [|done]. destruct (low_surrogate c); [done|]. apply Hb. lia.
Qed.

(** ** Well-formed texts *)

Lemma well_formed_app a b : well_formed a = true -> well_formed b = true -> well_formed (a ++ b) = true.
Proof.
  remember (length a) as n eqn:Hn. revert a Hn. induction n as [n IH] using lt_wf_ind. intros [|c t] ->; [done|].
  cbn [well_formed app length] in *. intros Ha Hb. destruct (high_surrogate c).
  - destruct t as [|d t]; [done|]. cbn [app length] in *. apply andb_prop in Ha as [-> Ht].
    rewrite (IH (length t)) by (done || lia). done.
  - apply andb_prop in Ha as [-> Ht]. rewrite (IH (length t)) by (done || lia). done.
Qed.

Definition is_ascii (c : N) : bool := c <? 128.

Lemma ascii_well_formed s : forallb is_ascii s = true -> well_formed s = true.
Proof.
  induction s as [|c s IH]; [done|]. cbn [forallb well_formed]. intros [Hc Hs]%andb_prop. unfold is_ascii in Hc.
  unfold high_surrogate, low_surrogate, in_range. replace (_ && _) with false by lia. rewrite IH by done. lia.
Qed.

Lemma well_formed_flat {A} (f : A -> jstr) l : Forall (fun x => well_formed (f x) = true) l -> well_formed (flat_map f l) = true.
Proof. induction 1 as [|x l Hx _ IH]; [done|]. cbn [flat_map]. by apply well_formed_app. Qed.
