(* ===== verification/UrlEncoding.v ===== *)
(** * Texts in urls

    [encodeURIComponent], and the form encoding of [URLSearchParams]; both write the bytes of a text
    in UTF-8, most of them as [%XX].  A query that [URLSearchParams] writes is read back, by a server
    too, as the list of its names and values. *)

From S2P Require Import Prelude JsString JsonFacts Utf8.
Open Scope N_scope.

(** ** Percent encoding *)

Definition upper_hex (d : N) : N := if d <? 10 then 48 + d else 55 + d.

Definition percent (b : N) : jstr := [37; upper_hex (b / 16); upper_hex (b mod 16)].

Definition hex_digit_value (c : N) : option N :=
  if in_range 48 57 c then Some (c - 48)
  else if in_range 65 70 c then Some (c - 55)
  else if in_range 97 102 c then Some (c - 87) else None.

Definition alphanumeric (c : N) : bool := in_range 48 57 c || in_range 65 90 c || in_range 97 122 c.

(** [encodeURIComponent]: [None] for the [URIError] of a lone surrogate. *)
Definition component_char (c : N) : bool := alphanumeric c || existsb (N.eqb c) (u "-_.!~*'()").

Definition component_byte (b : N) : jstr := if component_char b then [b] else percent b.

Definition encodeURIComponent (s : jstr) : option jstr :=
  if well_formed s then Some (flat_map component_byte (utf8_encode s)) else None.

(** The form encoding. *)
Definition form_char (c : N) : bool := alphanumeric c || existsb (N.eqb c) (u "*-._").

Definition form_byte (b : N) : jstr := if b =? 32 then u "+" else if form_char b then [b] else percent b.

Definition form_encode (s : jstr) : jstr := flat_map form_byte (utf8_encode s).

(** [new URLSearchParams(entries).toString()] *)
Definition form_serialize (entries : list (jstr * jstr)) : jstr :=
  join (u "&") (map (fun '(k, v) => form_encode k ++ u "=" ++ form_encode v) entries).

(** Reading: a [%] without two digits after it stands for itself; [plus] is the byte of a [+]. *)
Fixpoint percent_decode (plus : N) (s : jstr) : list N :=
  match s with
  | [] => []
  | c :: t =>
      if c =? 37 then
        match t with
        | a :: b :: t' =>
            match hex_digit_value a, hex_digit_value b with
            | Some x, Some y => x * 16 + y :: percent_decode plus t'
            | _, _ => c :: percent_decode plus t
            end
        | _ => c :: percent_decode plus t
        end
      else (if c =? 43 then plus else c) :: percent_decode plus t
  end.

Definition form_decode (s : jstr) : jstr := decode_from idle (percent_decode 32 s).

(** The name and the value of a part of a query, split at the first [=]. *)
Fixpoint cut_at (c : N) (s : jstr) : jstr * jstr :=
  match s with
  | [] => ([], [])
  | d :: t => if d =? c then ([], t) else let '(a, b) := cut_at c t in (d :: a, b)
  end.

Definition form_parse (query : jstr) : list (jstr * jstr) :=
  map (fun part => let '(k, v) := cut_at 61 part in (form_decode k, form_decode v))
    (jfilter truthy (split_on 38 query)).

Example form_text :
  form_serialize [(u "model", u "a b&c=é"); (u "p", u "1")] = u "model=a+b%26c%3D%C3%A9&p=1" /\
  form_parse (u "model=a+b%26c%3D%C3%A9&p=1") = [(u "model", u "a b&c=é"); (u "p", u "1")].
Proof. split; vm_compute; reflexivity. Qed.

(** ** Round trips *)

Lemma hex_read d : d < 16 -> hex_digit_value (upper_hex d) = Some d.
Proof.
  intros Hd. unfold upper_hex, hex_digit_value, in_range. destruct (N.ltb_spec d 10); repeat branch; f_equal; lia.
Qed.

Lemma percent_read plus b t : b < 256 -> percent_decode plus (percent b ++ t) = b :: percent_decode plus t.
Proof.
  intros Hb. unfold percent. cbn [app percent_decode]. rewrite N.eqb_refl, !hex_read; [f_equal|..];
    Z.to_euclidean_division_equations; lia.
Qed.

Lemma kept_char c : alphanumeric c || existsb (N.eqb c) (u "-_.!~*'()") = true -> (c =? 37) = false /\ (c =? 43) = false /\ c < 128.
Proof. unfold alphanumeric, in_range. cbn [existsb]. change (u "-_.!~*'()") with [45; 95; 46; 33; 126; 42; 39; 40; 41]. cbn [existsb]. lia. Qed.

Lemma form_kept c : form_char c = true -> alphanumeric c || existsb (N.eqb c) (u "-_.!~*'()") = true.
Proof.
  unfold form_char. change (u "-_.!~*'()") with [45; 95; 46; 33; 126; 42; 39; 40; 41]. change (u "*-._") with [42; 45; 46; 95].
  cbn [existsb]. lia.
Qed.

Lemma form_byte_read b t : b < 256 -> percent_decode 32 (form_byte b ++ t) = b :: percent_decode 32 t.
Proof.
  intros Hb. unfold form_byte. destruct (N.eqb_spec b 32) as [->|_]; [done|].
  destruct (form_char b) eqn:E; [|by apply percent_read]. destruct (kept_char b (form_kept b E)) as (H1 & H2 & _).
  cbn [app percent_decode]. by rewrite H1, H2.
Qed.

Lemma component_byte_read b t : b < 256 -> percent_decode 43 (component_byte b ++ t) = b :: percent_decode 43 t.
Proof.
  intros Hb. unfold component_byte. destruct (component_char b) eqn:E; [|by apply percent_read].
  destruct (kept_char b E) as (H1 & H2 & _). cbn [app percent_decode]. by rewrite H1, H2.
Qed.

Lemma bytes_read plus enc bs :
  (forall b t, b < 256 -> percent_decode plus (enc b ++ t) = b :: percent_decode plus t) ->
  Forall (fun b => b < 256) bs -> percent_decode plus (flat_map enc bs) = bs.
Proof. intros He. induction 1 as [|b bs Hb _ IH]; [done|]. cbn [flat_map]. by rewrite He, IH. Qed.

Lemma well_formed_units s : well_formed s = true -> forallb (fun c => c <? 65536) s = true.
Proof.
  remember (length s) as n eqn:Hn. revert s Hn. induction n as [n IH] using lt_wf_ind. intros [|c t] ->; [done|].
  cbn [well_formed forallb length] in *. destruct (high_surrogate c) eqn:Hc.
  - destruct t as [|d t]; [done|]. intros [Hd Ht]%andb_prop. cbn [forallb length] in *.
    rewrite (IH (length t)) by (done || lia). unfold high_surrogate, low_surrogate, in_range in *. lia.
  - intros [[_ Hb]%andb_prop Ht]%andb_prop. by rewrite Hb, (IH (length t)) by (done || lia).
Qed.

Lemma form_decode_encode s : well_formed s = true -> form_decode (form_encode s) = s.
Proof.
  intros Hs. unfold form_decode, form_encode. rewrite (bytes_read 32 form_byte); [by apply utf8_decode_encode| |].
  - intros b t. apply form_byte_read.
  - by apply utf8_encode_bytes, well_formed_units.
Qed.

(** [decodeURIComponent(encodeURIComponent(s))] *)
Lemma component_decode_encode s e :
  encodeURIComponent s = Some e -> decode_from idle (percent_decode 43 e) = s.
Proof.
  unfold encodeURIComponent. destruct (well_formed s) eqn:Hs; [|done]. intros [= <-].
  rewrite (bytes_read 43 component_byte); [by apply utf8_decode_encode| |].
  - intros b t. apply component_byte_read.
  - by apply utf8_encode_bytes, well_formed_units.
Qed.

(** The encoded text has no separators of a query. *)
Definition plain_char (c : N) : bool := negb (c =? 38) && negb (c =? 61) && (c <? 128).

Lemma percent_plain b : b < 256 -> forallb plain_char (percent b) = true.
Proof.
  intros Hb. unfold percent, plain_char, upper_hex. cbn [forallb].
  destruct (N.ltb_spec (b / 16) 10), (N.ltb_spec (b mod 16) 10); Z.to_euclidean_division_equations; lia.
Qed.

Lemma form_encode_plain s : well_formed s = true -> forallb plain_char (form_encode s) = true.
Proof.
  intros Hs. apply well_formed_units, utf8_encode_bytes in Hs. unfold form_encode.
  induction Hs as [|b bs Hb _ IH]; [done|]. cbn [flat_map]. rewrite forallb_app, IH, andb_true_r.
  unfold form_byte. destruct (N.eqb_spec b 32); [done|]. destruct (form_char b) eqn:E; [|by apply percent_plain].
  destruct (kept_char b (form_kept b E)) as (_ & _ & H). cbn [forallb]. unfold plain_char, form_char, alphanumeric, in_range in *.
  change (u "*-._") with [42; 45; 46; 95] in E. cbn [existsb] in E. lia.
Qed.

Lemma cut_at_app c a b : forallb (fun d => negb (d =? c)) a = true -> cut_at c (a ++ c :: b) = (a, b).
Proof.
  induction a as [|d a IH]; cbn [app cut_at forallb]; [by rewrite N.eqb_refl|].
  intros [->%negb_true_iff H]%andb_prop. by rewrite IH.
Qed.

Definition entry_ok (e : jstr * jstr) : bool := well_formed e.1 && well_formed e.2.

(** A query is read back, entry by entry. *)
Lemma form_roundtrip entries : forallb entry_ok entries = true -> form_parse (form_serialize entries) = entries.
Proof.
  intros Hok. destruct entries as [|e0 es] eqn:Ee; [done|]. rewrite <- Ee in *.
  unfold form_parse, form_serialize. rewrite split_on_join.
  - rewrite forallb_Forall in Hok. clear Ee. induction Hok as [|[k v] es' Hkv _ IH]; [done|]. cbn [map].
    unfold entry_ok in Hkv. apply andb_prop in Hkv as [Hk Hv]. cbn [fst snd] in *.
    assert (truthy (form_encode k ++ u "=" ++ form_encode v) = true) as Ht by (destruct (form_encode k); done).
    cbn [List.filter]. rewrite Ht. cbn [map]. change (u "=" ++ form_encode v) with (61 :: form_encode v).
    rewrite cut_at_app.
    + by rewrite !form_decode_encode, IH by done.
    + eapply forallb_impl; [|apply (form_encode_plain k Hk)]. unfold plain_char. intros c. lia.
  - by rewrite Ee.
  - apply Forall_forall. intros w Hw. rewrite forallb_Forall, Forall_forall in Hok.
    apply list_elem_of_fmap in Hw as ([k v] & -> & Hin). specialize (Hok _ Hin). unfold entry_ok in Hok. cbn [fst snd] in Hok.
    apply andb_prop in Hok as [Hk Hv]. rewrite !forallb_app. apply andb_true_intro. split; [|apply andb_true_intro; split; [done|]];
      (eapply forallb_impl; [|apply form_encode_plain; done]); unfold plain_char; intros c; lia.
Qed.
