(* ===== verification/Base64.v ===== *)
(** * Base64

    [btoa] and [atob] of the web platform, and the base64url texts of
    [web/default/src/lib/passkey.ts], in which the console exchanges credentials with the server.

    A byte is a number below 256 and a binary string a list of code units; [atob] and [btoa] throw
    ([None]) on what they cannot convert. *)

From S2P Require Import Prelude JsString.
Open Scope N_scope.

(** ** The alphabet *)

Definition alphabet : jstr := u "ABCDEFGHIJKLMNOPQRSTUVWXYZabcdefghijklmnopqrstuvwxyz0123456789+/".

(** The symbol of a number below 64. *)
Definition sym (n : N) : N := nth (N.to_nat n) alphabet 61.

(** The number of a symbol. *)
Fixpoint position (c : N) (l : jstr) (i : N) : option N :=
  match l with
  | [] => None
  | d :: t => if c =? d then Some i else position c t (i + 1)
  end.

Definition sextet (c : N) : option N := position c alphabet 0.

(** ** [btoa] *)

Definition first6 (a : N) : N := N.shiftr a 2.
Definition second6 (a b : N) : N := N.lor (N.shiftl (N.land a 3) 4) (N.shiftr b 4).
Definition third6 (b c : N) : N := N.lor (N.shiftl (N.land b 15) 2) (N.shiftr c 6).
Definition fourth6 (c : N) : N := N.land c 63.

Fixpoint encode_bytes (l : list N) : jstr :=
  match l with
  | a :: b :: c :: r => sym (first6 a) :: sym (second6 a b) :: sym (third6 b c) :: sym (fourth6 c) :: encode_bytes r
  | [a; b] => [sym (first6 a); sym (second6 a b); sym (third6 b 0); 61]
  | [a] => [sym (first6 a); sym (second6 a 0); 61; 61]
  | [] => []
  end.

Definition is_byte (c : N) : bool := c <? 256.

Definition btoa (binary : jstr) : option jstr :=
  if forallb is_byte binary then Some (encode_bytes binary) else None.

(** ** [atob] *)

Definition byte1 (x y : N) : N := N.lor (N.shiftl x 2) (N.shiftr y 4).
Definition byte2 (y z : N) : N := N.lor (N.shiftl (N.land y 15) 4) (N.shiftr z 2).
Definition byte3 (z w : N) : N := N.lor (N.shiftl (N.land z 3) 6) w.

(** Left-over bits at the end are dropped; a single symbol at the end is an error. *)
Fixpoint decode_sextets (l : list N) : option (list N) :=
  match l with
  | x :: y :: z :: w :: r => option_map (fun t => byte1 x y :: byte2 y z :: byte3 z w :: t) (decode_sextets r)
  | [x; y; z] => Some [byte1 x y; byte2 y z]
  | [x; y] => Some [byte1 x y]
  | [_] => None
  | [] => Some []
  end.

(** Tab, line feed, form feed, carriage return and space. *)
Definition ascii_space (c : N) : bool := (c =? 9) || (c =? 10) || (c =? 12) || (c =? 13) || (c =? 32).

(** Removes at most [n] padding symbols at the end. *)
Fixpoint drop_padding (n : nat) (rev_s : jstr) : jstr :=
  match n, rev_s with
  | S n, 61 :: t => drop_padding n t
  | _, _ => rev_s
  end.

Fixpoint sextets (s : jstr) : option (list N) :=
  match s with
  | [] => Some []
  | c :: t => match sextet c, sextets t with Some x, Some r => Some (x :: r) | _, _ => None end
  end.

(** The forgiving base64 decoding of the web platform. *)
Definition atob (data : jstr) : option jstr :=
  let data := jfilter (fun c => negb (ascii_space c)) data in
  let data := if (length data mod 4 =? 0)%nat then rev (drop_padding 2 (rev data)) else data in
  match sextets data with Some l => decode_sextets l | None => None end.

(** ** Base64url *)

(** [s.replace(/a/g, b)] for single code units. *)
Definition replace_unit (a b : N) (s : jstr) : jstr := map (fun c => if c =? a then b else c) s.

(** [s.replace(/=+$/g, '')] *)
Definition strip_padding (s : jstr) : jstr := rev (drop_padding (length s) (rev s)).

(** [None] for the exception of [atob]; no value and the empty text give an empty buffer. *)
Definition base64UrlToArrayBuffer (value : option jstr) : option (list N) :=
  match value with
  | None | Some [] => Some []
  | Some v =>
      let padding := repeat 61 ((4 - length v mod 4) mod 4)%nat in
      atob (replace_unit 95 47 (replace_unit 45 43 (v ++ padding)))
  end.

Definition arrayBufferToBase64Url (buffer : option (list N)) : option jstr :=
  match buffer with
  | None => Some []
  | Some bytes =>
      option_map (fun s => strip_padding (replace_unit 47 95 (replace_unit 43 45 s))) (btoa bytes)
  end.

(** ** Round trip *)

(** The numbers of the symbols, without padding. *)
Fixpoint enc_sextets (l : list N) : list N :=
  match l with
  | a :: b :: c :: r => first6 a :: second6 a b :: third6 b c :: fourth6 c :: enc_sextets r
  | [a; b] => [first6 a; second6 a b; third6 b 0]
  | [a] => [first6 a; second6 a 0]
  | [] => []
  end.

Definition pad_length (n : nat) : nat := ((4 - n mod 4) mod 4)%nat.

(** Induction in steps of three. *)
Lemma three_ind (P : list N -> Prop) :
  P [] -> (forall a, P [a]) -> (forall a b, P [a; b]) -> (forall a b c r, P r -> P (a :: b :: c :: r)) ->
  forall l, P l.
Proof.
  intros H0 H1 H2 H3 l. remember (length l) as n eqn:Hn. revert l Hn.
  induction n as [n IH] using lt_wf_ind. intros [|a [|b [|c r]]] Hn; auto.
  apply H3. apply (IH (length r)); [simpl in Hn; lia|done].
Qed.

(** A test of all numbers below a bound. *)
Definition all_below (n : nat) (p : N -> bool) : bool := forallb (fun i => p (N.of_nat i)) (seq 0 n).

Lemma all_below_spec n p x : all_below n p = true -> x < N.of_nat n -> p x = true.
Proof.
  unfold all_below. intros H Hx. rewrite forallb_forall in H. rewrite <- (N2Nat.id x). apply H, in_seq. lia.
Qed.

Lemma sextet_sym n : n < 64 -> sextet (sym n) = Some n.
Proof.
  intros H.
  pose proof (all_below_spec 64 (fun n => bool_decide (sextet (sym n) = Some n)) n ltac:(by vm_compute) H) as E.
  cbv beta in E. by apply bool_decide_eq_true in E.
Qed.

(** A symbol is no padding, no space, and not one of the two that base64url adds. *)
Definition plain_sym (c : N) : bool := negb (c =? 61) && negb (ascii_space c) && negb (c =? 45) && negb (c =? 95).

Lemma sym_plain n : n < 64 -> plain_sym (sym n) = true.
Proof. intros H. apply (all_below_spec 64 (fun n => plain_sym (sym n))); [by vm_compute|done]. Qed.

(** Bytes from their parts. *)
Lemma two_bytes a b :
  a < 256 -> b < 256 ->
  byte1 (first6 a) (second6 a b) = a /\ N.land (second6 a b) 15 = N.shiftr b 4 /\
  N.shiftr (third6 a b) 2 = N.land a 15 /\ byte3 (third6 a b) (fourth6 b) = b /\
  first6 a < 64 /\ second6 a b < 64 /\ third6 a b < 64 /\ fourth6 a < 64.
Proof.
  intros Ha Hb.
  pose proof (all_below_spec 256 (fun a => all_below 256 (fun b =>
    (byte1 (first6 a) (second6 a b) =? a) && (N.land (second6 a b) 15 =? N.shiftr b 4)
    && (N.shiftr (third6 a b) 2 =? N.land a 15) && (byte3 (third6 a b) (fourth6 b) =? b)
    && (first6 a <? 64) && (second6 a b <? 64) && (third6 a b <? 64) && (fourth6 a <? 64))) a) as E.
  specialize (E ltac:(by vm_compute) Ha). apply (all_below_spec 256 _ b) in E; [|done].
  repeat apply andb_prop in E as [E ?]. lia.
Qed.

Lemma middle_byte b : b < 256 -> N.lor (N.shiftl (N.shiftr b 4) 4) (N.land b 15) = b.
Proof.
  intros H. apply N.eqb_eq. apply (all_below_spec 256 (fun b => N.lor (N.shiftl (N.shiftr b 4) 4) (N.land b 15) =? b));
    [by vm_compute|done].
Qed.

Lemma three_bytes a b c :
  a < 256 -> b < 256 -> c < 256 ->
  byte1 (first6 a) (second6 a b) = a /\ byte2 (second6 a b) (third6 b c) = b /\ byte3 (third6 b c) (fourth6 c) = c /\
  first6 a < 64 /\ second6 a b < 64 /\ third6 b c < 64 /\ fourth6 c < 64.
Proof.
  intros Ha Hb Hc. destruct (two_bytes a b Ha Hb) as (H1 & H2 & _ & _ & H5 & H6 & _).
  destruct (two_bytes b c Hb Hc) as (_ & _ & H3 & H4 & _ & _ & H7 & _).
  destruct (two_bytes c c Hc Hc) as (_ & _ & _ & _ & _ & _ & _ & H8).
  split_and!; try done. unfold byte2. by rewrite H2, H3, middle_byte.
Qed.

Lemma decode_encode l :
  Forall (fun a => a < 256) l ->
  decode_sextets (enc_sextets l) = Some l /\ Forall (fun x => x < 64) (enc_sextets l).
Proof.
  induction l as [|a|a b|a b c r IH] using three_ind; intros Hl; repeat setoid_rewrite Forall_cons in Hl.
  - done.
  - destruct Hl as [Ha _]. destruct (three_bytes a 0 0 Ha ltac:(lia) ltac:(lia)) as (H1 & _ & _ & H4 & H5 & _).
    cbn [enc_sextets decode_sextets]. rewrite H1. split; [done|]. by repeat constructor.
  - destruct Hl as (Ha & Hb & _). destruct (three_bytes a b 0 Ha Hb ltac:(lia)) as (H1 & H2 & _ & H4 & H5 & H6 & _).
    cbn [enc_sextets decode_sextets]. rewrite H1, H2. split; [done|]. by repeat constructor.
  - destruct Hl as (Ha & Hb & Hc & Hr). destruct (three_bytes a b c Ha Hb Hc) as (H1 & H2 & H3 & H4 & H5 & H6 & H7).
    destruct (IH Hr) as [Hd Hs]. cbn [enc_sextets decode_sextets]. rewrite Hd, H1, H2, H3. split; [done|].
    by repeat constructor.
Qed.

Lemma enc_length l : (length (enc_sextets l) mod 4 <> 1)%nat.
Proof.
  induction l as [|a|a b|a b c r IH] using three_ind; try done. cbn [enc_sextets length].
  replace (S (S (S (S (length (enc_sextets r)))))) with (length (enc_sextets r) + 1 * 4)%nat by lia.
  by rewrite Nat.Div0.mod_add.
Qed.

Lemma encode_padded l : encode_bytes l = map sym (enc_sextets l) ++ repeat 61 (pad_length (length (enc_sextets l))).
Proof.
  induction l as [|a|a b|a b c r IH] using three_ind; try done. cbn [enc_sextets encode_bytes map app length]. do 4 f_equal.
  rewrite IH. unfold pad_length.
  replace (S (S (S (S (length (enc_sextets r)))))) with (length (enc_sextets r) + 1 * 4)%nat by lia.
  by rewrite Nat.Div0.mod_add.
Qed.

(** The symbols of numbers below 64 are read back. *)
Lemma sextets_map xs : Forall (fun x => x < 64) xs -> sextets (map sym xs) = Some xs.
Proof.
  induction 1 as [|x xs Hx _ IH]; [done|]. cbn [map sextets]. by rewrite IH, sextet_sym.
Qed.

(** A text of symbols that are no padding, as it is written with padding. *)
Section PlainText.
Context (s : jstr) (plain : Forall (fun c => c <> 61) s).

(** What is removed stops at the text. *)
Lemma drop_padding_repeat n k :
  (k <= n)%nat -> drop_padding n (repeat 61 k ++ rev s) = rev s.
Proof using plain.
  revert n. induction k as [|k IH]; intros n Hn.
  - destruct n as [|n]; [done|]. cbn [repeat app].
    assert (Hr : Forall (fun c => c <> 61) (rev s)) by by apply Forall_rev.
    destruct Hr as [|c r Hc _]; [done|]. cbn [drop_padding].
    repeat (done || match goal with |- context [match ?p with _ => _ end] => is_var p; destruct p end).
  - destruct n as [|n]; [lia|]. cbn [repeat app drop_padding]. apply IH. lia.
Qed.

Lemma drop_padding_text n k : (k <= n)%nat -> rev (drop_padding n (rev (s ++ repeat 61 k))) = s.
Proof using plain.
  intros Hn. rewrite rev_app_distr. replace (rev (repeat 61 k)) with (repeat 61 k).
  - rewrite drop_padding_repeat by done. apply rev_involutive.
  - clear. induction k as [|k IH]; [done|]. cbn [repeat rev]. by rewrite <- IH, <- repeat_cons.
Qed.

Lemma strip_padding_text k : strip_padding (s ++ repeat 61 k) = s.
Proof using plain.
  apply drop_padding_text. rewrite length_app, repeat_length. lia.
Qed.
End PlainText.

(** Base64 symbols to base64url symbols and back. *)
Definition to_url (c : N) : N := if (if c =? 43 then 45 else c) =? 47 then 95 else if c =? 43 then 45 else c.
Definition of_url (c : N) : N := if (if c =? 45 then 43 else c) =? 95 then 47 else if c =? 45 then 43 else c.

(** The letters, digits, [-] and [_] that a url keeps as they are. *)
Definition url_safe (c : N) : bool :=
  ((65 <=? c) && (c <=? 90)) || ((97 <=? c) && (c <=? 122)) || ((48 <=? c) && (c <=? 57)) || (c =? 45) || (c =? 95).

Lemma url_sym n : n < 64 -> of_url (to_url (sym n)) = sym n /\ url_safe (to_url (sym n)) = true.
Proof.
  intros H. pose proof (all_below_spec 64 (fun n => (of_url (to_url (sym n)) =? sym n) && url_safe (to_url (sym n))) n
    ltac:(by vm_compute) H) as E.
  cbv beta in E. apply andb_prop in E as [E1 E2]. by apply N.eqb_eq in E1.
Qed.

Lemma replace_to_url s : replace_unit 47 95 (replace_unit 43 45 s) = map to_url s.
Proof. unfold replace_unit. by rewrite map_map. Qed.

Lemma replace_of_url s : replace_unit 95 47 (replace_unit 45 43 s) = map of_url s.
Proof. unfold replace_unit. by rewrite map_map. Qed.

Lemma map_repeat_fix (f : N -> N) x k : f x = x -> map f (repeat x k) = repeat x k.
Proof. intros H. induction k as [|k IH]; [done|]. cbn [repeat map]. by rewrite H, IH. Qed.

Lemma url_safe_plain s : forallb url_safe s = true -> Forall (fun c => c <> 61) s.
Proof.
  intros H. apply Forall_forall. intros c Hc ->. apply list_elem_of_In in Hc.
  rewrite forallb_forall in H. by apply H in Hc.
Qed.

Lemma url_text_safe xs : Forall (fun x => x < 64) xs -> forallb url_safe (map to_url (map sym xs)) = true.
Proof.
  rewrite map_map. induction 1 as [|x l Hx _ IH]; [done|]. cbn [map forallb]. rewrite IH.
  by destruct (url_sym x Hx) as [_ ->].
Qed.

Lemma of_url_text xs : Forall (fun x => x < 64) xs -> map of_url (map to_url (map sym xs)) = map sym xs.
Proof.
  rewrite !map_map. induction 1 as [|x l Hx _ IH]; [done|]. cbn [map]. rewrite IH.
  by destruct (url_sym x Hx) as [-> _].
Qed.

Lemma sym_text_plain xs : Forall (fun x => x < 64) xs -> Forall (fun c => plain_sym c = true) (map sym xs).
Proof. induction 1 as [|x l Hx _ IH]; [constructor|]. constructor; [by apply sym_plain|done]. Qed.

Section Sextets.
Context (xs : list N) (small : Forall (fun x => x < 64) xs).

Lemma padded_multiple : ((length xs + pad_length (length xs)) mod 4 = 0)%nat.
Proof using.
  clear small. unfold pad_length. pose proof (Nat.div_mod_eq (length xs) 4) as E.
  pose proof (Nat.mod_upper_bound (length xs) 4 ltac:(lia)) as B.
  remember (length xs mod 4)%nat as r. remember (length xs / 4)%nat as q. rewrite E.
  replace (4 * q + r + (4 - r) mod 4)%nat with (r + (4 - r) mod 4 + q * 4)%nat by lia.
  rewrite Nat.Div0.mod_add. do 4 (destruct r as [|r]; [done|]). lia.
Qed.

(** Padded symbols are decoded. *)
Lemma atob_padded :
  (length xs mod 4 <> 1)%nat -> atob (map sym xs ++ repeat 61 (pad_length (length xs))) = decode_sextets xs.
Proof using small.
  intros Hm. unfold atob. rewrite jfilter_all.
  - rewrite length_app, length_map, repeat_length, padded_multiple. cbn [Nat.eqb].
    rewrite drop_padding_text; [by rewrite sextets_map| |].
    + eapply Forall_impl; [apply (sym_text_plain _ small)|]. intros c Hc ->. done.
    + unfold pad_length. pose proof (Nat.mod_upper_bound (length xs) 4 ltac:(lia)).
      remember (length xs mod 4)%nat as r. do 4 (destruct r as [|r]; [cbn; lia|]). lia.
  - apply Forall_app. split.
    + eapply Forall_impl; [apply (sym_text_plain _ small)|]. intros c Hc. unfold plain_sym in Hc.
      by repeat apply andb_prop in Hc as [Hc ?].
    + apply Forall_forall. intros c Hc%list_elem_of_In%repeat_spec. by subst.
Qed.
End Sextets.

(** [atob] reads what [btoa] and the encoders of other languages write. *)
Lemma atob_encode bytes : Forall (fun b => b < 256) bytes -> atob (encode_bytes bytes) = Some bytes.
Proof.
  intros Hb. destruct (decode_encode bytes Hb) as [Hd Hs]. rewrite encode_padded, atob_padded; [done|done|]. apply enc_length.
Qed.

(** A credential survives the exchange with the server: every buffer of bytes has a base64url
    text, it consists of the letters, digits, [-] and [_] that a url keeps as they are (no padding is
    left), and reading it gives the bytes back; the empty buffer is the empty text. *)
Theorem passkey_roundtrip bytes :
  Forall (fun b => b < 256) bytes ->
  exists text, arrayBufferToBase64Url (Some bytes) = Some text /\ forallb url_safe text = true /\
               base64UrlToArrayBuffer (Some text) = Some bytes.
Proof.
  intros Hb. destruct (decode_encode bytes Hb) as [Hd Hs]. set (xs := enc_sextets bytes) in *.
  exists (map to_url (map sym xs)). pose proof (url_text_safe xs Hs) as Hsafe. split_and!; [|done|].
  - unfold arrayBufferToBase64Url, btoa. rewrite (proj2 (forallb_forall _ _)).
    + cbn [option_map]. rewrite encode_padded, replace_to_url, map_app, (map_repeat_fix to_url) by done. f_equal.
      apply strip_padding_text, url_safe_plain, Hsafe.
    + intros b Hin. apply N.ltb_lt. rewrite List.Forall_forall in Hb. by apply Hb.
  - assert (Hl : length (map to_url (map sym xs)) = length xs) by by rewrite !length_map.
    unfold base64UrlToArrayBuffer. destruct (map to_url (map sym xs)) as [|c t] eqn:E.
    + destruct xs as [|x xs'] eqn:Ex; [exact Hd|done].
    + rewrite <- E in *. rewrite replace_of_url, map_app, (map_repeat_fix of_url), of_url_text, Hl by done.
      etrans; [apply (atob_padded xs Hs), enc_length|exact Hd].
Qed.

Lemma passkey_roundtrip_witness :
  exists text, arrayBufferToBase64Url (Some [251; 255; 191; 7]) = Some text /\ forallb url_safe text = true /\
               base64UrlToArrayBuffer (Some text) = Some [251; 255; 191; 7].
Proof. apply passkey_roundtrip. by repeat constructor. Defined.

(** The text of that witness. *)
Example passkey_text : arrayBufferToBase64Url (Some [251; 255; 191; 7]) = Some (u "-_-_Bw").
Proof. reflexivity. Qed.
