(* ===== verification/Charts.v ===== *)
(** * Dashboard charts

    The aggregation behind the charts of the dashboard, [processChartData] and
    [processUserChartData] of [web/default/src/features/dashboard/lib/charts.ts], with
    [formatChartTime] of [web/default/src/lib/time.ts].

    Quotas, counts and tokens are the integers the server stores; their sums are exact in the
    console's doubles below [2^53]. A [Map] is a list of its entries in the order of insertion. The
    values the charts show are modelled, not the constant layout of the chart specifications. The
    calendar ([dayjs] in the local time zone), the collation of [localeCompare] and the locale of
    [toLocaleString] are parameters. *)

From S2P Require Import Prelude JsString JsNumber Json Currency.
Open Scope Z_scope.

Record QuotaDataItem := {
  q_username : option jstr;
  q_model_name : option jstr;
  q_created_at : Z;
  q_token_used : option Z;
  q_count : option Z;
  q_quota : option Z;
}.

Inductive TimeGranularity := Hour | Day | Week.

(** [Number(x) || 0] *)
Definition number_or_0 (x : option Z) : Z := option_or x 0.

(** [s || d] *)
Definition str_or (s : option jstr) (d : jstr) : jstr :=
  match s with Some (c :: t) => c :: t | _ => d end.

Record Stats := { quota : Z; count : Z; tokens : Z }.

Definition no_stats : Stats := {| quota := 0; count := 0; tokens := 0 |}.

Definition add_stats (existing : Stats) (q c k : Z) : Stats :=
  {| quota := quota existing + q; count := count existing + c; tokens := tokens existing + k |}.

(** The entries of a [Map]. *)
Definition jmap (V : Type) : Type := list (jstr * V).

(** [l.reduce((sum, x) => sum + f(x), 0)] *)
Definition sum_of {A} (f : A -> Z) (l : list A) : Z := fold_left (fun s x => s + f x) l 0.

Record LineValue := { lv_time : jstr; lv_model : jstr; lv_raw : Z; lv_usage : num; lv_sum : Z }.
Record TrendValue := { tv_time : jstr; tv_model : jstr; tv_count : Z }.
Record UserTrendValue := { uv_time : jstr; uv_user : jstr; uv_raw : Z; uv_usage : num }.

(** A line of a tooltip: its key, its number, and what of its datum is read. *)
Record TooltipItem := { ti_key : jstr; ti_value : Z; ti_raw : option Z; ti_sum : option Z }.

(** The numbers of the charts and of the two totals above them. *)
Record ChartData := {
  pieValues : list (jstr * Z);
  lineValues : list LineValue;
  areaValues : list LineValue;
  modelLineValues : list TrendValue;
  rankValues : list (jstr * Z);
  totalQuotaRaw : Z;
  totalTimes : Z;
}.

Record UserChartData := {
  userRankValues : list (jstr * Z * num);
  userTrendValues : list UserTrendValue;
  userTotalQuota : Z;
}.

Definition MAX_CHART_TREND_POINTS : nat := 7.
Definition MAX_AREA_MODELS : nat := 15.
Definition MAX_TREND_MODELS : nat := 20.
Definition MAX_RANK_MODELS : nat := 20.
Definition MAX_TOOLTIP_MODELS : nat := 15.

(** [usd ? Number(usd.toFixed(4)) : 0] for the dollars of a quota. *)
Definition round4 (x : num) : num := to_number (to_fixed 4 x).

Definition usage_of (quotaPerUnit : num) (rawQuota : Z) : num :=
  let usd := if rawQuota =? 0 then zero else fdiv (num_of_Z rawQuota) quotaPerUnit in
  if ftruthy usd then round4 usd else zero.

(** [xs.sort((a, b) => f(b) - f(a))] *)
Definition sort_desc {A} (f : A -> Z) (l : list A) : list A := sort_by (fun a b => f a <? f b) l.

Section Calendar.
  (** [dayjs(ms).format('MM-DD')], [.format('HH')] and [.add(6, 'day').format('MM-DD')]. *)
  Context (format_MM_DD format_HH week_end_MM_DD : Z -> jstr).

Definition formatChartTime (timestamp : Z) (granularity : TimeGranularity) : jstr :=
  let ms := timestamp * 1000 in
  let result := format_MM_DD ms in
  match granularity with
  | Hour => result ++ u " " ++ format_HH ms ++ u ":00"
  | Week => result ++ u " - " ++ week_end_MM_DD ms
  | Day => result
  end.
End Calendar.

Section Charts.
  (** [formatChartTime] of the chosen granularity, the collation, the label of the rest and the
      quota of a dollar. *)
  Context (time_key : Z -> jstr) (localeCompare : jstr -> jstr -> Z).
  Context (otherLabel : jstr) (quotaPerUnit : num) (timeGranularity : TimeGranularity).

Definition item_model (item : QuotaDataItem) : jstr := str_or (q_model_name item) (u "Unknown").
Definition item_time (item : QuotaDataItem) : jstr := time_key (q_created_at item).

Definition add_item (m : jmap Stats) (k : jstr) (item : QuotaDataItem) : jmap Stats :=
  obj_set k (add_stats (option_or (obj_get k m) no_stats) (number_or_0 (q_quota item))
                       (number_or_0 (q_count item)) (number_or_0 (q_token_used item))) m.

(** The two maps of [data.forEach]: by time and model, and by model. *)
Definition aggregate_item (maps : jmap (jmap Stats) * jmap Stats) (item : QuotaDataItem)
    : jmap (jmap Stats) * jmap Stats :=
  let '(timeModelMap, modelTotalsMap) := maps in
  let timeKey := item_time item in
  let model := item_model item in
  let modelMap := option_or (obj_get timeKey timeModelMap) [] in
  (obj_set timeKey (add_item modelMap model item) timeModelMap, add_item modelTotalsMap model item).

Definition aggregate (data : list QuotaDataItem) : jmap (jmap Stats) * jmap Stats :=
  fold_left aggregate_item data ([], []).

(** [timeModelMap.get(time)?.get(model)], [undefined] as no stats. *)
Definition stats_at (timeModelMap : jmap (jmap Stats)) (time model : jstr) : Stats :=
  option_or (obj_get model (option_or (obj_get time timeModelMap) [])) no_stats.

Definition intervalSec : Z :=
  match timeGranularity with Week => 604800 | Day => 86400 | Hour => 3600 end.

(** [Math.max(...data.map((item) => Number(item.created_at) || 0))] of a list that is not empty. *)
Definition lastTime (data : list QuotaDataItem) : Z :=
  match data with
  | [] => 0
  | item :: t => fold_left (fun m i => Z.max m (q_created_at i)) t (q_created_at item)
  end.

Definition padded_times (data : list QuotaDataItem) : list jstr :=
  map (fun i => time_key (lastTime data - (Z.of_nat MAX_CHART_TREND_POINTS - 1 - Z.of_nat i) * intervalSec))
      (seq 0 MAX_CHART_TREND_POINTS).

Definition fillTimePoints (data : list QuotaDataItem) (times : list jstr) : list jstr :=
  if (MAX_CHART_TREND_POINTS <=? length times)%nat then times else padded_times data.

(** *** The stacked bars *)

Definition line_cell (tm : jmap (jmap Stats)) (time model : jstr) : LineValue :=
  let rawQuota := quota (stats_at tm time model) in
  {| lv_time := time; lv_model := model; lv_raw := rawQuota; lv_usage := usage_of quotaPerUnit rawQuota; lv_sum := 0 |}.

Definition with_sum (s : Z) (v : LineValue) : LineValue :=
  {| lv_time := lv_time v; lv_model := lv_model v; lv_raw := lv_raw v; lv_usage := lv_usage v; lv_sum := s |}.

Definition line_time (tm : jmap (jmap Stats)) (sortedModels : list jstr) (time : jstr) : list LineValue :=
  let timeData := map (line_cell tm time) sortedModels in
  let timeSum := sum_of lv_raw timeData in
  map (with_sum timeSum) (sort_desc lv_raw timeData).

(** [xs.sort((a, b) => a.Time.localeCompare(b.Time))] *)
Definition sort_times {A} (time : A -> jstr) (l : list A) : list A :=
  sort_by (fun a b => 0 <? localeCompare (time a) (time b)) l.

(** *** The areas *)

Definition add_bucket (tm : jmap (jmap Stats)) (topAreaModels : list jstr) (time : jstr)
    (buckets : jmap (Z * num)) (model : jstr) : jmap (Z * num) :=
  let rawQuota := quota (stats_at tm time model) in
  let usage := usage_of quotaPerUnit rawQuota in
  let key := if bool_decide (model ∈ topAreaModels) then model else otherLabel in
  let prev := option_or (obj_get key buckets) (0, zero) in
  obj_set key (prev.1 + rawQuota, round4 (fadd prev.2 usage)) buckets.

Definition area_time (tm : jmap (jmap Stats)) (topAreaModels sortedModels : list jstr) (time : jstr) : list LineValue :=
  let buckets := fold_left (add_bucket tm topAreaModels time) sortedModels [] in
  let timeSum := sum_of (fun model => quota (stats_at tm time model)) sortedModels in
  map (fun b => {| lv_time := time; lv_model := b.1; lv_raw := b.2.1; lv_usage := b.2.2; lv_sum := timeSum |}) buckets.

(** *** The call trend *)

Definition trend_cell (tm : jmap (jmap Stats)) (time model : jstr) : TrendValue :=
  {| tv_time := time; tv_model := model; tv_count := count (stats_at tm time model) |}.

Definition trend_time (tm : jmap (jmap Stats)) (topTrendModels otherTrendModels : list jstr) (time : jstr)
    : list TrendValue :=
  map (trend_cell tm time) topTrendModels ++
  match otherTrendModels with
  | [] => []
  | _ => [{| tv_time := time; tv_model := otherLabel;
             tv_count := sum_of (fun model => count (stats_at tm time model)) otherTrendModels |}]
  end.

(** *** The ranking *)

Definition rank (allRankValues : list (jstr * Z)) : list (jstr * Z) :=
  if (MAX_RANK_MODELS <? length allRankValues)%nat
  then take MAX_RANK_MODELS allRankValues ++ [(otherLabel, sum_of snd (drop MAX_RANK_MODELS allRankValues))]
  else allRankValues.

(** The models with one of their totals, the largest first. *)
Definition ranked (f : Stats -> Z) (totals : jmap Stats) : list (jstr * Z) :=
  sort_desc snd (map (fun e => (e.1, f e.2)) totals).

Definition no_charts : ChartData :=
  {| pieValues := []; lineValues := []; areaValues := []; modelLineValues := []; rankValues := [];
     totalQuotaRaw := 0; totalTimes := 0 |}.

Definition chart_times (data : list QuotaDataItem) : list jstr :=
  fillTimePoints data (sort_strings (map fst (aggregate data).1)).

Definition processChartData (data : list QuotaDataItem) : ChartData :=
  match data with
  | [] => no_charts
  | _ =>
      let '(timeModelMap, modelTotalsMap) := aggregate data in
      let sortedModels := sort_strings (map fst modelTotalsMap) in
      let chartTimes := chart_times data in
      let topAreaModels := map fst (take MAX_AREA_MODELS (ranked quota modelTotalsMap)) in
      let rankedTrendModels := map fst (ranked count modelTotalsMap) in
      let topTrendModels := take MAX_TREND_MODELS rankedTrendModels in
      let otherTrendModels := drop MAX_TREND_MODELS rankedTrendModels in
      {| pieValues := ranked count modelTotalsMap;
         lineValues := sort_times lv_time (flat_map (line_time timeModelMap sortedModels) chartTimes);
         areaValues := sort_times lv_time (flat_map (area_time timeModelMap topAreaModels sortedModels) chartTimes);
         modelLineValues :=
           sort_times tv_time (flat_map (trend_time timeModelMap topTrendModels otherTrendModels) chartTimes);
         rankValues := rank (ranked count modelTotalsMap);
         totalQuotaRaw := sum_of (fun e => quota e.2) modelTotalsMap;
         totalTimes := sum_of (fun e => count e.2) modelTotalsMap |}
  end.

(** *** Users *)

Definition item_user (item : QuotaDataItem) : jstr := str_or (q_username item) (u "unknown").

Definition add_quota (m : jmap Z) (k : jstr) (item : QuotaDataItem) : jmap Z :=
  obj_set k (option_or (obj_get k m) 0 + number_or_0 (q_quota item)) m.

Definition user_totals (data : list QuotaDataItem) : jmap Z :=
  fold_left (fun m item => add_quota m (item_user item) item) data [].

(** The times of all items, and the quota by time and user of the top users. *)
Definition user_item (topUsers : list jstr) (acc : list jstr * jmap (jmap Z)) (item : QuotaDataItem)
    : list jstr * jmap (jmap Z) :=
  let '(allTimePoints, timeUserMap) := acc in
  let timeKey := item_time item in
  let allTimePoints := if bool_decide (timeKey ∈ allTimePoints) then allTimePoints else allTimePoints ++ [timeKey] in
  let user := item_user item in
  if negb (bool_decide (user ∈ topUsers)) then (allTimePoints, timeUserMap) else
  let map := option_or (obj_get timeKey timeUserMap) [] in
  (allTimePoints, obj_set timeKey (add_quota map user item) timeUserMap).

Definition user_cell (timeUserMap : jmap (jmap Z)) (time user : jstr) : UserTrendValue :=
  let q := option_or (obj_get user (option_or (obj_get time timeUserMap) [])) 0 in
  {| uv_time := time; uv_user := user; uv_raw := q; uv_usage := round4 (fdiv (num_of_Z q) quotaPerUnit) |}.

Definition processUserChartData (data : list QuotaDataItem) (limit : nat) : UserChartData :=
  match data with
  | [] => {| userRankValues := []; userTrendValues := []; userTotalQuota := 0 |}
  | _ =>
      let sorted := sort_desc snd (user_totals data) in
      let top := take limit sorted in
      let topUsers := map fst top in
      let '(allTimePoints, timeUserMap) := fold_left (user_item topUsers) data ([], []) in
      {| userRankValues := map (fun e => (e.1, e.2, round4 (fdiv (num_of_Z e.2) quotaPerUnit))) top;
         userTrendValues :=
           flat_map (fun time => map (user_cell timeUserMap time) topUsers) (sort_strings allTimePoints);
         userTotalQuota := sum_of snd top |}
  end.

(** *** Tooltips *)

(** [formatQuotaValue] and [formatInt], the texts of the lines. *)
Context (formatQuotaValue : Z -> jstr) (formatInt : Z -> jstr) (totalLabel : jstr).

(** The line of a value of the bars or the areas. *)
Definition tooltip_item (datum : LineValue) : TooltipItem :=
  {| ti_key := lv_model datum; ti_value := lv_raw datum; ti_raw := Some (lv_raw datum); ti_sum := Some (lv_sum datum) |}.

Definition isOtherTooltipKey (key : jstr) : bool := jeqb key (u "Other") || jeqb key otherLabel.

Definition tooltip_order (array : list TooltipItem) : list TooltipItem * list TooltipItem :=
  (sort_desc ti_value (jfilter (fun item => negb (isOtherTooltipKey (ti_key item))) array),
   jfilter (fun item => isOtherTooltipKey (ti_key item)) array).

(** [Number(datum.TimeSum) || sum] where there is one. *)
Definition time_sum (sum : Z) (item : TooltipItem) : Z :=
  match ti_sum item with Some s => if s =? 0 then sum else s | None => sum end.

Definition tooltip_rows (collapseOverflow : bool) (array : list TooltipItem) : list (jstr * Z) :=
  let '(modelItems, otherItems) := tooltip_order array in
  let array := modelItems ++ otherItems in
  let sum := fold_left time_sum array 0 in
  let rows :=
    if collapseOverflow && (MAX_TOOLTIP_MODELS <? length array)%nat
    then map (fun i => (ti_key i, ti_value i)) (take MAX_TOOLTIP_MODELS modelItems) ++
         [(otherLabel, sum_of (fun i => number_or_0 (ti_raw i)) (drop MAX_TOOLTIP_MODELS modelItems ++ otherItems))]
    else map (fun i => (ti_key i, ti_value i)) array in
  (totalLabel, sum) :: rows.

(** The lines of a quota tooltip, as they are shown. *)
Definition quota_tooltip (collapseOverflow : bool) (array : list TooltipItem) : list (jstr * jstr) :=
  map (fun r => (r.1, formatQuotaValue r.2)) (tooltip_rows collapseOverflow array).

(** The lines of the tooltip of the call trend. *)
Definition trend_tooltip (array : list TooltipItem) : list (jstr * jstr) :=
  let '(modelItems, otherItems) := tooltip_order array in
  let array := modelItems ++ otherItems in
  (totalLabel, formatInt (sum_of ti_value array)) :: map (fun i => (ti_key i, formatInt (ti_value i))) array.
End Charts.

(** *** The text of a quota *)

Definition renderQuotaCompat (toLocaleString : Z -> jstr) (currency : option StoredCurrency) (rawQuota : Z) (digits : nat)
    : jstr :=
  let '(config, meta) := getCurrencyDisplay currency in
  let show (symbol : jstr) (rate : num) :=
    let usd := fdiv (num_of_Z rawQuota) (quotaPerUnit config) in
    let value := fmul usd rate in
    let fixed := to_fixed digits value in
    if feq (parse_float fixed) zero && (0 <? rawQuota) && flt zero value
    then symbol ++ to_fixed digits (pow10_neg digits)
    else symbol ++ fixed in
  match meta with
  | MetaTokens _ => toLocaleString rawQuota
  | MetaCurrency symbol _ exchangeRate | MetaCustom symbol exchangeRate => show symbol exchangeRate
  end.
