(* ===== verification/ChartsFacts.v ===== *)
(** * What the dashboard charts show

    The numbers of a chart add up: to the usage of the time points it shows, hence to the totals
    above it when every time point is shown; the rankings keep the largest and collect the rest. *)

From S2P Require Import Prelude JsString JsNumber Json JsonFacts Currency Charts.
Open Scope Z_scope.

(** ** Sums *)

Section Sums.
Context {A : Type}.
  Implicit Types (f g : A -> Z) (l k : list A).

Lemma sum_of_acc f l a : fold_left (fun s x => s + f x) l a = a + sum_of f l.
Proof.
  unfold sum_of. revert a. induction l as [|x l IH]; intros a; cbn [fold_left]; [lia|].
  rewrite (IH (a + f x)), (IH (0 + f x)). lia.
Qed.

Lemma sum_of_cons f x l : sum_of f (x :: l) = f x + sum_of f l.
Proof. unfold sum_of at 1. cbn [fold_left]. rewrite sum_of_acc. lia. Qed.

Lemma sum_of_app f l k : sum_of f (l ++ k) = sum_of f l + sum_of f k.
Proof. unfold sum_of at 1. rewrite fold_left_app, sum_of_acc. unfold sum_of. lia. Qed.

Lemma sum_of_perm f l k : l ≡ₚ k -> sum_of f l = sum_of f k.
Proof. induction 1; rewrite ?sum_of_cons in *; lia. Qed.

Lemma sum_of_ext f g l : (forall x, x ∈ l -> f x = g x) -> sum_of f l = sum_of g l.
Proof.
  induction l as [|x l IH]; intros H; [done|]. rewrite !sum_of_cons, H, IH; [done|set_solver|set_solver].
Qed.

Lemma sum_of_plus f g l : sum_of (fun x => f x + g x) l = sum_of f l + sum_of g l.
Proof. induction l as [|x l IH]; [done|]. rewrite !sum_of_cons, IH. lia. Qed.

Lemma sum_of_zero l : sum_of (fun _ => 0) l = 0.
Proof. induction l as [|x l IH]; [done|]. by rewrite sum_of_cons, IH. Qed.

Lemma sum_of_take_drop f n l : sum_of f (take n l) + sum_of f (drop n l) = sum_of f l.
Proof. by rewrite <- sum_of_app, take_drop. Qed.
End Sums.

Lemma sum_of_map {A B} (h : A -> B) (f : B -> Z) l : sum_of f (map h l) = sum_of (fun x => f (h x)) l.
Proof. induction l as [|x l IH]; [done|]. cbn [map]. by rewrite !sum_of_cons, IH. Qed.

Lemma sum_of_flat_map {A B} (h : A -> list B) (f : B -> Z) l :
  sum_of f (flat_map h l) = sum_of (fun x => sum_of f (h x)) l.
Proof. induction l as [|x l IH]; [done|]. cbn [flat_map]. by rewrite sum_of_app, sum_of_cons, IH. Qed.

(** A key that occurs once picks its value. *)
Lemma sum_of_pick (keys : list jstr) (j : jstr) (x : Z) :
  NoDup keys -> sum_of (fun k => if jeqb j k then x else 0) keys = if bool_decide (j ∈ keys) then x else 0.
Proof.
  induction 1 as [|k keys Hk _ IH]; [done|]. rewrite sum_of_cons, IH.
  destruct (jeqb j k) eqn:E.
  - apply jeqb_spec in E as ->. rewrite bool_decide_false, bool_decide_true; [lia|by left|done].
  - apply jeqb_neq in E. rewrite (bool_decide_ext (j ∈ k :: keys) (j ∈ keys)); [lia|].
    rewrite elem_of_cons. naive_solver.
Qed.

(** Summing the groups of distinct keys is summing what has one of the keys. *)
Lemma sum_partition {A} (key : A -> jstr) (w : A -> Z) (keys : list jstr) items :
  NoDup keys ->
  sum_of (fun k => sum_of (fun i => if jeqb (key i) k then w i else 0) items) keys
  = sum_of (fun i => if bool_decide (key i ∈ keys) then w i else 0) items.
Proof.
  intros Hk. induction items as [|i items IH]; [apply sum_of_zero|].
  rewrite sum_of_cons, <- IH, <- (sum_of_pick keys (key i)) by done. rewrite <- sum_of_plus.
  apply sum_of_ext. intros k _. by rewrite sum_of_cons.
Qed.

Lemma sum_covered {A} (key : A -> jstr) (w : A -> Z) (keys : list jstr) items :
  Forall (fun i => key i ∈ keys) items ->
  sum_of (fun i => if bool_decide (key i ∈ keys) then w i else 0) items = sum_of w items.
Proof.
  intros H. apply sum_of_ext. intros i Hi. rewrite bool_decide_true; [done|].
  by apply (proj1 (Forall_forall _ _) H).
Qed.

(** Sorting does not change a sum. *)
Lemma sum_sort_desc {A} (g f : A -> Z) l : sum_of f (sort_desc g l) = sum_of f l.
Proof. apply sum_of_perm, sort_by_perm. Qed.

Lemma sort_strings_perm l : sort_strings l ≡ₚ l.
Proof. apply sort_by_perm. Qed.

(** ** Maps that add up *)

Section Upsert.
Context {V : Type} (f : V -> Z) (d : V) (f_d : f d = 0).

(** [map.set(k, prev + w)] *)
Lemma upsert_at (m : jmap V) k j v w :
  f v = f (option_or (obj_get j m) d) + w ->
  f (option_or (obj_get k (obj_set j v m)) d) = f (option_or (obj_get k m) d) + (if jeqb j k then w else 0).
Proof using.
  intros Hv. destruct (jeqb j k) eqn:E.
  - apply jeqb_spec in E as <-. by rewrite obj_get_set_eq.
  - apply jeqb_neq in E. rewrite obj_get_set_ne by done. lia.
Qed.

Lemma upsert_sum (m : jmap V) j v w :
  f v = f (option_or (obj_get j m) d) + w ->
  sum_of (fun e => f e.2) (obj_set j v m) = sum_of (fun e => f e.2) m + w.
Proof using f_d.
  induction m as [|[k x] m IH]; cbn [obj_get obj_set option_or]; intros Hv.
  - rewrite sum_of_cons. cbn [snd]. unfold sum_of. cbn [fold_left]. lia.
  - destruct (jeqb k j); rewrite !sum_of_cons; cbn [snd]; cbn [option_or] in Hv; [lia|]. rewrite IH by done. lia.
Qed.
End Upsert.

Lemma obj_set_NoDup {V} k (v : V) m : NoDup (map fst m) -> NoDup (map fst (obj_set k v m)).
Proof.
  intros H. rewrite obj_set_keys. case_bool_decide as Hk; [done|]. apply NoDup_app.
  split_and!; [done| |apply NoDup_singleton]. intros x Hx ->%list_elem_of_singleton. done.
Qed.

Lemma elem_obj_set_keys {V} k j (v : V) m : k ∈ map fst (obj_set j v m) <-> k = j \/ k ∈ map fst m.
Proof.
  rewrite obj_set_keys. case_bool_decide; [naive_solver|]. rewrite elem_of_app, list_elem_of_singleton. tauto.
Qed.

(** ** The aggregation *)

(** The counted quantities: a field of the stats and what an item adds to it. *)
Record measure := {
  read_stats : Stats -> Z;
  read_item : QuotaDataItem -> Z;
  read_zero : read_stats no_stats = 0;
  read_add : forall s i, read_stats (add_stats s (number_or_0 (q_quota i)) (number_or_0 (q_count i))
                                               (number_or_0 (q_token_used i))) = read_stats s + read_item i;
}.

Definition quota_of (i : QuotaDataItem) : Z := number_or_0 (q_quota i).
Definition count_of (i : QuotaDataItem) : Z := number_or_0 (q_count i).

Definition quota_measure : measure :=
  {| read_stats := quota; read_item := quota_of; read_zero := eq_refl; read_add := fun _ _ => eq_refl |}.
Definition count_measure : measure :=
  {| read_stats := count; read_item := count_of; read_zero := eq_refl; read_add := fun _ _ => eq_refl |}.

Section Aggregation.
Context (time_key : Z -> jstr).
Abbreviation aggregate := (aggregate time_key).
Abbreviation time_of := (item_time time_key).

Lemma aggregate_snoc data i : aggregate (data ++ [i]) = aggregate_item time_key (aggregate data) i.
Proof using. unfold Charts.aggregate. by rewrite fold_left_app. Qed.

Lemma aggregate_snoc_times data i :
  (aggregate (data ++ [i])).1 =
  obj_set (time_of i) (add_item (option_or (obj_get (time_of i) (aggregate data).1) []) (item_model i) i) (aggregate data).1.
Proof using. rewrite aggregate_snoc. by destruct (aggregate data). Qed.

Lemma aggregate_snoc_totals data i :
  (aggregate (data ++ [i])).2 = add_item (aggregate data).2 (item_model i) i.
Proof using. rewrite aggregate_snoc. by destruct (aggregate data). Qed.

(** The keys are the times and the models of the data, each once. *)
Lemma aggregate_keys data :
  (NoDup (map fst (aggregate data).1) /\ forall t, t ∈ map fst (aggregate data).1 <-> t ∈ map time_of data) /\
  (NoDup (map fst (aggregate data).2) /\ forall m, m ∈ map fst (aggregate data).2 <-> m ∈ map item_model data).
Proof using.
  induction data as [|i data [[N1 E1] [N2 E2]]] using rev_ind; [split; (split; [constructor|done])|].
  rewrite aggregate_snoc_times, aggregate_snoc_totals, !map_app. unfold add_item.
  split; (split; [by apply obj_set_NoDup|]); intros x; rewrite elem_obj_set_keys, elem_of_app; cbn [map];
    rewrite list_elem_of_singleton, ?E1, ?E2; tauto.
Qed.

Context (M : measure).

(** A cell of the table of times and models, and a total. *)
Lemma aggregate_cell data t m :
  read_stats M (stats_at (aggregate data).1 t m)
  = sum_of (fun i => if jeqb (time_of i) t && jeqb (item_model i) m then read_item M i else 0) data.
Proof using.
  induction data as [|i data IH] using rev_ind; [apply read_zero|].
  rewrite sum_of_app, sum_of_cons, <- IH, aggregate_snoc_times. unfold stats_at. change (sum_of _ []) with 0.
  destruct (jeqb (time_of i) t) eqn:E; cbn [andb].
  - apply jeqb_spec in E as <-. rewrite obj_get_set_eq. cbn [option_or]. unfold add_item.
    rewrite (upsert_at (read_stats M) no_stats _ _ _ _ (read_item M i)) by apply read_add. lia.
  - apply jeqb_neq in E. rewrite obj_get_set_ne by done. lia.
Qed.

Lemma aggregate_total data m :
  read_stats M (option_or (obj_get m (aggregate data).2) no_stats)
  = sum_of (fun i => if jeqb (item_model i) m then read_item M i else 0) data.
Proof using.
  induction data as [|i data IH] using rev_ind; [apply read_zero|].
  rewrite sum_of_app, sum_of_cons, <- IH, aggregate_snoc_totals. unfold add_item. change (sum_of _ []) with 0.
  rewrite (upsert_at (read_stats M) no_stats _ _ _ _ (read_item M i)) by apply read_add. lia.
Qed.

Lemma aggregate_sum data : sum_of (fun e => read_stats M e.2) (aggregate data).2 = sum_of (read_item M) data.
Proof using.
  induction data as [|i data IH] using rev_ind; [done|].
  rewrite sum_of_app, sum_of_cons, aggregate_snoc_totals. unfold add_item. change (sum_of _ []) with 0.
  rewrite (upsert_sum (read_stats M) no_stats (read_zero M) _ _ _ (read_item M i)) by apply read_add. lia.
Qed.

(** A row of the table, over any list of all its models. *)
Lemma aggregate_row data t models :
  models ≡ₚ map fst (aggregate data).2 ->
  sum_of (fun m => read_stats M (stats_at (aggregate data).1 t m)) models
  = sum_of (fun i => if jeqb (time_of i) t then read_item M i else 0) data.
Proof using.
  intros Hp. destruct (aggregate_keys data) as [_ [Hn Hk]].
  rewrite (sum_of_ext _ (fun m => sum_of (fun i => if jeqb (item_model i) m then
             (if jeqb (time_of i) t then read_item M i else 0) else 0) data)).
  - rewrite sum_partition by by rewrite Hp. apply sum_covered, Forall_forall. intros i Hi. rewrite Hp, Hk.
    apply list_elem_of_fmap. by exists i.
  - intros m _. rewrite aggregate_cell. apply sum_of_ext. intros i _.
    by destruct (jeqb (time_of i) t), (jeqb (item_model i) m).
Qed.

(** The whole table, over distinct times. *)
Lemma aggregate_table data times :
  NoDup times ->
  sum_of (fun t => sum_of (fun i => if jeqb (time_of i) t then read_item M i else 0) data) times
  = sum_of (fun i => if bool_decide (time_of i ∈ times) then read_item M i else 0) data.
Proof using. apply sum_partition. Qed.
End Aggregation.

(** ** The charts *)

Section ChartSums.
Context (time_key : Z -> jstr) (localeCompare : jstr -> jstr -> Z).
Context (otherLabel : jstr) (perUnit : num) (granularity : TimeGranularity).
Abbreviation charts := (processChartData time_key localeCompare otherLabel perUnit granularity).
Abbreviation times := (chart_times time_key granularity).
Abbreviation time_of := (item_time time_key).

(** What the items of a time add up to. *)
Definition at_time (w : QuotaDataItem -> Z) (data : list QuotaDataItem) (t : jstr) : Z :=
  sum_of (fun i => if jeqb (time_of i) t then w i else 0) data.

Lemma sum_sort_times {A} (time : A -> jstr) (f : A -> Z) l :
  sum_of f (sort_times localeCompare time l) = sum_of f l.
Proof using. apply sum_of_perm, sort_by_perm. Qed.

(** The data of a chart that is not empty, with its parts named. *)
Lemma charts_cons data : data <> [] ->
  let tm := (aggregate time_key data).1 in
  let totals := (aggregate time_key data).2 in
  let models := sort_strings (map fst totals) in
  let trend := map fst (ranked count totals) in
  charts data =
    {| pieValues := ranked count totals;
       lineValues := sort_times localeCompare lv_time (flat_map (line_time perUnit tm models) (times data));
       areaValues := sort_times localeCompare lv_time
         (flat_map (area_time otherLabel perUnit tm (map fst (take MAX_AREA_MODELS (ranked quota totals))) models) (times data));
       modelLineValues := sort_times localeCompare tv_time
         (flat_map (trend_time otherLabel tm (take MAX_TREND_MODELS trend) (drop MAX_TREND_MODELS trend)) (times data));
       rankValues := rank otherLabel (ranked count totals);
       totalQuotaRaw := sum_of (fun e => quota e.2) totals;
       totalTimes := sum_of (fun e => count e.2) totals |}.
Proof using. unfold processChartData. destruct data; [done|]. by destruct (aggregate _ _). Qed.

Lemma ranked_keys f totals : map fst (ranked f totals) ≡ₚ map fst totals.
Proof using.
  unfold ranked, sort_desc. rewrite sort_by_perm, map_map. done.
Qed.

Lemma ranked_sum f totals : sum_of snd (ranked f totals) = sum_of (fun e => f e.2) totals.
Proof using. unfold ranked. by rewrite sum_sort_desc, sum_of_map. Qed.

(** *** A time point of each chart *)
Section Point.
Context (data : list QuotaDataItem) (t : jstr).
Let tm := (aggregate time_key data).1.
Let models := sort_strings (map fst (aggregate time_key data).2).

Lemma row_models M : sum_of (fun m => read_stats M (stats_at tm t m)) models = at_time (read_item M) data t.
Proof using. apply aggregate_row, sort_strings_perm. Qed.

Lemma line_time_sum : sum_of lv_raw (line_time perUnit tm models t) = at_time quota_of data t.
Proof using.
  unfold line_time. rewrite sum_of_map. cbn [with_sum lv_raw].
  rewrite sum_sort_desc, sum_of_map. apply (row_models quota_measure).
Qed.

Lemma line_time_values v :
  v ∈ line_time perUnit tm models t ->
  lv_time v = t /\ lv_sum v = at_time quota_of data t /\
  lv_raw v = sum_of (fun i => if jeqb (time_of i) t && jeqb (item_model i) (lv_model v) then quota_of i else 0) data.
Proof using.
  unfold line_time. intros (w & -> & Hw)%list_elem_of_fmap. cbn [with_sum lv_time lv_sum lv_raw lv_model].
  unfold sort_desc in Hw. rewrite sort_by_perm in Hw. apply list_elem_of_fmap in Hw as (m & -> & _).
  cbn [line_cell lv_time lv_raw lv_model]. split_and!; [done| |apply (aggregate_cell time_key quota_measure)].
  rewrite sum_of_map. apply (row_models quota_measure).
Qed.

Lemma buckets_sum top ms b :
  sum_of (fun e => e.2.1) (fold_left (add_bucket otherLabel perUnit tm top t) ms b)
  = sum_of (fun e => e.2.1) b + sum_of (fun m => quota (stats_at tm t m)) ms.
Proof using.
  clear localeCompare. revert b. induction ms as [|m ms IH]; intros b; cbn [fold_left]; [unfold sum_of at 3; cbn [fold_left]; lia|].
  rewrite IH, sum_of_cons. unfold add_bucket.
  rewrite (upsert_sum fst (0, zero) eq_refl _ _ _ (quota (stats_at tm t m))) by done. lia.
Qed.

Lemma area_time_sum top : sum_of lv_raw (area_time otherLabel perUnit tm top models t) = at_time quota_of data t.
Proof using.
  unfold area_time. rewrite sum_of_map. cbn [lv_raw]. rewrite buckets_sum.
  apply (row_models quota_measure).
Qed.

Lemma area_time_values top v :
  v ∈ area_time otherLabel perUnit tm top models t -> lv_time v = t /\ lv_sum v = at_time quota_of data t.
Proof using.
  unfold area_time. intros (b & -> & _)%list_elem_of_fmap. cbn [lv_time lv_sum].
  split; [done|apply (row_models quota_measure)].
Qed.

Lemma trend_time_sum n :
  let trend := map fst (ranked count (aggregate time_key data).2) in
  sum_of tv_count (trend_time otherLabel tm (take n trend) (drop n trend) t) = at_time count_of data t.
Proof using.
  intros trend. change (at_time count_of data t) with (at_time (read_item count_measure) data t).
  unfold at_time. rewrite <- (aggregate_row time_key count_measure data t trend) by apply ranked_keys.
  rewrite <- (sum_of_take_drop _ n trend). unfold trend_time. rewrite sum_of_app, sum_of_map.
  cbn [trend_cell tv_count]. f_equal. by destruct (drop n trend).
Qed.
End Point.

(** *** All time points *)

(** What the items of the shown times add up to. *)
Definition shown (w : QuotaDataItem -> Z) (data : list QuotaDataItem) : Z :=
  sum_of (fun i => if bool_decide (time_of i ∈ times data) then w i else 0) data.

Lemma chart_sums data :
  NoDup (times data) ->
  sum_of lv_raw (lineValues (charts data)) = shown quota_of data /\
  sum_of lv_raw (areaValues (charts data)) = shown quota_of data /\
  sum_of tv_count (modelLineValues (charts data)) = shown count_of data.
Proof using.
  intros Hn. destruct (decide (data = [])) as [->|Hd]; [done|]. rewrite charts_cons by done. cbv zeta.
  cbn [lineValues areaValues modelLineValues]. rewrite !sum_sort_times, !sum_of_flat_map. unfold shown.
  rewrite <- (aggregate_table time_key quota_measure), <- (aggregate_table time_key count_measure) by done.
  split_and!; apply sum_of_ext; intros t _.
  - apply line_time_sum.
  - apply area_time_sum.
  - apply trend_time_sum.
Qed.

Lemma chart_totals data :
  totalQuotaRaw (charts data) = sum_of quota_of data /\ totalTimes (charts data) = sum_of count_of data /\
  sum_of snd (pieValues (charts data)) = sum_of count_of data.
Proof using.
  destruct (decide (data = [])) as [->|Hd]; [done|]. rewrite charts_cons by done. cbv zeta.
  cbn [pieValues totalQuotaRaw totalTimes]. rewrite ranked_sum.
  split_and!; [apply (aggregate_sum time_key quota_measure)|..]; apply (aggregate_sum time_key count_measure).
Qed.

(** With enough time points the chart shows exactly those of the data. *)
Lemma enough_times data :
  (MAX_CHART_TREND_POINTS <= length (map fst (aggregate time_key data).1))%nat ->
  NoDup (times data) /\ Forall (fun i => time_of i ∈ times data) data.
Proof using.
  intros Hl. destruct (aggregate_keys time_key data) as [[Hn Hk] _]. unfold chart_times, fillTimePoints.
  rewrite (proj2 (Nat.leb_le _ _)) by by rewrite sort_strings_perm. rewrite sort_strings_perm. split; [done|].
  apply Forall_forall. intros i Hi. rewrite sort_strings_perm, Hk. apply list_elem_of_fmap. by exists i.
Qed.
End ChartSums.

(** C12: With at least seven time points the charts conserve what was used: the bars, the areas and the
    call trend each add up to the totals above them, which are the sums over the data, whatever the
    number of models, the sorting and the collection of the rest under one label. *)
Theorem charts_conserve time_key localeCompare otherLabel perUnit granularity data :
  (MAX_CHART_TREND_POINTS <= length (map fst (aggregate time_key data).1))%nat ->
  let c := processChartData time_key localeCompare otherLabel perUnit granularity data in
  totalQuotaRaw c = sum_of quota_of data /\ totalTimes c = sum_of count_of data /\
  sum_of lv_raw (lineValues c) = totalQuotaRaw c /\ sum_of lv_raw (areaValues c) = totalQuotaRaw c /\
  sum_of tv_count (modelLineValues c) = totalTimes c /\ sum_of snd (pieValues c) = totalTimes c.
Proof.
  intros Hl c. destruct (enough_times time_key granularity data Hl) as [Hn Hc].
  destruct (chart_sums time_key localeCompare otherLabel perUnit granularity data Hn) as (H1 & H2 & H3).
  destruct (chart_totals time_key localeCompare otherLabel perUnit granularity data) as (H4 & H5 & H6).
  unfold shown in *. rewrite sum_covered in H1, H2 by done. rewrite sum_covered in H3 by done.
  subst c. rewrite H1, H2, H3, H4, H5, H6. done.
Qed.

(** With fewer than seven time points the charts show seven points that end with the last item
    instead: what happened at other times is missing from the bars, the areas and the trend, and is
    still in the totals. *)
Theorem short_history_dropped time_key localeCompare otherLabel perUnit granularity data :
  (length (map fst (aggregate time_key data).1) < MAX_CHART_TREND_POINTS)%nat ->
  NoDup (padded_times time_key granularity data) ->
  let c := processChartData time_key localeCompare otherLabel perUnit granularity data in
  let dropped w := sum_of (fun i => if bool_decide (item_time time_key i ∈ padded_times time_key granularity data)
                                    then 0 else w i) data in
  totalQuotaRaw c = sum_of lv_raw (lineValues c) + dropped quota_of /\
  totalQuotaRaw c = sum_of lv_raw (areaValues c) + dropped quota_of /\
  totalTimes c = sum_of tv_count (modelLineValues c) + dropped count_of.
Proof.
  intros Hl Hn c dropped. assert (Ht : chart_times time_key granularity data = padded_times time_key granularity data).
  { unfold chart_times, fillTimePoints. rewrite (proj2 (Nat.leb_gt _ _)); [done|]. by rewrite sort_strings_perm. }
  rewrite <- Ht in Hn. subst c.
  destruct (chart_sums time_key localeCompare otherLabel perUnit granularity data Hn) as (H1 & H2 & H3).
  destruct (chart_totals time_key localeCompare otherLabel perUnit granularity data) as (H4 & H5 & _).
  rewrite H1, H2, H3, H4, H5. unfold shown, dropped. rewrite Ht, <- !sum_of_plus.
  split_and!; apply sum_of_ext; intros i _; case_bool_decide; lia.
Qed.

(** A calendar for the examples: a day is the text of its number as one code unit. *)
Definition day_text (ms : Z) : jstr := [Z.to_N (ms / 86400000)].
Definition day_key (timestamp : Z) : jstr := formatChartTime day_text day_text day_text timestamp Day.

Definition used_on (model : jstr) (day : Z) (n : Z) : QuotaDataItem :=
  {| q_username := Some model; q_model_name := Some model; q_created_at := day * 86400; q_token_used := None;
     q_count := Some n; q_quota := Some (n * 10) |}.

(** The order of code units as a collation. *)
Definition unit_compare (s t : jstr) : Z := if str_lt s t then -1 else if str_lt t s then 1 else 0.

Definition eight_days : list QuotaDataItem :=
  map (fun d => used_on (u "m") (Z.of_nat d) 2) (seq 100 8) ++ [used_on (u "n") 101 5].

Definition two_days : list QuotaDataItem := [used_on (u "m") 100 4; used_on (u "m") 130 1].

Lemma charts_conserve_witness :
  let c := processChartData day_key unit_compare (u "Other") (num_of_Z 500000) Day eight_days in
  totalQuotaRaw c = 210 /\ totalQuotaRaw c = sum_of quota_of eight_days /\
  sum_of lv_raw (lineValues c) = totalQuotaRaw c /\ sum_of tv_count (modelLineValues c) = totalTimes c.
Proof.
  destruct (charts_conserve day_key unit_compare (u "Other") (num_of_Z 500000) Day eight_days) as (H1 & H2 & H3 & _ & H5 & _);
    [vm_compute; lia|].
  split_and!; [rewrite H1; reflexivity|exact H1|exact H3|exact H5].
Defined.

Lemma short_history_dropped_witness :
  let c := processChartData day_key unit_compare (u "Other") (num_of_Z 500000) Day two_days in
  totalTimes c = 5 /\ totalTimes c = sum_of tv_count (modelLineValues c) + 4.
Proof.
  destruct (short_history_dropped day_key unit_compare (u "Other") (num_of_Z 500000) Day two_days) as (_ & _ & H);
    [vm_compute; lia|apply (bool_decide_unpack _); vm_compute; exact I|].
  split; [vm_compute; reflexivity|]. etrans; [exact H|]. f_equal.
Defined.

(** ** Rankings *)

#[local] Instance desc_consistent {A} (f : A -> Z) : ConsistentCmp (fun a b => f a <? f b).
Proof. split; intros *; unfold gt_le; lia. Qed.

Lemma sort_desc_sorted {A} (f : A -> Z) l : StronglySorted (fun a b => f b <= f a) (sort_desc f l).
Proof.
  eapply sorted_impl; [|apply (sort_by_sorted (fun a b => f a <? f b))]. intros a b. unfold gt_le. lia.
Qed.

Lemma sorted_split {A} (R : A -> A -> Prop) l k :
  StronglySorted R (l ++ k) -> StronglySorted R l /\ forall a b, a ∈ l -> b ∈ k -> R a b.
Proof.
  induction l as [|x l IH]; intros H; [split; [constructor|by intros ?? ?%elem_of_nil]|].
  cbn [app] in H. apply StronglySorted_inv in H as [Hs Hx]. destruct (IH Hs) as [H1 H2].
  apply Forall_app in Hx as [Hx1 Hx2]. split; [constructor; [exact H1|exact Hx1]|]. intros a b [->|Ha]%elem_of_cons Hb; [|by apply H2].
  exact (proj1 (Forall_forall _ _) Hx2 b Hb).
Qed.

(** The first entries of a ranking: they are entries, the largest first, and no other is larger. *)
Lemma top_entries n (l : jmap Z) :
  let top := take n (sort_desc snd l) in
  (length top <= n)%nat /\ StronglySorted (fun a b => b.2 <= a.2) top /\ Forall (fun e => e ∈ l) top /\
  (forall e, e ∈ l -> e ∈ top \/ Forall (fun t => e.2 <= t.2) top).
Proof.
  intros top. pose proof (sort_desc_sorted snd l) as Hs. pose proof (sort_by_perm (fun a b : jstr * Z => a.2 <? b.2) l) as Hp.
  fold (sort_desc snd l) in Hp. rewrite <- (take_drop n (sort_desc snd l)) in Hs.
  apply sorted_split in Hs as [H1 H2]. split_and!; [subst top; rewrite length_take; lia|done|..].
  - apply Forall_forall. intros e He. rewrite <- Hp, <- (take_drop n (sort_desc snd l)), elem_of_app. by left.
  - intros e He. rewrite <- Hp, <- (take_drop n (sort_desc snd l)), elem_of_app in He.
    destruct He as [He|He]; [by left|right]. apply Forall_forall. intros t Ht. by apply H2.
Qed.

(** The entries of a map without repeated keys. *)
Lemma map_entries {V} (f : V -> Z) (d : V) (m : jmap V) k x :
  NoDup (map fst m) ->
  (k, x) ∈ map (fun e => (e.1, f e.2)) m <-> k ∈ map fst m /\ x = f (option_or (obj_get k m) d).
Proof.
  intros Hn. rewrite list_elem_of_fmap. split.
  - intros ([k' v] & [= -> ->] & He). rewrite (obj_get_elem m k' v) by done. split; [|done].
    apply list_elem_of_fmap. by exists (k', v).
  - intros [([k' v] & -> & He)%list_elem_of_fmap ->]. cbn [fst]. rewrite (obj_get_elem m k' v) by done. by exists (k', v).
Qed.

(** What the items of a model add up to. *)
Definition of_model (w : QuotaDataItem -> Z) (data : list QuotaDataItem) (m : jstr) : Z :=
  sum_of (fun i => if jeqb (item_model i) m then w i else 0) data.

Lemma total_entries time_key M data m x :
  (m, x) ∈ map (fun e => (e.1, read_stats M e.2)) (aggregate time_key data).2 <->
  m ∈ map item_model data /\ x = of_model (read_item M) data m.
Proof.
  destruct (aggregate_keys time_key data) as [_ [Hn Hk]].
  by rewrite (map_entries (read_stats M) no_stats), Hk, aggregate_total.
Qed.

Lemma rank_take otherLabel l : take MAX_RANK_MODELS (rank otherLabel l) = take MAX_RANK_MODELS l.
Proof.
  unfold rank. destruct (Nat.ltb_spec MAX_RANK_MODELS (length l)) as [H|H]; [|done].
  rewrite take_app_le by (rewrite length_take; lia). by rewrite take_take, Nat.min_id.
Qed.

Lemma rank_sum otherLabel l : sum_of snd (rank otherLabel l) = sum_of snd l.
Proof.
  unfold rank. destruct (MAX_RANK_MODELS <? length l)%nat; [|done].
  rewrite sum_of_app, sum_of_cons. cbn [snd]. change (sum_of snd []) with 0.
  rewrite <- (sum_of_take_drop snd MAX_RANK_MODELS l). lia.
Qed.

(** The ranking of models has at most twenty-one bars, which add up to the calls shown above it; the
    first twenty are models of the data with their calls, the most called first, and no model that is
    not among them was called more often than one of them. *)
Theorem rank_spec time_key localeCompare otherLabel perUnit granularity data :
  let c := processChartData time_key localeCompare otherLabel perUnit granularity data in
  let top := take MAX_RANK_MODELS (rankValues c) in
  (length (rankValues c) <= S MAX_RANK_MODELS)%nat /\ sum_of snd (rankValues c) = totalTimes c /\
  StronglySorted (fun a b => b.2 <= a.2) top /\
  Forall (fun e => e.1 ∈ map item_model data /\ e.2 = of_model count_of data e.1) top /\
  (forall m, m ∈ map item_model data -> m ∈ map fst top \/ Forall (fun e => of_model count_of data m <= e.2) top).
Proof.
  intros c top. destruct (decide (data = [])) as [->|Hd].
  { subst top c. cbn [processChartData rankValues no_charts take]. rewrite take_nil.
    split_and!; [cbn; lia|done|constructor|constructor|]. by intros m ?%elem_of_nil. }
  assert (Hr : rankValues c = rank otherLabel (ranked count (aggregate time_key data).2)).
  { subst c. rewrite charts_cons by done. done. }
  assert (Ht : totalTimes c = sum_of (fun e => count e.2) (aggregate time_key data).2).
  { subst c. rewrite charts_cons by done. done. }
  subst top. rewrite Ht, Hr, rank_take, rank_sum, ranked_sum. unfold ranked.
  destruct (top_entries MAX_RANK_MODELS (map (fun e => (e.1, count e.2)) (aggregate time_key data).2)) as (H1 & H2 & H3 & H4).
  pose proof (total_entries time_key count_measure data) as He. cbn [read_stats count_measure read_item] in He.
  split_and!; [|done|done|..].
  - unfold rank. destruct (Nat.ltb_spec MAX_RANK_MODELS
      (length (sort_desc snd (map (fun e => (e.1, count e.2)) (aggregate time_key data).2)))); [|lia].
    rewrite length_app. cbn [length]. unfold ranked in *. lia.
  - eapply Forall_impl; [exact H3|]. intros [m x] Hm. by apply He.
  - intros m Hm. destruct (H4 (m, of_model count_of data m)) as [Hin|Hle]; [by apply He| |by right].
    left. apply list_elem_of_fmap. by exists (m, of_model count_of data m).
Qed.

(** ** The charts of the users *)

Definition of_user (data : list QuotaDataItem) (user : jstr) : Z :=
  sum_of (fun i => if jeqb (item_user i) user then quota_of i else 0) data.

Lemma add_quota_at (m : jmap Z) k j i :
  option_or (obj_get k (add_quota m j i)) 0 = option_or (obj_get k m) 0 + (if jeqb j k then quota_of i else 0).
Proof. by apply (upsert_at (fun z => z) 0). Qed.

Lemma user_totals_spec data :
  NoDup (map fst (user_totals data)) /\
  (forall user x, (user, x) ∈ user_totals data <-> user ∈ map item_user data /\ x = of_user data user).
Proof.
  assert (H : NoDup (map fst (user_totals data)) /\ (forall k, k ∈ map fst (user_totals data) <-> k ∈ map item_user data) /\
              forall k, option_or (obj_get k (user_totals data)) 0 = of_user data k).
  { unfold user_totals, of_user. induction data as [|i data (Hn & Hk & Hv)] using rev_ind; [split_and!; [constructor|done..]|].
    rewrite fold_left_app. cbn [fold_left]. split_and!.
    - by apply obj_set_NoDup.
    - intros k. unfold add_quota at 1. rewrite elem_obj_set_keys, Hk, map_app, elem_of_app. cbn [map]. rewrite list_elem_of_singleton. tauto.
    - intros k. rewrite add_quota_at, Hv, sum_of_app, sum_of_cons.
      change (sum_of _ []) with 0. lia. }
  destruct H as (Hn & Hk & Hv). split; [done|]. intros user x.
  pose proof (map_entries id 0 (user_totals data) user x Hn) as E. unfold id in E. rewrite Hk, Hv in E. rewrite <- E.
  replace (map (fun e => (e.1, e.2)) (user_totals data)) with (user_totals data); [done|].
  clear. induction (user_totals data) as [|[k v] l IH]; [done|]. cbn [map fst snd]. by rewrite <- IH.
Qed.

Section UserTrend.
Context (time_key : Z -> jstr) (topUsers : list jstr).
Abbreviation time_of := (item_time time_key).
Abbreviation run data := (fold_left (user_item time_key topUsers) data ([], [])).

(** The times are those of all items, each once; a cell of a top user adds up its items. *)
Lemma user_fold data :
  NoDup (run data).1 /\ (forall t, t ∈ (run data).1 <-> t ∈ map time_of data) /\
  (forall t user, user ∈ topUsers ->
     option_or (obj_get user (option_or (obj_get t (run data).2) [])) 0
     = sum_of (fun i => if jeqb (time_of i) t && jeqb (item_user i) user then quota_of i else 0) data).
Proof using.
  induction data as [|i data (Hn & Ht & Hc)] using rev_ind; [split_and!; [constructor|done..]|].
  rewrite fold_left_app. cbn [fold_left]. destruct (run data) as [all tum]. cbn [fst snd] in *.
  assert (Hall : let all' := if bool_decide (time_of i ∈ all) then all else all ++ [time_of i] in
            NoDup all' /\ forall t, t ∈ all' <-> t ∈ map time_of (data ++ [i])).
  { split.
    - case_bool_decide as E; [done|]. apply NoDup_app. split_and!; [done| |apply NoDup_singleton].
      by intros x Hx ->%list_elem_of_singleton.
    - intros t. rewrite map_app, elem_of_app, <- Ht. cbn [map]. rewrite list_elem_of_singleton.
      case_bool_decide; [naive_solver|]. by rewrite elem_of_app, list_elem_of_singleton. }
  destruct Hall as [Ha1 Ha2]. unfold user_item.
  destruct (decide (item_user i ∈ topUsers)) as [Htop|Htop];
    [rewrite (bool_decide_true (item_user i ∈ topUsers)) by done|rewrite (bool_decide_false (item_user i ∈ topUsers)) by done];
    cbn [negb fst snd]; (split; [exact Ha1|split; [exact Ha2|]]); intros t user Hu;
    rewrite sum_of_app, sum_of_cons, <- Hc by done; change (sum_of _ []) with 0.
  - destruct (jeqb (time_of i) t) eqn:E; cbn [andb].
    + apply jeqb_spec in E as <-. rewrite obj_get_set_eq. cbn [option_or]. rewrite add_quota_at. lia.
    + apply jeqb_neq in E. rewrite obj_get_set_ne by done. lia.
  - rewrite (proj2 (jeqb_neq (item_user i) user)) by (intros <-; done). rewrite andb_false_r. lia.
Qed.
End UserTrend.

Section UserCharts.
Context (time_key : Z -> jstr) (perUnit : num) (limit : nat).
Abbreviation charts data := (processUserChartData time_key perUnit data limit).

Lemma user_charts_cons data : data <> [] ->
  let top := take limit (sort_desc snd (user_totals data)) in
  let run := fold_left (user_item time_key (map fst top)) data ([], []) in
  charts data =
    {| userRankValues := map (fun e => (e.1, e.2, round4 (fdiv (num_of_Z e.2) perUnit))) top;
       userTrendValues := flat_map (fun time => map (user_cell perUnit run.2 time) (map fst top)) (sort_strings run.1);
       userTotalQuota := sum_of snd top |}.
Proof using. unfold processUserChartData. destruct data; [done|]. by destruct (fold_left _ _ _). Qed.

(** The trend adds up to the totals of the shown users. *)
Lemma user_trend_sum data (top : jmap Z) :
  NoDup (map fst top) ->
  let run := fold_left (user_item time_key (map fst top)) data ([], []) in
  sum_of uv_raw (flat_map (fun time => map (user_cell perUnit run.2 time) (map fst top)) (sort_strings run.1))
  = sum_of (of_user data) (map fst top).
Proof using.
  intros Hn run. destruct (user_fold time_key (map fst top) data) as (Hr & Ht & Hc). fold run in Hr, Ht, Hc.
  rewrite sum_of_flat_map.
  rewrite (sum_of_ext _ (fun t => sum_of (fun i => if jeqb (item_time time_key i) t then
            (if bool_decide (item_user i ∈ map fst top) then quota_of i else 0) else 0) data)).
  - rewrite sum_partition by by rewrite sort_strings_perm. rewrite sum_covered.
    + symmetry. by apply sum_partition.
    + apply Forall_forall. intros i Hi. rewrite sort_strings_perm, Ht. apply list_elem_of_fmap. by exists i.
  - intros t _. rewrite sum_of_map. cbn [user_cell uv_raw].
    rewrite (sum_of_ext _ (fun user => sum_of (fun i => if jeqb (item_user i) user then
               (if jeqb (item_time time_key i) t then quota_of i else 0) else 0) data)).
    + rewrite sum_partition by done. apply sum_of_ext. intros i _. by destruct (jeqb _ _), (bool_decide _).
    + intros user Hu. rewrite Hc by done. apply sum_of_ext. intros i _. by destruct (jeqb _ t), (jeqb _ user).
Qed.
End UserCharts.

(** The charts of the users show at most as many users as asked for, those who used the most with the
    most first, each with the sum of its usage; the total under the titles is the sum of the ranking, and
    the trend adds up to the same total. *)
Theorem user_charts_spec time_key perUnit data limit :
  let c := processUserChartData time_key perUnit data limit in
  let top := map fst (userRankValues c) in
  (length top <= limit)%nat /\ StronglySorted (fun a b => b.2 <= a.2) top /\
  Forall (fun e => e.1 ∈ map item_user data /\ e.2 = of_user data e.1) top /\
  (forall user, user ∈ map item_user data -> user ∈ map fst top \/ Forall (fun e => of_user data user <= e.2) top) /\
  sum_of snd top = userTotalQuota c /\ sum_of uv_raw (userTrendValues c) = userTotalQuota c.
Proof.
  intros c top. destruct (decide (data = [])) as [->|Hd].
  { subst top c. split_and!; [cbn; lia|constructor|constructor|by intros m ?%elem_of_nil|done|done]. }
  subst top c. rewrite user_charts_cons by done. cbv zeta. cbn [userRankValues userTrendValues userTotalQuota].
  destruct (top_entries limit (user_totals data)) as (H1 & H2 & H3 & H4).
  destruct (user_totals_spec data) as [Hn He]. set (top := take limit (sort_desc snd (user_totals data))) in *.
  assert (Ht : map fst (map (fun e => (e.1, e.2, round4 (fdiv (num_of_Z e.2) perUnit))) top) = top).
  { rewrite map_map. cbn [fst]. clear. induction top as [|[k v] l IH]; [done|]. cbn [map fst snd]. by rewrite IH. }
  assert (Hv : Forall (fun e => e.1 ∈ map item_user data /\ e.2 = of_user data e.1) top).
  { eapply Forall_impl; [exact H3|]. intros [user x] Hx. by apply He. }
  rewrite Ht. split_and!; [done|done|done| |done|].
  - intros user Hu. destruct (H4 (user, of_user data user)) as [Hin|Hle]; [by apply He| |by right].
    left. apply list_elem_of_fmap. by exists (user, of_user data user).
  - rewrite user_trend_sum.
    + rewrite sum_of_map. apply sum_of_ext. intros e Hin. symmetry. by apply (proj1 (Forall_forall _ _) Hv).
    + apply (sublist_NoDup _ (map fst (sort_desc snd (user_totals data)))).
      * unfold sort_desc. by rewrite sort_by_perm.
      * apply fmap_sublist, sublist_take.
Qed.

(** ** Tooltips *)

Lemma jfilter_split {A} (p : A -> bool) l : jfilter (fun x => negb (p x)) l ++ jfilter p l ≡ₚ l.
Proof.
  induction l as [|x l IH]; [done|]. cbn [jfilter List.filter]. destruct (p x); cbn [negb app].
  - rewrite <- Permutation_middle. by f_equiv.
  - by f_equiv.
Qed.

Section Tooltips.
Context (otherLabel totalLabel : jstr).

Lemma tooltip_order_perm array :
  let o := tooltip_order otherLabel array in o.1 ++ o.2 ≡ₚ array.
Proof using.
  unfold tooltip_order. cbn [fst snd]. unfold sort_desc. rewrite sort_by_perm. apply jfilter_split.
Qed.

(** All items of a time carry its sum. *)
Lemma fold_time_sum s array a :
  Forall (fun i => ti_sum i = Some s) array -> a = 0 \/ a = s -> fold_left time_sum array a = if decide (array = []) then a else s.
Proof using.
  intros H. revert a. induction H as [|i l Hi Hl IH]; intros a Ha; [done|]. rewrite decide_False by done.
  cbn [fold_left]. unfold time_sum at 2. rewrite Hi. rewrite IH.
  - case_decide; [|done]. destruct (Z.eqb_spec s 0); lia.
  - destruct (Z.eqb_spec s 0); lia.
Qed.

(** The lines under the total are at most sixteen and add up to what the items add up to. *)
Lemma tooltip_rows_spec collapse array :
  Forall (fun i => ti_raw i = Some (ti_value i)) array ->
  exists sum rows, tooltip_rows otherLabel totalLabel collapse array = (totalLabel, sum) :: rows /\
    sum = fold_left time_sum ((tooltip_order otherLabel array).1 ++ (tooltip_order otherLabel array).2) 0 /\
    sum_of snd rows = sum_of ti_value array /\
    (collapse = true -> length rows <= S MAX_TOOLTIP_MODELS)%nat.
Proof using.
  intros Hraw. pose proof (tooltip_order_perm array) as Hp. unfold tooltip_rows.
  destruct (tooltip_order otherLabel array) as [models others]. cbn [fst snd] in *.
  do 2 eexists. split; [reflexivity|]. split; [done|]. rewrite <- (sum_of_perm _ _ _ Hp).
  destruct collapse; cbn [andb]; [|by rewrite sum_of_map].
  destruct (Nat.ltb_spec MAX_TOOLTIP_MODELS (length (models ++ others))) as [Hl|Hl].
  - split; [|intros _; rewrite length_app, length_map, length_take; cbn [length]; lia].
    rewrite sum_of_app, sum_of_map, sum_of_cons. cbn [snd]. change (sum_of snd []) with 0.
    rewrite (sum_of_ext _ ti_value (drop _ models ++ others)).
    + rewrite !sum_of_app, <- (sum_of_take_drop ti_value MAX_TOOLTIP_MODELS models), Z.add_0_r. apply Z.add_assoc.
    + intros i Hi. rewrite (proj1 (Forall_forall _ _) Hraw i); [done|]. rewrite <- Hp, elem_of_app.
      apply elem_of_app in Hi as [Hi|Hi]; [left|by right]. rewrite <- (take_drop MAX_TOOLTIP_MODELS models), elem_of_app. by right.
  - rewrite sum_of_map, length_map. split; [done|lia].
Qed.
End Tooltips.

(** The tooltip of a time point of the bars starts with the quota of that time, and its other lines, at
    most sixteen however many models there are, add up to it. *)
Theorem bar_tooltip_total time_key otherLabel totalLabel perUnit data time :
  let tm := (aggregate time_key data).1 in
  let models := sort_strings (map fst (aggregate time_key data).2) in
  exists rows,
    tooltip_rows otherLabel totalLabel true (map tooltip_item (line_time perUnit tm models time))
    = (totalLabel, at_time time_key quota_of data time) :: rows /\
    sum_of snd rows = at_time time_key quota_of data time /\ (length rows <= S MAX_TOOLTIP_MODELS)%nat.
Proof.
  intros tm models. set (array := map tooltip_item (line_time perUnit tm models time)).
  destruct (tooltip_rows_spec otherLabel totalLabel true array) as (sum & rows & Hr & Hs & Hv & Hl).
  { apply Forall_forall. intros i (v & -> & _)%list_elem_of_fmap. done. }
  assert (Ha : sum_of ti_value array = at_time time_key quota_of data time).
  { unfold array. rewrite sum_of_map. apply line_time_sum. }
  exists rows. rewrite Hr, Hv, Ha. split_and!; [|done|by apply Hl]. do 2 f_equal. rewrite Hs.
  rewrite (fold_time_sum (at_time time_key quota_of data time)); [|rewrite tooltip_order_perm|by left].
  - case_decide as E; [|done]. assert (Hnil : array = []).
    { apply Permutation_nil_r. by rewrite <- (tooltip_order_perm otherLabel array), E. }
    rewrite <- Ha, Hnil. done.
  - apply Forall_forall. intros i (v & -> & Hv')%list_elem_of_fmap. cbn [tooltip_item ti_sum]. f_equal.
    by apply (line_time_values time_key perUnit data time v).
Qed.
