(* ===== verification/TierEditor.v ===== *)
(** * The editor of tiered prices

    [web/default/src/features/system-settings/models/tiered-pricing-editor.tsx]: the number fields,
    the cards of tiers and of request rules, the presets, and the editor component itself with the
    effects that keep it and the dialog around it in step.

    The component is a [World]: its own state, the properties its parent passes (the model and the
    two expressions, which the parent stores as the editor reports them), and what React remembers of
    the last run of an effect. [commit] is a rendering followed by its effects: they read the
    rendered state, and what they set is there at the next rendering. An event sets state and is
    followed by renderings until nothing changes ([settle]). [Throw] stands for an exception during
    a rendering or an effect. The cost estimator, the prompt helper and the layout are left out. *)

From S2P Require Import Prelude JsString JsRegex JsNumber Json BillingExpr TierExpr.
Open Scope N_scope.

(** ** Number fields *)

Definition unitCostToPrice (uc : num) : num := f_or uc zero.
Definition priceToUnitCost (price : num) : num := f_or price zero.

Definition formatNumberDraft (value : cond_value) : jstr :=
  match value with
  | VStr s => s
  | VNum x => if is_finite x then num_to_string x else u "0"
  end.

Definition parseNumberDraft (value : jstr) : num :=
  if jeqb (trim value) [] then zero else
  let next := to_number value in
  if is_finite next then next else zero.

Definition isZeroDraft (value : jstr) : bool :=
  negb (jeqb (trim value) []) && feq (parseNumberDraft value) zero.

(** The field's own text and focus; [value] is what its parent holds. *)
Record DraftNumberInput := { draft : jstr; focused : bool }.

Definition draft_open (value : cond_value) : DraftNumberInput :=
  {| draft := formatNumberDraft value; focused := false |}.

(** The effect on the focus and the value. *)
Definition draft_sync (d : DraftNumberInput) (value : cond_value) : DraftNumberInput :=
  if focused d then d else {| draft := formatNumberDraft value; focused := false |}.

(** The handlers, with the number they report. *)
Definition draft_change (d : DraftNumberInput) (nextDraft : jstr) : DraftNumberInput * num :=
  ({| draft := nextDraft; focused := focused d |}, parseNumberDraft nextDraft).

Definition draft_focus (d : DraftNumberInput) : DraftNumberInput := {| draft := draft d; focused := true |}.

Definition draft_blur (d : DraftNumberInput) : DraftNumberInput * num :=
  let normalized := parseNumberDraft (draft d) in
  ({| draft := num_to_string normalized; focused := false |}, normalized).

(** ** The card of a tier *)

(** [conditions.filter((_, i) => i !== index)] *)
Definition remove_at {A} (index : nat) (l : list A) : list A := take index l ++ drop (S index) l.

Definition set_label (label : jstr) (t : VisualTier) : VisualTier :=
  {| vt_label := label; vt_conditions := vt_conditions t; input_unit_cost := input_unit_cost t;
     output_unit_cost := output_unit_cost t; cache_mode := cache_mode t; unit_costs := unit_costs t |}.

Definition set_conditions (cs : list TierConditionInput) (t : VisualTier) : VisualTier :=
  {| vt_label := vt_label t; vt_conditions := cs; input_unit_cost := input_unit_cost t;
     output_unit_cost := output_unit_cost t; cache_mode := cache_mode t; unit_costs := unit_costs t |}.

Definition tier_condition_change (index : nat) (next : TierConditionInput) (t : VisualTier) : VisualTier :=
  set_conditions (<[index := next]> (vt_conditions t)) t.

Definition tier_condition_remove (index : nat) (t : VisualTier) : VisualTier :=
  set_conditions (remove_at index (vt_conditions t)) t.

(** The row of a condition. *)
Inductive condition_edit := SetVar (v : jstr) | SetOp (op : jstr) | SetValue (value : num).

Definition condition_row (e : condition_edit) (c : TierConditionInput) : TierConditionInput :=
  match e with
  | SetVar v => {| ci_var := v; ci_op := ci_op c; ci_value := ci_value c |}
  | SetOp op => {| ci_var := ci_var c; ci_op := op; ci_value := ci_value c |}
  | SetValue value => {| ci_var := ci_var c; ci_op := ci_op c; ci_value := VNum value |}
  end.

(** The prices: input, output, and the others by the name of their field. *)
Definition handlePriceChange (field : jstr) (value : num) (t : VisualTier) : VisualTier :=
  let is_input := jeqb field (u "input_unit_cost") in
  let is_output := jeqb field (u "output_unit_cost") in
  {| vt_label := vt_label t; vt_conditions := vt_conditions t;
     input_unit_cost := if is_input then value else input_unit_cost t;
     output_unit_cost := if is_output then value else output_unit_cost t;
     cache_mode := cache_mode t;
     unit_costs := if is_input || is_output then unit_costs t else obj_set field value (unit_costs t) |}.

Definition price_change (field : jstr) (value : num) (t : VisualTier) : VisualTier :=
  handlePriceChange field (priceToUnitCost value) t.

Definition handleCacheModeChange (mode : CacheMode) (t : VisualTier) : VisualTier :=
  let k := u "cache_create_1h_unit_cost" in
  let cost := match mode with CACHE_MODE_TIMED => option_or (obj_get k (unit_costs t)) zero | CACHE_MODE_GENERIC => zero end in
  {| vt_label := vt_label t; vt_conditions := vt_conditions t; input_unit_cost := input_unit_cost t;
     output_unit_cost := output_unit_cost t; cache_mode := mode; unit_costs := obj_set k cost (unit_costs t) |}.

(** ** The list of tiers *)

Definition shown_config (visualConfig : option (list VisualTier)) : list VisualTier :=
  normalizeVisualConfig (option_or visualConfig []).

Definition handleTierChange (config : list VisualTier) (index : nat) (next : VisualTier) : list VisualTier :=
  <[index := normalizeVisualTier (partial_tier next)]> config.

Definition default_bound (var : jstr) : TierConditionInput :=
  {| ci_var := var; ci_op := u "<"; ci_value := VNum (num_of_Z 200000) |}.

Definition new_tier (n : nat) : VisualTier :=
  normalizeVisualTier {| p_label := Some (u "tier_" ++ string_of_N (N.of_nat n)); p_conditions := Some [];
                         p_input := Some zero; p_output := Some zero; p_mode := None; p_costs := [] |}.

(** The last tier gets a bound when it has no condition. *)
Definition bound_last (tiers : list VisualTier) : list VisualTier :=
  match last tiers with
  | Some t =>
      match vt_conditions t with
      | [] => take (length tiers - 1) tiers
              ++ [normalizeVisualTier (partial_tier (set_conditions [default_bound (u "len")] t))]
      | _ => tiers
      end
  | None => tiers
  end.

Definition handleAddTier (config : list VisualTier) : list VisualTier :=
  bound_last config ++ [new_tier (length config + 1)].

Definition handleRemoveTier (config : list VisualTier) (index : nat) : list VisualTier :=
  match remove_at index config with [] => config | tiers => tiers end.

Definition handleAddCondition (config : list VisualTier) (index : nat) : list VisualTier :=
  match config !! index with
  | Some tier =>
      if (2 <=? length (vt_conditions tier))%nat then config else
      let nextVar := if bool_decide (u "len" ∈ map ci_var (vt_conditions tier)) then u "c" else u "len" in
      <[index := set_conditions (vt_conditions tier ++ [default_bound nextVar]) tier]> config
  | None => config
  end.

(** What the user does in the visual editor: a card reports its changed tier. *)
Inductive card_edit :=
| EditLabel (label : jstr)
| EditCondition (index : nat) (e : condition_edit)
| RemoveCondition (index : nat)
| EditPrice (field : jstr) (value : num)
| EditCacheMode (mode : CacheMode).

Definition edit_card (e : card_edit) (t : VisualTier) : VisualTier :=
  match e with
  | EditLabel label => set_label label t
  | EditCondition i ce =>
      match vt_conditions t !! i with Some c => tier_condition_change i (condition_row ce c) t | None => t end
  | RemoveCondition i => tier_condition_remove i t
  | EditPrice field value => price_change field value t
  | EditCacheMode mode => handleCacheModeChange mode t
  end.

Inductive visual_edit :=
| EditTier (index : nat) (e : card_edit)
| AddTier
| RemoveTier (index : nat)
| AddCondition (index : nat).

(** [None] where the editor has no such card, or its button is disabled. *)
Definition visual_change (visualConfig : option (list VisualTier)) (e : visual_edit) : option (list VisualTier) :=
  let config := shown_config visualConfig in
  match e with
  | EditTier i ce =>
      match config !! i with Some t => Some (handleTierChange config i (edit_card ce t)) | None => None end
  | AddTier => Some (handleAddTier config)
  | RemoveTier i => if (i <? length config)%nat && (1 <? length config)%nat then Some (handleRemoveTier config i) else None
  | AddCondition i =>
      match config !! i with
      | Some t => if (2 <=? length (vt_conditions t))%nat then None else Some (handleAddCondition config i)
      | None => None
      end
  end.

(** ** The cards of the request rules *)

Inductive rule_edit :=
| RuleSource (source : jstr)
| RuleMode (mode : jstr)
| RuleTimeFunc (f : jstr)
| RuleTimezone (tz : jstr)
| RuleRangeStart (value : num)
| RuleRangeEnd (value : num)
| RuleTimeValue (value : num)
| RulePath (p : jstr)
| RuleValue (v : jstr).

Definition handleSourceChange (source : jstr) (c : RequestCondition) : RequestCondition :=
  if jeqb source SOURCE_TIME then CTime createEmptyTimeCondition
  else if jeqb source SOURCE_HEADER then CParamHeader {| ph_src := SHeader; path := []; ph_mode := MATCH_EQ; ph_value := [] |}
  else if jeqb source SOURCE_PARAM then CParamHeader createEmptyCondition
  else c.

(** The fields of the row that is shown; the fields of the other kind are not there. *)
Definition rule_row (e : rule_edit) (c : RequestCondition) : RequestCondition :=
  match e, c with
  | RuleSource source, _ => handleSourceChange source c
  | RuleMode mode, CTime t =>
      CTime {| timeFunc := timeFunc t; timezone := timezone t; t_mode := mode; t_value := t_value t;
               rangeStart := rangeStart t; rangeEnd := rangeEnd t |}
  | RuleMode mode, CParamHeader p => CParamHeader {| ph_src := ph_src p; path := path p; ph_mode := mode; ph_value := ph_value p |}
  | RuleTimeFunc f, CTime t =>
      CTime {| timeFunc := f; timezone := timezone t; t_mode := t_mode t; t_value := t_value t;
               rangeStart := rangeStart t; rangeEnd := rangeEnd t |}
  | RuleTimezone tz, CTime t =>
      CTime {| timeFunc := timeFunc t; timezone := tz; t_mode := t_mode t; t_value := t_value t;
               rangeStart := rangeStart t; rangeEnd := rangeEnd t |}
  | RuleRangeStart value, CTime t =>
      CTime {| timeFunc := timeFunc t; timezone := timezone t; t_mode := t_mode t; t_value := t_value t;
               rangeStart := num_to_string value; rangeEnd := rangeEnd t |}
  | RuleRangeEnd value, CTime t =>
      CTime {| timeFunc := timeFunc t; timezone := timezone t; t_mode := t_mode t; t_value := t_value t;
               rangeStart := rangeStart t; rangeEnd := num_to_string value |}
  | RuleTimeValue value, CTime t =>
      CTime {| timeFunc := timeFunc t; timezone := timezone t; t_mode := t_mode t; t_value := num_to_string value;
               rangeStart := rangeStart t; rangeEnd := rangeEnd t |}
  | RulePath p', CParamHeader p => CParamHeader {| ph_src := ph_src p; path := p'; ph_mode := ph_mode p; ph_value := ph_value p |}
  | RuleValue v, CParamHeader p => CParamHeader {| ph_src := ph_src p; path := path p; ph_mode := ph_mode p; ph_value := v |}
  | _, _ => c
  end.

Inductive group_edit :=
| GroupCondition (index : nat) (e : rule_edit)
| GroupRemove (index : nat)
| GroupAdd (timeMode : bool)
| GroupMultiplier (value : num).

Definition edit_group (e : group_edit) (g : RequestRuleGroup) : RequestRuleGroup :=
  match e with
  | GroupCondition i ce =>
      match conditions g !! i with
      | Some c => {| conditions := <[i := rule_row ce c]> (conditions g); multiplier := multiplier g |}
      | None => g
      end
  | GroupRemove i => {| conditions := remove_at i (conditions g); multiplier := multiplier g |}
  | GroupAdd timeMode =>
      {| conditions := conditions g ++ [if timeMode then CTime createEmptyTimeCondition else CParamHeader createEmptyCondition];
         multiplier := multiplier g |}
  | GroupMultiplier value => {| conditions := conditions g; multiplier := num_to_string value |}
  end.

Inductive rules_edit :=
| EditGroup (index : nat) (e : group_edit)
| RemoveGroup (index : nat)
| AddGroup
| AddTimeGroup.

Definition rules_change (requestRuleGroups : list RequestRuleGroup) (e : rules_edit) : list RequestRuleGroup :=
  match e with
  | EditGroup i ge =>
      match requestRuleGroups !! i with Some g => <[i := edit_group ge g]> requestRuleGroups | None => requestRuleGroups end
  | RemoveGroup i => remove_at i requestRuleGroups
  | AddGroup => requestRuleGroups ++ [createEmptyRuleGroup]
  | AddTimeGroup => requestRuleGroups ++ [createEmptyTimeRuleGroup]
  end.

(** ** Presets *)

Record Preset := { preset_key : jstr; preset_label : jstr; preset_expr : jstr; requestRules : list RequestRuleGroup }.

Record PresetGroup := { preset_group : jstr; presets : list Preset }.

Definition plain_preset (key label expr : jstr) : Preset :=
  {| preset_key := key; preset_label := label; preset_expr := expr; requestRules := [] |}.

Definition one_rule (c : RequestCondition) (m : jstr) : RequestRuleGroup := {| conditions := [c]; multiplier := m |}.

Definition time_rule (f mode value start end_ : jstr) : RequestCondition :=
  CTime {| timeFunc := f; timezone := u "Asia/Shanghai"; t_mode := mode; t_value := value; rangeStart := start; rangeEnd := end_ |}.

Definition PRESET_GROUPS : list PresetGroup := [
  {| preset_group := u "Fixed price"; presets := [
       plain_preset (u "flat") (u "Flat") (u "tier(`base`, p * 2 + c * 4)");
       plain_preset (u "claude-opus") (u "Claude Opus 4.6") (u "tier(`base`, p * 5 + c * 25 + cr * 0.5 + cc * 6.25 + cc1h * 10)");
       plain_preset (u "gpt-5.4") (u "GPT-5.4")
         (u "len <= 272000 ? tier(`standard`, p * 2.5 + c * 15 + cr * 0.25) : tier(`long_context`, p * 5 + c * 22.5 + cr * 0.5)")] |};
  {| preset_group := u "Tiered"; presets := [
       plain_preset (u "claude-sonnet") (u "Claude Sonnet 4.5")
         (u "len <= 200000 ? tier(`standard`, p * 3 + c * 15 + cr * 0.3 + cc * 3.75 + cc1h * 6) : tier(`long_context`, p * 6 + c * 22.5 + cr * 0.6 + cc * 7.5 + cc1h * 12)");
       plain_preset (u "qwen3-max") (u "Qwen3 Max")
         (u "len <= 32000 ? tier(`short`, p * 1.2 + c * 6 + cr * 0.24 + cc * 1.5) : len <= 128000 ? tier(`mid`, p * 2.4 + c * 12 + cr * 0.48 + cc * 3) : tier(`long`, p * 3 + c * 15 + cr * 0.6 + cc * 3.75)");
       plain_preset (u "glm-4.5-air") (u "GLM-4.5 Air")
         (u "len < 32000 && c < 200 ? tier(`short_output`, p * 0.8 + c * 2 + cr * 0.16) : len < 32000 && c >= 200 ? tier(`long_output`, p * 0.8 + c * 6 + cr * 0.16) : tier(`mid_context`, p * 1.2 + c * 8 + cr * 0.24)");
       plain_preset (u "doubao-seed-1.8") (u "Doubao Seed 1.8")
         (u "len <= 32000 && c <= 200 ? tier(`discount`, p * 0.8 + c * 2 + cr * 0.16 + cc * 0.17) : len <= 32000 ? tier(`short`, p * 0.8 + c * 8 + cr * 0.16 + cc * 0.17) : len <= 128000 ? tier(`mid`, p * 1.2 + c * 16 + cr * 0.16 + cc * 0.17) : tier(`long`, p * 2.4 + c * 24 + cr * 0.16 + cc * 0.17)")] |};
  {| preset_group := u "Multimodal"; presets := [
       plain_preset (u "gpt-image-1-mini") (u "GPT Image 1 Mini") (u "tier(`base`, p * 2 + c * 8 + img * 2.5)");
       plain_preset (u "gemini-2.5-flash") (u "Gemini 2.5 Flash") (u "tier(`base`, p * 0.3 + c * 2.5 + cr * 0.03 + ai * 1.0)");
       plain_preset (u "gemini-3-pro-image") (u "Gemini 3 Pro Image") (u "tier(`base`, p * 2 + c * 12 + img_o * 120)");
       plain_preset (u "qwen3-omni-flash") (u "Qwen3 Omni Flash") (u "tier(`base`, p * 0.43 + c * 3.06 + img * 0.78 + ai * 3.81 + ao * 15.11)")] |};
  {| preset_group := u "Request rule"; presets := [
       {| preset_key := u "claude-opus-fast"; preset_label := u "Claude Opus 4.6 Fast";
          preset_expr := u "tier(`base`, p * 5 + c * 25 + cr * 0.5 + cc * 6.25 + cc1h * 10)";
          requestRules := [one_rule (ph_cond SHeader (u "anthropic-beta") MATCH_CONTAINS (u "fast-mode-2026-02-01")) (u "6")] |};
       {| preset_key := u "gpt-5.4-tiers"; preset_label := u "GPT-5.4 Priority/Flex";
          preset_expr := u "len <= 272000 ? tier(`standard`, p * 2.5 + c * 15 + cr * 0.25) : tier(`long_context`, p * 5 + c * 22.5 + cr * 0.5)";
          requestRules := [one_rule (ph_cond SParam (u "service_tier") MATCH_EQ (u "priority")) (u "2");
                           one_rule (ph_cond SParam (u "service_tier") MATCH_EQ (u "flex")) (u "0.5")] |}] |};
  {| preset_group := u "Time-based"; presets := [
       {| preset_key := u "night-discount"; preset_label := u "Night discount (50%)";
          preset_expr := u "tier(`base`, p * 3 + c * 15)";
          requestRules := [one_rule (time_rule (u "hour") MATCH_RANGE [] (u "21") (u "6")) (u "0.5")] |};
       {| preset_key := u "weekend-discount"; preset_label := u "Weekend discount (80%)";
          preset_expr := u "tier(`base`, p * 3 + c * 15)";
          requestRules := [one_rule (time_rule (u "weekday") MATCH_EQ (u "0") [] []) (u "0.8");
                           one_rule (time_rule (u "weekday") MATCH_EQ (u "6") [] []) (u "0.8")] |}] |}
].

(** The groups shown: two, or all when expanded. *)
Definition visible_presets (expanded : bool) : list PresetGroup :=
  if expanded then PRESET_GROUPS else take 2 PRESET_GROUPS.

(** ** The editor *)

Inductive EditorMode := Visual | Raw.

(** [seenProps] and [seenModel] are the dependencies of the last run of the first two effects. *)
Record Editor := {
  editorMode : EditorMode;
  visualConfig : option (list VisualTier);
  rawExpr : jstr;
  requestRuleGroups : list RequestRuleGroup;
  initRef : bool;
  seenProps : option (jstr * jstr);
  seenModel : option (option jstr);
}.

Record Props := { modelName : option jstr; currentExpr : jstr; currentRequestRuleExpr : jstr }.

Record World := { editor : Editor; props : Props }.

Definition generate (c : option (list VisualTier)) : jstr := generateExprFromVisualConfig (option_or c []).

(** [tryParseRequestRuleExpr(expr) || \[\]] *)
Definition read_groups (expr : jstr) : outcome (list RequestRuleGroup) :=
  bind! parsed := tryParseRequestRuleExpr expr in Ret (option_or parsed []).

(** The initial state. *)
Definition mount (p : Props) : outcome World :=
  bind! groups := read_groups (currentRequestRuleExpr p) in
  Ret {| editor := {| editorMode := Visual; visualConfig := tryParseVisualConfig (Some (currentExpr p));
                      rawExpr := combineBillingExpr (currentExpr p) (currentRequestRuleExpr p);
                      requestRuleGroups := groups; initRef := false; seenProps := None; seenModel := None |};
         props := p |}.

(** *** Rendering *)

Definition canUseVisualRules (p : Props) : outcome bool :=
  if negb (truthy (currentRequestRuleExpr p)) then Ret true else
  bind! parsed := tryParseRequestRuleExpr (currentRequestRuleExpr p) in
  Ret match parsed with Some _ => true | None => false end.

Definition effectiveExpr (e : Editor) : outcome jstr :=
  match editorMode e with
  | Visual => Ret (generate (visualConfig e))
  | Raw => bind! s := splitBillingExprAndRequestRules (rawExpr e) in Ret (billingExpr s)
  end.

(** *** Effects *)

Definition with_seen (p : Props) (e : Editor) : Editor :=
  {| editorMode := editorMode e; visualConfig := visualConfig e; rawExpr := rawExpr e;
     requestRuleGroups := requestRuleGroups e; initRef := initRef e;
     seenProps := Some (currentExpr p, currentRequestRuleExpr p); seenModel := seenModel e |}.

(** The state read from the properties. *)
Definition init_from (p : Props) (e : Editor) : outcome Editor :=
  bind! groups := read_groups (currentRequestRuleExpr p) in
  let '(visual, mode) :=
    match tryParseVisualConfig (Some (currentExpr p)) with
    | Some parsedConfig => (Some parsedConfig, Visual)
    | None => if truthy (currentExpr p) then (None, Raw) else (Some createDefaultVisualConfig, editorMode e)
    end in
  Ret {| editorMode := mode; visualConfig := visual;
         rawExpr := combineBillingExpr (currentExpr p) (currentRequestRuleExpr p); requestRuleGroups := groups;
         initRef := true; seenProps := seenProps e; seenModel := seenModel e |}.

Definition init_effect (p : Props) (e : Editor) : outcome Editor :=
  if decide (seenProps e = Some (currentExpr p, currentRequestRuleExpr p)) then Ret e else
  let e := with_seen p e in
  if initRef e then Ret e else init_from p e.

Definition model_effect (p : Props) (e : Editor) : Editor :=
  if decide (seenModel e = Some (modelName p)) then e else
  {| editorMode := editorMode e; visualConfig := visualConfig e; rawExpr := rawExpr e;
     requestRuleGroups := requestRuleGroups e; initRef := false; seenProps := seenProps e; seenModel := Some (modelName p) |}.

(** The two effects that report to the parent; [rendered] is the state that was rendered. *)
Definition report (effective : jstr) (rendered : Editor) (p : Props) : Props :=
  {| modelName := modelName p; currentExpr := effective;
     currentRequestRuleExpr :=
       match editorMode rendered with
       | Visual => buildRequestRuleExpr (requestRuleGroups rendered)
       | Raw => currentRequestRuleExpr p
       end |}.

Definition commit (w : World) : outcome World :=
  bind! _ := canUseVisualRules (props w) in
  bind! effective := effectiveExpr (editor w) in
  bind! e := init_effect (props w) (editor w) in
  Ret {| editor := model_effect (props w) e; props := report effective (editor w) (props w) |}.

Fixpoint settle (fuel : nat) (w : World) : outcome World :=
  match fuel with
  | O => Ret w
  | S n => bind! w' := commit w in settle n w'
  end.

(** *** Events *)

Definition set_state (mode : EditorMode) (visual : option (list VisualTier)) (raw : jstr)
    (groups : list RequestRuleGroup) (e : Editor) : Editor :=
  {| editorMode := mode; visualConfig := visual; rawExpr := raw; requestRuleGroups := groups;
     initRef := initRef e; seenProps := seenProps e; seenModel := seenModel e |}.

(** [onRequestRuleExprChange] *)
Definition set_rules (rules : jstr) (p : Props) : Props :=
  {| modelName := modelName p; currentExpr := currentExpr p; currentRequestRuleExpr := rules |}.

Definition handleVisualChange (next : list VisualTier) (w : World) : World :=
  let e := editor w in
  {| editor := set_state (editorMode e) (Some next) (rawExpr e) (requestRuleGroups e) e; props := props w |}.

Definition handleRuleGroupsChange (next : list RequestRuleGroup) (w : World) : World :=
  let e := editor w in
  {| editor := set_state (editorMode e) (visualConfig e) (rawExpr e) next e; props := props w |}.

Definition handleRawChange (value : jstr) (w : World) : outcome World :=
  let e := editor w in
  bind! s := splitBillingExprAndRequestRules value in
  Ret {| editor := set_state (editorMode e) (visualConfig e) value (requestRuleGroups e) e;
         props := set_rules (requestRuleExpr s) (props w) |}.

Definition handleModeChange (next : EditorMode) (w : World) : outcome World :=
  let e := editor w in
  match next with
  | Visual =>
      bind! s := splitBillingExprAndRequestRules (rawExpr e) in
      let visual := option_or (tryParseVisualConfig (Some (billingExpr s))) createDefaultVisualConfig in
      bind! groups := read_groups (requestRuleExpr s) in
      Ret {| editor := set_state Visual (Some visual) (rawExpr e) groups e; props := set_rules (requestRuleExpr s) (props w) |}
  | Raw =>
      let expr := generate (visualConfig e) in
      let ruleExpr := buildRequestRuleExpr (requestRuleGroups e) in
      let combined := combineBillingExpr expr ruleExpr in
      let raw := if truthy combined then combined else expr in
      Ret {| editor := set_state Raw (visualConfig e) raw (requestRuleGroups e) e; props := props w |}
  end.

Definition applyPreset (preset : Preset) (w : World) : World :=
  let e := editor w in
  let presetGroups := requestRules preset in
  let ruleExpr := buildRequestRuleExpr presetGroups in
  let combined := combineBillingExpr (preset_expr preset) ruleExpr in
  let raw := if truthy combined then combined else preset_expr preset in
  let '(visual, mode) :=
    match tryParseVisualConfig (Some (preset_expr preset)) with
    | Some parsed => (Some parsed, Visual)
    | None => (None, Raw)
    end in
  {| editor := set_state mode visual raw presetGroups e; props := set_rules ruleExpr (props w) |}.
