(* ===== verification/TierEditorFacts.v ===== *)
(** * The editor of tiered prices and the expressions it reports

    The effects of the editor come to rest; opened on expressions it can print, it shows them and
    leaves them as they are, and what is edited is what the dialog holds; the presets are readable;
    an expression that the visual mode cannot read is replaced by zero prices by opening the editor. *)

From S2P Require Import Prelude JsString JsRegex JsNumber Json BillingExpr BillingRules TierExpr TierFacts TierEditor.
Open Scope N_scope.

(** ** Coming to rest *)

(** The state the effects read. *)
Definition same_core (a b : Editor) : Prop :=
  editorMode a = editorMode b /\ visualConfig a = visualConfig b /\ rawExpr a = rawExpr b /\
  requestRuleGroups a = requestRuleGroups b.

Lemma same_core_effective a b : same_core a b -> effectiveExpr a = effectiveExpr b.
Proof. intros (H1 & H2 & H3 & _). unfold effectiveExpr. by rewrite H1, H2, H3. Qed.

(** The parts of a rendering that went through. *)
Lemma commit_inv w w' :
  commit w = Ret w' ->
  exists eff e,
    effectiveExpr (editor w) = Ret eff /\ init_effect (props w) (editor w) = Ret e /\
    w' = {| editor := model_effect (props w) e; props := report eff (editor w) (props w) |}.
Proof.
  unfold commit. destruct (canUseVisualRules (props w)); cbn [obind]; [|done].
  destruct (effectiveExpr (editor w)) as [eff|]; cbn [obind]; [|done].
  destruct (init_effect (props w) (editor w)) as [e|]; cbn [obind]; [|done]. intros [= <-]. by exists eff, e.
Qed.

(** After [n] renderings nothing changes any more, unless one of them threw. *)
Definition rests (n : nat) (w : World) : Prop := forall w', settle n w = Ret w' -> commit w' = Ret w'.

Lemma settle_fixed n w : commit w = Ret w -> settle n w = Ret w.
Proof. intros H. induction n as [|n IH]; [done|]. cbn [settle]. by rewrite H. Qed.

Lemma rests_step n w : (forall w1, commit w = Ret w1 -> rests n w1) -> rests (S n) w.
Proof. intros H w'. cbn [settle]. destruct (commit w) as [w1|]; [|done]. by apply H. Qed.

Lemma rests_fixed n w : commit w = Ret w -> rests n w.
Proof. intros H w'. rewrite settle_fixed by done. by intros [= <-]. Qed.

(** *** An initialised editor *)

Definition initialised (w : World) : Prop :=
  initRef (editor w) = true /\ seenModel (editor w) = Some (modelName (props w)).

Lemma report_same a b eff p : same_core a b -> report eff b (report eff a p) = report eff a p.
Proof. intros (H1 & _ & _ & H4). unfold report. cbn [modelName currentExpr currentRequestRuleExpr]. rewrite <- H1, <- H4. by destruct (editorMode a). Qed.

(** Its effects only report. *)
Lemma commit_initialised w w' :
  initialised w -> commit w = Ret w' ->
  same_core (editor w) (editor w') /\ initialised w' /\
  seenProps (editor w') = Some (currentExpr (props w), currentRequestRuleExpr (props w)) /\
  exists eff, effectiveExpr (editor w) = Ret eff /\ props w' = report eff (editor w) (props w).
Proof.
  intros [Hi Hm] (eff & e & He & Hinit & ->)%commit_inv. cbn [editor props].
  unfold init_effect in Hinit. rewrite decide_bool_decide in Hinit.
  destruct (decide (seenProps (editor w) = Some (currentExpr (props w), currentRequestRuleExpr (props w)))) as [Hs|Hs].
  - rewrite bool_decide_true in Hinit by done. injection Hinit as <-. unfold model_effect. rewrite decide_True by done.
    split_and!; [done..|by exists eff].
  - rewrite bool_decide_false in Hinit by done. cbn [with_seen initRef] in Hinit. rewrite Hi in Hinit.
    injection Hinit as <-. unfold model_effect. rewrite decide_True by done. split_and!; [done..|by exists eff].
Qed.

Lemma commit_still w :
  seenProps (editor w) = Some (currentExpr (props w), currentRequestRuleExpr (props w)) ->
  seenModel (editor w) = Some (modelName (props w)) ->
  (exists b, canUseVisualRules (props w) = Ret b) ->
  (exists eff, effectiveExpr (editor w) = Ret eff /\ props w = report eff (editor w) (props w)) ->
  commit w = Ret w.
Proof.
  intros Hs Hm [b Hb] (eff & He & Hp). unfold commit. rewrite Hb, He. cbn [obind]. unfold init_effect.
  rewrite decide_True by done. cbn [obind]. unfold model_effect. rewrite decide_True by done. rewrite <- Hp. by destruct w.
Qed.

Lemma commit_can_use w w' : commit w = Ret w' -> exists b, canUseVisualRules (props w) = Ret b.
Proof. unfold commit. destruct (canUseVisualRules (props w)) as [b|]; [by exists b|done]. Qed.

Lemma initialised_rests w : initialised w -> rests 2 w.
Proof.
  intros H0. apply rests_step. intros w1 C1. apply rests_step. intros w2 C2. intros w' [= <-].
  destruct (commit_initialised w w1 H0 C1) as (S1 & H1 & P1 & eff & E1 & R1).
  destruct (commit_initialised w1 w2 H1 C2) as (S2 & H2 & P2 & eff' & E2 & R2).
  rewrite <- (same_core_effective _ _ S1), E1 in E2. injection E2 as <-.
  assert (R : props w2 = props w1) by (rewrite R2, R1; by apply report_same).
  apply commit_still; [by rewrite P2, R|apply H2|rewrite R; by apply (commit_can_use w1 w2)|].
  exists eff. rewrite <- (same_core_effective _ _ S2), <- (same_core_effective _ _ S1). split; [done|].
  rewrite R, R1. symmetry. apply report_same. destruct S1 as (? & ? & ? & ?), S2 as (? & ? & ? & ?).
  unfold same_core. split_and!; congruence.
Qed.

Lemma settle_app n k w : settle (n + k) w = obind (settle n w) (settle k).
Proof. revert w. induction n as [|n IH]; intros w; [done|]. cbn [settle Nat.add]. by destruct (commit w) as [w1|]; cbn [obind]. Qed.

Lemma rests_more n k w : rests n w -> rests (n + k) w.
Proof.
  intros H w'. rewrite settle_app. destruct (settle n w) as [w1|] eqn:E; [|done]. cbn [obind].
  pose proof (H w1 E) as Hf. rewrite settle_fixed by done. by intros [= <-].
Qed.

(** *** An editor of a known model *)

Lemma commit_knows w w' : commit w = Ret w' -> seenModel (editor w') = Some (modelName (props w')).
Proof.
  intros (eff & e & _ & _ & ->)%commit_inv. cbn [editor props report modelName]. unfold model_effect.
  by destruct (decide (seenModel e = Some (modelName (props w)))).
Qed.

(** Either nothing was new to it, or it is initialised now. *)
Lemma commit_known w w' :
  seenModel (editor w) = Some (modelName (props w)) -> commit w = Ret w' ->
  initialised w' \/
  (editor w' = editor w /\ exists eff, effectiveExpr (editor w) = Ret eff /\ props w' = report eff (editor w) (props w)).
Proof.
  intros Hm (eff & e & He & Hinit & ->)%commit_inv. unfold init_effect in Hinit.
  destruct (decide (seenProps (editor w) = Some (currentExpr (props w), currentRequestRuleExpr (props w)))) as [Hs|Hs].
  - injection Hinit as <-. right. cbn [editor props]. unfold model_effect. rewrite decide_True by done. split; [done|by exists eff].
  - left. unfold initialised. cbn [editor props report modelName].
    assert (Hk : initRef e = true /\ seenModel e = Some (modelName (props w))).
    { cbn [with_seen initRef] in Hinit. destruct (initRef (editor w)) eqn:Hi; [injection Hinit as <-; by split|].
      unfold init_from in Hinit. destruct (read_groups (currentRequestRuleExpr (props w))) as [groups|]; [|done].
      cbn [obind] in Hinit. destruct (match tryParseVisualConfig _ with Some _ => _ | None => _ end) as [visual mode].
      injection Hinit as <-. by split. }
    unfold model_effect. rewrite decide_True by apply Hk. exact Hk.
Qed.

(** *** Exceptions *)

(** Some text of a rule makes the reader throw. *)
Definition reader_throws : Prop := exists text, tryParseRequestRuleExpr text = Throw.

Lemma obind_throw {A B} (c : outcome A) (k : A -> outcome B) (P : Prop) :
  obind c k = Throw -> (c = Throw -> P) -> (forall a, c = Ret a -> k a = Throw -> P) -> P.
Proof. destruct c as [a|]; cbn [obind]; eauto. Qed.

Lemma read_groups_throw expr : read_groups expr = Throw -> reader_throws.
Proof. intros H. apply (obind_throw _ _ _ H); [by exists expr|done]. Qed.

Lemma classify_throw parts : classify_parts parts = Throw -> reader_throws.
Proof.
  induction parts as [|part t IH]; [done|]. cbn [classify_parts]. intros H. apply (obind_throw _ _ _ H); [by exists part|].
  intros parsed _ H1. apply (obind_throw _ _ _ H1); [done|]. intros rest _. by destruct parsed as [[|]|].
Qed.

Lemma split_throw expr : splitBillingExprAndRequestRules expr = Throw -> reader_throws.
Proof.
  unfold splitBillingExprAndRequestRules. destruct (negb _); [done|]. destruct (_ <=? _)%nat; [done|]. intros H.
  apply (obind_throw _ _ _ H); [apply classify_throw|]. intros [rules base] _. by destruct rules as [|r rs], base as [|b [|b' bs]].
Qed.

Lemma commit_throw w : commit w = Throw -> reader_throws.
Proof.
  unfold commit. intros H. apply (obind_throw _ _ _ H).
  - unfold canUseVisualRules. destruct (negb _); [done|]. intros H1. apply (obind_throw _ _ _ H1); [|done]. by eexists.
  - intros _ _ H1. apply (obind_throw _ _ _ H1).
    + unfold effectiveExpr. destruct (editorMode (editor w)); [done|]. intros H2.
      apply (obind_throw _ _ _ H2); [apply split_throw|done].
    + intros eff _ H2. apply (obind_throw _ _ _ H2); [|done]. unfold init_effect. destruct (decide _); [done|].
      destruct (initRef _); [done|]. unfold init_from. intros H3. apply (obind_throw _ _ _ H3); [apply read_groups_throw|].
      intros groups _. by destruct (match tryParseVisualConfig _ with Some _ => _ | None => _ end).
Qed.

Lemma settle_throw n w : settle n w = Throw -> reader_throws.
Proof.
  revert w. induction n as [|n IH]; intros w; [done|]. cbn [settle]. intros H.
  apply (obind_throw _ _ _ H); [apply commit_throw|]. intros w1 _. apply IH.
Qed.

Lemma all_rest w : rests 5 w.
Proof.
  apply rests_step. intros w1 C1. apply commit_knows in C1 as K1.
  destruct (initRef (editor w1)) eqn:I1; [by apply (rests_more 2 2), initialised_rests|].
  apply rests_step. intros w2 C2. apply commit_knows in C2 as K2.
  destruct (commit_known w1 w2 K1 C2) as [H2|(E2 & eff & F2 & R2)]; [by apply (rests_more 2 1), initialised_rests|].
  apply rests_step. intros w3 C3. destruct (commit_known w2 w3 K2 C3) as [H3|(E3 & eff' & F3 & R3)]; [by apply initialised_rests|].
  assert (w3 = w2) as ->; [|by apply rests_fixed].
  rewrite E2, F2 in F3. injection F3 as <-. destruct w2 as [e2 p2], w3 as [e3 p3]. cbn [editor props] in *. subst e3 e2.
  f_equal. rewrite R3, R2. by apply report_same.
Qed.

(** C9: The effects of the editor come to rest: from every state, whatever the expressions, five renderings
    reach a state that a further rendering leaves as it is, unless the reader of rules throws on some text.
    The reports to the dialog and the reading of what it holds never chase each other. *)
Theorem editor_settles w :
  (exists w', settle 5 w = Ret w' /\ commit w' = Ret w') \/ (settle 5 w = Throw /\ reader_throws).
Proof.
  destruct (settle 5 w) as [w'|] eqn:E; [left; exists w'; split; [done|by apply (all_rest w)]|].
  right. split; [done|by apply (settle_throw 5 w)].
Qed.

(** ** What the editor shows is what the dialog holds *)

(** A configuration and rules that the editor prints and reads back. *)
Definition readable (cfg : list VisualTier) (gs : list RequestRuleGroup) : Prop :=
  canonical_config cfg = true /\ forallb canonical_group gs = true.

(** The visual editor on [cfg] and [gs], with the dialog told. *)
Record shows (w : World) (cfg : list VisualTier) (gs : list RequestRuleGroup) : Prop := {
  shows_mode : editorMode (editor w) = Visual;
  shows_config : visualConfig (editor w) = Some cfg;
  shows_groups : requestRuleGroups (editor w) = gs;
  shows_expr : currentExpr (props w) = generateExprFromVisualConfig cfg;
  shows_rules : currentRequestRuleExpr (props w) = buildRequestRuleExpr gs;
  shows_seen : seenProps (editor w) = Some (currentExpr (props w), currentRequestRuleExpr (props w));
  shows_model : seenModel (editor w) = Some (modelName (props w));
}.

Lemma readable_can_use p gs :
  forallb canonical_group gs = true -> currentRequestRuleExpr p = buildRequestRuleExpr gs -> canUseVisualRules p = Ret true.
Proof. intros Hg Hr. unfold canUseVisualRules. destruct (negb _); [done|]. by rewrite Hr, request_rules_read. Qed.

Lemma visual_effective e cfg :
  editorMode e = Visual -> visualConfig e = Some cfg -> effectiveExpr e = Ret (generateExprFromVisualConfig cfg).
Proof. intros H1 H2. unfold effectiveExpr, generate. by rewrite H1, H2. Qed.

Lemma shows_rest w cfg gs : readable cfg gs -> shows w cfg gs -> commit w = Ret w.
Proof.
  intros [_ Hg] [H1 H2 H3 H4 H5 H6 H7]. apply commit_still; [done|done|by rewrite (readable_can_use _ gs); eauto|].
  exists (generateExprFromVisualConfig cfg). split; [by apply visual_effective|]. unfold report. rewrite H1, H3, <- H4, <- H5.
  by destruct (props w).
Qed.

(** Reading what was printed. *)
Lemma init_from_printed p e cfg gs :
  readable cfg gs -> currentExpr p = generateExprFromVisualConfig cfg -> currentRequestRuleExpr p = buildRequestRuleExpr gs ->
  exists raw, init_from p e = Ret {| editorMode := Visual; visualConfig := Some cfg; rawExpr := raw; requestRuleGroups := gs;
                                     initRef := true; seenProps := seenProps e; seenModel := seenModel e |}.
Proof.
  intros [Hc Hg] He Hr. unfold init_from, read_groups. rewrite Hr, request_rules_read, He, visual_config_read by done.
  cbn [obind option_or]. by eexists.
Qed.

(** An editor that shows what the dialog holds, before the effects have seen it. *)
Record pending (w : World) (cfg : list VisualTier) (gs : list RequestRuleGroup) : Prop := {
  pending_mode : editorMode (editor w) = Visual;
  pending_config : visualConfig (editor w) = Some cfg;
  pending_groups : requestRuleGroups (editor w) = gs;
  pending_expr : currentExpr (props w) = generateExprFromVisualConfig cfg;
  pending_rules : currentRequestRuleExpr (props w) = buildRequestRuleExpr gs;
}.

Lemma pending_commit w cfg gs :
  readable cfg gs -> pending w cfg gs -> exists w', commit w = Ret w' /\ shows w' cfg gs /\
    (seenModel (editor w) = Some (modelName (props w)) -> initRef (editor w) = true -> initRef (editor w') = true).
Proof.
  intros Hr [H1 H2 H3 H4 H5]. unfold commit.
  rewrite (readable_can_use _ gs), (visual_effective _ cfg) by (done || apply Hr). cbn [obind].
  assert (Hp : report (generateExprFromVisualConfig cfg) (editor w) (props w) = props w).
  { unfold report. rewrite H1, H3, <- H4, <- H5. by destruct (props w). }
  assert (Hi : exists e, init_effect (props w) (editor w) = Ret e /\ editorMode e = Visual /\ visualConfig e = Some cfg /\
                 requestRuleGroups e = gs /\ seenProps e = Some (currentExpr (props w), currentRequestRuleExpr (props w)) /\
                 (initRef (editor w) = true -> initRef e = true) /\ seenModel e = seenModel (editor w)).
  { unfold init_effect. destruct (decide _) as [Hs|Hs]; [by exists (editor w)|]. cbn [with_seen initRef].
    destruct (initRef (editor w)) eqn:Hi; [by exists (with_seen (props w) (editor w))|].
    destruct (init_from_printed (props w) (with_seen (props w) (editor w)) cfg gs Hr H4 H5) as [raw ->]. by eexists. }
  destruct Hi as (e & -> & E1 & E2 & E3 & E4 & E5 & E6). cbn [obind]. eexists. split; [done|]. rewrite Hp. split.
  - split; cbn [editor props]; unfold model_effect; by destruct (decide (seenModel e = Some (modelName (props w)))).
  - intros Hm Hi. cbn [editor]. unfold model_effect. rewrite decide_True by by rewrite E6. by apply E5.
Qed.

(** An initialised editor tells the dialog what it shows. *)
Lemma reporting_commit w cfg gs :
  initialised w -> editorMode (editor w) = Visual -> visualConfig (editor w) = Some cfg -> requestRuleGroups (editor w) = gs ->
  canUseVisualRules (props w) = Ret true ->
  exists w', commit w = Ret w' /\ pending w' cfg gs.
Proof.
  intros [Hi Hm] H1 H2 H3 Hu. unfold commit. rewrite Hu, (visual_effective _ cfg) by done. cbn [obind].
  unfold init_effect. cbn [with_seen initRef]. rewrite Hi.
  destruct (decide _); cbn [obind]; (eexists; split; [done|]); unfold model_effect; cbn [with_seen seenModel];
    rewrite decide_True by done; split; cbn [editor props report with_seen editorMode visualConfig requestRuleGroups
      currentExpr currentRequestRuleExpr]; rewrite ?H1, ?H2, ?H3; done.
Qed.

(** *** Edits *)

(** What the user does in the visual mode. *)
Inductive edit := OnTiers (e : visual_edit) | OnRules (e : rules_edit).

Definition handle_edit (e : edit) (w : World) : World :=
  match e with
  | OnTiers ve => match visual_change (visualConfig (editor w)) ve with Some next => handleVisualChange next w | None => w end
  | OnRules re => handleRuleGroupsChange (rules_change (requestRuleGroups (editor w)) re) w
  end.

Fixpoint run_edits (es : list edit) (w : World) : outcome World :=
  match es with
  | [] => Ret w
  | e :: t => bind! w' := settle 5 (handle_edit e w) in run_edits t w'
  end.

(** Opening the editor and working in it. *)
Definition session (p : Props) (es : list edit) : outcome World :=
  bind! w := mount p in bind! w' := settle 5 w in run_edits es w'.

(** The specification: a configuration and rules, edited directly. *)
Definition spec_edit (s : list VisualTier * list RequestRuleGroup) (e : edit) : list VisualTier * list RequestRuleGroup :=
  match e with
  | OnTiers ve => (option_or (visual_change (Some s.1) ve) s.1, s.2)
  | OnRules re => (s.1, rules_change s.2 re)
  end.

(** Every state on the way is printed and read back. *)
Fixpoint readable_way (s : list VisualTier * list RequestRuleGroup) (es : list edit) : Prop :=
  match es with
  | [] => readable s.1 s.2
  | e :: t => readable s.1 s.2 /\ readable_way (spec_edit s e) t
  end.

Lemma readable_way_here s es : readable_way s es -> readable s.1 s.2.
Proof. destruct es; [done|by intros [? _]]. Qed.

(** One rendering reports the edited state. *)
Lemma edited_commit w cfg gs cfg' gs' :
  readable cfg gs -> shows w cfg gs ->
  let w' := {| editor := set_state Visual (Some cfg') (rawExpr (editor w)) gs' (editor w); props := props w |} in
  exists w1, commit w' = Ret w1 /\ pending w1 cfg' gs' /\ seenModel (editor w1) = Some (modelName (props w1)) /\
             initRef (editor w1) = initRef (editor w).
Proof.
  intros Hr [H1 H2 H3 H4 H5 H6 H7] w'. unfold commit, w'. cbn [editor props].
  rewrite (readable_can_use _ gs), (visual_effective _ cfg') by (done || apply Hr). cbn [obind].
  unfold init_effect. cbn [set_state seenProps]. rewrite decide_True by done. cbn [obind].
  unfold model_effect. cbn [set_state seenModel]. rewrite decide_True by done. eexists. split; [done|].
  split; [|done]. split; done.
Qed.

Lemma edited_settles w cfg gs cfg' gs' :
  readable cfg gs -> shows w cfg gs -> readable cfg' gs' ->
  exists w', settle 5 {| editor := set_state Visual (Some cfg') (rawExpr (editor w)) gs' (editor w); props := props w |} = Ret w' /\
             shows w' cfg' gs'.
Proof.
  intros Hr Hs Hr'. destruct (edited_commit w cfg gs cfg' gs' Hr Hs) as (w1 & C1 & P1 & _).
  destruct (pending_commit w1 cfg' gs' Hr' P1) as (w2 & C2 & S2 & _).
  exists w2. split; [|done]. cbn [settle]. rewrite C1. cbn [obind]. rewrite C2. cbn [obind].
  apply (settle_fixed 3 w2), (shows_rest w2 cfg' gs' Hr' S2).
Qed.

(** Setting what is there already. *)
Lemma shows_state w cfg gs :
  shows w cfg gs -> w = {| editor := set_state Visual (Some cfg) (rawExpr (editor w)) gs (editor w); props := props w |}.
Proof. intros [H1 H2 H3 _ _ _ _]. destruct w as [[m v r g i sp sm] p]. cbn in *. by subst. Qed.

Lemma handle_edit_shows w cfg gs e :
  shows w cfg gs ->
  handle_edit e w = {| editor := set_state Visual (Some (spec_edit (cfg, gs) e).1) (rawExpr (editor w)) (spec_edit (cfg, gs) e).2 (editor w);
                       props := props w |}.
Proof.
  intros Hs. destruct Hs as [H1 H2 H3 H4 H5 H6 H7] eqn:E. destruct e as [ve|re]; cbn [handle_edit spec_edit fst snd].
  - rewrite H2. destruct (visual_change (Some cfg) ve) as [next|]; cbn [option_or].
    + unfold handleVisualChange. by rewrite H1, H3.
    + by apply shows_state.
  - unfold handleRuleGroupsChange. by rewrite H1, H2, H3.
Qed.

Lemma run_edits_shows es w cfg gs :
  shows w cfg gs -> readable_way (cfg, gs) es ->
  let s := fold_left spec_edit es (cfg, gs) in
  exists w', run_edits es w = Ret w' /\ shows w' s.1 s.2.
Proof.
  revert w cfg gs. induction es as [|e es IH]; intros w cfg gs Hs Hw; [by exists w|]. destruct Hw as [Hr Hw].
  cbn [run_edits fold_left]. rewrite (handle_edit_shows w cfg gs) by done.
  destruct (edited_settles w cfg gs (spec_edit (cfg, gs) e).1 (spec_edit (cfg, gs) e).2) as (w1 & -> & S1);
    [done|done|by eapply readable_way_here|]. cbn [obind].
  destruct (IH w1 _ _ S1) as (w' & H1 & H2); [by destruct (spec_edit (cfg, gs) e)|]. exists w'.
  rewrite <- surjective_pairing in H2. done.
Qed.

Lemma opened m cfg gs :
  readable cfg gs ->
  let p := {| modelName := m; currentExpr := generateExprFromVisualConfig cfg; currentRequestRuleExpr := buildRequestRuleExpr gs |} in
  exists w w', mount p = Ret w /\ settle 5 w = Ret w' /\ shows w' cfg gs /\ initRef (editor w') = false.
Proof.
  intros Hr p. unfold mount, read_groups. cbn [p currentRequestRuleExpr currentExpr].
  rewrite request_rules_read, visual_config_read by apply Hr. cbn [obind option_or].
  match goal with |- exists w w', Ret ?x = Ret w /\ _ => set (w := x); exists w end.
  destruct (init_from_printed p (with_seen p (editor w)) cfg gs Hr eq_refl eq_refl) as [raw Hi].
  eassert (C : commit w = Ret _).
  { unfold commit. cbn [props w]. rewrite (readable_can_use _ gs) by (done || apply Hr).
    rewrite (visual_effective _ cfg) by done. cbn [obind]. unfold init_effect. rewrite decide_False by done.
    change (initRef (with_seen p (editor w))) with false. cbv beta iota zeta. rewrite Hi. cbn [obind]. reflexivity. }
  match type of C with _ = Ret ?x => assert (S1 : shows x cfg gs) by (split; reflexivity); exists x end.
  split; [done|]. split; [|by split]. cbn [settle]. rewrite C. cbn [obind].
  apply (settle_fixed 4), (shows_rest _ cfg gs Hr S1).
Qed.

(** C1: The editor implements the direct editing of a configuration and its rules: opened on the expressions of
    a readable configuration and readable rules, it shows them, and after any sequence of edits of tiers,
    conditions, prices and rules through readable states it shows the edited configuration and rules and the
    dialog holds exactly their expressions, although the effects read back what they reported. *)
Theorem editor_refines m cfg gs es :
  readable_way (cfg, gs) es ->
  let p := {| modelName := m; currentExpr := generateExprFromVisualConfig cfg; currentRequestRuleExpr := buildRequestRuleExpr gs |} in
  let s := fold_left spec_edit es (cfg, gs) in
  exists w, session p es = Ret w /\ editorMode (editor w) = Visual /\
    visualConfig (editor w) = Some s.1 /\ requestRuleGroups (editor w) = s.2 /\
    currentExpr (props w) = generateExprFromVisualConfig s.1 /\ currentRequestRuleExpr (props w) = buildRequestRuleExpr s.2.
Proof.
  intros Hw p s. destruct (opened m cfg gs (readable_way_here _ _ Hw)) as (w0 & w1 & Hm & Hs & S1 & _).
  destruct (run_edits_shows es w1 cfg gs S1 Hw) as (w & Hrun & [H1 H2 H3 H4 H5 _ _]).
  exists w. split; [|done]. unfold session. fold p in Hm. rewrite Hm. cbn [obind]. rewrite Hs. exact Hrun.
Qed.

(** ** Presets *)

#[local] Instance tier_condition_eq_dec : EqDecision TierCondition.
Proof. solve_decision. Defined.
#[local] Instance parsed_tier_eq_dec : EqDecision ParsedTier.
Proof. solve_decision. Defined.

Definition all_presets : list Preset := flat_map presets PRESET_GROUPS.

(** The configuration of a preset. *)
Definition preset_config (p : Preset) : list VisualTier := option_or (tryParseVisualConfig (Some (preset_expr p))) [].

(** It is read, in a form that is printed and read back, and its printed form has the same tiers. *)
Definition preset_ok (p : Preset) : bool :=
  match tryParseVisualConfig (Some (preset_expr p)) with
  | Some cfg =>
      canonical_config cfg && forallb canonical_group (requestRules p) &&
      bool_decide (parseTiersFromExpr (generateExprFromVisualConfig cfg) = parseTiersFromExpr (preset_expr p))
  | None => false
  end.

Lemma presets_readable : forallb preset_ok all_presets = true.
Proof. vm_compute. reflexivity. Qed.

Lemma preset_spec p :
  p ∈ all_presets ->
  tryParseVisualConfig (Some (preset_expr p)) = Some (preset_config p) /\ readable (preset_config p) (requestRules p) /\
  parseTiersFromExpr (generateExprFromVisualConfig (preset_config p)) = parseTiersFromExpr (preset_expr p).
Proof.
  intros Hp. pose proof presets_readable as H. rewrite forallb_Forall, Forall_forall in H. specialize (H p Hp).
  unfold preset_ok in H. unfold preset_config. destruct (tryParseVisualConfig (Some (preset_expr p))) as [cfg|]; [|done].
  apply andb_prop in H as [[H1 H2]%andb_prop H3]. apply bool_decide_eq_true in H3. done.
Qed.

(** The state after the click: the dialog has the new rules and still the old expression. *)
Lemma apply_preset_state p w :
  p ∈ all_presets ->
  exists raw, applyPreset p w =
    {| editor := set_state Visual (Some (preset_config p)) raw (requestRules p) (editor w);
       props := set_rules (buildRequestRuleExpr (requestRules p)) (props w) |}.
Proof. intros Hp. destruct (preset_spec p Hp) as [H _]. unfold applyPreset. rewrite H. by eexists. Qed.

(** The first rendering after the click, of an editor that shows something. *)
Lemma preset_commit p w cfg gs :
  p ∈ all_presets -> shows w cfg gs -> initRef (editor w) = true ->
  exists w1, commit (applyPreset p w) = Ret w1 /\ pending w1 (preset_config p) (requestRules p).
Proof.
  intros Hp [H1 H2 H3 H4 H5 H6 H7] Hi. destruct (preset_spec p Hp) as (_ & [Hc Hg] & _).
  destruct (apply_preset_state p w Hp) as [raw ->]. unfold commit. cbn [editor props].
  rewrite (readable_can_use _ (requestRules p)), (visual_effective _ (preset_config p)) by done. cbn [obind].
  unfold init_effect. destruct (decide _); cbn [with_seen set_state initRef]; rewrite ?Hi; cbn [obind];
    (eexists; split; [done|]); split; cbn [editor props report]; unfold model_effect; cbn [set_state with_seen seenModel set_rules modelName];
    rewrite ?decide_True by done; done.
Qed.

(** Every preset can be applied: in an editor that has been edited before, a click on any of the presets gives
    the visual mode with the preset's tiers and rules, and the dialog holds an expression with the same
    tiers as the preset's own and the rules of the preset. *)
Theorem preset_applied p w cfg gs :
  p ∈ all_presets -> shows w cfg gs -> initRef (editor w) = true ->
  exists w', settle 5 (applyPreset p w) = Ret w' /\ shows w' (preset_config p) (requestRules p) /\
    parseTiersFromExpr (currentExpr (props w')) = parseTiersFromExpr (preset_expr p).
Proof.
  intros Hp Hs Hi. destruct (preset_spec p Hp) as (_ & Hr & Ht).
  destruct (preset_commit p w cfg gs Hp Hs Hi) as (w1 & C1 & P1). destruct (pending_commit w1 _ _ Hr P1) as (w2 & C2 & S2 & _).
  exists w2. split; [|split; [done|]].
  - cbn [settle]. rewrite C1. cbn [obind]. rewrite C2. cbn [obind]. apply (settle_fixed 3 w2), (shows_rest _ _ _ Hr S2).
  - rewrite (shows_expr _ _ _ S2). exact Ht.
Qed.

(** C35: In an editor that was just opened the first click on a preset with other rules than the model's loses
    the preset's prices: the rules arrive at the dialog one rendering before the expression, the first effect
    takes that for a change from outside and reads the old expression back, and the editor ends with the old
    tiers and the preset's rules. *)
Theorem first_preset_lost p w cfg gs :
  p ∈ all_presets -> readable cfg gs -> shows w cfg gs -> initRef (editor w) = false ->
  buildRequestRuleExpr (requestRules p) <> buildRequestRuleExpr gs ->
  exists w', settle 5 (applyPreset p w) = Ret w' /\ shows w' cfg (requestRules p).
Proof.
  intros Hp Hr Hs Hi Hne. destruct Hs as [H1 H2 H3 H4 H5 H6 H7]. destruct (preset_spec p Hp) as (_ & [Hc Hg] & _).
  destruct (apply_preset_state p w Hp) as [raw ->]. set (w0 := {| editor := _; props := _ |}).
  assert (Hr' : readable cfg (requestRules p)) by (split; [apply Hr|done]).
  destruct (init_from_printed (props w0) (with_seen (props w0) (editor w0)) cfg (requestRules p) Hr') as [raw' Hin]; [done|done|].
  assert (C1 : exists w1, commit w0 = Ret w1 /\ editorMode (editor w1) = Visual /\ visualConfig (editor w1) = Some cfg /\
                 requestRuleGroups (editor w1) = requestRules p /\ initialised w1 /\
                 currentRequestRuleExpr (props w1) = buildRequestRuleExpr (requestRules p)).
  { unfold commit. cbn [editor props w0]. rewrite (readable_can_use _ (requestRules p)), (visual_effective _ (preset_config p)) by done.
    cbn [obind]. unfold init_effect. rewrite decide_False.
    - cbn [with_seen set_state initRef]. rewrite Hi. unfold w0 in Hin. cbn [editor props] in Hin. rewrite Hin. cbn [obind].
      eexists. split; [done|]. cbn [editor props]. unfold model_effect. cbn [with_seen set_state seenModel set_rules modelName report].
      rewrite decide_True by done. done.
    - cbn [set_state seenProps set_rules currentExpr currentRequestRuleExpr]. rewrite H6. intros [= E]. by rewrite H5 in E. }
  destruct C1 as (w1 & C1 & M1 & V1 & G1 & I1 & R1).
  destruct (reporting_commit w1 cfg (requestRules p) I1 M1 V1 G1) as (w2 & C2 & P2); [by apply (readable_can_use _ (requestRules p))|].
  destruct (pending_commit w2 _ _ Hr' P2) as (w3 & C3 & S3 & _). exists w3. split; [|done].
  cbn [settle]. rewrite C1. cbn [obind]. rewrite C2. cbn [obind]. rewrite C3. cbn [obind].
  apply (settle_fixed 2 w3), (shows_rest _ _ _ Hr' S3).
Qed.

(** ** Expressions the visual editor cannot read *)

(** The expression of an editor without a configuration: all prices are zero. *)
Definition zero_expr : jstr := u "p * 0 + c * 0".

Lemma zero_split gs :
  forallb canonical_group gs = true ->
  splitBillingExprAndRequestRules (combineBillingExpr zero_expr (buildRequestRuleExpr gs))
  = Ret {| billingExpr := zero_expr; requestRuleExpr := buildRequestRuleExpr gs |}.
Proof.
  intros Hg. destruct gs as [|g gs]; [by vm_compute|]. apply combine_split_read; done || by vm_compute.
Qed.

(** A world in the raw mode whose text is that of the zero prices. *)
Record zeroed (w : World) (gs : list RequestRuleGroup) : Prop := {
  zeroed_mode : editorMode (editor w) = Raw;
  zeroed_raw : rawExpr (editor w) = combineBillingExpr zero_expr (buildRequestRuleExpr gs);
  zeroed_init : initRef (editor w) = true \/ seenProps (editor w) = Some (currentExpr (props w), currentRequestRuleExpr (props w));
  zeroed_model : seenModel (editor w) = Some (modelName (props w));
  zeroed_rules : currentRequestRuleExpr (props w) = buildRequestRuleExpr gs;
}.

(** It stays so, and the dialog is told. *)
Lemma zeroed_commit w gs :
  forallb canonical_group gs = true -> zeroed w gs ->
  (initRef (editor w) = false -> currentExpr (props w) = zero_expr) ->
  exists w', commit w = Ret w' /\ zeroed w' gs /\ currentExpr (props w') = zero_expr /\ initRef (editor w') = initRef (editor w).
Proof.
  intros Hg [H1 H2 H3 H4 H5] Hx. unfold commit. rewrite (readable_can_use _ gs) by done. unfold effectiveExpr.
  rewrite H1, H2, zero_split by done. cbn [obind billingExpr].
  assert (Hi : exists e, init_effect (props w) (editor w) = Ret e /\ editorMode e = Raw /\ rawExpr e = rawExpr (editor w) /\
                 seenProps e = Some (currentExpr (props w), currentRequestRuleExpr (props w)) /\
                 initRef e = initRef (editor w) /\ seenModel e = seenModel (editor w)).
  { unfold init_effect. destruct (decide _) as [Hs|Hs]; [by exists (editor w)|]. cbn [with_seen initRef].
    destruct H3 as [H3|H3]; [|by destruct Hs]. rewrite H3. by exists (with_seen (props w) (editor w)). }
  destruct Hi as (e & -> & E1 & E2 & E3 & E4 & E5). cbn [obind]. eexists. split; [done|].
  unfold model_effect. rewrite decide_True by by rewrite E5. cbn [editor props]. split; [|by split].
  split; cbn [editor props report modelName currentExpr currentRequestRuleExpr]; rewrite ?H1; try done.
  - by rewrite E2.
  - rewrite E3, E4. destruct (initRef (editor w)); [by left|right]. by rewrite Hx.
  - by rewrite E5.
Qed.

Lemma zeroed_settles n w gs :
  forallb canonical_group gs = true -> zeroed w gs -> (initRef (editor w) = false -> currentExpr (props w) = zero_expr) ->
  exists w', settle (S n) w = Ret w' /\ currentExpr (props w') = zero_expr /\
    currentRequestRuleExpr (props w') = buildRequestRuleExpr gs.
Proof.
  intros Hg. revert w. induction n as [|n IH]; intros w Hz Hx;
    destruct (zeroed_commit w gs Hg Hz Hx) as (w1 & C & Z1 & X1 & _); cbn [settle]; rewrite C; cbn [obind].
  - exists w1. split; [done|]. split; [done|apply Z1].
  - destruct (IH w1 Z1) as (w' & H & ?); [done|]. exists w'. cbn [settle] in H. done.
Qed.

(** Opening the editor on a base expression that the visual mode cannot read: the first report, made
    while the editor is still in the visual mode without a configuration, replaces it by zero prices,
    and the second initialisation reads these. *)
Lemma unread_opened model base gs s0 :
  base <> [] -> tryParseVisualConfig (Some base) = None -> forallb canonical_group gs = true ->
  splitBillingExprAndRequestRules (combineBillingExpr base (buildRequestRuleExpr gs)) = Ret s0 ->
  exists w w', mount {| modelName := model; currentExpr := base; currentRequestRuleExpr := buildRequestRuleExpr gs |} = Ret w /\
    settle 5 w = Ret w' /\ currentExpr (props w') = zero_expr /\ currentRequestRuleExpr (props w') = buildRequestRuleExpr gs.
Proof.
  intros Hb Hu Hg Hs. set (p := {| modelName := model; currentExpr := base; currentRequestRuleExpr := buildRequestRuleExpr gs |}).
  unfold mount, read_groups. cbn [p currentRequestRuleExpr currentExpr]. rewrite request_rules_read, Hu by done. cbn [obind option_or].
  fold p. match goal with |- exists w w', Ret ?x = Ret w /\ _ => set (w := x); exists w end.
  pose (p1 := {| modelName := model; currentExpr := zero_expr; currentRequestRuleExpr := buildRequestRuleExpr gs |}).
  pose (w1 := {| editor := {| editorMode := Raw; visualConfig := None; rawExpr := combineBillingExpr base (buildRequestRuleExpr gs);
                              requestRuleGroups := gs; initRef := false;
                              seenProps := Some (base, buildRequestRuleExpr gs); seenModel := Some model |}; props := p1 |}).
  assert (C1 : commit w = Ret w1).
  { unfold commit. cbn [props w]. rewrite (readable_can_use _ gs) by done. unfold effectiveExpr. cbn [w editor editorMode visualConfig].
    cbn [obind]. unfold init_effect. rewrite decide_False by done. cbn [with_seen initRef].
    unfold init_from, read_groups. cbn [p currentRequestRuleExpr currentExpr]. rewrite request_rules_read, Hu by done. cbn [obind option_or].
    apply truthy_spec in Hb. rewrite Hb. reflexivity. }
  destruct (decide (base = zero_expr)) as [-> |Hne].
  { destruct (zeroed_settles 3 w1 gs Hg) as (w' & H & He); [by split; auto|done|]. exists w'. split; [done|]. split; [|done].
    change (settle 5 w) with (bind! x := commit w in settle 4 x). by rewrite C1. }
  pose (w2 := {| editor := {| editorMode := Raw; visualConfig := None; rawExpr := combineBillingExpr zero_expr (buildRequestRuleExpr gs);
                              requestRuleGroups := gs; initRef := true;
                              seenProps := Some (zero_expr, buildRequestRuleExpr gs); seenModel := Some model |};
                 props := {| modelName := model; currentExpr := billingExpr s0; currentRequestRuleExpr := buildRequestRuleExpr gs |} |}).
  assert (C2 : commit w1 = Ret w2).
  { unfold commit. cbn [props w1]. rewrite (readable_can_use _ gs) by done. unfold effectiveExpr. cbn [w1 editor editorMode rawExpr].
    rewrite Hs. cbn [obind]. unfold init_effect. rewrite decide_False by (cbn [seenProps p1 currentExpr currentRequestRuleExpr]; intros [= E]; by destruct Hne). cbn [with_seen initRef].
    unfold init_from, read_groups. cbn [p1 currentRequestRuleExpr currentExpr]. rewrite request_rules_read by done. cbn [obind option_or].
    replace (tryParseVisualConfig (Some zero_expr)) with (@None (list VisualTier)) by (symmetry; by vm_compute).
    change (truthy zero_expr) with true. cbn [obind with_seen seenProps seenModel]. unfold model_effect. cbn [seenModel modelName p1]. by rewrite decide_True. }
  destruct (zeroed_settles 2 w2 gs Hg) as (w' & H & He); [by split; auto|done|]. exists w'. split; [done|]. split; [|done].
  change (settle 5 w) with (bind! x := commit w in bind! y := commit x in settle 3 y). rewrite C1. cbn [obind]. by rewrite C2.
Qed.

(** *** Examples *)

Definition flat_config : list VisualTier := option_or (tryParseVisualConfig (Some (u "tier(`base`, p * 2 + c * 4)"))) [].

Definition example_edits : list edit :=
  [OnTiers AddTier; OnTiers (EditTier 1 (EditPrice (u "input_unit_cost") (num_of_Z 3)));
   OnTiers (EditTier 1 (EditLabel (u "long"))); OnTiers (AddCondition 0);
   OnTiers (EditTier 0 (EditCondition 1 (SetValue (num_of_Z 500))));
   OnRules (RemoveGroup 1); OnRules (RemoveGroup 1); OnRules (EditGroup 0 (GroupMultiplier (num_of_Z 3)))].

Definition flat_props : Props :=
  {| modelName := Some (u "m"); currentExpr := generateExprFromVisualConfig flat_config;
     currentRequestRuleExpr := buildRequestRuleExpr sample_groups |}.

Lemma editor_refines_witness :
  exists w, session flat_props example_edits = Ret w /\
    currentExpr (props w) = u "len < 200000 && c < 500 ? tier(`base`, p * 2 + c * 4) : tier(`long`, p * 3 + c * 0)" /\
    currentRequestRuleExpr (props w)
    = u "((hour(`Asia/Shanghai`) >= 21 || hour(`Asia/Shanghai`) < 6) && header(`x-plan`) != `` ? 3 : 1)".
Proof.
  destruct (editor_refines (Some (u "m")) flat_config sample_groups example_edits) as (w & H & _ & _ & _ & H5 & H6).
  - repeat (split; [split; vm_compute; reflexivity|]). split; vm_compute; reflexivity.
  - exists w. split; [exact H|]. split; [etrans; [exact H5|]|etrans; [exact H6|]]; vm_compute; reflexivity.
Defined.

(** The editor on [flat_config] without rules, before or after its first initialisation. *)
Definition flat_world (init : bool) : World :=
  let p := {| modelName := Some (u "m"); currentExpr := generateExprFromVisualConfig flat_config; currentRequestRuleExpr := [] |} in
  {| editor := {| editorMode := Visual; visualConfig := Some flat_config; rawExpr := currentExpr p; requestRuleGroups := [];
                  initRef := init; seenProps := Some (currentExpr p, []); seenModel := Some (modelName p) |};
     props := p |}.

Definition night_preset : Preset :=
  {| preset_key := u "night-discount"; preset_label := u "Night discount (50%)"; preset_expr := u "tier(`base`, p * 3 + c * 15)";
     requestRules := [one_rule (time_rule (u "hour") MATCH_RANGE [] (u "21") (u "6")) (u "0.5")] |}.

Lemma night_preset_in : night_preset ∈ all_presets.
Proof. unfold all_presets, PRESET_GROUPS. cbn [flat_map presets app]. rewrite !elem_of_cons. tauto. Qed.

Lemma preset_applied_witness :
  exists w', settle 5 (applyPreset night_preset (flat_world true)) = Ret w' /\
    parseTiersFromExpr (currentExpr (props w')) = parseTiersFromExpr (preset_expr night_preset).
Proof.
  destruct (preset_applied night_preset (flat_world true) flat_config []) as (w' & H1 & _ & H2);
    [apply night_preset_in|split; reflexivity|reflexivity|].
  exists w'. split; [exact H1|exact H2].
Defined.

Lemma first_preset_lost_witness :
  exists w', settle 5 (applyPreset night_preset (flat_world false)) = Ret w' /\
    shows w' flat_config (requestRules night_preset).
Proof.
  apply (first_preset_lost night_preset (flat_world false) flat_config []);
    [apply night_preset_in|split; vm_compute; reflexivity|split; reflexivity|reflexivity|vm_compute; discriminate].
Defined.

(** A removed tier gives its number away: the next tier added gets the label of the last one. *)
Example duplicate_tier_label :
  option_map (map vt_label)
    (fold_left (fun c e => match c with Some cfg => visual_change (Some cfg) e | None => None end)
       [AddTier; AddTier; RemoveTier 1; AddTier] (Some flat_config))
  = Some [u "base"; u "tier_3"; u "tier_3"].
Proof. vm_compute. reflexivity. Qed.
