(* ===== verification/TierAgreement.v ===== *)
(** * The two readers of tiered prices agree

    The price list and the usage logs read a billing expression with [parseTiersFromExpr]
    ([features/pricing/lib/billing-expr.ts]), the editor with [tryParseVisualConfig].  On an
    expression generated from a canonical configuration the first reader finds every tier, with its
    conditions and with the cost of every variable. *)

From S2P Require Import Prelude JsString JsRegex JsNumber Json JsonFacts BillingExpr BillingRules TierExpr TierFacts.
Open Scope N_scope.

(** ** Terms *)

(** [v * n] *)
Definition term_text (v n : jstr) : jstr := v ++ u " " ++ u "*" ++ u " " ++ n.

Definition VAR_KEYS : list jstr := map key BILLING_PRICING_VARS.

(** The text of terms after the first. *)
Definition terms_text (l : list (jstr * jstr)) : jstr := flat_map (fun '(v, n) => cost_text v n) l.

Definition term_ok (x : jstr * jstr) : Prop := x.1 ∈ VAR_KEYS /\ number_text (Some x.2).

Lemma keys_apart v w : v ∈ VAR_KEYS -> w ∈ VAR_KEYS -> v <> w -> apart v w = true.
Proof.
  intros Hv Hw. assert (forallb (fun v => forallb (fun w => jeqb v w || apart v w) VAR_KEYS) VAR_KEYS = true) as H
    by by vm_compute.
  rewrite forallb_Forall, Forall_forall in H. specialize (H v Hv). cbv beta in H.
  rewrite forallb_Forall, Forall_forall in H. specialize (H w Hw). cbv beta in H.
  apply orb_prop in H as [->%jeqb_spec|H]; [done|by intros _].
Qed.

Lemma key_head v : v ∈ VAR_KEYS -> exists c t, v = c :: t /\ is_word c = true /\ negb (is_space c) = true.
Proof.
  intros Hv. assert (forallb (fun v => match v with c :: _ => is_word c && negb (is_space c) | [] => false end) VAR_KEYS = true)
    as H by by vm_compute.
  rewrite forallb_Forall, Forall_forall in H. specialize (H v Hv). cbv beta in H.
  destruct v as [|c t]; [done|]. apply andb_prop in H as [H1 H2]. eauto.
Qed.

Lemma keys_nodup : NoDup VAR_KEYS.
Proof. apply (bool_decide_unpack _). by vm_compute. Qed.

(** Alternatives that lead nowhere are dropped. *)
Lemma run_group_words_only i ws w l p t cs :
  NoDup ws -> w ∈ ws ->
  (forall w' cs', w' ∈ ws -> w' <> w -> results (rseq (rlit w' :: l)) (MState p (w ++ t) cs') = []) ->
  results (rseq (RGroup i (ralt (map rlit ws)) :: l)) (MState p (w ++ t) cs)
  = results (rseq l) (MState (prev_after p w) t (set_cap i w cs)).
Proof.
  intros Hnd Hw Hother. rewrite run_cons. cbn [results]. rewrite results_ralt.
  rewrite (flat_map_map (fun r => results r _)), (map_flat_map (close_group i _)), !flat_map_flat_map.
  rewrite (flat_map_single _ ws w); [|done|done|].
  - rewrite results_lit. cbn [flat_map]. by rewrite close_group_split, !app_nil_r.
  - intros w' Hw' Hne. destruct (starts_with w' (w ++ t)) eqn:Hs.
    + apply starts_with_spec in Hs as [t' Ht']. rewrite Ht', results_lit. cbn [flat_map].
      rewrite close_group_split, !app_nil_r.
      specialize (Hother w' (set_cap i w' cs) Hw' Hne). rewrite Ht', run_cons, results_lit in Hother.
      cbn [flat_map] in Hother. by rewrite app_nil_r in Hother.
    + by rewrite results_lit_fail.
Qed.

(** ** The body of a tier *)

(** A term is read with its variable and its number. *)
Lemma term_reads v n p t :
  term_ok (v, n) -> word_at p = false -> ends_number t = true ->
  match_at BILLING_VAR_REGEX p (term_text v n ++ t)
  = Some (MState (prev_after (Some 32) n) t (set_cap 2 n (set_cap 1 v []))).
Proof.
  intros [Hv [Hne Hn]] Hp Ht. cbn [fst snd] in *. destruct (key_head v Hv) as (c & v' & E & Hw & Hs).
  apply match_at_first. unfold first, start_state, term_text. rewrite <- !(assoc_L (++)). rewrite run_cons.
  cbn [results m_prev m_rest]. rewrite Hp, E. cbn [app head word_at]. rewrite Hw. cbn [xorb flat_map].
  rewrite app_nil_r, app_comm_cons, <- E.
  change (map (fun v => rlit (key v)) BILLING_PRICING_VARS) with (map rlit VAR_KEYS).
  rewrite run_group_words_only; [|apply keys_nodup|done|].
  - apply first_space; [done|]. apply first_rl, first_space; [by apply number_solid|].
    apply first_number; [done..|]. apply first_nil.
  - intros w cs' Hw' Hneq. by apply apart_fails, keys_apart.
Qed.

Lemma separator_passed p b c d t :
  u " + " = b ++ c :: d -> match_at BILLING_VAR_REGEX (prev_after p b) ((c :: d) ++ t) = None.
Proof.
  change (u " + ") with [32; 43; 32].
  destruct b as [|? [|? [|? [|? b]]]]; intros [=]; subst; rewrite match_at_results; unfold BILLING_VAR_REGEX;
    rewrite run_cons; cbn [results m_prev m_rest start_state]; destruct (xorb _ _); reflexivity.
Qed.

Lemma terms_end l : ends_number (terms_text l) = true.
Proof. by destruct l as [|[v n] l]. Qed.

Definition captured_term (m : list (nat * jstr)) : jstr * jstr := (group 1 m, group 2 m).

Lemma later_terms l fuel p :
  Forall term_ok l -> (length l < fuel)%nat ->
  map (fun m => captured_term m.2) (exec_all fuel BILLING_VAR_REGEX p (terms_text l)).1 = l.
Proof.
  intros Hl. revert fuel p. induction Hl as [|[v n] l Hx _ IH]; intros fuel p Hf;
    (destruct fuel as [|fuel]; [simpl in Hf; lia|]); cbn [exec_all].
  - unfold terms_text. cbn [flat_map search]. rewrite match_at_results. unfold BILLING_VAR_REGEX. rewrite run_cons.
    cbn [results m_prev m_rest start_state]. by destruct (xorb _ _).
  - change (terms_text ((v, n) :: l)) with (cost_text v n ++ terms_text l).
    assert (cost_text v n ++ terms_text l = u " + " ++ term_text v n ++ terms_text l) as -> by reflexivity.
    erewrite search_skip; [|intros b c d; apply separator_passed|by apply term_reads, terms_end].
    cbn [m_prev m_rest m_caps]. specialize (IH fuel (prev_after (Some 32) n)).
    destruct (exec_all fuel _ _ _) as [ms rest]. cbn [fst map snd] in *. simpl in Hf. by rewrite IH by lia.
Qed.

(** Every term of a body is found, in order. *)
Lemma terms_read v n l :
  Forall term_ok ((v, n) :: l) ->
  map captured_term (rexec_all BILLING_VAR_REGEX (term_text v n ++ terms_text l)) = (v, n) :: l.
Proof.
  intros [Hx Hl]%Forall_cons. unfold rexec_all. rewrite map_map. cbn [exec_all].
  change (search _ None _) with (search BILLING_VAR_REGEX None ([] ++ term_text v n ++ terms_text l)).
  erewrite search_skip; [|by intros [|]|by apply term_reads, terms_end]. cbn [m_prev m_rest m_caps].
  pose proof (later_terms l (length (term_text v n ++ terms_text l)) (prev_after (Some 32) n) Hl) as IH.
  destruct (exec_all _ _ _ _) as [ms rest]. cbn [fst map snd] in *. rewrite IH; [done|].
  rewrite length_app. unfold term_text, terms_text. rewrite !length_app. simpl (length (u _)).
  clear. induction l as [|[w m] l IH]; cbn [flat_map length]; [lia|]. rewrite length_app.
  unfold cost_text at 1. rewrite !length_app. simpl (length (u _)). lia.
Qed.

(** ** Prices *)

(** The cost of a variable in a tier of the editor. *)
Definition tier_cost (t : VisualTier) (v : BillingVar) : num :=
  if jeqb (key v) (u "p") then input_unit_cost t
  else if jeqb (key v) (u "c") then output_unit_cost t
  else option_or (obj_get (option_or (tierField v) []) (unit_costs t)) zero.

(** The prices of a tier: the cost of every variable, under the name of its price. *)
Definition tier_prices (t : VisualTier) : list (jstr * num) :=
  map (fun v => (option_or (field v) [], tier_cost t v)) BILLING_PRICING_VARS.

Definition parsed_condition (c : TierConditionInput) : TierCondition :=
  {| tc_var := ci_var c; tc_op := ci_op c;
     tc_value := match ci_value c with VNum x => x | VStr s => to_number s end |}.

(** A tier of the editor as the price list and the logs show it. *)
Definition parsed_tier (t : VisualTier) : ParsedTier :=
  {| tier_label := vt_label t; tier_conditions := map parsed_condition (vt_conditions t);
     prices := tier_prices t |}.

Definition printed (l : list (jstr * option jstr)) : list (jstr * jstr) :=
  flat_map (fun '(v, o) => match o with Some n => [(v, n)] | None => [] end) l.

Definition values (l : list (jstr * jstr)) : list (jstr * num) := map (fun x => (x.1, to_number x.2)) l.

Lemma printed_text l : extras_text l = terms_text (printed l).
Proof.
  induction l as [|[v [n|]] l IH]; [done| |exact IH].
  change (extras_text ((v, Some n) :: l)) with (cost_text v n ++ extras_text l). by rewrite IH.
Qed.

Lemma printed_sublist l : sublist (map fst (printed l)) (map fst l).
Proof. induction l as [|[v [n|]] l IH]; simpl; by constructor. Qed.

Lemma values_keys l : map fst (values l) = map fst l.
Proof. unfold values. by rewrite map_map. Qed.

(** The first coefficient of every variable, here the only one. *)
Lemma coefficients l acc :
  NoDup (map fst acc ++ map fst l) ->
  fold_left (fun coeffs x => if obj_has x.1 coeffs then coeffs else obj_set x.1 (to_number x.2) coeffs) l acc
  = acc ++ values l.
Proof.
  revert acc. induction l as [|[v n] l IH]; intros acc Hnd; [by rewrite app_nil_r|]. cbn [fold_left fst snd].
  assert (v ∉ map fst acc) as Hv.
  { cbn [map fst] in Hnd. apply NoDup_app in Hnd as (_ & H & _). intros Hin. apply (H v Hin). by left. }
  unfold obj_has. rewrite obj_get_absent, obj_set_fresh by done. rewrite IH.
  - by rewrite <- (assoc_L (++)).
  - rewrite map_app, <- (assoc_L (++)). exact Hnd.
Qed.

(** The table is filled in the order of the registry. *)
Lemma price_table (g : jstr -> num) :
  fold_left (fun tier '(varName, field) => obj_set field (g varName) tier) BILLING_VAR_KEY_TO_FIELD []
  = map (fun v => (option_or (field v) [], g (key v))) BILLING_PRICING_VARS.
Proof. reflexivity. Qed.

Definition coefficient (coeffs : list (jstr * num)) (v : jstr) : num :=
  match obj_get v coeffs with Some x => f_or x zero | None => zero end.

Lemma extra_coefficient cvs l cv :
  map fst l = map cv_field cvs -> NoDup (map exprVar cvs) -> NoDup (map cv_field cvs) ->
  forallb (fun c => cost_ok c.2) l = true -> cv ∈ cvs ->
  coefficient (values (printed (zip_with (fun v c => (v, cost_option c)) (map exprVar cvs) l))) (exprVar cv)
  = option_or (obj_get (cv_field cv) l) zero.
Proof.
  revert l. induction cvs as [|cv0 cvs IH]; intros [|[f x] l] Hf He Hd Hok Hin;
    [by apply elem_of_nil in Hin|by apply elem_of_nil in Hin|done|].
  cbn [map fst forallb snd] in *. injection Hf as -> Hf. apply NoDup_cons in He as [He0 He].
  apply NoDup_cons in Hd as [Hd0 Hd]. apply andb_prop in Hok as [Hx Hok].
  destruct (cost_ok_spec x Hx) as (_ & _ & Hr & Hor & Hz). cbn [zip_with].
  change (cost_option (cv_field cv0, x)) with (if feq x zero then None else Some (num_to_string x)).
  set (rest := printed (zip_with (fun v c => (v, cost_option c)) (map exprVar cvs) l)) in *.
  assert (forall v, v ∉ map exprVar cvs -> obj_get v (values rest) = None) as Habs.
  { intros v Hv. apply obj_get_absent. rewrite values_keys. intros H. apply Hv.
    assert (sublist (map fst rest) (map exprVar cvs)) as Hs.
    { unfold rest. etrans; [apply printed_sublist|]. clear -Hf. revert l Hf.
      induction cvs as [|c cvs IH]; intros [|y l] Hf; simplify_eq/=; [done|]. by constructor; apply IH. }
    by eapply elem_of_sublist. }
  apply elem_of_cons in Hin as [->|Hin].
  - cbn [obj_get]. rewrite jeqb_refl. cbn [option_or]. unfold coefficient. destruct (feq x zero) eqn:Hfe.
    + change (printed _) with rest. rewrite Habs by done. symmetry. by apply Hz.
    + cbn [printed flat_map app values map fst snd obj_get]. by rewrite jeqb_refl, Hr.
  - assert (exprVar cv0 <> exprVar cv) as Hne1.
    { intros E. apply He0. rewrite E. by apply list_elem_of_fmap_2. }
    assert (cv_field cv0 <> cv_field cv) as Hne2.
    { intros E. apply Hd0. rewrite E. by apply list_elem_of_fmap_2. }
    cbn [obj_get]. rewrite (proj2 (jeqb_neq _ _) Hne2), <- IH by done. unfold coefficient.
    destruct (feq x zero); [done|]. cbn [printed flat_map app values map fst snd obj_get].
    by rewrite (proj2 (jeqb_neq _ _) Hne1).
Qed.

Lemma body_terms ic oc l :
  body_text ic oc l = term_text (u "p") ic ++ terms_text ((u "c", oc) :: printed l).
Proof.
  unfold body_text. rewrite printed_text.
  change (terms_text ((u "c", oc) :: printed l)) with (cost_text (u "c") oc ++ terms_text (printed l)).
  unfold cost_text, term_text. by rewrite <- !(assoc_L (++)).
Qed.

Lemma fold_left_over {A B C} (f : C -> B -> C) (g : A -> B) l a :
  fold_left (fun a x => f a (g x)) l a = fold_left f (map g l) a.
Proof. revert a. induction l as [|x l IH]; intros a; simpl; auto. Qed.

(** The body of a tier gives its prices. *)
Lemma body_prices t :
  tier_wf t ->
  parseTierBody (body_text (num_to_string (input_unit_cost t)) (num_to_string (output_unit_cost t))
    (extras_of (unit_costs t))) = tier_prices t.
Proof.
  intros [_ _ Hi Ho Hc _]. destruct (extras_of_spec _ Hc) as [He1 He2]. destruct Hc as [Hf Hok].
  destruct (cost_ok_spec _ Hi) as (Hi1 & Hi2 & Hi3 & Hi4 & _). destruct (cost_ok_spec _ Ho) as (Ho1 & Ho2 & Ho3 & Ho4 & _).
  set (l := extras_of (unit_costs t)) in *.
  assert (NoDup (map fst ((u "p", num_to_string (input_unit_cost t))
            :: (u "c", num_to_string (output_unit_cost t)) :: printed l))) as Hnd.
  { eapply sublist_NoDup; [apply keys_nodup|]. change VAR_KEYS with (u "p" :: u "c" :: EXPR_VARS). rewrite <- He1.
    cbn [map fst]. do 2 constructor. apply printed_sublist. }
  assert (Forall term_ok ((u "p", num_to_string (input_unit_cost t))
            :: (u "c", num_to_string (output_unit_cost t)) :: printed l)) as Hok'.
  { do 2 (constructor; [split; [apply (bool_decide_unpack _); by vm_compute|done]|]).
    apply Forall_forall. intros [v n] H. unfold printed in H. apply list_elem_of_In, in_flat_map in H as ([v' [n'|]] & H1 & H2);
      [|done]. destruct H2 as [[= -> ->]|[]]. apply list_elem_of_In in H1. split.
    - change VAR_KEYS with (u "p" :: u "c" :: EXPR_VARS). do 2 right. rewrite <- He1.
      apply (list_elem_of_fmap_2 fst) in H1. exact H1.
    - rewrite Forall_forall in He2. apply (He2 _ H1). }
  rewrite body_terms. unfold parseTierBody.
  rewrite (fold_left_over (fun coeffs x => if obj_has x.1 coeffs then coeffs else obj_set x.1 (to_number x.2) coeffs) captured_term).
  rewrite terms_read, coefficients by done. cbn [app].
  etrans; [exact (price_table (coefficient (values ((u "p", num_to_string (input_unit_cost t))
            :: (u "c", num_to_string (output_unit_cost t)) :: printed l))))|].
  unfold tier_prices. change BILLING_PRICING_VARS with (take 2 BILLING_VARS ++ BILLING_EXTRA_VARS). rewrite !map_app.
  f_equal.
  { cbn [take BILLING_VARS map]. unfold coefficient, tier_cost, values. cbn [map fst snd key field]. rewrite Hi3, Ho3.
    cbn [obj_get]. rewrite !jeqb_refl, Hi4. change (jeqb (u "p") (u "c")) with false.
    change (jeqb (u "c") (u "p")) with false. cbv iota. by rewrite Ho4. }
  apply map_ext_in. intros v Hv. f_equal.
  assert (jeqb (u "p") (key v) = false /\ jeqb (u "c") (key v) = false /\ jeqb (key v) (u "p") = false /\
          jeqb (key v) (u "c") = false) as (E1 & E2 & E3 & E4).
  { repeat (destruct Hv as [<-|Hv]; [done|]). by destruct Hv. }
  unfold coefficient, tier_cost. rewrite E3, E4. cbn [values map fst snd obj_get]. rewrite E1, E2.
  apply (extra_coefficient BILLING_CACHE_VAR_MAP (unit_costs t)
    {| cv_field := option_or (tierField v) []; exprVar := key v |}); [done| |apply fields_nodup|done|].
  - apply (bool_decide_unpack _). by vm_compute.
  - apply list_elem_of_In in Hv.
    exact (list_elem_of_fmap_2 (fun v => {| cv_field := option_or (tierField v) []; exprVar := key v |}) _ _ Hv).
Qed.

(** ** Tiers *)

Lemma num_char_inside c : num_char c = true -> none_of (u ")") c = true.
Proof. intros H. unfold none_of, one_of. simpl. rewrite orb_false_r. apply negb_true_iff, N.eqb_neq. by intros ->. Qed.

Lemma body_inside ic oc l :
  number_text (Some ic) -> number_text (Some oc) -> map fst l = EXPR_VARS -> Forall (fun c => number_text c.2) l ->
  forallb (none_of (u ")")) (body_text ic oc l) = true.
Proof.
  intros [_ Hi] [_ Ho] Hv Hl. unfold body_text. rewrite !forallb_app.
  rewrite (forallb_impl _ _ ic num_char_inside Hi), (forallb_impl _ _ oc num_char_inside Ho). cbn [u].
  assert (Forall (fun v => forallb (none_of (u ")")) v = true) (map fst l)) as Hvs.
  { rewrite Hv. apply Forall_forall. intros v Hin. repeat (apply elem_of_cons in Hin as [->|Hin]; [done|]).
    by apply elem_of_nil in Hin. }
  clear Hv. repeat (apply andb_true_intro; split; [done|]).
  induction Hl as [|[v [n|]] l Hn _ IH]; [done| |]; apply Forall_cons in Hvs as [H1 H2]; [|by apply IH].
  destruct Hn as [_ Hn]. change (extras_text ((v, Some n) :: l)) with (cost_text v n ++ extras_text l). cbn [fst snd] in *.
  unfold cost_text. rewrite !forallb_app, H1, (forallb_impl _ _ n num_char_inside Hn). by apply IH.
Qed.

Lemma body_start ic oc l : starts_solid (body_text ic oc l) = true.
Proof. done. Qed.

(** The call of a tier, read with its label and its body. *)
Lemma call_reads lab body p caps t :
  not_quote_text lab -> body <> [] -> starts_solid body = true -> forallb (none_of (u ")")) body = true ->
  exists p', first [rl "tier(`"; RGroup 2 (RStar true (RSet (none_of (u "`")))); rl "`,"; rspaces;
                    RGroup 3 (rplus (RSet (none_of (u ")")))); rl ")"]
    (MState p (call_text lab body ++ t) caps) (MState p' t (set_cap 3 body (set_cap 2 lab caps))).
Proof.
  intros Hlab Hne Hs Hb. eexists. unfold call_text. rewrite <- !(assoc_L (++)). apply first_rl. eapply first_cons.
  { rewrite (head_group 2 _ _ lab _ caps (MState (prev_after (prev_after p (u "tier(`")) lab)
      (u "`," ++ u " " ++ body ++ u ")" ++ t) caps)); [reflexivity| |done].
    apply head_star_class; [done|]. intros c t' Hct. by injection Hct as <- _. }
  cbn [m_prev m_caps]. apply first_rl, first_space; [by apply starts_solid_app|]. eapply first_cons.
  { rewrite (head_group 3 _ _ body _ _ (MState (prev_after (Some 32) body) (u ")" ++ t) (set_cap 2 lab caps)));
      [reflexivity| |done].
    apply head_plus; [done..|]. intros c t' Hct. by injection Hct as <- _. }
  apply first_rl, first_nil.
Qed.

Definition captured_tier (m : list (nat * jstr)) : ParsedTier :=
  {| tier_label := group 2 m; tier_conditions := parse_conditions (group 1 m); prices := parseTierBody (group 3 m) |}.

Lemma conditions_parsed cs :
  forallb canonical_condition cs = true ->
  parse_conditions (join (u " && ") (map condition_text cs)) = map parsed_condition cs.
Proof.
  intros Hcs. pose proof (parse_conditions_join cs Hcs) as H. rewrite <- H at 2. rewrite map_map.
  rewrite <- (map_id (parse_conditions _)) at 1. apply map_ext. by intros [].
Qed.

Lemma part_found t p rest :
  tier_wf t ->
  exists p' caps, match_at tier_regex p (part_text t ++ rest) = Some (MState p' rest caps) /\
    captured_tier caps = parsed_tier t.
Proof.
  intros Hwf. pose proof Hwf as [[_ Hq] Hcs Hi Ho Hc _]. destruct (extras_of_spec _ Hc) as [He1 He2].
  destruct (cost_ok_spec _ Hi) as (Hi1 & Hi2 & _). destruct (cost_ok_spec _ Ho) as (Ho1 & Ho2 & _).
  unfold captured_tier, parsed_tier. rewrite <- (body_prices t Hwf), <- conditions_parsed by done.
  unfold part_text, tier_text.
  set (body := body_text _ _ _). assert (forallb (none_of (u ")")) body = true) as Hb by by apply body_inside.
  destruct (vt_conditions t) as [|c cs] eqn:Ec.
  - destruct (call_reads (vt_label t) body p [] rest) as (p' & Hf); [done..|].
    exists p', (set_cap 3 body (set_cap 2 (vt_label t) [])). split; [|done].
    apply match_at_first. eapply first_cons; [|exact Hf].
    unfold call_text. rewrite <- !(assoc_L (++)). apply no_conditions_read.
  - destruct (conditions_read c cs p (call_text (vt_label t) body ++ rest)) as (q & Hcond); [done|done|].
    set (text := join (u " && ") (map condition_text (c :: cs))) in *.
    destruct (call_reads (vt_label t) body q [(1%nat, text)] rest) as (p' & Hf); [done..|].
    exists p', (set_cap 3 body (set_cap 2 (vt_label t) [(1%nat, text)])). split; [|done].
    apply match_at_first. eapply first_cons; [|exact Hf]. rewrite <- Hcond.
    change (u " ? ") with (u " " ++ u "?" ++ u " "). by rewrite <- !(assoc_L (++)).
Qed.

Lemma separator_between p b c d t :
  u " : " = b ++ c :: d -> match_at tier_regex (prev_after p b) ((c :: d) ++ t) = None.
Proof.
  change (u " : ") with [32; 58; 32].
  destruct b as [|? [|? [|? [|? b]]]]; intros [=]; subst; rewrite match_at_results; reflexivity.
Qed.

Lemma later_found ts tail fuel p :
  Forall tier_wf ts -> (forall p, search tier_regex p tail = None) -> (length ts < fuel)%nat ->
  map (fun m => captured_tier m.2) (exec_all fuel tier_regex p (parts_text ts ++ tail)).1 = map parsed_tier ts.
Proof.
  intros Hts Htail. revert fuel p. induction Hts as [|t ts Ht _ IH]; intros fuel p Hf;
    (destruct fuel as [|fuel]; [simpl in Hf; lia|]); cbn [exec_all].
  - cbn [parts_text flat_map app]. by rewrite Htail.
  - change (parts_text (t :: ts)) with ((u " : " ++ part_text t) ++ parts_text ts). rewrite <- !(assoc_L (++)).
    destruct (part_found t (prev_after p (u " : ")) (parts_text ts ++ tail) Ht) as (p' & caps & Hm & Hr).
    erewrite search_skip; [|intros b c d; apply separator_between|exact Hm]. cbn [m_prev m_rest m_caps].
    specialize (IH fuel p'). destruct (exec_all fuel tier_regex p' _) as [ms rest]. cbn [fst map snd] in *.
    simpl in Hf. by rewrite IH, Hr by lia.
Qed.

(** Every part is found, in order. *)
Lemma parts_found t ts tail :
  Forall tier_wf (t :: ts) -> (forall p, search tier_regex p tail = None) ->
  map captured_tier (rexec_all tier_regex (part_text t ++ parts_text ts ++ tail)) = map parsed_tier (t :: ts).
Proof.
  intros [Ht Hts]%Forall_cons Htail. unfold rexec_all. rewrite map_map. cbn [exec_all].
  destruct (part_found t None (parts_text ts ++ tail) Ht) as (p' & caps & Hm & Hr).
  change (search _ None _) with (search tier_regex None ([] ++ part_text t ++ parts_text ts ++ tail)).
  erewrite search_skip; [|by intros [|]|exact Hm]. cbn [m_prev m_rest m_caps].
  pose proof (later_found ts tail (length (part_text t ++ parts_text ts ++ tail)) p' Hts Htail) as IH.
  destruct (exec_all _ tier_regex p' _) as [ms rest]. cbn [fst map snd] in *. rewrite IH, Hr; [done|].
  destruct (part_start t Ht) as [H _]. pose proof (parts_length ts). rewrite !length_app.
  destruct (part_text t); [done|simpl; lia].
Qed.

(** ** Agreement *)

Lemma version_absent t rest : tier_wf t -> (stripExprVersion (part_text t ++ rest)).2 = part_text t ++ rest.
Proof.
  intros Hwf. destruct (part_start t Hwf) as [H _]. unfold stripExprVersion.
  destruct (truthy _) eqn:E; cbn [negb].
  - unfold version_regex. rewrite rmatch_anchored, run_rl_fail; [done|]. destruct (part_text t) as [|c s]; [done|].
    apply starts_with_ne_head. intros <-. by rewrite N.eqb_refl in H.
  - by destruct (part_text t).
Qed.

(** The tiers the price list and the logs read in a generated expression. *)
Lemma tiers_agree ts :
  canonical_config ts = true ->
  parseTiersFromExpr (generateExprFromVisualConfig ts) = map parsed_tier ts.
Proof.
  intros Hts. destruct ts as [|t ts]; [done|].
  destruct (generate_shape t ts Hts) as (Hwf & _ & tail & Htail & Hg). rewrite Hg. unfold parseTiersFromExpr.
  pose proof Hwf as [Ht _]%Forall_cons. rewrite version_absent by done.
  replace (truthy _) with true; [|destruct (part_start t Ht) as [H _]; by destruct (part_text t)].
  apply parts_found; [done|]. intros p. destruct Htail as [-> | [_ ->]]; reflexivity.
Qed.
