(* ===== verification/UsageLogs.v ===== *)
(** * Usage logs

    [web/default/src/features/usage-logs]: the queries ([lib/utils.ts], [lib/filter.ts], [api.ts]) and
    the filter bar ([components/common-logs-filter-bar.tsx]), what a log says about its bill
    ([lib/format.ts]) and the tables of labels ([constants.ts], [lib/status.ts]).

    The search parameters of the page are the record of [TableUrl] (texts, arrays of texts and
    integers, as the schema of the route has them).  The default range depends on the clock and on
    the time zone: its two ends are parameters. *)

From stdpp Require Import gmap.
From S2P Require Import Prelude JsString JsNumber Json BillingExpr TableUrl Utf8 UrlEncoding Base64.
Open Scope Z_scope.

(** ** Types of logs *)

Record LogType := { lt_value : Z; lt_label : jstr; lt_color : jstr }.

Definition LOG_TYPES : list LogType :=
  [{| lt_value := 0; lt_label := u "Unknown"; lt_color := u "default" |};
   {| lt_value := 1; lt_label := u "Top-up"; lt_color := u "cyan" |};
   {| lt_value := 2; lt_label := u "Consume"; lt_color := u "green" |};
   {| lt_value := 3; lt_label := u "Manage"; lt_color := u "orange" |};
   {| lt_value := 4; lt_label := u "System"; lt_color := u "purple" |};
   {| lt_value := 5; lt_label := u "Error"; lt_color := u "red" |};
   {| lt_value := 6; lt_label := u "Refund"; lt_color := u "blue" |}].

Definition DISPLAYABLE_LOG_TYPES : list Z := [0; 2; 5; 6].
Definition TIMING_LOG_TYPES : list Z := [2; 5].

Definition isDisplayableLogType (type : Z) : bool := bool_decide (type ∈ DISPLAYABLE_LOG_TYPES).
Definition isTimingLogType (type : Z) : bool := bool_decide (type ∈ TIMING_LOG_TYPES).

Definition getLogTypeConfig (type : Z) : option LogType :=
  match find (fun t => lt_value t =? type) LOG_TYPES with Some t => Some t | None => head LOG_TYPES end.

Definition isPerCallBilling (modelPrice : option num) : bool := flt zero (option_or modelPrice zero).

(** ** Tables of labels *)

Record StatusMapping := { sm_label : jstr; sm_variant : jstr }.

Definition sm (label variant : jstr) : StatusMapping := {| sm_label := label; sm_variant := variant |}.

Definition MJ_TASK_TYPES : list jstr :=
  [u "IMAGINE"; u "UPSCALE"; u "VIDEO"; u "EDITS"; u "VARIATION"; u "HIGH_VARIATION"; u "LOW_VARIATION"; u "PAN";
   u "DESCRIBE"; u "BLEND"; u "UPLOAD"; u "SHORTEN"; u "REROLL"; u "INPAINT"; u "SWAP_FACE"; u "ZOOM";
   u "CUSTOM_ZOOM"; u "MODAL"].

Definition MJ_TASK_STATUS : list jstr :=
  [u "NOT_START"; u "SUBMITTED"; u "IN_PROGRESS"; u "SUCCESS"; u "FAILURE"; u "MODAL"].

Definition TASK_ACTIONS : list jstr :=
  [u "MUSIC"; u "LYRICS"; u "generate"; u "textGenerate"; u "firstTailGenerate"; u "referenceGenerate";
   u "remixGenerate"].

Definition TASK_STATUS : list jstr :=
  [u "NOT_START"; u "SUBMITTED"; u "IN_PROGRESS"; u "SUCCESS"; u "FAILURE"; u "QUEUED"; u "UNKNOWN"].

Definition MJ_TASK_TYPE_MAPPINGS : list (jstr * StatusMapping) :=
  [(u "IMAGINE", sm (u "Draw") (u "blue")); (u "UPSCALE", sm (u "Upscale") (u "orange"));
   (u "VIDEO", sm (u "Video") (u "orange")); (u "EDITS", sm (u "Edit") (u "orange"));
   (u "VARIATION", sm (u "Vary") (u "violet")); (u "HIGH_VARIATION", sm (u "Vary (Strong)") (u "violet"));
   (u "LOW_VARIATION", sm (u "Vary (Subtle)") (u "violet")); (u "PAN", sm (u "Pan") (u "cyan"));
   (u "DESCRIBE", sm (u "Describe") (u "yellow")); (u "BLEND", sm (u "Blend") (u "lime"));
   (u "UPLOAD", sm (u "Upload") (u "blue")); (u "SHORTEN", sm (u "Shorten") (u "pink"));
   (u "REROLL", sm (u "Reroll") (u "indigo")); (u "INPAINT", sm (u "Inpaint") (u "teal"));
   (u "SWAP_FACE", sm (u "Swap Face") (u "purple")); (u "ZOOM", sm (u "Zoom") (u "green"));
   (u "CUSTOM_ZOOM", sm (u "Custom Zoom") (u "green"))].

Definition MJ_STATUS_MAPPINGS : list (jstr * StatusMapping) :=
  [(u "SUCCESS", sm (u "Success") (u "green")); (u "NOT_START", sm (u "Not Started") (u "neutral"));
   (u "SUBMITTED", sm (u "Queued") (u "yellow")); (u "IN_PROGRESS", sm (u "In Progress") (u "blue"));
   (u "FAILURE", sm (u "Failed") (u "red")); (u "MODAL", sm (u "Waiting") (u "amber"))].

Definition MJ_SUBMIT_RESULT_MAPPINGS : list (jstr * StatusMapping) :=
  [(u "1", sm (u "Submitted") (u "green")); (u "21", sm (u "Waiting") (u "lime"));
   (u "22", sm (u "Duplicate") (u "orange")); (u "0", sm (u "Not Submitted") (u "yellow"))].

Definition TASK_ACTION_MAPPINGS : list (jstr * StatusMapping) :=
  [(u "MUSIC", sm (u "Generate Music") (u "neutral")); (u "LYRICS", sm (u "Generate Lyrics") (u "pink"));
   (u "generate", sm (u "Image to Video") (u "blue")); (u "textGenerate", sm (u "Text to Video") (u "blue"));
   (u "firstTailGenerate", sm (u "First/Last Frame to Video") (u "blue"));
   (u "referenceGenerate", sm (u "Reference Video") (u "blue"));
   (u "remixGenerate", sm (u "Video Remix") (u "blue"))].

Definition TASK_STATUS_MAPPINGS : list (jstr * StatusMapping) :=
  [(u "SUCCESS", sm (u "Success") (u "green")); (u "NOT_START", sm (u "Not Started") (u "neutral"));
   (u "SUBMITTED", sm (u "Queued") (u "yellow")); (u "IN_PROGRESS", sm (u "In Progress") (u "blue"));
   (u "FAILURE", sm (u "Failed") (u "red")); (u "QUEUED", sm (u "Queued") (u "orange"));
   (u "UNKNOWN", sm (u "Unknown") (u "neutral"))].

Definition TASK_PLATFORM_MAPPINGS : list (jstr * StatusMapping) :=
  [(u "suno", sm (u "suno") (u "green")); (u "kling", sm (u "kling") (u "blue"));
   (u "runway", sm (u "runway") (u "violet")); (u "luma", sm (u "luma") (u "orange"));
   (u "viggle", sm (u "viggle") (u "pink"))].

(** The two functions of [createStatusMapper], with their default values. *)
Definition getLabel (mapping : list (jstr * StatusMapping)) (status : jstr) : jstr :=
  option_or (option_map sm_label (obj_get status mapping)) (u "Unknown").

Definition getVariant (mapping : list (jstr * StatusMapping)) (status : jstr) : jstr :=
  option_or (option_map sm_variant (obj_get status mapping)) (u "neutral").

(** ** Filters and search parameters *)

Inductive LogCategory := Common | Drawing | Task.

Definition LOG_CATEGORY_LABELS (c : LogCategory) : jstr :=
  match c with Common => u "Common" | Drawing => u "Drawing" | Task => u "Task" end.

(** The filters of the three categories; a date is its milliseconds, [None] is [undefined]. *)
Record LogFilters := {
  startTime : option Z;
  endTime : option Z;
  channel : jstr;
  model : jstr;
  token : jstr;
  group : jstr;
  username : jstr;
  requestId : jstr;
  mjId : jstr;
  taskId : jstr
}.

Definition text_value (v : jstr) : option search_value := if truthy v then Some (SvJson (JStr v)) else None.

Definition baseParams (f : LogFilters) : SearchRecord :=
  put (u "channel") (text_value (channel f))
    (put (u "endTime") (option_map SvNum (endTime f)) (put (u "startTime") (option_map SvNum (startTime f)) ∅)).

Definition buildSearchParams (filters : LogFilters) (logCategory : LogCategory) : SearchRecord :=
  match logCategory with
  | Common =>
      put (u "requestId") (text_value (requestId filters))
        (put (u "username") (text_value (username filters))
          (put (u "group") (text_value (group filters))
            (put (u "token") (text_value (token filters))
              (put (u "model") (text_value (model filters)) (baseParams filters)))))
  | Drawing => put (u "filter") (text_value (mjId filters)) (baseParams filters)
  | Task => put (u "filter") (text_value (taskId filters)) (baseParams filters)
  end.

(** ** The filter bar of the common logs *)

Definition logTypeValues : list jstr := [u "0"; u "1"; u "2"; u "3"; u "4"; u "5"; u "6"].

Definition isLogTypeValue (value : jstr) : bool := bool_decide (value ∈ logTypeValues).

Record FilterBar := { filters : LogFilters; logType : jstr }.

Definition no_filters : LogFilters :=
  {| startTime := None; endTime := None; channel := []; model := []; token := []; group := []; username := [];
     requestId := []; mjId := []; taskId := [] |}.

Definition set_times (start end_ : option Z) (f : LogFilters) : LogFilters :=
  {| startTime := start; endTime := end_; channel := channel f; model := model f; token := token f; group := group f;
     username := username f; requestId := requestId f; mjId := mjId f; taskId := taskId f |}.

(** The text of a search parameter, if it is truthy, else what was there before. *)
Definition url_text (k : jstr) (prev : jstr) (search : SearchRecord) : jstr :=
  match search !! k with Some (SvJson (JStr s)) => if truthy s then s else prev | _ => prev end.

Definition url_date (k : jstr) (prev : option Z) (search : SearchRecord) : option Z :=
  match search !! k with Some (SvNum t) => if t =? 0 then prev else Some t | _ => prev end.

(** The effect that follows the url: what the url has replaces the field, the other fields stay. *)
Definition follow_url (search : SearchRecord) (b : FilterBar) : FilterBar :=
  let f := filters b in
  {| filters :=
       {| startTime := url_date (u "startTime") (startTime f) search;
          endTime := url_date (u "endTime") (endTime f) search;
          channel := url_text (u "channel") (channel f) search; model := url_text (u "model") (model f) search;
          token := url_text (u "token") (token f) search; group := url_text (u "group") (group f) search;
          username := url_text (u "username") (username f) search;
          requestId := url_text (u "requestId") (requestId f) search; mjId := mjId f; taskId := taskId f |};
     logType :=
       match search !! u "type" with Some (SvJson (JArr [JStr t])) => t | _ => logType b end |}.

(** [value] is what the list of types gives, ["all"] for none. *)
Definition selectType (value : jstr) (b : FilterBar) : FilterBar :=
  {| filters := filters b; logType := if isLogTypeValue value then value else [] |}.

(** The url of [handleApply] and of [handleReset]. *)
Definition handleApply (b : FilterBar) : SearchRecord :=
  put (u "page") (Some (SvNum 1))
    (put (u "type") (if truthy (logType b) then Some (SvJson (JArr [JStr (logType b)])) else None)
      (buildSearchParams (filters b) Common)).

(** The parameters of a request; [None] is [undefined]. *)
Abbreviation QueryParams := (list (jstr * option search_value)).

Section DefaultRange.

(** The start of the day and the end one hour from now, in milliseconds. *)
Context (default_start default_end : Z).

Definition initial_bar : FilterBar :=
  {| filters := set_times (Some default_start) (Some default_end) no_filters; logType := [] |}.

Definition handleReset : FilterBar * SearchRecord :=
  (initial_bar,
   put (u "endTime") (Some (SvNum default_end))
     (put (u "startTime") (Some (SvNum default_start)) (put (u "page") (Some (SvNum 1)) ∅))).

(** ** Requests *)

Definition value_truthy (v : search_value) : bool :=
  match v with SvNum n => negb (n =? 0) | SvJson j => json_truthy j end.

Definition value_string (v : search_value) : jstr :=
  match v with SvNum n => string_of_int n | SvJson j => json_to_string j end.

(** [Number(v) || 0] *)
Definition json_number (j : json) : num := f_or (option_or (to_num (Some j)) nan) zero.

Definition value_number (v : search_value) : num :=
  match v with SvNum n => num_of_Z n | SvJson j => json_number j end.

Definition timestampToSeconds (ms : Z) : Z := ms / 1000.

Definition buildTimeRangeParams (searchParams : SearchRecord) (useMilliseconds : bool) : QueryParams :=
  let time k := match searchParams !! k with Some (SvNum t) => Some t | _ => None end in
  let hasTimeParams :=
    match time (u "startTime"), time (u "endTime") with Some t, _ | None, Some t => negb (t =? 0) | None, None => false end in
  let convertTimestamp t := if useMilliseconds then t else timestampToSeconds t in
  let getTimestamp paramTime defaultTime :=
    let t := match paramTime with
             | Some t => if t =? 0 then (if hasTimeParams then None else Some defaultTime) else Some t
             | None => if hasTimeParams then None else Some defaultTime
             end in
    match t with Some t => if t =? 0 then None else Some (SvNum (convertTimestamp t)) | None => None end in
  [(u "start_timestamp", getTimestamp (time (u "startTime")) default_start);
   (u "end_timestamp", getTimestamp (time (u "endTime")) default_end)].

(** A property that is there when the search parameter is truthy. *)
Definition when_param (searchParams : SearchRecord) (k name : jstr) (f : search_value -> option search_value) : QueryParams :=
  match searchParams !! k with Some v => if value_truthy v then [(name, f v)] else [] | None => [] end.

Definition as_text (v : search_value) : option search_value := Some (SvJson (JStr (value_string v))).
Definition as_number (v : search_value) : option search_value := Some (SvJson (JNum (value_number v))).

Definition buildBaseParams (page pageSize : Z) (searchParams : SearchRecord) (useMilliseconds : bool) : QueryParams :=
  [(u "p", Some (SvNum page)); (u "page_size", Some (SvNum pageSize))]
  ++ when_param searchParams (u "channel") (u "channel_id") as_text
  ++ buildTimeRangeParams searchParams useMilliseconds.

(** [Number] of the only element of an array. *)
Definition processType (v : search_value) : option search_value :=
  match v with
  | SvJson (JArr [x]) => Some (SvJson (JNum (option_or (to_num (Some x)) nan)))
  | _ => None
  end.

(** What a column filter sets. *)
Definition column_param (isAdmin : bool) (f : ColumnFilter) (params : QueryParams) : QueryParams :=
  let text := Some (SvJson (JStr (json_to_string (f_value f)))) in
  match f_value f with
  | JNull | JStr [] => params
  | _ =>
      if jeqb (f_id f) (u "type") then obj_set (u "type") (processType (SvJson (f_value f))) params
      else if jeqb (f_id f) (u "model_name") then obj_set (u "model_name") text params
      else if jeqb (f_id f) (u "token_name") then obj_set (u "token_name") text params
      else if jeqb (f_id f) (u "group") then obj_set (u "group") text params
      else if jeqb (f_id f) (u "channel") then
        if isAdmin then obj_set (u "channel") (Some (SvJson (JNum (json_number (f_value f))))) params else params
      else if jeqb (f_id f) (u "username") then
        if isAdmin then obj_set (u "username") text params else params
      else params
  end.

Definition buildApiParams (page pageSize : Z) (searchParams : SearchRecord) (columnFilters : ColumnFiltersState)
    (isAdmin : bool) : QueryParams :=
  let when := when_param searchParams in
  let params :=
    [(u "p", Some (SvNum page)); (u "page_size", Some (SvNum pageSize))]
    ++ when (u "type") (u "type") processType
    ++ when (u "model") (u "model_name") as_text
    ++ when (u "token") (u "token_name") as_text
    ++ when (u "group") (u "group") as_text
    ++ (if isAdmin then when (u "channel") (u "channel") as_number else [])
    ++ (if isAdmin then when (u "username") (u "username") as_text else [])
    ++ when (u "requestId") (u "request_id") as_text
    ++ buildTimeRangeParams searchParams false in
  fold_left (fun params f => column_param isAdmin f params) columnFilters params.

(** Neither [undefined] nor [null] nor the empty text is sent. *)
Definition buildQueryParams (params : QueryParams) : list (jstr * jstr) :=
  flat_map (fun kv : jstr * option search_value =>
    match kv.2 with
    | None | Some (SvJson JNull) | Some (SvJson (JStr [])) => []
    | Some v => [(kv.1, value_string v)]
    end) params.

Definition buildApiPath (endpoint : jstr) (isAdmin : bool) : jstr :=
  if isAdmin then endpoint else endpoint ++ u "/self".

(** [params.k || d] *)
Definition param_or (k : jstr) (d : Z) (params : QueryParams) : option search_value :=
  match obj_get k params with
  | Some (Some v) => if value_truthy v then Some v else Some (SvNum d)
  | _ => Some (SvNum d)
  end.

(** The url of the request. *)
Definition fetchLogs (endpoint : jstr) (params : QueryParams) (isAdmin : bool) : jstr :=
  let queryParams := buildQueryParams
    (assign [(u "p", param_or (u "p") 1 params); (u "page_size", param_or (u "page_size") 20 params)] params) in
  buildApiPath endpoint isAdmin ++ u "?" ++ form_serialize queryParams.

Definition fetchLogStats (endpoint : jstr) (params : QueryParams) (isAdmin : bool) : jstr :=
  buildApiPath endpoint isAdmin ++ u "/stat?" ++ form_serialize (buildQueryParams params).

Definition fetchLogsByCategory (logCategory : LogCategory) (isAdmin : bool) (page pageSize : Z)
    (searchParams : SearchRecord) (columnFilters : ColumnFiltersState) : jstr :=
  match logCategory with
  | Common => fetchLogs (u "/api/log") (buildApiParams page pageSize searchParams columnFilters isAdmin) isAdmin
  | Drawing =>
      fetchLogs (u "/api/mj")
        (buildBaseParams page pageSize searchParams true ++ [(u "mj_id", searchParams !! u "filter")]) isAdmin
  | Task =>
      fetchLogs (u "/api/task")
        (buildBaseParams page pageSize searchParams false ++ [(u "task_id", searchParams !! u "filter")]) isAdmin
  end.

End DefaultRange.

(** The columns of the table whose filters are in the url ([components/usage-logs-table.tsx]). *)
Definition text_column (id k : jstr) : ColumnFilterCfg :=
  {| cf_columnId := id; cf_searchKey := k; cf_type := Some TypeString; cf_serialize := None; cf_deserialize := None |}.

Definition log_columns (isAdmin : bool) : list ColumnFilterCfg :=
  [{| cf_columnId := u "created_at"; cf_searchKey := u "type"; cf_type := Some TypeArray; cf_serialize := None; cf_deserialize := None |};
   text_column (u "model_name") (u "model"); text_column (u "token_name") (u "token"); text_column (u "group") (u "group")]
  ++ (if isAdmin then [text_column (u "channel") (u "channel"); text_column (u "username") (u "username")] else []).

(** ** What a log says about itself *)

Definition PARAM_OVERRIDE_ACTION_MAP : list (jstr * jstr) :=
  [(u "set", u "Set"); (u "delete", u "Delete"); (u "copy", u "Copy"); (u "move", u "Move"); (u "append", u "Append");
   (u "prepend", u "Prepend"); (u "trim_prefix", u "Trim Prefix"); (u "trim_suffix", u "Trim Suffix");
   (u "ensure_prefix", u "Ensure Prefix"); (u "ensure_suffix", u "Ensure Suffix"); (u "trim_space", u "Trim Space");
   (u "to_lower", u "To Lower"); (u "to_upper", u "To Upper"); (u "replace", u "Replace");
   (u "regex_replace", u "Regex Replace"); (u "set_header", u "Set Header"); (u "delete_header", u "Delete Header");
   (u "copy_header", u "Copy Header"); (u "move_header", u "Move Header"); (u "pass_headers", u "Pass Headers");
   (u "sync_fields", u "Sync Fields"); (u "return_error", u "Return Error")].

Record AuditLine := { action : jstr; content : jstr }.

Definition parseAuditLine (line : jstr) : AuditLine :=
  match index_of (u " ") line with
  | None | Some O => {| action := line; content := line |}
  | Some firstSpace => {| action := take firstSpace line; content := drop (firstSpace + 1) line |}
  end.

Inductive time_color := TimeSuccess | TimeWarning | TimeDanger.

Definition getTimeColor (seconds : num) : time_color :=
  if flt seconds (num_of_Z 10) then TimeSuccess
  else if flt seconds (num_of_Z 30) then TimeWarning else TimeDanger.

Definition getFirstResponseTimeColor (seconds : num) : time_color :=
  if flt seconds (num_of_Z 5) then TimeSuccess
  else if flt seconds (num_of_Z 10) then TimeWarning else TimeDanger.

Definition getThroughputColor (tokensPerSecond : num) : time_color :=
  if fle (num_of_Z 30) tokensPerSecond then TimeSuccess
  else if fle (num_of_Z 15) tokensPerSecond then TimeWarning else TimeDanger.

Definition getResponseTimeColor (seconds completionTokens : num) : time_color :=
  if flt completionTokens (num_of_Z 100) || fle seconds zero then getTimeColor seconds
  else getThroughputColor (fdiv completionTokens seconds).

(** [None] is [null]: no text, or a text that is no JSON. *)
Definition parseLogOther (other : jstr) : option json :=
  if truthy other then match json_parse other with Some JNull => None | r => r end else None.

(** A property of the parsed data, [undefined] also when there is none ([other?.k]). *)
Definition other_field (k : jstr) (other : option json) : option json :=
  match other with Some j => Json.field k j | None => None end.

Definition field_truthy (k : jstr) (other : option json) : bool :=
  match truthy_field (other_field k other) with Some _ => true | None => false end.

Definition isViolationFeeLog (other : option json) : bool :=
  match other with
  | Some j =>
      json_truthy j &&
      (true_field (u "violation_fee") j || field_truthy (u "violation_fee_code") other
       || field_truthy (u "violation_fee_marker") other)
  | None => false
  end.

Record ModelName := { name : jstr; isMapped : bool; actualModel : option json }.

Definition formatModelName (model_name other : jstr) : ModelName :=
  let other := parseLogOther other in
  let isMapped := field_truthy (u "is_model_mapped") other && field_truthy (u "upstream_model_name") other in
  {| name := model_name; isMapped := isMapped;
     actualModel := if isMapped then other_field (u "upstream_model_name") other else None |}.

(** [(other.k || 0) > 0] *)
Definition field_positive (k : jstr) (other : option json) : bool :=
  match truthy_field (other_field k other) with
  | Some j => flt zero (option_or (to_num (Some j)) nan)
  | None => false
  end.

Definition hasAnyCacheTokens (other : option json) : bool :=
  match other with
  | Some j =>
      json_truthy j &&
      (field_positive (u "cache_tokens") other || field_positive (u "cache_creation_tokens") other
       || field_positive (u "cache_creation_tokens_5m") other || field_positive (u "cache_creation_tokens_1h") other)
  | None => false
  end.

(** The bytes of [atob] as text; the empty text for no value and for the exception of [atob]. *)
Definition decodeBillingExprB64 (exprB64 : option jstr) : jstr :=
  match exprB64 with
  | None | Some [] => []
  | Some e =>
      match atob e with
      | Some binaryString => utf8_decode (map (fun c => N.modulo c 256) binaryString)
      | None => []
      end
  end.

Section Bill.
Context (toLowerCase : jstr -> jstr).

(** For an action that is not the name of an inherited property ([constructor]). *)
Definition getParamOverrideActionLabel (act : jstr) (t : jstr -> jstr) : jstr :=
  match obj_get (toLowerCase act) PARAM_OVERRIDE_ACTION_MAP with
  | Some key => t key
  | None => act
  end.

Definition resolveMatchedTier (tiers : list ParsedTier) (matchedLabel : option jstr) : option ParsedTier :=
  match tiers, matchedLabel with
  | [], _ | _, None | _, Some [] => None
  | _, Some matched =>
      find (fun tier =>
        let l1 := normalizeTierLabel toLowerCase (Some (tier_label tier)) in
        let l2 := normalizeTierLabel toLowerCase (Some matched) in
        jeqb l1 l2 && truthy l1) tiers
  end.

Record PriceEntry := { pe_field : jstr; pe_label : jstr; price : num }.

Record TieredBillingSummary := {
  tiers : list ParsedTier;
  tier : ParsedTier;
  priceEntries : list PriceEntry
}.

(** The entry of a variable, if its price is to be shown. *)
Definition price_entry (cacheTokensPresent : bool) (t : ParsedTier) (v : BillingVar) : list PriceEntry :=
  match BillingExpr.field v with
  | None => []
  | Some f =>
      if match group_ v with Some g => jeqb g (u "cache") | None => false end && negb cacheTokensPresent then []
      else match obj_get f (prices t) with
           | Some x => if is_finite x && flt zero x
                       then [{| pe_field := f; pe_label := shortLabel v; price := x |}] else []
           | None => []
           end
  end.

(** A text field of the data of a log, as its type has it. *)
Definition text_field (k : jstr) (other : json) : option jstr :=
  match Json.field k other with Some (JStr s) => Some s | _ => None end.

Definition getTieredBillingSummary (other : option json) : option TieredBillingSummary :=
  match other with
  | None => None
  | Some o =>
      if negb (jeqb (str_field (u "billing_mode") o) (u "tiered_expr")) then None else
      let exprStr := decodeBillingExprB64 (text_field (u "expr_b64") o) in
      if negb (truthy exprStr) then None else
      let tiers := parseTiersFromExpr exprStr in
      match resolveMatchedTier tiers (text_field (u "matched_tier") o) with
      | None => None
      | Some t =>
          Some {| tiers := tiers; tier := t;
                  priceEntries := flat_map (price_entry (hasAnyCacheTokens other) t) BILLING_PRICING_VARS |}
      end
  end.

End Bill.

Inductive duration_unit := UnitSeconds | UnitMilliseconds.

Record Duration := { durationSec : num; d_red : bool }.

(** [None] is [undefined] for a time, and [null] for the result. *)
Definition formatDuration (submitTime finishTime : option num) (unit : duration_unit) : option Duration :=
  match submitTime, finishTime with
  | Some s, Some f =>
      if negb (ftruthy s) || negb (ftruthy f) then None else
      let d := match unit with
               | UnitMilliseconds => fdiv (fsub f s) (num_of_Z 1000)
               | UnitSeconds => fsub f s
               end in
      Some {| durationSec := d; d_red := flt (num_of_Z 60) d |}
  | _, _ => None
  end.
