(* ===== verification/UsageLogFacts.v ===== *)
(** * Properties of the usage logs

    A log shows the prices of the tier that was billed; the request of the page carries the filters
    of the bar; a user's request is limited to the user's own logs. *)

From stdpp Require Import gmap.
From S2P Require Import Prelude JsString JsRegex JsNumber Json JsonFacts BillingExpr BillingRules TierExpr TierFacts TierAgreement TableUrl TableUrlFacts Utf8 UrlEncoding Base64 UsageLogs.
Open Scope N_scope.

(** ** Well-formed texts *)

Lemma num_chars_ascii s : forallb num_char s = true -> well_formed s = true.
Proof.
  intros H. apply ascii_well_formed. eapply forallb_impl; [|exact H]. intros c Hc. unfold num_char, one_of, is_digit, in_range, is_ascii in *.
  change (u ".eE+-") with [46; 101; 69; 43; 45] in Hc. cbn [existsb] in Hc. lia.
Qed.

Lemma cond_chars_ascii s : forallb cond_num_char s = true -> well_formed s = true.
Proof.
  intros H. apply num_chars_ascii. eapply forallb_impl; [|exact H]. intros c Hc. unfold num_char, cond_num_char, one_of in *.
  change (u ".eE+-") with [46; 101; 69; 43; 45]. change (u ".eE+") with [46; 101; 69; 43] in Hc. cbn [existsb] in *. lia.
Qed.

(** Splits a text into pieces that are well formed by computation or by hypothesis. *)
Ltac pieces := repeat (apply well_formed_app); try done.

Lemma tier_text_formed t : tier_wf t -> well_formed (vt_label t) = true -> well_formed (tier_text t) = true.
Proof.
  intros [_ _ Hi Ho Hc _] Hl. destruct (extras_of_spec _ Hc) as [He1 He2].
  destruct (cost_ok_spec _ Hi) as (_ & Hi2 & _). destruct (cost_ok_spec _ Ho) as (_ & Ho2 & _).
  unfold tier_text, call_text, body_text. pieces; try (by apply num_chars_ascii). apply well_formed_flat.
  assert (Forall (fun v => well_formed v = true) (map fst (extras_of (unit_costs t)))) as Hv.
  { rewrite He1. apply Forall_forall. intros v Hin. repeat (apply elem_of_cons in Hin as [->|Hin]; [done|]).
    by apply elem_of_nil in Hin. }
  clear He1. induction He2 as [|[v [n|]] l Hn _ IH]; [constructor| |]; apply Forall_cons in Hv as [H1 H2];
    (constructor; [|by apply IH]); [|done].
  unfold cost_text. pieces. apply num_chars_ascii. by destruct Hn.
Qed.

Lemma condition_formed c : canonical_condition c = true -> well_formed (condition_text c) = true.
Proof.
  intros (x & _ & -> & Hv & Ho & _ & Hn & _)%canonical_condition_spec. unfold atom_text. pieces.
  - repeat (apply elem_of_cons in Hv as [->|Hv]; [done|]). by apply elem_of_nil in Hv.
  - repeat (apply elem_of_cons in Ho as [->|Ho]; [done|]). by apply elem_of_nil in Ho.
  - by apply cond_chars_ascii.
Qed.

Lemma part_formed t : tier_wf t -> well_formed (vt_label t) = true -> well_formed (part_text t) = true.
Proof.
  intros Ht Hl. pose proof (wf_conditions t Ht) as Hcs. unfold part_text.
  destruct (vt_conditions t) as [|c cs]; [by apply tier_text_formed|]. apply well_formed_app; [|apply well_formed_app; [done|by apply tier_text_formed]].
  rewrite forallb_Forall in Hcs. apply Forall_cons in Hcs as [Hc Hcs]. cbn [map]. rewrite join_flat.
  apply well_formed_app; [by apply condition_formed|]. apply well_formed_flat, Forall_map. eapply Forall_impl; [exact Hcs|].
  intros d Hd. apply well_formed_app; [done|by apply condition_formed].
Qed.

Lemma generated_formed ts :
  canonical_config ts = true -> forallb (fun t => well_formed (vt_label t)) ts = true ->
  well_formed (generateExprFromVisualConfig ts) = true /\
  exists c s, generateExprFromVisualConfig ts = c :: s /\ c < 128.
Proof.
  intros Hts Hl. destruct ts as [|t ts]; [done|]. destruct (generate_shape t ts Hts) as (Hwf & _ & tail & Htail & ->).
  rewrite forallb_Forall in Hl. pose proof Hwf as [Ht Hts']%Forall_cons. apply Forall_cons in Hl as [Hl Hls]. split.
  - apply well_formed_app; [by apply part_formed|]. apply well_formed_app; [|by destruct Htail as [-> | [_ ->]]].
    apply well_formed_flat, Forall_forall. intros x Hx. apply well_formed_app; [done|]. rewrite Forall_forall in Hts', Hls. apply part_formed; auto.
  - unfold part_text. destruct (vt_conditions t) as [|c cs] eqn:Ec.
    + eexists _, _. split; [reflexivity|done].
    + pose proof (wf_conditions t Ht) as Hc. rewrite Ec in Hc. cbn [forallb] in Hc.
      apply andb_prop in Hc as [(x & _ & E & Hv & _)%canonical_condition_spec _]. cbn [map]. rewrite join_flat, E. unfold atom_text.
      repeat (apply elem_of_cons in Hv as [->|Hv]; [eexists _, _; split; [reflexivity|done]|]). by apply elem_of_nil in Hv.
Qed.

(** ** The bill of a log *)

(** The text of an expression in a log: its bytes in base64. *)
Definition expr_b64 (expr : jstr) : jstr := encode_bytes (utf8_encode expr).

Lemma decode_expr_b64 c s :
  c < 128 -> well_formed (c :: s) = true -> decodeBillingExprB64 (Some (expr_b64 (c :: s))) = c :: s.
Proof.
  intros Hc Hs. pose proof (utf8_encode_bytes _ (well_formed_units _ Hs)) as Hb.
  pose proof (utf8_roundtrip (c :: s) Hs ltac:(intros t' [= ->]; lia)) as Hr.
  unfold decodeBillingExprB64, expr_b64. remember (utf8_encode (c :: s)) as bs eqn:Ebs. clear Ebs.
  destruct (encode_bytes bs) as [|e t] eqn:E.
  - exfalso. pose proof (atob_encode _ Hb) as H. rewrite E in H. injection H as <-. done.
  - rewrite <- E, atob_encode, <- Hr by done. f_equal. rewrite <- (map_id bs) at 2. apply map_ext_Forall. eapply Forall_impl; [exact Hb|].
    intros b Hlt. by apply N.mod_small.
Qed.

(** The entries of a tier: its positive costs, in the order of the registry, those of the cache when
    the request used the cache. *)
Definition cost_entry (cached : bool) (t : VisualTier) (v : BillingVar) : list PriceEntry :=
  if (bool_decide (group_ v = Some (u "cache")) && negb cached) || negb (is_finite (tier_cost t v) && flt zero (tier_cost t v))
  then [] else [{| pe_field := option_or (BillingExpr.field v) []; pe_label := shortLabel v; price := tier_cost t v |}].

Lemma tier_price_get t v :
  v ∈ BILLING_PRICING_VARS -> obj_get (option_or (BillingExpr.field v) []) (tier_prices t) = Some (tier_cost t v).
Proof.
  intros Hv. apply obj_get_elem.
  - unfold tier_prices. rewrite map_map. cbn [fst]. apply (bool_decide_unpack _). by vm_compute.
  - exact (list_elem_of_fmap_2 (fun v => (option_or (BillingExpr.field v) [], tier_cost t v)) _ _ Hv).
Qed.

Lemma entries_of_tier cached t :
  flat_map (price_entry cached (parsed_tier t)) BILLING_PRICING_VARS = flat_map (cost_entry cached t) BILLING_PRICING_VARS.
Proof.
  rewrite !flat_map_concat_map. f_equal. apply map_ext_in. intros v Hv%list_elem_of_In. unfold price_entry, cost_entry. cbn [parsed_tier prices].
  assert (exists f, BillingExpr.field v = Some f) as [f Ef].
  { repeat (apply elem_of_cons in Hv as [->|Hv]; [by eexists|]). by apply elem_of_nil in Hv. }
  pose proof (tier_price_get t v Hv) as Hg. rewrite Ef in *. cbn [option_or] in *. rewrite Hg.
  replace (match group_ v with Some g => jeqb g (u "cache") | None => false end) with (bool_decide (group_ v = Some (u "cache"))).
  - destruct (bool_decide _ && _); [done|]. by destruct (is_finite _ && _).
  - destruct (group_ v) as [g|]; [|done]. unfold jeqb. apply bool_decide_ext. split; [by intros [= ->]|by intros ->].
Qed.

Section Matched.
Context (toLowerCase : jstr -> jstr).

Definition norm (t : VisualTier) : jstr := normalizeTierLabel toLowerCase (Some (vt_label t)).

(** Position j holds the first tier that has the label of [t] for the comparison. *)
Definition first_with (ts : list VisualTier) (t : VisualTier) (j : nat) (t' : VisualTier) : Prop :=
  ts !! j = Some t' /\ norm t' = norm t /\ forall k tk, (k < j)%nat -> ts !! k = Some tk -> norm tk <> norm t.

Lemma first_with_cons t0 ts t j t' :
  norm t0 <> norm t -> first_with ts t j t' -> first_with (t0 :: ts) t (S j) t'.
Proof. intros Hne (H1 & H2 & H3). split; [done|]. split; [done|]. intros [|k] tk Hk Hl; [by injection Hl as <-|]. apply (H3 k tk); [lia|done]. Qed.

Lemma first_with_unique ts t j t' i :
  first_with ts t j t' -> ts !! i = Some t -> NoDup (map norm ts) -> t' = t.
Proof.
  intros (H1 & H2 & _) Hi Hnd. assert (j = i) as ->.
  { change (map norm ts) with (norm <$> ts) in Hnd. eapply (NoDup_lookup _ _ _ (norm t)); [exact Hnd|..]; rewrite list_lookup_fmap.
    - rewrite H1. by apply (f_equal Some).
    - by rewrite Hi. }
  congruence.
Qed.

(** The first tier with the label is found; a label with nothing left for the comparison finds none. *)
Lemma matched_tier_found ts i t :
  ts !! i = Some t -> norm t <> [] ->
  exists j t', (j <= i)%nat /\ first_with ts t j t' /\
    resolveMatchedTier toLowerCase (map parsed_tier ts) (Some (vt_label t)) = Some (parsed_tier t').
Proof.
  intros Hi Hne. unfold resolveMatchedTier. assert (vt_label t <> []) as Hl by (intros E; apply Hne; unfold norm; by rewrite E).
  destruct (map parsed_tier ts) as [|p0 ps] eqn:E; [by destruct ts|]. destruct (vt_label t) as [|c s] eqn:El; [done|].
  rewrite <- E, <- El. clear E p0 ps. revert i Hi. induction ts as [|t0 ts IH]; intros i Hi; [done|].
  cbn [map find]. cbn [parsed_tier tier_label]. fold (norm t0) (norm t). destruct (jeqb (norm t0) (norm t)) eqn:Eq.
  - apply jeqb_spec in Eq. exists 0%nat, t0. split; [lia|]. split; [|rewrite Eq; by destruct (norm t)].
    split; [done|]. split; [done|]. intros k tk Hk. lia.
  - destruct i as [|i]; [injection Hi as ->; by rewrite jeqb_refl in Eq|].
    destruct (IH i Hi) as (j & t' & Hj & Hf & Hr). exists (S j), t'. split; [lia|]. split; [|exact Hr].
    apply first_with_cons; [by apply jeqb_neq|done].
Qed.

Lemma matched_tier_blank ts t :
  norm t = [] -> resolveMatchedTier toLowerCase (map parsed_tier ts) (Some (vt_label t)) = None.
Proof.
  intros Hne. unfold resolveMatchedTier. destruct (map parsed_tier ts) as [|p0 ps]; [done|]. destruct (vt_label t) as [|c s] eqn:El; [done|].
  rewrite <- El. fold (norm t). rewrite Hne. induction (p0 :: ps) as [|p l IH]; [done|]. cbn [find]. cbv zeta.
  destruct (normalizeTierLabel toLowerCase (Some (tier_label p))); exact IH.
Qed.

End Matched.

(** C10: Which bill a log shows.  The expression generated from a canonical configuration, stored by
    the server as base64 of its UTF-8 bytes next to the label of the tier that it billed, is decoded
    and read back by the log as all the tiers of the configuration.  When the label of the billed
    tier is not empty for the comparison of labels (which ignores case, white space and the form of
    comparison signs), the log shows the first tier whose label is equal for that comparison, with
    exactly the positive costs of that tier, the cache costs only when the request used the cache;
    when no two labels are equal for the comparison, that is the billed tier itself.  A label that is
    empty for the comparison shows no bill. *)
Theorem log_shows_tier toLowerCase ts i t o :
  canonical_config ts = true -> forallb (fun t => well_formed (vt_label t)) ts = true ->
  ts !! i = Some t ->
  str_field (u "billing_mode") o = u "tiered_expr" ->
  Json.field (u "expr_b64") o = Some (JStr (expr_b64 (generateExprFromVisualConfig ts))) ->
  Json.field (u "matched_tier") o = Some (JStr (vt_label t)) ->
  (norm toLowerCase t = [] -> getTieredBillingSummary toLowerCase (Some o) = None) /\
  (norm toLowerCase t <> [] ->
   exists j t', (j <= i)%nat /\ first_with toLowerCase ts t j t' /\
     (NoDup (map (norm toLowerCase) ts) -> t' = t) /\
     getTieredBillingSummary toLowerCase (Some o) =
       Some {| tiers := map parsed_tier ts; tier := parsed_tier t';
               priceEntries := flat_map (cost_entry (hasAnyCacheTokens (Some o)) t') BILLING_PRICING_VARS |}).
Proof.
  intros Hts Hl Hi Hmode Hexpr Hmatch. destruct (generated_formed ts Hts Hl) as [Hwf (c & s & E & Hc)].
  unfold getTieredBillingSummary, text_field. rewrite Hmode, jeqb_refl, Hexpr, Hmatch, E. cbn [negb].
  rewrite decode_expr_b64 by (done || by rewrite <- E). cbn [truthy negb]. rewrite <- E, tiers_agree by done. split.
  - intros Hb. by rewrite matched_tier_blank.
  - intros Hne. destruct (matched_tier_found toLowerCase ts i t Hi Hne) as (j & t' & Hj & Hf & ->). exists j, t'.
    split; [done|]. split; [done|]. split; [by intros; eapply first_with_unique|]. by rewrite entries_of_tier.
Qed.

Definition sample_log : json :=
  JObj [(u "billing_mode", JStr (u "tiered_expr"));
        (u "expr_b64", JStr (expr_b64 (generateExprFromVisualConfig sample_config)));
        (u "matched_tier", JStr (u "standard")); (u "cache_tokens", JNum (num_of_Z 12))].

(** Two tiers whose labels differ only in case: the log of the second one shows the prices of the
    first. *)
Definition twin_config : list VisualTier :=
  match sample_config with
  | [a; b] =>
      [a; {| vt_label := u "Standard"; vt_conditions := []; input_unit_cost := input_unit_cost b;
             output_unit_cost := output_unit_cost b; cache_mode := cache_mode b; unit_costs := unit_costs b |}]
  | l => l
  end.

Definition twin_log : json :=
  JObj [(u "billing_mode", JStr (u "tiered_expr"));
        (u "expr_b64", JStr (expr_b64 (generateExprFromVisualConfig twin_config)));
        (u "matched_tier", JStr (u "Standard"))].

(** On a configuration with distinct labels, and on the one with the two labels: the latter shows
    the first tier. *)
Lemma log_shows_tier_witness :
  (exists t, sample_config !! 0%nat = Some t /\
    getTieredBillingSummary latin_lower (Some sample_log) =
    Some {| tiers := map parsed_tier sample_config; tier := parsed_tier t;
            priceEntries := flat_map (cost_entry true t) BILLING_PRICING_VARS |} /\
    map (fun e => (pe_label e, num_to_string (price e))) (flat_map (cost_entry true t) BILLING_PRICING_VARS)
    = [(u "Input", u "3"); (u "Output", u "15"); (u "Cache Read", u "0.3"); (u "Cache Write (1h)", u "6")]) /\
  exists j t', (j <= 1)%nat /\
    option_map tier (getTieredBillingSummary latin_lower (Some twin_log)) = Some (parsed_tier t').
Proof.
  split.
  - eexists. split; [reflexivity|]. split; [|vm_compute; reflexivity].
    destruct (proj2 (log_shows_tier latin_lower sample_config 0 _ sample_log ltac:(by vm_compute) ltac:(by vm_compute) eq_refl
      ltac:(by vm_compute) ltac:(by vm_compute) ltac:(by vm_compute)) ltac:(by vm_compute)) as (j & t' & _ & _ & Ht & Hs).
    rewrite (Ht ltac:(apply (bool_decide_unpack _); by vm_compute)) in Hs. exact Hs.
  - destruct (proj2 (log_shows_tier latin_lower twin_config 1 _ twin_log ltac:(by vm_compute) ltac:(by vm_compute) eq_refl
      ltac:(by vm_compute) ltac:(by vm_compute) ltac:(by vm_compute)) ltac:(by vm_compute)) as (j & t' & Hj & _ & _ & Hs).
    exists j, t'. split; [exact Hj|]. by rewrite Hs.
Defined.

Example twin_labels :
  canonical_config twin_config = true /\
  option_map (fun s => map (fun e => num_to_string (price e)) (priceEntries s))
    (getTieredBillingSummary latin_lower (Some twin_log)) = Some [u "3"; u "15"].
Proof. split; vm_compute; reflexivity. Qed.

(** ** Requests *)

Open Scope Z_scope.

(** A parameter that is there under a condition. *)
Definition opt_param (k : jstr) (b : bool) (v : search_value) : QueryParams := if b then [(k, Some v)] else [].

Lemma obj_get_app {V} k (a b : list (jstr * V)) :
  obj_get k (a ++ b) = match obj_get k a with Some v => Some v | None => obj_get k b end.
Proof. induction a as [|[k' v] a IH]; [done|]. cbn [app obj_get]. by destruct (jeqb k' k). Qed.

Lemma obj_get_opt k k' b v : obj_get k (opt_param k' b v) = if jeqb k' k && b then Some (Some v) else None.
Proof. destruct b; cbn [opt_param obj_get]; destruct (jeqb k' k); done. Qed.

Lemma params_set_same {V} k (v : V) f : obj_get k f = Some v -> obj_set k v f = f.
Proof.
  induction f as [|[k' w] f IH]; [done|]. cbn [obj_get obj_set]. destruct (jeqb k' k) eqn:E.
  - intros [= ->]. apply jeqb_spec in E as ->. done.
  - intros H. by rewrite IH.
Qed.

Lemma when_text search k name s :
  search !! k = text_value s -> when_param search k name as_text = opt_param name (truthy s) (SvJson (JStr s)).
Proof. intros H. unfold when_param. rewrite H. by destruct s. Qed.

Lemma when_number search k name s :
  search !! k = text_value s ->
  when_param search k name as_number = opt_param name (truthy s) (SvJson (JNum (json_number (JStr s)))).
Proof. intros H. unfold when_param. rewrite H. by destruct s. Qed.

(** The filter of a text column repeats what the search parameter says. *)
Lemma column_same isAdmin search id k s v params :
  search !! k = text_value s ->
  (truthy s = true -> column_param isAdmin {| f_id := id; f_value := JStr s |} params = obj_set id (Some v) params) ->
  (truthy s = true -> obj_get id params = Some (Some v)) ->
  fold_left (fun params f => column_param isAdmin f params) (option_list (read_filter search (text_column id k))) params = params.
Proof.
  intros Hs Hc Hg. unfold read_filter, deserialize. cbn [text_column cf_type cf_searchKey cf_columnId cf_deserialize]. rewrite Hs.
  destruct s as [|c s]; [done|]. cbn [text_value truthy]. destruct (truthy (trim (c :: s))); [|done].
  etrans; [exact (Hc eq_refl)|]. by apply params_set_same, Hg.
Qed.

Lemma omap_cons_list {A B} (f : A -> option B) x l : omap f (x :: l) = option_list (f x) ++ omap f l.
Proof. cbn. by destruct (f x). Qed.

(** The parameters of the url that the bar writes. *)
Section Applied.
Context (b : FilterBar).

Ltac applied := unfold handleApply, buildSearchParams, baseParams;
  repeat (first [rewrite lookup_put | rewrite lookup_put_ne by done]); try reflexivity.

Lemma applied_type :
  handleApply b !! u "type" = if truthy (logType b) then Some (SvJson (JArr [JStr (logType b)])) else None.
Proof. applied. Qed.
Lemma applied_channel : handleApply b !! u "channel" = text_value (channel (filters b)).
Proof. applied. Qed.
Lemma applied_model : handleApply b !! u "model" = text_value (model (filters b)).
Proof. applied. Qed.
Lemma applied_token : handleApply b !! u "token" = text_value (token (filters b)).
Proof. applied. Qed.
Lemma applied_group : handleApply b !! u "group" = text_value (group (filters b)).
Proof. applied. Qed.
Lemma applied_username : handleApply b !! u "username" = text_value (username (filters b)).
Proof. applied. Qed.
Lemma applied_request : handleApply b !! u "requestId" = text_value (requestId (filters b)).
Proof. applied. Qed.
Lemma applied_start : handleApply b !! u "startTime" = option_map SvNum (startTime (filters b)).
Proof. applied. Qed.
Lemma applied_end : handleApply b !! u "endTime" = option_map SvNum (endTime (filters b)).
Proof. applied. Qed.
End Applied.

Lemma string_of_int_ascii z : well_formed (string_of_int z) = true.
Proof.
  apply ascii_well_formed. assert (forall n, forallb is_ascii (string_of_N n) = true) as H.
  { intros n. eapply forallb_impl; [|apply string_of_N_digits]. intros c. unfold is_digit, in_range, is_ascii. lia. }
  destruct z; cbn [string_of_int forallb]; rewrite ?H; done.
Qed.

Lemma number_text_ascii x : well_formed (num_to_string x) = true.
Proof.
  apply ascii_well_formed. eapply forallb_impl; [|apply num_to_string_units]. intros c [_ H]%number_unit_spec.
  by apply N.ltb_lt.
Qed.

(** A url of the bar on any page: it has the parameters that [handleApply] writes, but for those of
    the pagination. *)
Definition bar_url (b : FilterBar) (search : SearchRecord) : Prop :=
  forall k, k <> u "page" -> k <> u "pageSize" -> search !! k = handleApply b !! k.

(** An end of the range: the one chosen, else the default one when the other end is not chosen either. *)
Definition bound (own other : option Z) (default : Z) : option Z :=
  match own, other with Some t, _ => Some t | None, Some _ => None | None, None => Some default end.

Section Request.
Context (default_start default_end : Z) (b : FilterBar) (search : SearchRecord) (isAdmin : bool) (page pageSize : Z).
Context (type_ok : logType b = [] \/ isLogTypeValue (logType b) = true).
Context (on_url : bar_url b search).
Context (start_ok : startTime (filters b) <> Some 0) (end_ok : endTime (filters b) <> Some 0).
Context (default_start_ok : default_start <> 0) (default_end_ok : default_end <> 0).

Definition start_bound : option Z := bound (startTime (filters b)) (endTime (filters b)) default_start.
Definition end_bound : option Z := bound (endTime (filters b)) (startTime (filters b)) default_end.

Lemma from_bar k v : handleApply b !! k = v -> k <> u "page" -> k <> u "pageSize" -> search !! k = v.
Proof using on_url. intros <- H1 H2. by apply on_url. Qed.

Definition text_opt (k v : jstr) : QueryParams := opt_param k (truthy v) (SvJson (JStr v)).

(** The parameters of the request, by filter. *)
Definition applied_params : QueryParams :=
  let f := filters b in
  [(u "p", Some (SvNum page)); (u "page_size", Some (SvNum pageSize))]
  ++ opt_param (u "type") (truthy (logType b)) (SvJson (JNum (to_number (logType b))))
  ++ text_opt (u "model_name") (model f) ++ text_opt (u "token_name") (token f) ++ text_opt (u "group") (group f)
  ++ opt_param (u "channel") (isAdmin && truthy (channel f)) (SvJson (JNum (json_number (JStr (channel f)))))
  ++ opt_param (u "username") (isAdmin && truthy (username f)) (SvJson (JStr (username f)))
  ++ text_opt (u "request_id") (requestId f)
  ++ [(u "start_timestamp", option_map (fun t => SvNum (t / 1000)) start_bound);
      (u "end_timestamp", option_map (fun t => SvNum (t / 1000)) end_bound)].

(** The value of a parameter among the parameters of a request. *)
Ltac known := intros Ht; unfold applied_params, text_opt; rewrite !obj_get_app, !obj_get_opt;
  repeat match goal with H : _ = true |- _ => rewrite H end; by repeat destruct (truthy _).

(** A parameter of the url that the bar writes. *)
Ltac from_url := apply from_bar; [|done|done].

Lemma applied_times :
  buildTimeRangeParams default_start default_end search false
  = [(u "start_timestamp", option_map (fun t => SvNum (t / 1000)) start_bound);
     (u "end_timestamp", option_map (fun t => SvNum (t / 1000)) end_bound)].
Proof using on_url start_ok end_ok default_start_ok default_end_ok.
  unfold buildTimeRangeParams, start_bound, end_bound.
  rewrite (from_bar _ _ (applied_start b) ltac:(done) ltac:(done)), (from_bar _ _ (applied_end b) ltac:(done) ltac:(done)).
  pose proof (proj2 (Z.eqb_neq _ _) default_start_ok) as Hs. pose proof (proj2 (Z.eqb_neq _ _) default_end_ok) as He.
  destruct (startTime (filters b)) as [s|], (endTime (filters b)) as [e|]; cbn [option_map bound];
    repeat match goal with
    | H : Some ?x <> Some 0 |- _ => assert ((x =? 0) = false) by (apply Z.eqb_neq; congruence); clear H
    end; cbn [negb]; repeat (match goal with H : (?x =? 0) = false |- _ => rewrite H end; cbv beta iota zeta; cbn [negb]); done.
Qed.

Lemma applied_api_params :
  buildApiParams default_start default_end page pageSize search
    (initialColumnFilters (default_params (log_columns isAdmin)) search) isAdmin = applied_params.
Proof using type_ok on_url start_ok end_ok default_start_ok default_end_ok.
  unfold buildApiParams. rewrite applied_times.
  rewrite (when_text _ _ _ _ (from_bar _ _ (applied_model b) ltac:(done) ltac:(done))), (when_text _ _ _ _ (from_bar _ _ (applied_token b) ltac:(done) ltac:(done))), (when_text _ _ _ _ (from_bar _ _ (applied_group b) ltac:(done) ltac:(done))),
    (when_text _ _ _ _ (from_bar _ _ (applied_request b) ltac:(done) ltac:(done))), (when_text _ _ _ _ (from_bar _ _ (applied_username b) ltac:(done) ltac:(done))), (when_number _ _ _ _ (from_bar _ _ (applied_channel b) ltac:(done) ltac:(done))).
  assert (when_param search (u "type") (u "type") processType
          = opt_param (u "type") (truthy (logType b)) (SvJson (JNum (to_number (logType b))))) as ->.
  { unfold when_param. rewrite (from_bar _ _ (applied_type b) ltac:(done) ltac:(done)). by destruct (logType b). }
  match goal with |- fold_left _ _ ?l = _ => replace l with applied_params by (unfold applied_params; by destruct isAdmin) end.
  assert (forall id k t v,
    search !! k = text_value t ->
    (truthy t = true -> column_param isAdmin {| f_id := id; f_value := JStr t |} applied_params = obj_set id (Some v) applied_params) ->
    (truthy t = true -> obj_get id applied_params = Some (Some v)) ->
    fold_left (fun params f => column_param isAdmin f params)
      (option_list (read_filter search (text_column id k))) applied_params = applied_params) as Hcol
    by (intros; by eapply column_same).
  change (initialColumnFilters _ _) with (omap (read_filter search) (log_columns isAdmin)).
  assert (omap (read_filter search) (log_columns isAdmin)
    = option_list (read_filter search {| cf_columnId := u "created_at"; cf_searchKey := u "type";
        cf_type := Some TypeArray; cf_serialize := None; cf_deserialize := None |})
      ++ option_list (read_filter search (text_column (u "model_name") (u "model")))
      ++ option_list (read_filter search (text_column (u "token_name") (u "token")))
      ++ option_list (read_filter search (text_column (u "group") (u "group")))
      ++ (if isAdmin then option_list (read_filter search (text_column (u "channel") (u "channel")))
            ++ option_list (read_filter search (text_column (u "username") (u "username"))) else [])) as ->.
  { unfold log_columns. destruct isAdmin; cbn [app]; rewrite !omap_cons_list; by rewrite ?app_nil_r. }
  rewrite !fold_left_app.
  assert (fold_left (fun params f => column_param isAdmin f params) (option_list (read_filter search
    {| cf_columnId := u "created_at"; cf_searchKey := u "type"; cf_type := Some TypeArray; cf_serialize := None;
       cf_deserialize := None |})) applied_params = applied_params) as ->.
  { unfold read_filter, deserialize. cbn [cf_type cf_searchKey cf_columnId cf_deserialize]. rewrite (from_bar _ _ (applied_type b) ltac:(done) ltac:(done)).
    by destruct (logType b). }
  rewrite (Hcol _ _ (model (filters b)) (SvJson (JStr (model (filters b))))); [|from_url; apply applied_model|by destruct (model _)|known].
  rewrite (Hcol _ _ (token (filters b)) (SvJson (JStr (token (filters b))))); [|from_url; apply applied_token|by destruct (token _)|known].
  rewrite (Hcol _ _ (group (filters b)) (SvJson (JStr (group (filters b))))); [|from_url; apply applied_group|by destruct (group _)|known].
  destruct isAdmin eqn:Ea; [|done]. rewrite fold_left_app.
  rewrite (Hcol _ _ (channel (filters b)) (SvJson (JNum (json_number (JStr (channel (filters b)))))));
    [|from_url; apply applied_channel|by destruct (channel _)|known].
  rewrite (Hcol _ _ (username (filters b)) (SvJson (JStr (username (filters b))))); [done|from_url; apply applied_username|by destruct (username _)|known].
Qed.

Definition PARAM_KEYS : list jstr :=
  [u "p"; u "page_size"; u "type"; u "model_name"; u "token_name"; u "group"; u "channel"; u "username"; u "request_id";
   u "start_timestamp"; u "end_timestamp"].

Lemma applied_nodup : NoDup (map fst applied_params).
Proof using.
  apply (sublist_NoDup _ PARAM_KEYS); [apply (bool_decide_unpack _); by vm_compute|].
  unfold applied_params, text_opt, opt_param. cbn [app map fst]. do 2 constructor. rewrite !map_app.
  repeat match goal with
  | |- sublist (map fst (if ?c then _ else _) ++ _) _ => destruct c; cbn [map fst app]; constructor
  end; reflexivity.
Qed.

(** What the server reads. *)
Definition sent (k v : jstr) : list (jstr * jstr) := if truthy v then [(k, v)] else [].

Definition sent_time (k : jstr) (t : option Z) : list (jstr * jstr) :=
  match t with Some t => [(k, string_of_int (t / 1000))] | None => [] end.

Definition applied_query : list (jstr * jstr) :=
  let f := filters b in
  [(u "p", string_of_int page); (u "page_size", string_of_int pageSize)]
  ++ sent (u "type") (logType b) ++ sent (u "model_name") (model f) ++ sent (u "token_name") (token f)
  ++ sent (u "group") (group f)
  ++ (if isAdmin then
        (if truthy (channel f) then [(u "channel", num_to_string (f_or (to_number (channel f)) zero))] else [])
        ++ sent (u "username") (username f)
      else [])
  ++ sent (u "request_id") (requestId f)
  ++ sent_time (u "start_timestamp") start_bound ++ sent_time (u "end_timestamp") end_bound.

Lemma query_app (p q : QueryParams) : buildQueryParams (p ++ q) = buildQueryParams p ++ buildQueryParams q.
Proof using. apply flat_map_app. Qed.

Lemma query_text k v : buildQueryParams (text_opt k v) = sent k v.
Proof using. by destruct v. Qed.

Lemma type_text : logType b <> [] -> num_to_string (to_number (logType b)) = logType b.
Proof using type_ok.
  intros Hne. destruct type_ok as [|H]; [done|]. unfold isLogTypeValue in H. apply bool_decide_eq_true in H.
  repeat (apply elem_of_cons in H as [->|H]; [by vm_compute|]). by apply elem_of_nil in H.
Qed.

Lemma applied_query_params : buildQueryParams applied_params = applied_query.
Proof using type_ok.
  unfold applied_params, applied_query. rewrite !query_app, !query_text. f_equal. f_equal.
  { pose proof type_text as Ht. unfold opt_param, sent. destruct (logType b); [done|]. cbn [truthy].
    unfold buildQueryParams. cbn [flat_map snd fst value_string json_to_string app]. by rewrite Ht. }
  do 3 f_equal. rewrite (assoc_L (++)). f_equal.
  - unfold opt_param, sent. destruct isAdmin; cbn [andb]; [|done]. f_equal; [by destruct (channel _)|by destruct (username _)].
  - f_equal. by destruct start_bound, end_bound.
Qed.

Definition filters_formed (f : LogFilters) : bool :=
  well_formed (channel f) && well_formed (model f) && well_formed (token f) && well_formed (group f)
  && well_formed (username f) && well_formed (requestId f).

Lemma sent_ok k v : well_formed k = true -> well_formed v = true -> forallb entry_ok (sent k v) = true.
Proof using. intros Hk Hv. unfold sent, entry_ok. destruct v; [done|]. cbn [truthy forallb fst snd]. by rewrite Hk, Hv. Qed.

Lemma applied_query_ok : filters_formed (filters b) = true -> forallb entry_ok applied_query = true.
Proof using type_ok.
  unfold filters_formed. rewrite !andb_true_iff. intros (((((H1 & H2) & H3) & H4) & H5) & H6).
  assert (well_formed (logType b) = true) as Ht.
  { destruct type_ok as [-> |H]; [done|]. unfold isLogTypeValue in H. apply bool_decide_eq_true in H.
    repeat (apply elem_of_cons in H as [->|H]; [by vm_compute|]). by apply elem_of_nil in H. }
  unfold applied_query. rewrite !forallb_app, !sent_ok by done.
  repeat (apply andb_true_intro; split); try done.
  - apply string_of_int_ascii.
  - apply string_of_int_ascii.
  - destruct isAdmin; [|done]. rewrite forallb_app, sent_ok by done. destruct (truthy (channel (filters b))); [|done].
    cbn [forallb]. unfold entry_ok. cbn [fst snd]. by rewrite number_text_ascii.
  - destruct start_bound; [|done]. cbn [sent_time forallb]. unfold entry_ok. cbn [fst snd]. by rewrite string_of_int_ascii.
  - destruct end_bound; [|done]. cbn [sent_time forallb]. unfold entry_ok. cbn [fst snd]. by rewrite string_of_int_ascii.
Qed.

(** The page and the page size are there already: the defaults of [fetchLogs] change nothing. *)
Lemma applied_defaults :
  page <> 0 -> pageSize <> 0 ->
  assign [(u "p", param_or (u "p") 1 applied_params); (u "page_size", param_or (u "page_size") 20 applied_params)] applied_params
  = applied_params.
Proof using.
  intros Hp Hps. pose proof applied_nodup as Hnd.
  assert (param_or (u "p") 1 applied_params = Some (SvNum page)) as ->.
  { unfold param_or. cbn [applied_params app obj_get]. rewrite jeqb_refl. cbn [value_truthy]. by rewrite (proj2 (Z.eqb_neq page 0)). }
  assert (param_or (u "page_size") 20 applied_params = Some (SvNum pageSize)) as ->.
  { unfold param_or. cbn [applied_params app obj_get]. change (jeqb (u "p") (u "page_size")) with false. rewrite jeqb_refl.
    cbn [value_truthy]. by rewrite (proj2 (Z.eqb_neq pageSize 0)). }
  remember applied_params as params eqn:E. unfold applied_params in E. cbn [app] in E.
  match type of E with _ = ?a :: ?c :: ?r => set (rest := r) in * end. subst params.
  assert (assign [(u "p", Some (SvNum page)); (u "page_size", Some (SvNum pageSize))]
    ((u "p", Some (SvNum page)) :: (u "page_size", Some (SvNum pageSize)) :: rest)
    = assign [(u "p", Some (SvNum page)); (u "page_size", Some (SvNum pageSize))] rest) as -> by reflexivity.
  by rewrite (assign_fresh rest [(u "p", Some (SvNum page)); (u "page_size", Some (SvNum pageSize))]).
Qed.

End Request.

(** C20: What the filter bar of the common logs asks the server for.  On a url with the parameters
    that [handleApply] writes, at any page and page size, the page and the column filters of the table
    make a request to the administrator's endpoint or to the user's own one; the server reads from its
    query that page and page size, the type of the bar, its texts that are not empty (the channel as a
    number, it and the user name only for an administrator), and the chosen ends of the range in
    seconds (both default ends when the bar has none, and no other end when it has one), and nothing
    else. *)
Theorem logs_request_spec default_start default_end b search isAdmin page pageSize :
  bar_url b search ->
  logType b = [] \/ isLogTypeValue (logType b) = true ->
  startTime (filters b) <> Some 0 -> endTime (filters b) <> Some 0 -> default_start <> 0 -> default_end <> 0 ->
  page <> 0 -> pageSize <> 0 -> filters_formed (filters b) = true ->
  exists query,
    fetchLogsByCategory default_start default_end Common isAdmin page pageSize search
      (initialColumnFilters (default_params (log_columns isAdmin)) search)
    = u (if isAdmin then "/api/log?" else "/api/log/self?") ++ query /\
    form_parse query = applied_query default_start default_end b isAdmin page pageSize.
Proof.
  intros Hu Ht Hs He Hs0 He0 Hp Hps Hf. exists (form_serialize (applied_query default_start default_end b isAdmin page pageSize)). split.
  - unfold fetchLogsByCategory. rewrite (applied_api_params default_start default_end b search isAdmin page pageSize) by done.
    unfold fetchLogs. rewrite <- (applied_query_params default_start default_end b isAdmin page pageSize) by done.
    rewrite (applied_defaults default_start default_end b isAdmin page pageSize) by done. by destruct isAdmin.
  - by apply form_roundtrip, applied_query_ok.
Qed.

Definition sample_bar : FilterBar :=
  {| filters := {| startTime := Some 1700000000123; endTime := Some 1700003600123; channel := u "7"; model := u "gpt 4&o";
                   token := []; group := u "vip"; username := u "zoë"; requestId := []; mjId := []; taskId := [] |};
     logType := u "2" |}.

(** The third page of a bar whose range has only a start. *)
Definition open_bar : FilterBar :=
  {| filters := set_times (Some 1700000000123) None (filters sample_bar); logType := u "2" |}.

Lemma logs_request_spec_witness :
  exists query,
    fetchLogsByCategory 5 9 Common false 3 100 (put (u "page") (Some (SvNum 3)) (handleApply open_bar))
      (initialColumnFilters (default_params (log_columns false)) (put (u "page") (Some (SvNum 3)) (handleApply open_bar)))
    = u "/api/log/self?" ++ query /\
    form_parse query = [(u "p", u "3"); (u "page_size", u "100"); (u "type", u "2"); (u "model_name", u "gpt 4&o");
                        (u "group", u "vip"); (u "start_timestamp", u "1700000000")].
Proof.
  apply (logs_request_spec 5 9 open_bar _ false 3 100); try done; [|by right].
  intros k Hk _. by apply lookup_put_ne.
Defined.

(** A url that the bar does not write: the route takes two types, and the request then has no type. *)
Example two_types_dropped :
  let search := put (u "type") (Some (SvJson (JArr [JStr (u "1"); JStr (u "2")]))) (handleApply open_bar) in
  obj_get (u "type") (buildQueryParams (buildApiParams 5 9 1 100 search
    (initialColumnFilters (default_params (log_columns false)) search) false)) = None.
Proof. vm_compute. reflexivity. Qed.

(** ** The bar and the url *)

Lemma url_text_applied search k s : search !! k = text_value s -> url_text k [] search = s.
Proof. intros H. unfold url_text. rewrite H. by destruct s. Qed.

(** A link to filtered logs opens with the same filters: a bar in its first state that follows the
    url of [handleApply] has the texts, the type and the range of the bar that wrote it. *)
Theorem filter_link_roundtrip default_start default_end b s e :
  startTime (filters b) = Some s -> endTime (filters b) = Some e -> s <> 0 -> e <> 0 ->
  mjId (filters b) = [] -> taskId (filters b) = [] ->
  follow_url (handleApply b) (initial_bar default_start default_end) = b.
Proof.
  intros Hs He Hs0 He0 Hm Ht. unfold follow_url, initial_bar.
  cbn [filters logType set_times startTime endTime channel model token group username requestId mjId taskId no_filters].
  rewrite (url_text_applied _ _ _ (applied_channel b)), (url_text_applied _ _ _ (applied_model b)),
    (url_text_applied _ _ _ (applied_token b)), (url_text_applied _ _ _ (applied_group b)),
    (url_text_applied _ _ _ (applied_username b)), (url_text_applied _ _ _ (applied_request b)), applied_type.
  unfold url_date. rewrite applied_start, applied_end, Hs, He. cbn [option_map].
  rewrite (proj2 (Z.eqb_neq s 0)), (proj2 (Z.eqb_neq e 0)) by done.
  destruct b as [[]  lt]. cbn in *. subst. f_equal. by destruct lt.
Qed.

Lemma filter_link_roundtrip_witness :
  follow_url (handleApply sample_bar) (initial_bar 5 9) = sample_bar.
Proof. by apply (filter_link_roundtrip 5 9 sample_bar 1700000000123 1700003600123). Defined.

(** A filter that the url no longer has stays in the bar: going back from the filtered logs to the
    first page leaves the model in the bar, and the next [handleApply] filters by it again. *)
Example stale_filter :
  let shown := follow_url (put (u "page") (Some (SvNum 1)) ∅) sample_bar in
  model (filters shown) = u "gpt 4&o" /\ handleApply shown !! u "model" = Some (SvJson (JStr (u "gpt 4&o"))).
Proof. split; vm_compute; reflexivity. Qed.

(** ** Limits of a user *)

(** The parameters that the request of a user may have. *)
Definition user_keys (logCategory : LogCategory) : list jstr :=
  [u "p"; u "page_size"; u "start_timestamp"; u "end_timestamp"] ++
  (match logCategory with
   | Common => [u "type"; u "model_name"; u "token_name"; u "group"; u "request_id"]
   | Drawing => [u "channel_id"; u "mj_id"]
   | Task => [u "channel_id"; u "task_id"]
   end).

Definition keys_in {V} (keys : list jstr) (params : list (jstr * V)) : Prop := Forall (fun kv => kv.1 ∈ keys) params.

(** The names of parameters are closed texts, so membership is decided by computation. *)
Ltac other_key := apply (bool_decide_unpack _); by vm_compute.

Lemma when_keys keys search k name f : name ∈ keys -> keys_in keys (when_param search k name f).
Proof.
  intros Hn. unfold when_param. destruct (search !! k) as [v|]; [|constructor].
  destruct (value_truthy v); [by repeat constructor|constructor].
Qed.

Lemma column_keys f params : keys_in (user_keys Common) params -> keys_in (user_keys Common) (column_param false f params).
Proof.
  intros H. unfold column_param. repeat case_match; try done; (apply obj_set_Forall; [other_key|done]).
Qed.

Lemma columns_keys cf params :
  keys_in (user_keys Common) params ->
  keys_in (user_keys Common) (fold_left (fun params f => column_param false f params) cf params).
Proof. revert params. induction cf as [|f cf IH]; intros params H; [done|]. by apply IH, column_keys. Qed.

Lemma assign_keys {V} keys (b a : list (jstr * V)) : keys_in keys a -> keys_in keys b -> keys_in keys (assign a b).
Proof.
  intros Ha Hb. revert a Ha. induction Hb as [|kv b Hkv _ IH]; intros a Ha; [done|].
  unfold assign. cbn [fold_left]. apply IH, obj_set_Forall; [exact Hkv|done].
Qed.

Lemma query_keys keys params : keys_in keys params -> keys_in keys (buildQueryParams params).
Proof.
  induction 1 as [|[k v] l Hk _ IH]; [constructor|]. unfold buildQueryParams. cbn [flat_map fst snd].
  apply Forall_app. split; [|exact IH]. repeat case_match; by repeat constructor.
Qed.

Definition own_endpoint (logCategory : LogCategory) : jstr :=
  match logCategory with Common => u "/api/log/self?" | Drawing => u "/api/mj/self?" | Task => u "/api/task/self?" end.

(** C28: Whatever the url and the table say, the request of a user who is not an administrator goes to
    the user's own endpoint of the category of logs, and its query has only parameters of that
    category: never a user name, and for the common logs no channel either.  (The requests for drawing
    and task logs may have the [channel_id] of the url.) *)
Theorem user_request_scoped default_start default_end logCategory page pageSize search cf :
  exists query,
    fetchLogsByCategory default_start default_end logCategory false page pageSize search cf
    = own_endpoint logCategory ++ form_serialize query /\
    keys_in (user_keys logCategory) query /\
    (u "username" ∉ map fst query) /\
    (logCategory = Common -> (u "channel" ∉ map fst query) /\ (u "channel_id" ∉ map fst query)).
Proof.
  assert (exists query, fetchLogsByCategory default_start default_end logCategory false page pageSize search cf
    = own_endpoint logCategory ++ form_serialize query /\ keys_in (user_keys logCategory) query) as (query & Hq & Hk).
  { destruct logCategory; (eexists _; split; [reflexivity|]); apply query_keys, assign_keys;
      [ by repeat (constructor; [other_key|])
      | apply columns_keys
      | by repeat (constructor; [other_key|])
      |
      | by repeat (constructor; [other_key|])
      | ]; unfold buildBaseParams; unfold keys_in; rewrite !Forall_app; split_and!; try (apply when_keys; other_key);
      unfold buildTimeRangeParams; by repeat (constructor; [other_key|]). }
  assert (forall k, k ∉ user_keys logCategory -> k ∉ map fst query) as Hno.
  { intros k Hn (kv & -> & Hin)%list_elem_of_fmap. by apply Hn, (proj1 (Forall_forall _ _) Hk). }
  exists query. split_and!; [done|done|apply Hno; by destruct logCategory; other_key|].
  intros ->. split; apply Hno; other_key.
Qed.

(** A user's request for drawing logs does have the channel of the url. *)
Example user_channel_sent :
  fetchLogsByCategory 5 9 Drawing false 1 20 (put (u "channel") (Some (SvJson (JStr (u "7")))) ∅) []
  = u "/api/mj/self?p=1&page_size=20&channel_id=7&start_timestamp=5&end_timestamp=9".
Proof. vm_compute. reflexivity. Qed.

(** ** Labels *)

(** Every status and action has a label of its own; of the types of drawing tasks, [MODAL] has none. *)
Example labels_known :
  Forall (fun s => obj_has s MJ_STATUS_MAPPINGS = true) MJ_TASK_STATUS /\
  Forall (fun s => obj_has s TASK_STATUS_MAPPINGS = true) TASK_STATUS /\
  Forall (fun s => obj_has s TASK_ACTION_MAPPINGS = true) TASK_ACTIONS /\
  jfilter (fun s => negb (obj_has s MJ_TASK_TYPE_MAPPINGS)) MJ_TASK_TYPES = [u "MODAL"] /\
  getLabel MJ_TASK_TYPE_MAPPINGS (u "MODAL") = u "Unknown".
Proof. split_and!; [repeat constructor..|reflexivity|reflexivity]. Qed.
