(* ===== verification/SettingsJson.v ===== *)
(** * JSON texts of the system settings

    Model of [src/web/default/src/features/system-settings/utils/json-parser.ts],
    [utils/json-validators.ts], [models/utils.ts] and of the two save handlers of
    [models/ratio-settings-card.tsx]: reading a setting that is a JSON text, showing it in a text
    area, checking what was typed and sending the settings that changed. The messages of
    [JSON.parse] are those of the engine, so an error is kept without its message; the position
    arithmetic on them is modelled. *)

From S2P Require Import Prelude JsString JsNumber Json JsonFacts.
Open Scope N_scope.

(** ** utils/json-parser.ts *)

(** [text.substring(0, position).split('\n')]: the line, and the column counted from one. *)
Definition getLineAndColumn (text : jstr) (position : nat) : nat * nat :=
  let lines := split_on 10 (take position text) in
  (length lines, S (length (default [] (last lines)))).

(** [fallback ?? null] *)
Definition fallback_value (fallback : option json) : json := default JNull fallback.

(** [value] is [None] for [undefined] and [null]. *)
Definition safeJsonParse (value : option jstr) (fallback : option json) : json :=
  match value with
  | None => fallback_value fallback
  | Some s =>
      if negb (truthy s) || jeqb (trim s) [] then fallback_value fallback
      else match json_parse (trim s) with Some j => j | None => fallback_value fallback end
  end.

(** A setting that is a map: [safeJsonParse(text, { fallback: {} })], [None] for JSON that is not an
    object. *)
Abbreviation Map := (list (jstr * json)).

Definition text_map (text : jstr) : option Map :=
  match safeJsonParse (Some text) (Some (JObj [])) with JObj m => Some m | _ => None end.

Definition safeJsonParseWithValidation (value : option jstr) (fallback : json) (validator : json -> bool) : json :=
  let parsed := safeJsonParse value (Some fallback) in
  if negb (validator parsed) then fallback else parsed.

Inductive JsonParseResult : Type :=
| Parsed (data : json)
| EmptyValue
| ParseError.

Definition tryJsonParse (value : option jstr) : JsonParseResult :=
  match value with
  | None => EmptyValue
  | Some s =>
      if negb (truthy s) || jeqb (trim s) [] then EmptyValue
      else match json_parse (trim s) with Some j => Parsed j | None => ParseError end
  end.

(** ** utils/json-validators.ts *)

Definition isObjectRecord (data : json) : bool := match data with JObj _ => true | _ => false end.
Definition isArray (data : json) : bool := match data with JArr _ => true | _ => false end.

Definition is_string (data : json) : bool := match data with JStr _ => true | _ => false end.

Definition createArrayValidator (itemValidator : json -> bool) (data : json) : bool :=
  match data with JArr l => forallb itemValidator l | _ => false end.

Definition isStringArray (data : json) : bool :=
  match data with JArr l => forallb is_string l | _ => false end.
Definition isNumberArray (data : json) : bool :=
  match data with JArr l => forallb (fun item => match item with JNum _ => true | _ => false end) l | _ => false end.
Definition isObjectArray (data : json) : bool :=
  match data with JArr l => forallb isObjectRecord l | _ => false end.

Definition createObjectValidator (requiredKeys : list jstr) (data : json) : bool :=
  match data with
  | JObj f => forallb (fun key => obj_has key f) requiredKeys
  | _ => false
  end.

(** ** models/utils.ts *)

Definition formatJsonForTextarea (value : jstr) : jstr :=
  if negb (truthy value) || negb (truthy (trim value)) then []
  else match json_parse value with Some parsed => stringify_indent parsed | None => value end.

Definition normalizeJsonString (value : jstr) : jstr :=
  let trimmed := trim value in
  if negb (truthy trimmed) then []
  else match json_parse trimmed with Some parsed => stringify parsed | None => trimmed end.

(** The result of a validation: [Invalid] with the message of the code, [Malformed] with the one
    of the engine. *)
Inductive Validation : Type :=
| Valid
| Invalid (message : jstr)
| Malformed.

Definition validateJsonString (allowEmpty : bool) (predicate : option (json -> bool))
    (predicateMessage : jstr) (value : jstr) : Validation :=
  let trimmed := trim value in
  if negb (truthy trimmed) then (if allowEmpty then Valid else Invalid (u "Value is required"))
  else match json_parse trimmed with
       | None => Malformed
       | Some parsed =>
           match predicate with
           | Some p =>
               if p parsed then Valid
               else Invalid (if truthy predicateMessage then predicateMessage else u "JSON structure is invalid")
           | None => Valid
           end
       end.

(** ** models/ratio-settings-card.tsx *)

Inductive setting : Type :=
| Text (s : jstr)
| Switch (b : bool).

#[export] Instance setting_eq_dec : EqDecision setting.
Proof. solve_decision. Defined.

(** The values of a form, by the names of its fields, in the order of the code. *)
Abbreviation Form := (list (jstr * setting)).

Definition normalize_setting (v : setting) : setting :=
  match v with Text s => Text (normalizeJsonString s) | Switch b => Switch b end.

Definition format_setting (v : setting) : setting :=
  match v with Text s => Text (formatJsonForTextarea s) | Switch b => Switch b end.

(** The refs with the normalized defaults, and the values the form is reset to. *)
Definition normalized_form (f : Form) : Form := map (fun kv => (kv.1, normalize_setting kv.2)) f.
Definition form_defaults (f : Form) : Form := map (fun kv => (kv.1, format_setting kv.2)) f.

Definition text_valid (key : jstr) (v : setting) : bool :=
  match v with
  | Switch _ => true
  | Text s =>
      let predicate := if jeqb key (u "AutoGroups") then Some isStringArray else None in
      match validateJsonString true predicate (u "Expected a JSON array of group identifiers") s with
      | Valid => true
      | _ => false
      end
  end.

(** [modelSchema] and [groupSchema] accept the values. *)
Definition schema_ok (values : Form) : bool := forallb (fun kv => text_valid kv.1 kv.2) values.

Definition model_keys : list jstr :=
  [u "ModelPrice"; u "ModelRatio"; u "CacheRatio"; u "CreateCacheRatio"; u "CompletionRatio"; u "ImageRatio";
   u "AudioRatio"; u "AudioCompletionRatio"; u "ExposeRatioEnabled"; u "BillingMode"; u "BillingExpr"].

Definition group_keys : list jstr :=
  [u "GroupRatio"; u "TopupGroupRatio"; u "UserUsableGroups"; u "GroupGroupRatio"; u "AutoGroups";
   u "DefaultUseAutoGroup"; u "GroupSpecialUsableGroup"].

Definition model_apiKeyMap : list (jstr * jstr) :=
  [(u "BillingMode", u "billing_setting.billing_mode"); (u "BillingExpr", u "billing_setting.billing_expr")].

Definition group_apiKeyMap : list (jstr * jstr) :=
  [(u "GroupSpecialUsableGroup", u "group_ratio_setting.group_special_usable_group")].

(** The keys whose normalized value is not the default's, with the name of the option they are
    sent as. *)
Definition changed_options (apiKeyMap : list (jstr * jstr)) (defaults values : Form) : list (jstr * setting) :=
  let normalized := normalized_form values in
  let updates := jfilter (fun kv => negb (bool_decide (obj_get kv.1 defaults = Some kv.2))) normalized in
  map (fun kv => (default kv.1 (obj_get kv.1 apiKeyMap), kv.2)) updates.

(** The loop of [await]s: it ends at the first update that fails. [true]: all were sent. *)
Fixpoint send_updates (accepted : jstr -> setting -> bool) (l : list (jstr * setting)) : list (jstr * setting) * bool :=
  match l with
  | [] => ([], true)
  | (k, v) :: t =>
      if accepted k v then let '(sent, ok) := send_updates accepted t in ((k, v) :: sent, ok)
      else ([(k, v)], false)
  end.

(** The body both handlers share, [defaults] the values the server sent. *)
Definition save_options (apiKeyMap : list (jstr * jstr)) (accepted : jstr -> setting -> bool) (defaults values : Form) :
    list (jstr * setting) * bool :=
  send_updates accepted (changed_options apiKeyMap (normalized_form defaults) values).

Definition saveModelRatios := save_options model_apiKeyMap.
Definition saveGroupRatios := save_options group_apiKeyMap.

(** ** Facts *)

(** A text as the server stores it: no white space around it, and if it is JSON, of values that
    are printed and read exactly. *)
Definition stored_text (s : jstr) : bool :=
  jeqb (trim s) s && match json_parse s with Some j => json_ok j | None => true end.

Definition stored_setting (v : setting) : bool :=
  match v with Text s => stored_text s | Switch _ => true end.

Lemma trim_wrap a b (x y z : jstr) :
  is_space a = false -> is_space b = false -> trim ([a] ++ x ++ y ++ z ++ [b]) = [a] ++ x ++ y ++ z ++ [b].
Proof. intros Ha Hb. apply (trim_ends a b _ (x ++ y ++ z)); [done..|]. by rewrite <- !(assoc_L (++)). Qed.

Lemma indent_trim j : json_ok j = true -> trim (stringify_indent j) = stringify_indent j /\ stringify_indent j <> [].
Proof.
  intros Hj. unfold stringify_indent. split; [|by destruct (pretty_start [10] j Hj) as (c & t & -> & _)].
  destruct j as [| | | |[|x l]|[|kv f]]; cbn [pretty]; try (by apply stringify_trim); try reflexivity.
  - apply (trim_wrap 91 93); done.
  - apply (trim_wrap 123 125); done.
Qed.

Lemma text_map_indent o : obj_ok o -> text_map (stringify_indent (JObj o)) = Some o.
Proof.
  intros Ho%obj_ok_spec. unfold text_map, safeJsonParse. destruct (indent_trim _ Ho) as [-> Hne].
  rewrite (proj2 (truthy_spec _) Hne), (proj2 (jeqb_neq _ _) Hne), json_roundtrip_indent by done. done.
Qed.

Lemma normalize_nonempty s j :
  trim s = s -> s <> [] -> json_parse s = Some j -> normalizeJsonString s = stringify j.
Proof. intros Ht Hs Hp. unfold normalizeJsonString. rewrite Ht, (proj2 (truthy_spec s)) by done. by rewrite Hp. Qed.

Lemma normalize_stringify j : json_ok j = true -> normalizeJsonString (stringify j) = stringify j.
Proof.
  intros Hj. destruct (stringify_trim j Hj) as [Ht Hne]. apply normalize_nonempty; [done..|]. by apply json_roundtrip.
Qed.

Lemma normalize_indent j : json_ok j = true -> normalizeJsonString (stringify_indent j) = stringify j.
Proof.
  intros Hj. destruct (indent_trim j Hj) as [Ht Hne]. apply normalize_nonempty; [done..|]. by apply json_roundtrip_indent.
Qed.

Lemma stored_text_spec s :
  stored_text s = true <-> trim s = s /\ forall j, json_parse s = Some j -> json_ok j = true.
Proof.
  unfold stored_text. rewrite andb_true_iff, jeqb_spec. split; intros [Ht H]; (split; [done|]).
  - by intros j E; rewrite E in H.
  - destruct (json_parse s); [by apply H|done].
Qed.

(** Showing a stored text and normalizing what is shown gives the normal form of the text. *)
Lemma normalize_format s :
  stored_text s = true -> normalizeJsonString (formatJsonForTextarea s) = normalizeJsonString s.
Proof.
  intros [Ht Hj]%stored_text_spec. unfold formatJsonForTextarea. rewrite Ht.
  destruct (truthy s) eqn:Hs; cbn [negb orb].
  - destruct (json_parse s) as [j|] eqn:E; [|done].
    rewrite normalize_indent by by apply Hj. apply truthy_spec in Hs. by rewrite (normalize_nonempty s j).
  - by destruct s.
Qed.

(** Stored texts stay what they are when they are normalized twice. *)
Lemma normalize_idemp s : stored_text s = true -> normalizeJsonString (normalizeJsonString s) = normalizeJsonString s.
Proof.
  intros [Ht Hj]%stored_text_spec. unfold normalizeJsonString at 2 3. rewrite Ht.
  destruct (truthy s) eqn:Hs; cbn [negb]; [|done].
  destruct (json_parse s) as [j|] eqn:E; [by apply normalize_stringify, Hj|].
  unfold normalizeJsonString. by rewrite Ht, Hs, E.
Qed.

Lemma obj_get_map {A B} (g : A -> B) k (f : list (jstr * A)) :
  obj_get k (map (fun kv => (kv.1, g kv.2)) f) = g <$> obj_get k f.
Proof. induction f as [|[k' v] f IH]; [done|]. cbn. by destruct (jeqb k' k). Qed.

(** A form left as it was opened has no option to send. *)
Lemma untouched_sends_nothing names (d : Form) :
  NoDup (map fst d) -> forallb (fun kv => stored_setting kv.2) d = true ->
  changed_options names (normalized_form d) (form_defaults d) = [].
Proof.
  intros Hn Hs. unfold changed_options. rewrite jfilter_none; [done|].
  intros [k v] ([k' v'] & [= -> ->] & Hin)%list_elem_of_fmap. cbn [fst snd].
  apply list_elem_of_fmap in Hin as ([k v0] & [= -> ->] & Hin).
  rewrite bool_decide_true; [done|]. unfold normalized_form. rewrite obj_get_map, (obj_get_elem d k v0) by done. cbn.
  rewrite forallb_forall in Hs. apply list_elem_of_In, Hs in Hin. destruct v0 as [s|b]; [|done]. cbn in *.
  by rewrite normalize_format.
Qed.

Lemma send_updates_spec accepted l :
  let '(sent, ok) := send_updates accepted l in
  if ok then sent = l /\ forallb (fun kv => accepted kv.1 kv.2) l = true
  else exists pre k v post, l = pre ++ (k, v) :: post /\ sent = pre ++ [(k, v)] /\
    forallb (fun kv => accepted kv.1 kv.2) pre = true /\ accepted k v = false.
Proof.
  induction l as [|[k v] l IH]; [done|]. cbn. destruct (accepted k v) eqn:Ha.
  - destruct (send_updates accepted l) as [sent []].
    + destruct IH as [-> ?]. by rewrite ?Ha.
    + destruct IH as (pre & k' & v' & post & -> & -> & Hp & Hv). exists ((k, v) :: pre), k', v', post. cbn.
      by rewrite ?Ha, ?Hp.
  - by exists [], k, v, l.
Qed.

(** The options the server has, by the names they are sent as. *)
Definition named (names : list (jstr * jstr)) (f : Form) : Form :=
  map (fun kv => (default kv.1 (obj_get kv.1 names), kv.2)) f.

Lemma named_keys names f : map fst (named names f) = map (fun k => default k (obj_get k names)) (map fst f).
Proof. unfold named. rewrite !map_map. done. Qed.

(** Sending the changed options to a server that has the defaults leaves it with the normal form
    of every value of the form. *)
Lemma changed_options_complete names (d values : Form) k v :
  map fst values = map fst d -> NoDup (map fst (named names d)) -> (k, v) ∈ values ->
  obj_get (default k (obj_get k names))
    (assign (named names (normalized_form d)) (changed_options names (normalized_form d) values))
  = Some (normalize_setting v).
Proof.
  intros Hk Hn Hin. set (name := fun k => default k (obj_get k names)). rewrite named_keys in Hn. fold name in Hn.
  assert (NoDup (map fst d)) as Hd by (eapply NoDup_fmap_1, Hn).
  assert (NoDup (map (fun kv => name kv.1) (normalized_form values))) as Hv.
  { unfold normalized_form. rewrite map_map. cbn [fst]. rewrite <- Hk, map_map in Hn. done. }
  assert ((k, normalize_setting v) ∈ normalized_form values) as Hin'.
  { apply list_elem_of_fmap. by exists (k, v). }
  rewrite get_assign by (unfold changed_options; rewrite map_map; cbn [fst]; by apply jfilter_map_NoDup).
  destruct (obj_get (default k (obj_get k names)) (changed_options names (normalized_form d) values)) as [w|] eqn:Hw.
  - apply obj_get_in, list_elem_of_fmap in Hw as ([k' v'] & [= E ->] & [_ Hin2]%jfilter_elem_of). cbn [fst snd] in E.
    pose proof (NoDup_map_inj _ _ _ _ Hv Hin' Hin2 E) as [= -> ->]. done.
  - destruct (obj_get k (normalized_form d)) as [w|] eqn:Hg.
    + assert (w = normalize_setting v) as ->.
      { destruct (decide (w = normalize_setting v)) as [|Hne]; [done|]. exfalso.
        rewrite (obj_get_elem _ _ (normalize_setting v)) in Hw; [done| |].
        - unfold changed_options. rewrite map_map. cbn [fst]. by apply jfilter_map_NoDup.
        - unfold changed_options. apply list_elem_of_fmap. exists (k, normalize_setting v). split; [done|].
          apply jfilter_elem_of. split; [|done]. cbn. rewrite Hg, bool_decide_false; [done|]. by intros [= ->]. }
      apply obj_get_elem.
      * rewrite named_keys. unfold normalized_form. rewrite !map_map. cbn [fst]. by rewrite map_map in Hn.
      * apply list_elem_of_fmap. exists (k, normalize_setting v). split; [done|]. by apply obj_get_in.
    + exfalso. unfold normalized_form in Hg. rewrite obj_get_map in Hg.
      destruct (obj_get k d) eqn:E; [done|].
      assert (k ∈ map fst d) as ([k' v'] & -> & Hd')%list_elem_of_fmap.
      { rewrite <- Hk. apply list_elem_of_fmap. by exists (k, v). }
      cbn [fst] in E. by rewrite (obj_get_elem d k' v' Hd Hd') in E.
Qed.

(** C26: whatever the server stores, a form that is opened and saved sends nothing; and a save of
    edited values sends, in the order of the fields, the options whose normal form differs from
    the stored one up to the first that the server refuses. When none is refused, the server ends
    with the normal form of every value. *)
Theorem save_options_spec accepted names (d values : Form) :
  map fst values = map fst d -> NoDup (map fst (named names d)) ->
  forallb (fun kv => stored_setting kv.2) d = true ->
  save_options names accepted d (form_defaults d) = ([], true) /\
  let '(sent, ok) := save_options names accepted d values in
  sent `prefix_of` changed_options names (normalized_form d) values /\
  (ok = false -> exists k v, last sent = Some (k, v) /\ accepted k v = false) /\
  (ok = true -> forall k v, (k, v) ∈ values ->
    obj_get (default k (obj_get k names)) (assign (named names (normalized_form d)) sent)
    = Some (normalize_setting v)).
Proof.
  intros Hk Hn Hs. unfold save_options. split.
  { rewrite untouched_sends_nothing; [done| |done]. rewrite named_keys in Hn. eapply NoDup_fmap_1, Hn. }
  pose proof (send_updates_spec accepted (changed_options names (normalized_form d) values)) as H.
  destruct (send_updates _ _) as [sent []].
  - destruct H as [-> _]. split_and!; [done..|]. intros _ k v Hin. by apply changed_options_complete.
  - destruct H as (pre & k & v & post & -> & -> & _ & Ha). split_and!; [|intros _|done].
    + exists post. by rewrite <- (assoc_L (++)).
    + exists k, v. by rewrite last_snoc.
Qed.

Definition sample_groups_form : Form :=
  [(u "GroupRatio", Text (u "{`default`:1,`vip`:0.5}")); (u "DefaultUseAutoGroup", Switch false);
   (u "GroupSpecialUsableGroup", Text (u "{}"))].

Lemma save_options_spec_witness :
  let values := [(u "GroupRatio", Text (u " { `default` : 1, `vip` : 0.5 } ")); (u "DefaultUseAutoGroup", Switch true);
                 (u "GroupSpecialUsableGroup", Text (u "{`vip`: {`a`: `b`}}"))] in
  saveGroupRatios (fun k _ => negb (jeqb k (u "DefaultUseAutoGroup"))) sample_groups_form values
  = ([(u "DefaultUseAutoGroup", Switch true)], false) /\
  obj_get (u "group_ratio_setting.group_special_usable_group")
    (assign (named group_apiKeyMap (normalized_form sample_groups_form))
       (saveGroupRatios (fun _ _ => true) sample_groups_form values).1)
  = Some (Text (u "{`vip`:{`a`:`b`}}")).
Proof.
  intros values. split; [by vm_compute|].
  destruct (save_options_spec (fun _ _ => true) group_apiKeyMap sample_groups_form values) as [_ H];
    [by vm_compute|apply (bool_decide_eq_true_1 _); by vm_compute|by vm_compute|].
  unfold saveGroupRatios. destruct (save_options _ _ _ _) as [sent ok] eqn:E. destruct H as (_ & Hf & Ht).
  destruct ok.
  - specialize (Ht eq_refl (u "GroupSpecialUsableGroup") (Text (u "{`vip`: {`a`: `b`}}")) ltac:(by do 2 right; left)).
    replace (default _ _) with (u "group_ratio_setting.group_special_usable_group") in Ht by by vm_compute.
    replace (normalize_setting _) with (Text (u "{`vip`:{`a`:`b`}}")) in Ht by by vm_compute. exact Ht.
  - by destruct (Hf eq_refl) as (? & ? & _ & ?).
Defined.
