(* ===== verification/ModelRatios.v ===== *)
(** * Model ratio editor

    Model of [src/web/default/src/features/system-settings/models/]
    [model-ratio-visual-editor.tsx], [model-ratio-dialog.tsx] and the change handler of
    [model-ratio-form.tsx]: ten settings are JSON texts, each a map by model name; the editor
    shows a row per model, and its dialog writes a model's entries into all ten texts.

    A text that is JSON but not an object is outside the model, as is a model whose name is a
    property of [Object.prototype]: the functions are [None] there, and where the code throws. *)

From S2P Require Import Prelude JsString JsNumber Json JsonFacts BillingExpr SettingsJson TierEditor.
Open Scope N_scope.

(** ** The ten texts *)

Inductive field : Type :=
| ModelPrice | ModelRatio | CacheRatio | CreateCacheRatio | CompletionRatio | ImageRatio | AudioRatio
| AudioCompletionRatio | BillingMode | BillingExpr.

#[export] Instance field_eq_dec : EqDecision field.
Proof. solve_decision. Defined.

Definition fields : list field :=
  [ModelPrice; ModelRatio; CacheRatio; CreateCacheRatio; CompletionRatio; ImageRatio; AudioRatio;
   AudioCompletionRatio; BillingMode; BillingExpr].

(** The fields whose entries are ratios. *)
Definition ratio_fields : list field :=
  [ModelRatio; CacheRatio; CreateCacheRatio; CompletionRatio; ImageRatio; AudioRatio; AudioCompletionRatio].

(** The name a field's new text is passed on with, [onChange(name, text)]. *)
Definition change_name (f : field) : jstr :=
  match f with
  | ModelPrice => u "ModelPrice" | ModelRatio => u "ModelRatio" | CacheRatio => u "CacheRatio"
  | CreateCacheRatio => u "CreateCacheRatio" | CompletionRatio => u "CompletionRatio"
  | ImageRatio => u "ImageRatio" | AudioRatio => u "AudioRatio"
  | AudioCompletionRatio => u "AudioCompletionRatio"
  | BillingMode => u "billing_setting.billing_mode" | BillingExpr => u "billing_setting.billing_expr"
  end.

(** The name of a field in the form. *)
Definition form_name (f : field) : jstr :=
  match f with BillingMode => u "BillingMode" | BillingExpr => u "BillingExpr" | _ => change_name f end.

(** The texts the form holds. *)
Abbreviation Texts := (field -> jstr).

(** [fieldMap\[field\] || field] *)
Definition fieldMap (name : jstr) : jstr :=
  if jeqb name (u "billing_setting.billing_mode") then u "BillingMode"
  else if jeqb name (u "billing_setting.billing_expr") then u "BillingExpr" else name.

(** [form.setValue(field, value)] *)
Definition handleFieldChange (t : Texts) (name value : jstr) : Texts :=
  fun f => if jeqb (form_name f) (fieldMap name) then value else t f.

(** ** Reading the texts *)

Definition read_maps (t : Texts) : option (field -> Map) :=
  if forallb (fun f => match text_map (t f) with Some _ => true | None => false end) fields
  then Some (fun f => default [] (text_map (t f))) else None.

(** The texts of the maps, each passed on in turn. *)
Definition write_maps (t : Texts) (m : field -> Map) : Texts :=
  fold_left (fun t f => handleFieldChange t (change_name f) (stringify_indent (JObj (m f)))) fields t.

(** ** Rows *)

(** A row's values by field, the columns of numbers only: [price], [ratio], ... *)
Record ModelRow := {
  name : jstr;
  value : field -> jstr;
  billingMode : jstr;
  billingExpr : jstr;
  requestRuleExpr : jstr;
  hasConflict : bool;
}.

Definition tiered_expr : jstr := u "tiered_expr".

(** [map\[name\]?.toString() || ''] *)
Definition number_text (v : option json) : option jstr :=
  match v with None | Some JNull => Some [] | Some j => to_str j end.

(** [String(map\[name\])] of a value that is a string or missing, for [map\[name\] || '']. *)
Definition expr_text (v : option json) : option jstr :=
  match v with
  | Some (JStr s) => Some s
  | Some j => if json_truthy j then None else Some []
  | None => Some []
  end.

Definition row_values (m : field -> Map) (model : jstr) : option (field -> jstr) :=
  if forallb (fun f => match number_text (obj_get model (m f)) with Some _ => true | None => false end)
       (ModelPrice :: ratio_fields)
  then Some (fun f => match f with
                      | BillingMode | BillingExpr => []
                      | _ => default [] (number_text (obj_get model (m f)))
                      end)
  else None.

Definition model_row (m : field -> Map) (model : jstr) : option ModelRow :=
  match row_values m model with
  | None => None
  | Some v =>
      match obj_get model (m BillingMode) with
      | Some (JStr mode) =>
          if jeqb mode tiered_expr then
            match expr_text (obj_get model (m BillingExpr)) with
            | None => None
            | Some fullExpr =>
                match splitBillingExprAndRequestRules fullExpr with
                | Ret s =>
                    Some {| name := model; value := v; billingMode := tiered_expr;
                            billingExpr := BillingExpr.billingExpr s;
                            requestRuleExpr := BillingExpr.requestRuleExpr s; hasConflict := false |}
                | Throw => None
                end
            end
          else
            Some {| name := model; value := v;
                    billingMode := if truthy (v ModelPrice) then u "per-request" else u "per-token";
                    billingExpr := []; requestRuleExpr := [];
                    hasConflict := truthy (v ModelPrice) && existsb (fun f => truthy (v f)) ratio_fields |}
      | _ =>
          Some {| name := model; value := v;
                  billingMode := if truthy (v ModelPrice) then u "per-request" else u "per-token";
                  billingExpr := []; requestRuleExpr := [];
                  hasConflict := truthy (v ModelPrice) && existsb (fun f => truthy (v f)) ratio_fields |}
      end
  end.

Definition modelNames (m : field -> Map) : list jstr := dedup (concat (map (fun f => obj_keys (m f)) fields)).

Fixpoint option_all {A} (l : list (option A)) : option (list A) :=
  match l with
  | [] => Some []
  | Some x :: t => match option_all t with Some r => Some (x :: r) | None => None end
  | None :: _ => None
  end.

Section Rows.
Context (localeCompare : jstr -> jstr -> Z).

Definition models (t : Texts) : option (list ModelRow) :=
  match read_maps t with
  | Some m =>
      match option_all (map (model_row m) (modelNames m)) with
      | Some l => Some (sort_by (fun a b => (0 <? localeCompare (name a) (name b))%Z) l)
      | None => None
      end
  | None => None
  end.
End Rows.

Definition formatValue (value : jstr) : jstr := if truthy value then value else [8212].

(** [isFallbackRow]: the ratios are not the primary price. *)
Definition isFallbackRow (row : ModelRow) : bool :=
  jeqb (billingMode row) tiered_expr || truthy (value row ModelPrice).

(** ** The dialog *)

Inductive PricingMode : Type := PerToken | PerRequest | TieredExpr.
Inductive PricingSubMode : Type := SubRatio | SubPrice.

#[export] Instance pricing_mode_eq_dec : EqDecision PricingMode.
Proof. solve_decision. Defined.

Record ModelRatioData := {
  d_name : jstr;
  d_value : field -> jstr;
  d_mode : PricingMode;
  d_expr : jstr;
  d_rules : jstr;
}.

Definition handleEdit (row : ModelRow) : ModelRatioData :=
  {| d_name := name row; d_value := value row;
     d_mode := if jeqb (billingMode row) tiered_expr then TieredExpr
               else if truthy (value row ModelPrice) then PerRequest else PerToken;
     d_expr := billingExpr row; d_rules := requestRuleExpr row |}.

(** The form of the dialog and the states beside it. *)
Record Dialog := {
  f_name : jstr;
  f_value : field -> jstr;
  pricingMode : PricingMode;
  pricingSubMode : PricingSubMode;
  promptPrice : jstr;
  completionPrice : jstr;
  x_expr : jstr;
  x_rules : jstr;
}.

Definition empty_dialog : Dialog :=
  {| f_name := []; f_value := fun _ => []; pricingMode := PerToken; pricingSubMode := SubRatio;
     promptPrice := []; completionPrice := []; x_expr := []; x_rules := [] |}.

(** The effect that fills the dialog for the row that is edited, or empties it. *)
Definition fill_dialog (s : Dialog) (editData : option ModelRatioData) : Dialog :=
  match editData with
  | None => empty_dialog
  | Some d =>
      let mode := match d_mode d with
                  | TieredExpr => TieredExpr
                  | _ => if truthy (d_value d ModelPrice) then PerRequest else PerToken
                  end in
      let priced := bool_decide (mode = PerToken) && truthy (d_value d ModelRatio) in
      let tokenPrice := fmul (parse_float (d_value d ModelRatio)) (num_of_Z 2) in
      {| f_name := d_name d; f_value := d_value d; pricingMode := mode; pricingSubMode := pricingSubMode s;
         promptPrice := if priced then num_to_string tokenPrice else promptPrice s;
         completionPrice :=
           if priced && truthy (d_value d CompletionRatio)
           then num_to_string (fmul tokenPrice (parse_float (d_value d CompletionRatio)))
           else completionPrice s;
         x_expr := d_expr d; x_rules := d_rules d |}
  end.

Definition set_value (s : Dialog) (f : field) (v : jstr) : Dialog :=
  {| f_name := f_name s; f_value := fun g => if decide (g = f) then v else f_value s g;
     pricingMode := pricingMode s; pricingSubMode := pricingSubMode s; promptPrice := promptPrice s;
     completionPrice := completionPrice s; x_expr := x_expr s; x_rules := x_rules s |}.

Definition set_prices (s : Dialog) (prompt completion : jstr) : Dialog :=
  {| f_name := f_name s; f_value := f_value s; pricingMode := pricingMode s; pricingSubMode := pricingSubMode s;
     promptPrice := prompt; completionPrice := completion; x_expr := x_expr s; x_rules := x_rules s |}.

Definition set_mode (s : Dialog) (mode : PricingMode) : Dialog :=
  {| f_name := f_name s; f_value := f_value s; pricingMode := mode; pricingSubMode := pricingSubMode s;
     promptPrice := promptPrice s; completionPrice := completionPrice s; x_expr := x_expr s; x_rules := x_rules s |}.

Definition set_exprs (s : Dialog) (expr rules : jstr) : Dialog :=
  {| f_name := f_name s; f_value := f_value s; pricingMode := pricingMode s; pricingSubMode := pricingSubMode s;
     promptPrice := promptPrice s; completionPrice := completionPrice s; x_expr := expr; x_rules := rules |}.

Definition validateNumber (value : jstr) : bool := jeqb value [] || negb (is_nan (parse_float value)).

(** Typing into a number field: a text that is not the start of a number is refused. *)
Definition type_number (s : Dialog) (f : field) (v : jstr) : Dialog :=
  if validateNumber v then set_value s f v else s.

Definition handlePromptPriceChange (s : Dialog) (v : jstr) : Dialog :=
  let s := set_prices s v (completionPrice s) in
  if truthy v && negb (is_nan (parse_float v))
  then set_value s ModelRatio (num_to_string (fdiv (parse_float v) (num_of_Z 2)))
  else set_value s ModelRatio [].

Definition handleCompletionPriceChange (s : Dialog) (v : jstr) : Dialog :=
  let prompt := promptPrice s in
  let s := set_prices s prompt v in
  if truthy v && negb (is_nan (parse_float v)) && truthy prompt && negb (is_nan (parse_float prompt))
     && flt zero (parse_float prompt)
  then set_value s CompletionRatio (num_to_string (fdiv (parse_float v) (parse_float prompt)))
  else set_value s CompletionRatio [].

(** In the tiered mode the dialog shows the editor of tiers, on its name and its two expressions; the
    effects of the editor run, and what they report is what the dialog then holds.  Five commits are
    enough for them to come to rest. *)
Definition show_editor (s : Dialog) : outcome Dialog :=
  match pricingMode s with
  | TieredExpr =>
      bind! w := mount {| modelName := Some (f_name s); currentExpr := x_expr s; currentRequestRuleExpr := x_rules s |} in
      bind! w := settle 5 w in
      Ret (set_exprs s (currentExpr (props w)) (currentRequestRuleExpr (props w)))
  | _ => Ret s
  end.

(** [None]: the schema refuses a dialog without a name. *)
Definition handleSubmit (s : Dialog) : option ModelRatioData :=
  match f_name s with
  | [] => None
  | _ =>
      Some {| d_name := f_name s; d_value := f_value s; d_mode := pricingMode s;
              d_expr := if decide (pricingMode s = TieredExpr) then x_expr s else [];
              d_rules := if decide (pricingMode s = TieredExpr) then x_rules s else [] |}
  end.

(** ** Saving and deleting *)

Definition setIfPresent (model : jstr) (target : Map) (v : jstr) : Map :=
  if negb (truthy v) then target else
  let parsed := parse_float v in
  if is_finite parsed then obj_set model (JNum parsed) target else target.

(** What the save does to the map of a field, which no longer has an entry of the model. *)
Definition save_entry (d : ModelRatioData) (f : field) (target : Map) : Map :=
  if decide (d_mode d = TieredExpr) then
    let combined := combineBillingExpr (d_expr d) (d_rules d) in
    match f with
    | BillingMode => if truthy combined then obj_set (d_name d) (JStr tiered_expr) target else target
    | BillingExpr => if truthy combined then obj_set (d_name d) (JStr combined) target else target
    | _ => setIfPresent (d_name d) target (d_value d f)
    end
  else if truthy (d_value d ModelPrice) then
    match f with ModelPrice => setIfPresent (d_name d) target (d_value d f) | _ => target end
  else
    match f with
    | ModelPrice | BillingMode | BillingExpr => target
    | _ => setIfPresent (d_name d) target (d_value d f)
    end.

Definition handleSave (t : Texts) (d : ModelRatioData) : option Texts :=
  match read_maps t with
  | Some m => Some (write_maps t (fun f => save_entry d f (obj_delete (d_name d) (m f))))
  | None => None
  end.

Definition handleDelete (t : Texts) (model : jstr) : option Texts :=
  match read_maps t with
  | Some m => Some (write_maps t (fun f => obj_delete model (m f)))
  | None => None
  end.
