(* ===== verification/ModelRatioFacts.v ===== *)
(** * Facts about the model ratio editor

    What saving and deleting a model does to the ten maps, that saving an unchanged row changes
    no entry when its expression is one the editor of tiers prints, that it loses any expression
    that editor cannot show, and two places where the dialog does not do what it shows. *)

From S2P Require Import Prelude JsString JsNumber Json JsonFacts BillingExpr BillingRules TierExpr TierFacts TierEditor TierEditorFacts SettingsJson ModelRatios.
Open Scope N_scope.

(** ** Texts and maps *)

(** The texts are those of the maps. *)
Definition holds (t : Texts) (m : field -> Map) : Prop := forall f, text_map (t f) = Some (m f).

Lemma fields_all f : f ∈ fields.
Proof. destruct f; apply (bool_decide_unpack _); by vm_compute. Qed.

Lemma read_maps_holds t m : holds t m -> exists m', read_maps t = Some m' /\ forall f, m' f = m f.
Proof.
  intros H. unfold read_maps. rewrite (proj2 (forallb_forall _ _)) by (intros f _; by rewrite H).
  eexists. split; [done|]. intros f. cbn. by rewrite H.
Qed.

Lemma change_at t g v f : handleFieldChange t (change_name g) v f = if decide (f = g) then v else t f.
Proof. unfold handleFieldChange. destruct g, f; reflexivity. Qed.

Lemma write_maps_at t m f : write_maps t m f = stringify_indent (JObj (m f)).
Proof. unfold write_maps, fields. cbn [fold_left]. rewrite !change_at. by destruct f. Qed.

Lemma write_maps_hold t m : (forall f, obj_ok (m f)) -> holds (write_maps t m) m.
Proof. intros Ho f. rewrite write_maps_at. by apply text_map_indent. Qed.

Lemma write_maps_ext t m m' f : (forall f, m f = m' f) -> write_maps t m f = write_maps t m' f.
Proof. intros H. by rewrite !write_maps_at, H. Qed.

Lemma holds_write t m m' : (forall f, m f = m' f) -> (forall f, obj_ok (m' f)) -> holds (write_maps t m) m'.
Proof. intros He Ho f. rewrite (write_maps_ext t m m') by done. by apply write_maps_hold. Qed.

(** ** Saving *)

(** The number a text is stored as. *)
Definition stored_number (v : jstr) : option json :=
  if truthy v && is_finite (parse_float v) then Some (JNum (parse_float v)) else None.

(** The entry a save leaves for the model in the map of a field. *)
Definition saved_entry (d : ModelRatioData) (f : field) : option json :=
  let combined := combineBillingExpr (d_expr d) (d_rules d) in
  match d_mode d, f with
  | TieredExpr, BillingMode => if truthy combined then Some (JStr tiered_expr) else None
  | TieredExpr, BillingExpr => if truthy combined then Some (JStr combined) else None
  | TieredExpr, _ => stored_number (d_value d f)
  | _, (BillingMode | BillingExpr) => None
  | _, ModelPrice => stored_number (d_value d f)
  | _, _ => if truthy (d_value d ModelPrice) then None else stored_number (d_value d f)
  end.

(** Values that are printed and read exactly. *)
Definition data_ok (d : ModelRatioData) : bool :=
  key_ok (d_name d) && forallb (fun c => c <? 65536) (combineBillingExpr (d_expr d) (d_rules d))
  && forallb (fun f => negb (is_finite (parse_float (d_value d f))) || num_ok (parse_float (d_value d f)))
       (ModelPrice :: ratio_fields).

Lemma setIfPresent_get model target v :
  obj_get model target = None -> obj_get model (setIfPresent model target v) = stored_number v.
Proof.
  intros Hn. unfold setIfPresent, stored_number. destruct (truthy v); cbn [negb andb]; [|done].
  destruct (is_finite (parse_float v)); [|done]. by rewrite obj_get_set_eq.
Qed.

Lemma setIfPresent_other model k target v :
  k <> model -> obj_get k (setIfPresent model target v) = obj_get k target.
Proof.
  intros Hk. unfold setIfPresent. destruct (truthy v); cbn [negb]; [|done].
  destruct (is_finite (parse_float v)); [|done]. by rewrite obj_get_set_ne.
Qed.

Lemma save_entry_get d f target :
  obj_get (d_name d) target = None -> obj_get (d_name d) (save_entry d f target) = saved_entry d f.
Proof.
  intros Hn. unfold save_entry, saved_entry. cbv zeta.
  destruct (d_mode d); (case_decide as Hm; [try done|try done]).
  3: destruct f; try (by apply setIfPresent_get); destruct (truthy (combineBillingExpr _ _)); rewrite ?obj_get_set_eq; done.
  all: destruct (truthy (d_value d ModelPrice)) eqn:Hp; destruct f; try done; try (by apply setIfPresent_get).
  all: by rewrite Hn; unfold stored_number; rewrite Hp.
Qed.

Lemma save_entry_other d f k target :
  k <> d_name d -> obj_get k (save_entry d f target) = obj_get k target.
Proof.
  intros Hk. unfold save_entry. cbv zeta.
  repeat case_match; try done; try (by apply setIfPresent_other); by rewrite obj_get_set_ne.
Qed.

Lemma setIfPresent_ok model target v :
  key_ok model = true -> negb (is_finite (parse_float v)) || num_ok (parse_float v) = true ->
  obj_ok target -> obj_ok (setIfPresent model target v).
Proof.
  intros Hk Hv Ho. unfold setIfPresent. destruct (truthy v); cbn [negb]; [|done].
  destruct (is_finite (parse_float v)); [|done]. by apply obj_ok_set.
Qed.

Lemma data_ok_spec d : data_ok d = true ->
  key_ok (d_name d) = true /\ json_ok (JStr (combineBillingExpr (d_expr d) (d_rules d))) = true /\
  forall f, f <> BillingMode -> f <> BillingExpr ->
    negb (is_finite (parse_float (d_value d f))) || num_ok (parse_float (d_value d f)) = true.
Proof.
  intros [[Hk Hc]%andb_prop Hv]%andb_prop. split_and!; [done..|]. rewrite forallb_forall in Hv.
  intros f Hm He. apply Hv, list_elem_of_In. destruct f; try done; apply (bool_decide_unpack _); by vm_compute.
Qed.

Lemma save_entry_ok d f target : data_ok d = true -> obj_ok target -> obj_ok (save_entry d f target).
Proof.
  intros (Hk & Hc & Hv)%data_ok_spec Ho. unfold save_entry. cbv zeta.
  repeat case_match; try done; try (by apply obj_ok_set); apply setIfPresent_ok; try done; by apply Hv.
Qed.

(** The maps a save leaves. *)
Definition saved_maps (d : ModelRatioData) (m : field -> Map) : field -> Map :=
  fun f => save_entry d f (obj_delete (d_name d) (m f)).

Lemma saved_maps_get d m f k :
  obj_get k (saved_maps d m f) = if jeqb (d_name d) k then saved_entry d f else obj_get k (m f).
Proof.
  unfold saved_maps. destruct (jeqb (d_name d) k) eqn:E.
  - apply jeqb_spec in E as <-. apply save_entry_get. by rewrite get_delete, jeqb_refl.
  - pose proof (proj1 (jeqb_neq _ _) E) as Hne. rewrite save_entry_other by congruence. by rewrite get_delete, E.
Qed.

Lemma save_holds t m d :
  holds t m -> (forall f, obj_ok (m f)) -> data_ok d = true ->
  exists t', handleSave t d = Some t' /\ holds t' (saved_maps d m) /\ forall f, obj_ok (saved_maps d m f).
Proof.
  intros Ht Ho Hd. destruct (read_maps_holds t m Ht) as (m' & Hm & He). unfold handleSave. rewrite Hm.
  assert (forall f, obj_ok (saved_maps d m f)) as Hok by (intros f; by apply save_entry_ok, obj_ok_delete).
  eexists. split; [done|]. split; [|done]. apply holds_write; [|done]. intros f. unfold saved_maps. by rewrite He.
Qed.

Lemma delete_holds t m k :
  holds t m -> (forall f, obj_ok (m f)) ->
  exists t', handleDelete t k = Some t' /\ holds t' (fun f => obj_delete k (m f)).
Proof.
  intros Ht Ho. destruct (read_maps_holds t m Ht) as (m' & Hm & He). unfold handleDelete. rewrite Hm.
  eexists. split; [done|]. apply holds_write; [intros f; by rewrite He|]. intros f. by apply obj_ok_delete.
Qed.

(** ** Rows after a save *)

Lemma row_values_at m k v f :
  row_values m k = Some v -> f <> BillingMode -> f <> BillingExpr -> v f = default [] (number_text (obj_get k (m f))).
Proof. unfold row_values. destruct (forallb _ _); [|done]. intros [= <-]. by destruct f. Qed.

Definition is_tiered (m : field -> Map) (k : jstr) : bool :=
  match obj_get k (m BillingMode) with Some (JStr mode) => jeqb mode tiered_expr | _ => false end.

(** A row is tiered exactly for the mode [tiered_expr], and its values are the entries' texts. *)
Lemma model_row_inv m k row :
  model_row m k = Some row ->
  name row = k /\ row_values m k = Some (value row) /\
  if is_tiered m k then
    billingMode row = tiered_expr /\ hasConflict row = false /\
    exists e s, expr_text (obj_get k (m BillingExpr)) = Some e /\ splitBillingExprAndRequestRules e = Ret s /\
      billingExpr row = BillingExpr.billingExpr s /\ requestRuleExpr row = BillingExpr.requestRuleExpr s
  else
    billingMode row = (if truthy (value row ModelPrice) then u "per-request" else u "per-token") /\
    hasConflict row = truthy (value row ModelPrice) && existsb (fun f => truthy (value row f)) ratio_fields.
Proof.
  unfold model_row, is_tiered. destruct (row_values m k) as [v|]; [|done].
  destruct (obj_get k (m BillingMode)) as [[| | |mode| |]|]; try (by intros [= <-]).
  destruct (jeqb mode tiered_expr); [|by intros [= <-]].
  destruct (expr_text _) as [e|]; [|done]. destruct (splitBillingExprAndRequestRules e) as [s|] eqn:Hs; [|done].
  intros [= <-]. split_and!; [done..|]. by exists e, s.
Qed.

Lemma string_of_pos_nonempty m e : string_of_pos m e <> [].
Proof.
  unfold string_of_pos. destruct (ratio m e) as [a b].
  destruct (shortest _ _ a b _ _) as [[s k] n]. cbv zeta.
  destruct ((k <=? n) && (n <=? 21))%Z; [intros [H _]%app_eq_nil; by apply string_of_N_nonempty in H|].
  destruct ((0 <? n) && (n <=? 21))%Z; [by intros [_ H]%app_eq_nil|].
  destruct ((-6 <? n) && (n <=? 0))%Z; [done|].
  destruct (k =? 1)%Z; [|by intros [_ H]%app_eq_nil]. intros [H _]%app_eq_nil. by apply string_of_N_nonempty in H.
Qed.

Lemma num_text_truthy x : truthy (num_to_string x) = true.
Proof.
  apply truthy_spec. destruct x as [ |[]| |[] m e]; try done. apply string_of_pos_nonempty.
Qed.

(** What a save leaves a row without: a conflict, unless a tiered model has no expression. *)
Lemma saved_no_conflict d m row :
  d_mode d <> TieredExpr \/ combineBillingExpr (d_expr d) (d_rules d) <> [] ->
  model_row (saved_maps d m) (d_name d) = Some row -> hasConflict row = false.
Proof.
  intros Hd (_ & Hv & Hrow)%model_row_inv. unfold is_tiered in Hrow. rewrite saved_maps_get, jeqb_refl in Hrow.
  destruct (decide (d_mode d = TieredExpr)) as [Ht|Ht].
  - destruct Hd as [|Hc]; [done|]. unfold saved_entry in Hrow. rewrite Ht, (proj2 (truthy_spec _) Hc) in Hrow.
    rewrite jeqb_refl in Hrow. by destruct Hrow as (_ & ? & _).
  - assert (saved_entry d BillingMode = None) as E by (unfold saved_entry; by destruct (d_mode d)).
    rewrite E in Hrow. destruct Hrow as [_ ->].
    destruct (truthy (value row ModelPrice)) eqn:Hp; [cbn [andb]|done].
    rewrite (row_values_at _ _ _ _ Hv), saved_maps_get, jeqb_refl in Hp by done.
    assert (truthy (d_value d ModelPrice) = true) as Hpr.
    { unfold saved_entry, stored_number in Hp. destruct (d_mode d), (truthy (d_value d ModelPrice)); done. }
    assert (forall f, f <> ModelPrice -> f <> BillingMode -> f <> BillingExpr -> value row f = []) as He.
    { intros f H1 H2 H3. rewrite (row_values_at _ _ _ f Hv), saved_maps_get, jeqb_refl by done.
      unfold saved_entry. rewrite Hpr. by destruct (d_mode d), f. }
    unfold ratio_fields. cbn [existsb]. by rewrite !He.
Qed.

(** ** What the chosen mode means *)

(** The entry the mode of the dialog asks for: ratios per token, the price per request, the expression
    with all numbers as a fallback for tiers. *)
Definition mode_entry (d : ModelRatioData) (f : field) : option json :=
  match d_mode d, f with
  | TieredExpr, BillingMode => Some (JStr tiered_expr)
  | TieredExpr, BillingExpr => Some (JStr (combineBillingExpr (d_expr d) (d_rules d)))
  | TieredExpr, _ => stored_number (d_value d f)
  | _, (BillingMode | BillingExpr) => None
  | PerRequest, ModelPrice => stored_number (d_value d ModelPrice)
  | PerRequest, _ => None
  | PerToken, ModelPrice => None
  | PerToken, _ => stored_number (d_value d f)
  end.

(** The values of the dialog fit its mode: no price is left per token, there is one per request, and
    tiers have an expression. *)
Definition mode_fits (d : ModelRatioData) : Prop :=
  match d_mode d with
  | PerToken => d_value d ModelPrice = []
  | PerRequest => stored_number (d_value d ModelPrice) <> None
  | TieredExpr => combineBillingExpr (d_expr d) (d_rules d) <> []
  end.

Lemma fitting_entry d f : mode_fits d -> saved_entry d f = mode_entry d f.
Proof.
  unfold mode_fits, saved_entry, mode_entry. destruct (d_mode d).
  - intros H. destruct f; by rewrite ?H.
  - unfold stored_number at 1. destruct (truthy (d_value d ModelPrice)); [|done]. by destruct f.
  - intros H%truthy_spec. rewrite H. by destruct f.
Qed.

(** The mode the dialog opens a row in. *)
Definition row_mode (row : ModelRow) : PricingMode :=
  if jeqb (billingMode row) tiered_expr then TieredExpr
  else if truthy (value row ModelPrice) then PerRequest else PerToken.

Lemma fitting_row d m row :
  mode_fits d -> model_row (saved_maps d m) (d_name d) = Some row -> row_mode row = d_mode d /\ hasConflict row = false.
Proof.
  intros Hfit Hrow. split.
  2: { apply (saved_no_conflict d m row); [|done]. unfold mode_fits in Hfit. destruct (d_mode d); [by left|by left|by right]. }
  apply model_row_inv in Hrow as (_ & Hv & Hr). pose proof (fun f => fitting_entry d f Hfit) as He.
  pose proof (row_values_at _ _ _ ModelPrice Hv ltac:(done) ltac:(done)) as Hp. rewrite saved_maps_get, jeqb_refl, He in Hp.
  unfold is_tiered in Hr. rewrite saved_maps_get, jeqb_refl, He in Hr. unfold mode_entry in Hr, Hp. unfold row_mode, mode_fits in *.
  destruct (d_mode d).
  - destruct Hr as [-> _]. by rewrite Hp.
  - destruct Hr as [-> _]. rewrite Hp. unfold stored_number in Hfit |- *. destruct (truthy (d_value d ModelPrice) && _); [|done].
    change (default [] _) with (num_to_string (parse_float (d_value d ModelPrice))). by rewrite num_text_truthy.
  - rewrite jeqb_refl in Hr. destruct Hr as [-> _]. by rewrite jeqb_refl.
Qed.

(** C25: Saving a model reads the ten texts and writes ten texts in which every other model's entries
    are the same.  When the values of the dialog fit its mode (per token: no price is left in the form;
    per request: there is a price; tiered: there is an expression), the model's entries are then
    exactly those of the mode, the ratios or the price or the expression with all numbers as a
    fallback, and its row opens in that mode and shows no conflict between a price and ratios.
    (Per token with a price left, the price is saved and the ratios are not: [mode_switch_ignored].) *)
Theorem model_save_spec t m d :
  holds t m -> (forall f, obj_ok (m f)) -> data_ok d = true ->
  exists t' m', handleSave t d = Some t' /\ holds t' m' /\ (forall f, obj_ok (m' f)) /\
    (forall k f, k <> d_name d -> obj_get k (m' f) = obj_get k (m f)) /\
    (mode_fits d ->
     (forall f, obj_get (d_name d) (m' f) = mode_entry d f) /\
     forall row, model_row m' (d_name d) = Some row -> row_mode row = d_mode d /\ hasConflict row = false).
Proof.
  intros Ht Ho Hd. destruct (save_holds t m d Ht Ho Hd) as (t' & Hs & Hm & Hok).
  exists t', (saved_maps d m). split_and!; [done..| |].
  - intros k f Hk. by rewrite saved_maps_get, (proj2 (jeqb_neq (d_name d) k)) by congruence.
  - intros Hfit. split; [|intros row; by apply fitting_row]. intros f. rewrite saved_maps_get, jeqb_refl. by apply fitting_entry.
Qed.

(** ** Saving a row as it is *)

(** A number whose text [parseFloat] reads as the number. *)
Definition plain_number (x : num) : bool := is_finite x && num_ok x && bool_decide (parse_float (num_to_string x) = x).

(** An entry of a number map that is such a number, or none. *)
Definition plain_entry (v : option json) : bool :=
  match v with None => true | Some (JNum x) => plain_number x | _ => false end.

(** The name and the numbers of a model: the numbers are plain. *)
Record clean_values (m : field -> Map) (k : jstr) : Prop := {
  clean_name : key_ok k = true /\ k <> [];
  clean_numbers : forall f, f ∈ ModelPrice :: ratio_fields -> plain_entry (obj_get k (m f)) = true;
}.

(** A text that is combined from a base and rules, and split into them again. *)
Definition combined_of (e base rules : jstr) : Prop :=
  e <> [] /\ units e /\ e = combineBillingExpr base rules /\
  splitBillingExprAndRequestRules e = Ret {| BillingExpr.billingExpr := base; BillingExpr.requestRuleExpr := rules |}.

(** A tiered model with the two parts of its expression. *)
Definition tiered_model (m : field -> Map) (k base rules : jstr) : Prop :=
  obj_get k (m BillingMode) = Some (JStr tiered_expr) /\
  exists e, obj_get k (m BillingExpr) = Some (JStr e) /\ combined_of e base rules.


Lemma plain_entry_stored v :
  plain_entry v = true -> stored_number (default [] (number_text v)) = v.
Proof.
  destruct v as [[| |x| | |]|]; try done. cbn. intros [[Hf _]%andb_prop Hp]%andb_prop.
  apply bool_decide_eq_true in Hp. unfold stored_number. rewrite Hp, Hf, num_text_truthy. done.
Qed.

Lemma plain_entry_ok v :
  plain_entry v = true ->
  let x := parse_float (default [] (number_text v)) in negb (is_finite x) || num_ok x = true.
Proof.
  destruct v as [[| |x| | |]|]; try done. cbn. intros [[Hf Hn]%andb_prop Hp]%andb_prop.
  apply bool_decide_eq_true in Hp. by rewrite Hp, Hn, orb_true_r.
Qed.

Lemma plain_entry_empty v : plain_entry v = true -> truthy (default [] (number_text v)) = false -> v = None.
Proof. destruct v as [[| |x| | |]|]; try done. cbn. by rewrite num_text_truthy. Qed.

(** What the dialog submits for a row that is opened and left as it is: the dialog is filled, the
    editor of tiers is shown for a tiered row, then the dialog is submitted.  The editor is mounted on
    the filled dialog when the dialog was not in the tiered mode before. *)
Definition submitted (s : Dialog) (row : ModelRow) : outcome (option ModelRatioData) :=
  bind! s' := show_editor (fill_dialog s (Some (handleEdit row))) in Ret (handleSubmit s').


Lemma submitted_tiered s row w w' :
  name row <> [] -> row_mode row = TieredExpr ->
  mount {| modelName := Some (name row); currentExpr := billingExpr row; currentRequestRuleExpr := requestRuleExpr row |} = Ret w ->
  settle 5 w = Ret w' ->
  submitted s row = Ret (Some {| d_name := name row; d_value := value row; d_mode := TieredExpr;
                                 d_expr := currentExpr (props w'); d_rules := currentRequestRuleExpr (props w') |}).
Proof.
  intros Hn Hm Hw Hs. unfold submitted, show_editor, fill_dialog.
  cbn [f_name f_value pricingMode x_expr x_rules handleEdit d_name d_value d_mode d_expr d_rules]. fold (row_mode row).
  rewrite Hm, Hw. cbn [obind]. rewrite Hs. cbn [obind]. unfold handleSubmit, set_exprs. cbn [f_name f_value pricingMode x_expr x_rules].
  by destruct (name row).
Qed.

(** The name and the numbers of a submission are those of the model. *)
Record submission (m : field -> Map) (k : jstr) (d : ModelRatioData) : Prop := {
  sub_name : d_name d = k;
  sub_values : forall f, f ∈ ModelPrice :: ratio_fields -> d_value d f = default [] (number_text (obj_get k (m f)));
}.

Lemma row_submission m k row d :
  model_row m k = Some row -> d_name d = name row -> d_value d = value row -> submission m k d.
Proof.
  intros (Hn & Hv & _)%model_row_inv Hd Hval. split; [congruence|]. intros f Hf. rewrite Hval.
  apply (row_values_at _ _ _ _ Hv); intros ->; revert Hf; apply (bool_decide_unpack _); by vm_compute.
Qed.

(** The row of a tiered model. *)
Lemma tiered_row m k base rules row :
  tiered_model m k base rules -> model_row m k = Some row ->
  name row = k /\ row_mode row = TieredExpr /\ billingExpr row = base /\ requestRuleExpr row = rules.
Proof.
  intros (Hm & e & He & Hen & Hu & Hc & Hsp) (Hn & _ & Hr)%model_row_inv. unfold is_tiered in Hr. rewrite Hm, jeqb_refl, He in Hr.
  destruct Hr as (Hb & _ & e' & sp & [= <-] & Hsp' & -> & ->). rewrite Hsp in Hsp'. injection Hsp' as <-.
  split_and!; [done| |done|done]. unfold row_mode. by rewrite Hb, jeqb_refl.
Qed.

Lemma submission_ok m k d :
  clean_values m k -> submission m k d -> units (combineBillingExpr (d_expr d) (d_rules d)) -> data_ok d = true.
Proof.
  intros [[Hk _] Hnum] [Hn Hv] Hu. unfold data_ok. rewrite Hn, Hk. cbn [andb]. apply andb_true_intro. split.
  - by apply forallb_forall; setoid_rewrite N.ltb_lt; apply List.Forall_forall.
  - apply forallb_forall. intros f Hf%list_elem_of_In. rewrite Hv by done. by apply plain_entry_ok, Hnum.
Qed.

Lemma submission_number m k d f :
  clean_values m k -> submission m k d -> f ∈ ModelPrice :: ratio_fields -> stored_number (d_value d f) = obj_get k (m f).
Proof. intros [_ Hnum] [_ Hv] Hf. rewrite Hv by done. by apply plain_entry_stored, Hnum. Qed.


(** A tiered submission keeps every number; its expression is what the editor reported. *)
Lemma tiered_entries m k d f :
  clean_values m k -> submission m k d -> d_mode d = TieredExpr -> combineBillingExpr (d_expr d) (d_rules d) <> [] ->
  saved_entry d f = match f with
                    | BillingMode => Some (JStr tiered_expr)
                    | BillingExpr => Some (JStr (combineBillingExpr (d_expr d) (d_rules d)))
                    | f => obj_get k (m f)
                    end.
Proof.
  intros Hc Hs Hm Hne%truthy_spec. unfold saved_entry. rewrite Hm, Hne.
  destruct f; try done; apply (submission_number m k d); (done || apply (bool_decide_unpack _); by vm_compute).
Qed.



(** Saving what was submitted: the entries of the model are those of the submission. *)
Lemma save_submission t m k d :
  holds t m -> (forall f, obj_ok (m f)) -> clean_values m k -> submission m k d ->
  units (combineBillingExpr (d_expr d) (d_rules d)) ->
  exists t' m', handleSave t d = Some t' /\ holds t' m' /\
    forall f k', obj_get k' (m' f) = if jeqb k k' then saved_entry d f else obj_get k' (m f).
Proof.
  intros Ht Ho Hc Hs Hu. destruct (save_holds t m d Ht Ho) as (t' & H1 & H2 & _); [by eapply submission_ok|].
  exists t', (saved_maps d m). split_and!; [done..|]. intros f k'. by rewrite saved_maps_get, (sub_name _ _ _ Hs).
Qed.


(** C36: An expression that the visual editor cannot read is lost by opening and saving its model.  For
    a tiered model whose stored text is split into a base that the visual mode cannot read and the
    printed text of canonical rules (or no rules), opening the dialog (not in the tiered mode before)
    and saving it as it is writes
    the expression of zero prices, [p * 0 + c * 0], with the same rules: the model becomes free of charge. *)
Theorem raw_expression_lost t m k base gs row s :
  holds t m -> (forall f, obj_ok (m f)) -> clean_values m k ->
  tiered_model m k base (buildRequestRuleExpr gs) -> base <> [] -> tryParseVisualConfig (Some base) = None ->
  forallb canonical_group gs = true -> units (combineBillingExpr zero_expr (buildRequestRuleExpr gs)) ->
  model_row m k = Some row -> pricingMode s <> TieredExpr ->
  exists d t' m', submitted s row = Ret (Some d) /\ handleSave t d = Some t' /\ holds t' m' /\
    obj_get k (m' BillingExpr) = Some (JStr (combineBillingExpr zero_expr (buildRequestRuleExpr gs))).
Proof.
  intros Ht Ho Hc Htier Hb Hun Hg Hu Hr _. destruct (tiered_row _ _ _ _ _ Htier Hr) as (Hn & Hm & He & Hru).
  pose proof (clean_name _ _ Hc) as [_ Hk]. destruct Htier as (_ & e & _ & _ & _ & Hce & Hsp). rewrite Hce in Hsp.
  destruct (unread_opened (Some (name row)) base gs _ Hb Hun Hg Hsp) as (w & w' & Hw & Hset & Hx & Hy).
  eexists. rewrite (submitted_tiered s row w w') by congruence. match goal with |- exists t' m', Ret (Some ?x) = _ /\ _ => set (d := x) end.
  assert (submission m k d) as Hs by by eapply row_submission.
  assert (combineBillingExpr (d_expr d) (d_rules d) = combineBillingExpr zero_expr (buildRequestRuleExpr gs)) as Hd
    by (cbn [d d_expr d_rules]; by rewrite Hx, Hy).
  destruct (save_submission t m k d Ht Ho Hc Hs) as (t' & m' & S1 & S2 & S3); [by rewrite Hd|].
  exists t', m'. split_and!; [done..|]. rewrite S3, jeqb_refl, (tiered_entries m k d), Hd; try done.
  rewrite Hd. unfold combineBillingExpr. by destruct (truthy (trim (buildRequestRuleExpr gs))).
Qed.

(** ** Examples *)

Definition sample_expr : jstr :=
  combineBillingExpr (u "tier(`base`, p * 2.5 + c * 15)") (buildRequestRuleExpr sample_groups).

Definition sample_texts : Texts := fun f =>
  match f with
  | ModelPrice => u "{`dall`: 0.04}"
  | ModelRatio => u "{`gpt`: 1.25, `tier`: 3}"
  | CompletionRatio => u "{`gpt`: 4}"
  | CacheRatio => []
  | BillingMode => u "{`tier`: `tiered_expr`}"
  | BillingExpr => stringify (JObj [(u "tier", JStr sample_expr)])
  | _ => u "{}"
  end.

Definition sample_maps : field -> Map := fun f => default [] (text_map (sample_texts f)).

Lemma sample_holds : holds sample_texts sample_maps /\ forall f, obj_ok (sample_maps f).
Proof. split; intros f; [|apply obj_ok_spec]; destruct f; by vm_compute. Qed.

Definition gpt_data : ModelRatioData :=
  {| d_name := u "gpt"; d_value := fun f => match f with ModelRatio => u "2" | CompletionRatio => u "1.5x" | _ => [] end;
     d_mode := PerToken; d_expr := []; d_rules := [] |}.

Lemma model_save_spec_witness :
  exists t' m', handleSave sample_texts gpt_data = Some t' /\ holds t' m' /\
    obj_get (u "gpt") (m' CompletionRatio) = Some (JNum (to_number (u "1.5"))) /\
    obj_get (u "dall") (m' ModelPrice) = Some (JNum (to_number (u "0.04"))).
Proof.
  destruct sample_holds as [Hh Ho].
  destruct (model_save_spec sample_texts sample_maps gpt_data) as (t' & m' & H1 & H2 & _ & H3 & H4 & _);
    [done..|by vm_compute|].
  exists t', m'. split_and!; [done..| |].
  - change (u "gpt") with (d_name gpt_data). rewrite H4. by vm_compute.
  - rewrite H3 by (apply jeqb_neq; by vm_compute). by vm_compute.
Defined.

Lemma sample_values_clean maps k :
  key_ok k = true -> k <> [] -> forallb (fun f => plain_entry (obj_get k (maps f))) (ModelPrice :: ratio_fields) = true ->
  clean_values maps k.
Proof. intros H1 H2 H3. split; [done|]. intros f Hf%list_elem_of_In. by rewrite forallb_forall in H3; apply H3. Qed.




(** A model whose rule has a guard: its text is read as one base expression, which is lost. *)
Definition guarded_expr : jstr :=
  combineBillingExpr (u "tier(`base`, p * 2.5 + c * 15)")
    (buildRequestRuleExpr [{| conditions := [guarded_cond MATCH_GT (u "max_tokens") (u "4096")]; multiplier := u "2" |}]).

Definition raw_maps : field -> Map := fun f =>
  match f with
  | BillingMode => [(u "raw", JStr tiered_expr)]
  | BillingExpr => [(u "raw", JStr guarded_expr)]
  | _ => []
  end.

Definition raw_texts : Texts := fun f => stringify (JObj (raw_maps f)).

Lemma raw_holds : holds raw_texts raw_maps /\ forall f, obj_ok (raw_maps f).
Proof. split; intros f; [|apply obj_ok_spec]; destruct f; by vm_compute. Qed.

Lemma raw_tiered : tiered_model raw_maps (u "raw") guarded_expr (buildRequestRuleExpr []).
Proof.
  split; [by vm_compute|]. exists guarded_expr. split; [by vm_compute|]. split; [by vm_compute|].
  split; [apply units_forallb; by vm_compute|]. split; vm_compute; reflexivity.
Qed.

Lemma raw_expression_lost_witness :
  exists row d t' m', model_row raw_maps (u "raw") = Some row /\ submitted empty_dialog row = Ret (Some d) /\
    handleSave raw_texts d = Some t' /\ holds t' m' /\ obj_get (u "raw") (m' BillingExpr) = Some (JStr zero_expr).
Proof.
  destruct raw_holds as [Hh Ho].
  assert (match model_row raw_maps (u "raw") with Some _ => true | None => false end = true) as Hsome by by vm_compute.
  destruct (model_row raw_maps (u "raw")) as [row|] eqn:Hrow; [|discriminate Hsome].
  destruct (raw_expression_lost raw_texts raw_maps (u "raw") guarded_expr [] row empty_dialog) as (d & t' & m' & H1 & H2 & H3 & H4).
  - exact Hh.
  - exact Ho.
  - apply sample_values_clean; by vm_compute.
  - exact raw_tiered.
  - by vm_compute.
  - vm_compute; reflexivity.
  - reflexivity.
  - apply units_forallb. by vm_compute.
  - exact Hrow.
  - discriminate.
  - exists row, d, t', m'. split; [reflexivity|]. split; [exact H1|]. split; [exact H2|]. split; [exact H3|].
    rewrite H4. vm_compute. reflexivity.
Defined.

(** ** Where the dialog does something else *)

(** A model with a fixed price that is switched to per-token pricing: the price is saved again and
    the ratio that was typed is not. *)
Lemma mode_switch_ignored s v d :
  truthy (f_value s ModelPrice) = true -> is_finite (parse_float (f_value s ModelPrice)) = true ->
  handleSubmit (type_number (set_mode s PerToken) ModelRatio v) = Some d ->
  d_mode d = PerToken /\ saved_entry d ModelPrice = Some (JNum (parse_float (f_value s ModelPrice))) /\
  saved_entry d ModelRatio = None.
Proof.
  intros Hp Hf. unfold handleSubmit, type_number, set_mode, set_value.
  destruct (validateNumber v); cbn [f_name f_value pricingMode]; (destruct (f_name s); [done|]); intros [= <-];
    unfold saved_entry, stored_number; cbn [d_mode d_value decide field_eq_dec];
    (split; [done|]); rewrite ?decide_False by done; by rewrite Hp, ?Hf.
Qed.

(** With a prompt price of 2 and a completion price of 8, a prompt price of 4 leaves the completion
    ratio at 4: the field still shows 8, and what is saved is a completion price of 16. *)
Example stale_completion_price :
  let s := handlePromptPriceChange (handleCompletionPriceChange (handlePromptPriceChange empty_dialog (u "2")) (u "8"))
             (u "4") in
  promptPrice s = u "4" /\ completionPrice s = u "8" /\ f_value s ModelRatio = u "2" /\ f_value s CompletionRatio = u "4".
Proof. by vm_compute. Qed.

(** A tiered model saved without an expression has no mode, and both its price and its ratio. *)
Example tiered_without_expression :
  let d := {| d_name := u "m"; d_value := fun f => match f with ModelPrice | ModelRatio => u "1" | _ => [] end;
              d_mode := TieredExpr; d_expr := u " "; d_rules := [] |} in
  saved_entry d BillingMode = None /\ (hasConflict <$> model_row (saved_maps d (fun _ => [])) (u "m")) = Some true.
Proof. by vm_compute. Qed.

(** A model is shown no more once it is deleted. *)
Lemma delete_spec t m k :
  holds t m -> (forall f, obj_ok (m f)) ->
  exists t' m', handleDelete t k = Some t' /\ holds t' m' /\ (k ∉ modelNames m') /\
    forall f k', k' <> k -> obj_get k' (m' f) = obj_get k' (m f).
Proof.
  intros Ht Ho. destruct (delete_holds t m k Ht Ho) as (t' & H1 & H2). exists t', (fun f => obj_delete k (m f)).
  split_and!; [done..| |].
  - unfold modelNames. rewrite elem_of_dedup. intros Hin%list_elem_of_In. apply in_concat in Hin as (l & Hm & Hl).
    apply in_map_iff in Hm as (f & <- & _).
    unfold obj_keys in Hl. apply in_map_iff in Hl as ([k' v] & E & Hin). cbn [fst] in E. subst k'.
    rewrite <- list_elem_of_In, obj_order_perm in Hin. apply jfilter_elem_of in Hin as [Hne _].
    by rewrite jeqb_refl in Hne.
  - intros f k' Hk. by rewrite get_delete, (proj2 (jeqb_neq k k')) by congruence.
Qed.
