(* ===== verification/RatioSync.v ===== *)
(** * Upstream price sync

    Model of [src/web/default/src/features/system-settings/models/]
    [upstream-ratio-sync.tsx], [upstream-ratio-sync-helpers.ts], [upstream-ratio-sync-table.tsx],
    [upstream-ratio-sync-columns.tsx] and the presets of [constants.ts]: the prices that differ
    from those of other sources are listed, the values to take over are chosen (the resolutions),
    conflicts are asked about, and the ten maps are written.

    Maps are association lists of own properties. A setting that is JSON but not an object is
    outside the model ([None]). [toLowerCase] is a parameter. *)

From stdpp Require Import gmap.
From S2P Require Import Prelude JsString JsNumber Json JsonFacts.
Open Scope N_scope.

(** ** Presets *)

Definition OFFICIAL_CHANNEL_ID : Z := -100.
Definition MODELS_DEV_PRESET_ID : Z := -101.
Definition OPENROUTER_CHANNEL_TYPE : Z := 20.
Definition DEFAULT_ENDPOINT : jstr := u "/api/pricing".
Definition OFFICIAL_CHANNEL_ENDPOINT : jstr := u "/llm-metadata/api/newapi/ratio_config-v1-base.json".
Definition MODELS_DEV_PRESET_ENDPOINT : jstr := u "https://models.dev/api.json".
Definition OPENROUTER_ENDPOINT : jstr := u "openrouter".

Record UpstreamChannel := { ch_id : Z; ch_name : jstr; ch_base_url : jstr; ch_type : option Z }.

Definition getDefaultEndpointForChannel (channel : UpstreamChannel) : jstr :=
  if (ch_id channel =? MODELS_DEV_PRESET_ID)%Z then MODELS_DEV_PRESET_ENDPOINT
  else if (ch_id channel =? OFFICIAL_CHANNEL_ID)%Z then OFFICIAL_CHANNEL_ENDPOINT
  else if bool_decide (ch_type channel = Some OPENROUTER_CHANNEL_TYPE) then OPENROUTER_ENDPOINT
  else DEFAULT_ENDPOINT.

Abbreviation Endpoints := (gmap Z jstr).

(** The effect that gives a channel without an endpoint its default one. *)
Definition fill_endpoints (prev : Endpoints) (channels : list UpstreamChannel) : Endpoints :=
  fold_left (fun next ch =>
    if truthy (default [] (next !! ch_id ch)) then next else <[ch_id ch := getDefaultEndpointForChannel ch]> next)
    channels prev.

Record UpstreamConfig := { up_id : Z; up_name : jstr; up_base_url : jstr; up_endpoint : jstr }.

(** The request for the chosen channels, [None] when none is chosen. *)
Definition handleConfirmChannelSelection (endpoints : Endpoints) (channels : list UpstreamChannel)
    (selectedIds : list Z) : option (list UpstreamConfig) :=
  match jfilter (fun ch => bool_decide (ch_id ch ∈ selectedIds)) channels with
  | [] => None
  | l => Some (map (fun ch =>
      let e := default [] (endpoints !! ch_id ch) in
      {| up_id := ch_id ch; up_name := ch_name ch; up_base_url := ch_base_url ch;
         up_endpoint := if truthy e then e else DEFAULT_ENDPOINT |}) l)
  end.

(** ** Fields *)

Definition RATIO_SYNC_FIELDS : list jstr :=
  [u "model_ratio"; u "completion_ratio"; u "cache_ratio"; u "create_cache_ratio"; u "image_ratio";
   u "audio_ratio"; u "audio_completion_ratio"].
Definition SYNC_FIELD_ORDER : list jstr :=
  RATIO_SYNC_FIELDS ++ [u "model_price"; u "billing_mode"; u "billing_expr"].
Definition NUMERIC_SYNC_FIELDS : list jstr := RATIO_SYNC_FIELDS ++ [u "model_price"].

Definition RATIO_TYPE_OPTIONS : list (jstr * jstr) :=
  [(u "model_ratio", u "Model ratio"); (u "completion_ratio", u "Completion ratio"); (u "cache_ratio", u "Cache ratio");
   (u "create_cache_ratio", u "Create cache ratio"); (u "image_ratio", u "Image ratio");
   (u "audio_ratio", u "Audio ratio"); (u "audio_completion_ratio", u "Audio completion ratio");
   (u "model_price", u "Fixed price"); (u "billing_expr", u "Expression billing")].

Definition getSyncFieldLabel (t : jstr -> jstr) (ratioType : jstr) : jstr :=
  match obj_get ratioType RATIO_TYPE_OPTIONS with Some label => t label | None => ratioType end.

Inductive category : Type := CatPrice | CatRatio | CatTiered.

#[export] Instance category_eq_dec : EqDecision category.
Proof. solve_decision. Defined.

Definition getBillingCategory (ratioType : jstr) : category :=
  if jeqb ratioType (u "model_price") then CatPrice
  else if jeqb ratioType (u "billing_mode") || jeqb ratioType (u "billing_expr") then CatTiered
  else CatRatio.

(** [word.charAt(0).toUpperCase() + word.slice(1)], of a word of ASCII letters. *)
Definition capitalize (word : jstr) : jstr :=
  match word with c :: t => (if in_range 97 122 c then c - 32 else c) :: t | [] => [] end.

Definition optionKeyBySyncField (ratioType : jstr) : jstr :=
  if jeqb ratioType (u "billing_mode") then u "billing_setting.billing_mode"
  else if jeqb ratioType (u "billing_expr") then u "billing_setting.billing_expr"
  else join [] (map capitalize (split_on (ch "_") ratioType)).

(** ** Differences and resolutions *)

Record RatioDifference := {
  current : json;
  upstreams : list (jstr * json);
  confidence : list (jstr * bool);
}.

Abbreviation ModelDiffs := (list (jstr * RatioDifference)).
Abbreviation DifferencesMap := (list (jstr * ModelDiffs)).
Abbreviation ModelRes := (list (jstr * json)).
Abbreviation ResolutionsMap := (list (jstr * ModelRes)).

(** [ratioTypes\[field\]?.upstreams?.\[source\]] *)
Definition upstream_value (ratioTypes : ModelDiffs) (field source : jstr) : option json :=
  match obj_get field ratioTypes with Some e => obj_get source (upstreams e) | None => None end.

Definition isSelectableUpstreamValue (value : option json) : bool :=
  match value with
  | None | Some JNull => false
  | Some (JStr s) => negb (jeqb s (u "same"))
  | Some _ => true
  end.

Definition getOrderedRatioTypes (ratioTypes : ModelDiffs) (filter : jstr) : list jstr :=
  let keys := obj_keys ratioTypes in
  let ordered := jfilter (fun f => bool_decide (f ∈ keys)) SYNC_FIELD_ORDER
                 ++ jfilter (fun f => negb (bool_decide (f ∈ SYNC_FIELD_ORDER))) keys in
  if negb (truthy filter) || jeqb filter (u "__all__") then ordered
  else jfilter (fun f => jeqb f filter) ordered.

Definition getPreferredSyncField (ratioTypes : ModelDiffs) (ratioType sourceName : jstr) : jstr :=
  if negb (jeqb ratioType (u "billing_expr"))
     && isSelectableUpstreamValue (upstream_value ratioTypes (u "billing_expr") sourceName)
  then u "billing_expr" else ratioType.

(** [v ?? d] *)
Definition nullish (v : option json) (d : json) : json :=
  match v with None | Some JNull => d | Some j => j end.

(** The choices of the other kind, dropped when a price or a ratio is chosen. *)
Definition clear_conflicting (cat : category) (res : ModelRes) : ModelRes :=
  jfilter (fun kv =>
    negb (negb (bool_decide (cat = CatTiered)) && negb (bool_decide (getBillingCategory kv.1 = CatTiered))
          && negb (bool_decide (getBillingCategory kv.1 = cat)))) res.

(** The mode and the expression of the source are taken together. *)
Definition pair_tiered (modelDiffs : ModelDiffs) (sourceName finalType : jstr) (res : ModelRes) : ModelRes :=
  let modeVal := upstream_value modelDiffs (u "billing_mode") sourceName in
  let exprVal := upstream_value modelDiffs (u "billing_expr") sourceName in
  let res :=
    match modeVal with
    | Some v =>
        if isSelectableUpstreamValue modeVal then obj_set (u "billing_mode") v res
        else if jeqb finalType (u "billing_expr") then obj_set (u "billing_mode") (JStr (u "tiered_expr")) res else res
    | None => if jeqb finalType (u "billing_expr") then obj_set (u "billing_mode") (JStr (u "tiered_expr")) res else res
    end in
  match exprVal with
  | Some v => if isSelectableUpstreamValue exprVal then obj_set (u "billing_expr") v res else res
  | None => res
  end.

Definition handleSelectValue (differences : DifferencesMap) (prev : ResolutionsMap)
    (model ratioType : jstr) (value : json) (sourceName : jstr) : ResolutionsMap :=
  let modelDiffs := obj_get model differences in
  let preferredType :=
    if truthy sourceName then getPreferredSyncField (default [] modelDiffs) ratioType sourceName else ratioType in
  let finalValue :=
    if jeqb preferredType ratioType then value
    else nullish (match modelDiffs with Some d => upstream_value d preferredType sourceName | None => None end) value in
  let cat := getBillingCategory preferredType in
  let res := obj_set preferredType finalValue (clear_conflicting cat (default [] (obj_get model prev))) in
  let res := match modelDiffs with
             | Some d => if bool_decide (cat = CatTiered) && truthy sourceName
                         then pair_tiered d sourceName preferredType res else res
             | None => res
             end in
  obj_set model res prev.

Definition deleteResolutionField (res : ResolutionsMap) (model ratioType : jstr) : ResolutionsMap :=
  match obj_get model res with
  | None => res
  | Some modelRes =>
      let new := obj_delete ratioType modelRes in
      let new := if jeqb ratioType (u "billing_expr") then obj_delete (u "billing_mode") new else new in
      let new := if jeqb ratioType (u "billing_mode") then obj_delete (u "billing_expr") new else new in
      match new with [] => obj_delete model res | _ => obj_set model new res end
  end.

(** ** The table *)

Record ModelRow := { model : jstr; ratioTypes : ModelDiffs; billingConflict : bool }.

Definition dataSource (differences : DifferencesMap) : list ModelRow :=
  map (fun '(m, rt) =>
    {| model := m; ratioTypes := rt;
       billingConflict := obj_has (u "model_price") rt && existsb (fun f => obj_has f rt) RATIO_SYNC_FIELDS |})
    (obj_order differences).

Definition filteredData (toLowerCase : jstr -> jstr) (rows : list ModelRow) (search filter : jstr) : list ModelRow :=
  let data := if truthy (trim search)
              then jfilter (fun row => includes (toLowerCase search) (toLowerCase (model row))) rows else rows in
  if truthy filter && negb (jeqb filter (u "__all__"))
  then jfilter (fun row => obj_has filter (ratioTypes row)) data else data.

Definition upstreamNames (rows : list ModelRow) (filter : jstr) : list jstr :=
  dedup (concat (map (fun row =>
    concat (map (fun f => match obj_get f (ratioTypes row) with Some e => obj_keys (upstreams e) | None => [] end)
      (getOrderedRatioTypes (ratioTypes row) filter))) rows)).

(** The fields of a row whose value of the source can be chosen. *)
Definition selectable_fields (row : ModelRow) (filter upstream : jstr) : list jstr :=
  jfilter (fun f => jeqb (getPreferredSyncField (ratioTypes row) f upstream) f
                    && isSelectableUpstreamValue (upstream_value (ratioTypes row) f upstream))
    (getOrderedRatioTypes (ratioTypes row) filter).

Definition handleBulkSelect (differences : DifferencesMap) (filter upstream : jstr) (rows : list ModelRow)
    (res : ResolutionsMap) : ResolutionsMap :=
  fold_left (fun res row =>
    fold_left (fun res f =>
      handleSelectValue differences res (model row) f
        (default JNull (upstream_value (ratioTypes row) f upstream)) upstream)
      (selectable_fields row filter upstream) res) rows res.

Definition handleBulkUnselect (filter upstream : jstr) (rows : list ModelRow) (res : ResolutionsMap) : ResolutionsMap :=
  fold_left (fun res row =>
    fold_left (fun res f =>
      match upstream_value (ratioTypes row) f upstream with
      | Some _ => deleteResolutionField res (model row) f
      | None => res
      end) (getOrderedRatioTypes (ratioTypes row) filter) res) rows res.

(** [a === b] of two values that are numbers or strings. *)
Definition strict_eq (a b : option json) : bool :=
  match a, b with
  | Some (JNum x), Some (JNum y) => feq x y
  | Some (JStr s), Some (JStr t) => jeqb s t
  | Some (JBool b), Some (JBool c) => Bool.eqb b c
  | Some JNull, Some JNull | None, None => true
  | _, _ => false
  end.

Definition chosen (res : ResolutionsMap) (m f : jstr) : option json :=
  match obj_get m res with Some r => obj_get f r | None => None end.

Inductive CheckState : Type := Unchecked | Checked | Indeterminate.

Definition checkboxState (res : ResolutionsMap) (filter upstream : jstr) (rows : list ModelRow) : CheckState :=
  let counts := fold_left (fun acc row =>
    fold_left (fun '(selectable, selected) f =>
      (S selectable, if strict_eq (chosen res (model row) f) (upstream_value (ratioTypes row) f upstream)
                     then S selected else selected))
      (selectable_fields row filter upstream) acc) rows (0, 0)%nat in
  let '(selectableCount, selectedCount) := counts in
  if (0 <? selectableCount)%nat && (selectedCount =? selectableCount)%nat then Checked
  else if (0 <? selectedCount)%nat && (selectedCount <? selectableCount)%nat then Indeterminate else Unchecked.

(** ** Applying *)

Abbreviation Map := (list (jstr * json)).

(** [None]: JSON, but not an object. *)
Definition parseJsonRecord (raw : jstr) : option Map :=
  match json_parse (if truthy raw then raw else u "{}") with
  | Some (JObj m) => Some m
  | Some _ => None
  | None => Some []
  end.

Definition option_keys : list jstr :=
  [u "ModelRatio"; u "CompletionRatio"; u "CacheRatio"; u "CreateCacheRatio"; u "ImageRatio"; u "AudioRatio";
   u "AudioCompletionRatio"; u "ModelPrice"; u "billing_setting.billing_mode"; u "billing_setting.billing_expr"].

Definition ratio_keys : list jstr :=
  [u "ModelRatio"; u "CompletionRatio"; u "CacheRatio"; u "CreateCacheRatio"; u "ImageRatio"; u "AudioRatio";
   u "AudioCompletionRatio"].

(** The maps by the key of their option. *)
Abbreviation Ratios := (list (jstr * Map)).

Fixpoint parsedRatios (texts : jstr -> jstr) (keys : list jstr) : option Ratios :=
  match keys with
  | [] => Some []
  | k :: t =>
      match parseJsonRecord (texts k), parsedRatios texts t with
      | Some m, Some r => Some ((k, m) :: r)
      | _, _ => None
      end
  end.

(** [ratios.Key\[model\]] *)
Definition ratio_of (ratios : Ratios) (key m : jstr) : option json :=
  match obj_get key ratios with Some f => obj_get m f | None => None end.

Definition getLocalBillingCategory (m : jstr) (ratios : Ratios) : option category :=
  match ratio_of ratios (u "ModelPrice") m with
  | Some _ => Some CatPrice
  | None =>
      if existsb (fun k => match ratio_of ratios k m with Some _ => true | None => false end) ratio_keys
      then Some CatRatio else None
  end.

(** [delete finalRatios.Key\[model\]] *)
Definition drop_entry (m : jstr) (ratios : Ratios) (key : jstr) : Ratios :=
  match obj_get key ratios with Some f => obj_set key (obj_delete m f) ratios | None => ratios end.

(** [finalRatios\[optionKey\]\[model\] = value]; [None]: no such option, or the value has no number. *)
Definition put_value (m : jstr) (ratios : option Ratios) (kv : jstr * json) : option Ratios :=
  match ratios with
  | None => None
  | Some r =>
      let key := optionKeyBySyncField kv.1 in
      let value := if bool_decide (kv.1 ∈ NUMERIC_SYNC_FIELDS)
                   then match to_num (Some kv.2) with Some x => Some (JNum x) | None => None end
                   else Some kv.2 in
      match obj_get key r, value with
      | Some f, Some v => Some (obj_set key (obj_set m v f) r)
      | _, _ => None
      end
  end.

Definition has_price (res : ModelRes) : bool := obj_has (u "model_price") res.
Definition has_ratio (res : ModelRes) : bool := existsb (fun f => obj_has f res) RATIO_SYNC_FIELDS.

Definition apply_model (ratios : option Ratios) (entry : jstr * ModelRes) : option Ratios :=
  match ratios with
  | None => None
  | Some r =>
      let '(m, res) := entry in
      let r := if has_price res then fold_left (drop_entry m) ratio_keys r else r in
      let r := if has_ratio res then drop_entry m r (u "ModelPrice") else r in
      fold_left (put_value m) (obj_order res) (Some r)
  end.

Definition finalRatios (ratios : Ratios) (res : ResolutionsMap) : option Ratios :=
  fold_left apply_model (obj_order res) (Some ratios).

(** The options that are written, one after the other. *)
Definition performSync (ratios : Ratios) (res : ResolutionsMap) : option (list (jstr * jstr)) :=
  match finalRatios ratios res with
  | Some r => Some (map (fun kv => (kv.1, stringify_indent (JObj kv.2))) r)
  | None => None
  end.

Definition newCat (res : ModelRes) : category :=
  if has_price res then CatPrice else if has_ratio res then CatRatio else CatTiered.

(** The models whose kind of price would change. *)
Definition conflicts (ratios : Ratios) (res : ResolutionsMap) : list jstr :=
  map fst (jfilter (fun '(m, r) =>
    match getLocalBillingCategory m ratios with
    | Some localCat => negb (bool_decide (newCat r = CatTiered)) && negb (bool_decide (localCat = newCat r))
    | None => false
    end) (obj_order res)).

Definition findSourceChannel (differences : DifferencesMap) (m ratioType : jstr) (value : json) : jstr :=
  match obj_get m differences with
  | Some d =>
      match obj_get ratioType d with
      | Some e =>
          match jfilter (fun kv => strict_eq (Some kv.2) (Some value)) (obj_order (upstreams e)) with
          | (name, _) :: _ => name
          | [] => u "Unknown"
          end
      | None => u "Unknown"
      end
  | None => u "Unknown"
  end.

(** The sources named with a conflict. *)
Definition channelNames (differences : DifferencesMap) (m : jstr) (res : ModelRes) : jstr :=
  join (u ", ") (dedup (map (fun kv => findSourceChannel differences m kv.1 kv.2) (obj_order res))).

Inductive ApplyResult : Type :=
| AskFirst (models : list jstr)
| Synced (updates : option (list (jstr * jstr))).

Definition handleApplySync (ratios : Ratios) (res : ResolutionsMap) : ApplyResult :=
  match conflicts ratios res with
  | [] => Synced (performSync ratios res)
  | l => AskFirst l
  end.

(** The loop of [updateSystemOption] calls: [answer] is the [success] flag of a response, [None] for
    a request that is rejected. [true]: the sync is reported as done. *)
Fixpoint sync_updates (answer : jstr -> jstr -> option bool) (updates : list (jstr * jstr)) : bool :=
  match updates with
  | [] => true
  | (k, v) :: t => match answer k v with Some _ => sync_updates answer t | None => false end
  end.

(** After a sync the fields that were taken over are no longer listed. *)
Definition prune_field (m : jstr) (diffs : DifferencesMap) (f : jstr) : DifferencesMap :=
  match obj_get m diffs with
  | Some d =>
      match obj_get f d with
      | Some _ => match obj_delete f d with [] => obj_delete m diffs | d' => obj_set m d' diffs end
      | None => diffs
      end
  | None => diffs
  end.

Definition prune_diffs (res : ResolutionsMap) (diffs : DifferencesMap) : DifferencesMap :=
  fold_left (fun diffs '(m, r) => fold_left (prune_field m) (obj_keys r) diffs) (obj_order res) diffs.

(** ** The page *)

Record Page := { differences : DifferencesMap; resolutions : ResolutionsMap }.

(** What the user and the server do. [Select] and [Unselect] are the checkboxes of a cell, of a
    listed row; [Fetched] new differences, [SyncDone] a sync that went through. *)
Inductive page_event : Type :=
| Select (m ratioType : jstr) (value : json) (source : jstr)
| Unselect (m ratioType : jstr)
| BulkSelect (filter source : jstr) (rows : list ModelRow)
| BulkUnselect (filter source : jstr) (rows : list ModelRow)
| Fetched (diffs : DifferencesMap)
| SyncDone.

Definition page_step (p : Page) (e : page_event) : Page :=
  match e with
  | Select m f v s => {| differences := differences p; resolutions := handleSelectValue (differences p) (resolutions p) m f v s |}
  | Unselect m f => {| differences := differences p; resolutions := deleteResolutionField (resolutions p) m f |}
  | BulkSelect filter s rows =>
      {| differences := differences p; resolutions := handleBulkSelect (differences p) filter s rows (resolutions p) |}
  | BulkUnselect filter s rows =>
      {| differences := differences p; resolutions := handleBulkUnselect filter s rows (resolutions p) |}
  | Fetched diffs => {| differences := diffs; resolutions := [] |}
  | SyncDone => {| differences := prune_diffs (resolutions p) (differences p); resolutions := [] |}
  end.

Definition open_page : Page := {| differences := []; resolutions := [] |}.
