(* ===== verification/RatioSyncFacts.v ===== *)
(** * Facts about the upstream price sync

    In every state of the page the chosen values are consistent, a sync of them never fails to
    build the maps, and the maps have exactly the chosen values; a sync that is not asked about
    changes no model from a fixed price to ratios or back. *)

From stdpp Require Import gmap relations.
From S2P Require Import Prelude JsString JsNumber Json JsonFacts RatioSync.
Open Scope N_scope.

(** ** Objects *)

Lemma obj_has_spec {V} k (o : list (jstr * V)) : obj_has k o = true <-> k ∈ map fst o.
Proof.
  unfold obj_has. split.
  - destruct (obj_get k o) as [v|] eqn:E; [|done]. intros _. apply obj_get_in in E. apply list_elem_of_fmap. by exists (k, v).
  - intros Hk. destruct (obj_get k o) eqn:E; [done|]. exfalso. revert E Hk.
    induction o as [|[k' v] o IH]; cbn; [by intros _ ?%elem_of_nil|].
    destruct (jeqb k' k) eqn:Hj; [done|]. apply jeqb_neq in Hj. intros E [->|H]%elem_of_cons; [done|by apply IH].
Qed.

Lemma elem_of_set_keys {V} k k' (v : V) o : k ∈ map fst (obj_set k' v o) <-> k = k' \/ k ∈ map fst o.
Proof. rewrite obj_set_keys. case_bool_decide; rewrite ?elem_of_app, ?list_elem_of_singleton; naive_solver. Qed.

Lemma set_keys_NoDup {V} k (v : V) o : NoDup (map fst o) -> NoDup (map fst (obj_set k v o)).
Proof.
  intros Hn. rewrite obj_set_keys. case_bool_decide as Hk; [done|]. apply NoDup_app. split_and!; [done| |apply NoDup_singleton].
  by intros x Hx ->%list_elem_of_singleton.
Qed.

Lemma filter_keys {V} (p : jstr * V -> bool) o k : k ∈ map fst (jfilter p o) -> k ∈ map fst o.
Proof. intros (kv & -> & [_ H]%jfilter_elem_of)%list_elem_of_fmap. apply list_elem_of_fmap. by exists kv. Qed.

Lemma filter_keys_NoDup {V} (p : jstr * V -> bool) o : NoDup (map fst o) -> NoDup (map fst (jfilter p o)).
Proof. apply jfilter_map_NoDup. Qed.

Lemma delete_keys {V} k k' (o : list (jstr * V)) : k' ∈ map fst (obj_delete k o) <-> k' <> k /\ k' ∈ map fst o.
Proof.
  unfold obj_delete. rewrite !list_elem_of_fmap. split.
  - intros (kv & -> & [Hk Hin]%jfilter_elem_of). split; [|by exists kv]. intros E. by rewrite E, jeqb_refl in Hk.
  - intros (Hne & kv & -> & Hin). exists kv. split; [done|]. apply jfilter_elem_of.
    by rewrite (proj2 (jeqb_neq _ _) Hne).
Qed.

Lemma sync_get_some {V} k (o : list (jstr * V)) : k ∈ map fst o -> exists v, obj_get k o = Some v /\ (k, v) ∈ o.
Proof.
  intros Hk%obj_has_spec. unfold obj_has in Hk. destruct (obj_get k o) as [v|] eqn:E; [|done].
  exists v. split; [done|]. by apply obj_get_in.
Qed.

Lemma Forall_delete {V} (P : jstr * V -> Prop) k o : Forall P o -> Forall P (obj_delete k o).
Proof. rewrite !Forall_forall. intros H kv [_ Hin]%jfilter_elem_of. by apply H. Qed.

(** ** Consistent choices *)

(** A value of a field: a number or a text. *)
Definition scalar (v : json) : bool := match v with JNum _ | JStr _ => true | _ => false end.

Definition upstream_ok (v : json) : bool := scalar v || match v with JNull => true | _ => false end.

(** The differences list known fields, and each model once. *)
Definition model_diffs_ok (d : ModelDiffs) : Prop :=
  Forall (fun fe => fe.1 ∈ SYNC_FIELD_ORDER /\ Forall (fun kv => upstream_ok kv.2 = true) (upstreams fe.2)) d.

Definition diffs_ok (diffs : DifferencesMap) : Prop := Forall (fun md => model_diffs_ok md.2) diffs.

(** The choices for a model: at least one, each of a known field; never a price together with a
    ratio; an expression only together with the mode. *)
Record res_ok (r : ModelRes) : Prop := {
  res_some : r <> [];
  res_once : NoDup (map fst r);
  res_known : Forall (fun kv => kv.1 ∈ SYNC_FIELD_ORDER /\ scalar kv.2 = true) r;
  res_exclusive : forall f g, f ∈ map fst r -> g ∈ map fst r ->
    getBillingCategory f = CatPrice -> getBillingCategory g = CatRatio -> False;
  res_paired : u "billing_expr" ∈ map fst r -> u "billing_mode" ∈ map fst r;
}.

Definition resolutions_ok (R : ResolutionsMap) : Prop :=
  NoDup (map fst R) /\ Forall (fun mr => res_ok mr.2) R.

(** All but the first, for choices that are being built. *)
Record res_pre (r : ModelRes) : Prop := {
  pre_once : NoDup (map fst r);
  pre_known : Forall (fun kv => kv.1 ∈ SYNC_FIELD_ORDER /\ scalar kv.2 = true) r;
  pre_exclusive : forall f g, f ∈ map fst r -> g ∈ map fst r ->
    getBillingCategory f = CatPrice -> getBillingCategory g = CatRatio -> False;
}.

Lemma res_pre_nil : res_pre [].
Proof. split; [constructor|constructor|by intros f g ?%elem_of_nil]. Qed.

Lemma res_ok_pre r : res_ok r -> res_pre r.
Proof. by intros [_ ? ? ? _]. Qed.

Lemma clear_pre cat r : res_pre r -> res_pre (clear_conflicting cat r).
Proof.
  intros [Hn Hk He]. unfold clear_conflicting. split.
  - by apply filter_keys_NoDup.
  - rewrite Forall_forall in *. intros kv [_ H]%jfilter_elem_of. by apply Hk.
  - intros f g Hf%filter_keys Hg%filter_keys. by apply He.
Qed.

(** A field that is chosen goes with what is left of the earlier choices. *)
Lemma clear_compatible cat r f :
  f ∈ map fst (clear_conflicting cat r) -> cat <> CatTiered ->
  getBillingCategory f = CatTiered \/ getBillingCategory f = cat.
Proof.
  intros (kv & -> & [Hp _]%jfilter_elem_of)%list_elem_of_fmap Hc. rewrite (bool_decide_false (cat = CatTiered)) in Hp by done.
  cbn [negb andb] in Hp. destruct (decide (getBillingCategory kv.1 = CatTiered)) as [|Ht]; [by left|].
  destruct (decide (getBillingCategory kv.1 = cat)) as [|Hne]; [by right|].
  rewrite !bool_decide_false in Hp by done. done.
Qed.

Lemma clear_tiered_kept cat r f :
  getBillingCategory f = CatTiered -> f ∈ map fst (clear_conflicting cat r) <-> f ∈ map fst r.
Proof.
  intros Ht. split; [apply filter_keys|]. intros (kv & -> & H)%list_elem_of_fmap. apply list_elem_of_fmap. exists kv.
  split; [done|]. apply jfilter_elem_of. split; [|done]. rewrite (bool_decide_true (getBillingCategory kv.1 = CatTiered)) by done.
  cbn [negb]. by rewrite andb_false_r.
Qed.

Lemma set_pre f v r :
  f ∈ SYNC_FIELD_ORDER -> scalar v = true -> res_pre r ->
  (getBillingCategory f <> CatTiered -> forall g, g ∈ map fst r ->
     getBillingCategory g = CatTiered \/ getBillingCategory g = getBillingCategory f) ->
  res_pre (obj_set f v r).
Proof.
  intros Hf Hv [Hn Hk He] Hc. split.
  - by apply set_keys_NoDup.
  - by apply obj_set_Forall.
  - intros g h [->|Hg]%elem_of_set_keys [->|Hh]%elem_of_set_keys H1 H2; [congruence| | |exact (He g h Hg Hh H1 H2)].
    + destruct (Hc ltac:(congruence) h Hh); congruence.
    + destruct (Hc ltac:(congruence) g Hg); congruence.
Qed.

Lemma expr_tiered : getBillingCategory (u "billing_expr") = CatTiered /\ u "billing_expr" ∈ SYNC_FIELD_ORDER.
Proof. split; [done|]. apply (bool_decide_unpack _). by vm_compute. Qed.

Lemma mode_tiered : getBillingCategory (u "billing_mode") = CatTiered /\ u "billing_mode" ∈ SYNC_FIELD_ORDER.
Proof. split; [done|]. apply (bool_decide_unpack _). by vm_compute. Qed.

Lemma selectable_scalar v : upstream_ok v = true -> isSelectableUpstreamValue (Some v) = true -> scalar v = true.
Proof. by destruct v. Qed.

Lemma upstream_value_ok d f s v : model_diffs_ok d -> upstream_value d f s = Some v -> upstream_ok v = true.
Proof.
  intros Hd. unfold upstream_value. destruct (obj_get f d) as [e|] eqn:E; [|done]. intros Hv.
  apply obj_get_in in E. unfold model_diffs_ok in Hd. rewrite Forall_forall in Hd. destruct (Hd _ E) as [_ H].
  rewrite Forall_forall in H. apply obj_get_in in Hv. apply (H _ Hv).
Qed.

Lemma tiered_set_pre f v r :
  getBillingCategory f = CatTiered /\ f ∈ SYNC_FIELD_ORDER -> scalar v = true -> res_pre r -> res_pre (obj_set f v r).
Proof. intros [Ht Hf] Hv Hr. apply set_pre; [done..|]. intros Hn. by destruct Hn. Qed.

Lemma pair_pre d s f r : model_diffs_ok d -> res_pre r -> res_pre (pair_tiered d s f r).
Proof.
  intros Hd Hr. unfold pair_tiered.
  assert (res_pre (match upstream_value d (u "billing_mode") s with
    | Some v =>
        if isSelectableUpstreamValue (upstream_value d (u "billing_mode") s) then obj_set (u "billing_mode") v r
        else if jeqb f (u "billing_expr") then obj_set (u "billing_mode") (JStr (u "tiered_expr")) r else r
    | None => if jeqb f (u "billing_expr") then obj_set (u "billing_mode") (JStr (u "tiered_expr")) r else r
    end)) as Hm.
  { assert (res_pre (if jeqb f (u "billing_expr") then obj_set (u "billing_mode") (JStr (u "tiered_expr")) r else r)) as H0.
    { destruct (jeqb _ _); [|done]. apply tiered_set_pre; [apply mode_tiered|done..]. }
    destruct (upstream_value d (u "billing_mode") s) as [v|] eqn:E; [|done].
    destruct (isSelectableUpstreamValue _) eqn:Es; [|done]. apply tiered_set_pre; [apply mode_tiered| |done].
    eapply selectable_scalar; [|done]. by eapply upstream_value_ok. }
  destruct (upstream_value d (u "billing_expr") s) as [v|] eqn:E; [|done].
  destruct (isSelectableUpstreamValue (Some v)) eqn:Es; [|done]. apply tiered_set_pre; [apply expr_tiered| |done].
  eapply selectable_scalar; [|done]. by eapply upstream_value_ok.
Qed.

(** A source's pair has the mode, unless neither the source has one nor the expression is chosen. *)
Lemma pair_mode d s f r :
  f = u "billing_expr" \/ u "billing_mode" ∈ map fst r -> u "billing_mode" ∈ map fst (pair_tiered d s f r).
Proof.
  intros Hf. unfold pair_tiered. cbv zeta.
  match goal with |- context [match upstream_value d (u "billing_mode") s with Some v => @?a v | None => ?b end] =>
    assert (u "billing_mode" ∈ map fst b) as Hb end.
  { destruct (jeqb f (u "billing_expr")) eqn:E; [apply elem_of_set_keys; by left|].
    destruct Hf as [->|]; [by rewrite jeqb_refl in E|done]. }
  assert (forall x, u "billing_mode" ∈ map fst x -> u "billing_mode" ∈ map fst
    (match upstream_value d (u "billing_expr") s with
     | Some v => if isSelectableUpstreamValue (upstream_value d (u "billing_expr") s) then obj_set (u "billing_expr") v x else x
     | None => x end)) as Hx.
  { intros x Hx. destruct (upstream_value d _ s); [|done]. destruct (isSelectableUpstreamValue _); [|done].
    apply elem_of_set_keys. by right. }
  apply Hx. clear Hx. destruct (upstream_value d (u "billing_mode") s) as [v|]; [|done].
  destruct (isSelectableUpstreamValue (Some v)); [apply elem_of_set_keys; by left|done].
Qed.

Lemma pair_keeps d s f r k : k ∈ map fst r -> k ∈ map fst (pair_tiered d s f r).
Proof.
  intros Hk. unfold pair_tiered. cbv zeta.
  assert (forall f v (x : ModelRes), k ∈ map fst x -> k ∈ map fst (obj_set f v x)) as Hs by (intros; apply elem_of_set_keys; by right).
  repeat case_match; repeat apply Hs; done.
Qed.

Lemma pair_nonempty d s f r : r <> [] -> pair_tiered d s f r <> [].
Proof.
  intros Hr E. destruct r as [|[k v] r]; [done|].
  assert (k ∈ map fst (pair_tiered d s f ((k, v) :: r))) as Hk by (apply pair_keeps; by left).
  rewrite E in Hk. by apply elem_of_nil in Hk.
Qed.

Lemma resolutions_get R m : resolutions_ok R -> res_pre (default [] (obj_get m R)) /\
  (u "billing_expr" ∈ map fst (default [] (obj_get m R)) -> u "billing_mode" ∈ map fst (default [] (obj_get m R))).
Proof.
  intros [_ HR]. destruct (obj_get m R) as [r|] eqn:E; cbn [default].
  - apply obj_get_in in E. rewrite Forall_forall in HR. specialize (HR _ E). split; [by apply res_ok_pre|apply HR].
  - split; [apply res_pre_nil|by intros ?%elem_of_nil].
Qed.

Lemma resolutions_set R m r : resolutions_ok R -> res_ok r -> resolutions_ok (obj_set m r R).
Proof. intros [Hn HR] Hr. split; [by apply set_keys_NoDup|by apply obj_set_Forall]. Qed.

Lemma tiered_cases f : getBillingCategory f = CatTiered -> f = u "billing_mode" \/ f = u "billing_expr".
Proof.
  unfold getBillingCategory. destruct (jeqb f (u "model_price")); [done|].
  destruct (jeqb f (u "billing_mode")) eqn:E1; [apply jeqb_spec in E1; by left|].
  destruct (jeqb f (u "billing_expr")) eqn:E2; [apply jeqb_spec in E2; by right|done].
Qed.

(** Choosing a value of a listed model from a named source. *)
Lemma select_ok diffs R m f v s d :
  diffs_ok diffs -> resolutions_ok R -> obj_get m diffs = Some d -> f ∈ SYNC_FIELD_ORDER -> scalar v = true ->
  s <> [] -> resolutions_ok (handleSelectValue diffs R m f v s).
Proof.
  intros Hd HR Hm Hf Hv Hs. unfold handleSelectValue. rewrite Hm, (proj2 (truthy_spec s) Hs). cbn [default].
  assert (model_diffs_ok d) as Hmd.
  { apply obj_get_in in Hm. unfold diffs_ok in Hd. rewrite Forall_forall in Hd. apply (Hd _ Hm). }
  destruct (resolutions_get R m HR) as [Hpre Hpair]. set (old := default [] (obj_get m R)) in *.
  set (g := getPreferredSyncField d f s).
  set (w := if jeqb g f then v else nullish (upstream_value d g s) v).
  assert (g ∈ SYNC_FIELD_ORDER) as Hg.
  { unfold g, getPreferredSyncField. destruct (_ && _); [apply expr_tiered|done]. }
  assert (scalar w = true) as Hw.
  { unfold w. destruct (jeqb g f); [done|]. destruct (upstream_value d g s) as [x|] eqn:E; [|done].
    pose proof (upstream_value_ok _ _ _ _ Hmd E). by destruct x. }
  set (r1 := obj_set g w (clear_conflicting (getBillingCategory g) old)).
  assert (res_pre r1) as H1.
  { apply set_pre; [done..|by apply clear_pre|]. intros Hc x Hx. by apply (clear_compatible _ old). }
  assert (r1 <> []) as Hne.
  { intros E. assert (g ∈ map fst r1) as Hin by (apply elem_of_set_keys; by left). rewrite E in Hin. by apply elem_of_nil in Hin. }
  apply resolutions_set; [done|]. rewrite andb_true_r. case_bool_decide as Ht.
  - pose proof (pair_pre d s g r1 Hmd H1) as [Ha Hb Hc]. split; [by apply pair_nonempty|done..|].
    intros _. apply pair_mode. destruct (tiered_cases g Ht) as [E|E]; [right; apply elem_of_set_keys; by left|by left].
  - destruct H1 as [Ha Hb Hc]. split; [done..|]. intros [E|Hin]%elem_of_set_keys.
    + rewrite <- E in Ht. by destruct Ht.
    + apply clear_tiered_kept in Hin; [|done]. apply elem_of_set_keys. right. apply clear_tiered_kept; [done|]. by apply Hpair.
Qed.

(** Giving up a choice. *)
Definition unselected (f : jstr) (r : ModelRes) : ModelRes :=
  let r := obj_delete f r in
  let r := if jeqb f (u "billing_expr") then obj_delete (u "billing_mode") r else r in
  if jeqb f (u "billing_mode") then obj_delete (u "billing_expr") r else r.

Lemma unselected_keys f r k :
  k ∈ map fst (unselected f r) ->
  k ∈ map fst r /\ k <> f /\ (f = u "billing_expr" -> k <> u "billing_mode") /\ (f = u "billing_mode" -> k <> u "billing_expr").
Proof.
  unfold unselected. cbv zeta.
  destruct (jeqb f (u "billing_expr")) eqn:E1, (jeqb f (u "billing_mode")) eqn:E2;
    rewrite ?delete_keys; rewrite ?jeqb_spec, ?jeqb_neq in *; intuition congruence.
Qed.

Lemma unselected_kept f r k :
  k ∈ map fst r -> k <> f -> getBillingCategory f <> CatTiered -> k ∈ map fst (unselected f r).
Proof.
  intros Hk Hne Hf. unfold unselected. cbv zeta.
  destruct (jeqb f (u "billing_expr")) eqn:E1; [by apply jeqb_spec in E1 as ->|].
  destruct (jeqb f (u "billing_mode")) eqn:E2; [by apply jeqb_spec in E2 as ->|]. by rewrite delete_keys.
Qed.

Lemma unselected_sub f r : unselected f r ⊆ r /\ (NoDup (map fst r) -> NoDup (map fst (unselected f r))).
Proof.
  assert (forall k (o : ModelRes), obj_delete k o ⊆ o) as Hs by (intros k o kv [_ H]%jfilter_elem_of; done).
  assert (forall k (o : ModelRes), NoDup (map fst o) -> NoDup (map fst (obj_delete k o))) as Hn
    by (intros k o; apply filter_keys_NoDup).
  unfold unselected. cbv zeta.
  destruct (jeqb f (u "billing_expr")), (jeqb f (u "billing_mode")); split; try (intros; by repeat apply Hn);
    repeat (etrans; [apply Hs|]); done.
Qed.

Lemma unselected_ok f r : res_ok r -> unselected f r <> [] -> res_ok (unselected f r).
Proof.
  intros [_ Hn Hk He Hp] Hne. destruct (unselected_sub f r) as [Hs Hd]. split; [done|by apply Hd| | |].
  - rewrite Forall_forall in *. intros kv Hkv. by apply Hk, Hs.
  - intros a b [Ha _]%unselected_keys [Hb _]%unselected_keys. by apply He.
  - intros (H1 & H2 & H3 & H4)%unselected_keys. specialize (Hp H1).
    destruct (decide (f = u "billing_mode")) as [->|Hf]; [by destruct (H4 eq_refl)|].
    apply unselected_kept; [done|congruence|]. intros [|]%tiered_cases; congruence.
Qed.

Lemma unselect_ok R m f : resolutions_ok R -> resolutions_ok (deleteResolutionField R m f).
Proof.
  intros HR. unfold deleteResolutionField. destruct (obj_get m R) as [r|] eqn:E; [|done].
  change (resolutions_ok (match unselected f r with [] => obj_delete m R | _ => obj_set m (unselected f r) R end)).
  assert (res_ok r) as Hr. { destruct HR as [_ HR]. rewrite Forall_forall in HR. apply (HR (m, r)). by apply obj_get_in. }
  destruct (unselected f r) as [|kv r'] eqn:Eu.
  - destruct HR as [Hn HR]. split; [by apply filter_keys_NoDup|by apply Forall_delete].
  - apply resolutions_set; [done|]. rewrite <- Eu. apply unselected_ok; [done|by rewrite Eu].
Qed.

(** ** The page *)

(** A row of the table: a listed model. *)
Definition listed (diffs : DifferencesMap) (row : ModelRow) : Prop := obj_get (model row) diffs = Some (ratioTypes row).

(** The events the page can see: values of known fields from named sources, rows of the table, and
    well-formed answers. *)
Definition possible (p : Page) (e : page_event) : Prop :=
  match e with
  | Select m f v s => (exists d, obj_get m (differences p) = Some d) /\ f ∈ SYNC_FIELD_ORDER /\ scalar v = true /\ s <> []
  | BulkSelect _ s rows => Forall (listed (differences p)) rows /\ s <> []
  | Fetched diffs => diffs_ok diffs
  | _ => True
  end.

Definition page_rel (p q : Page) : Prop := exists e, possible p e /\ q = page_step p e.

Definition page_ok (p : Page) : Prop := diffs_ok (differences p) /\ resolutions_ok (resolutions p).

Lemma ordered_known d filter f : model_diffs_ok d -> f ∈ getOrderedRatioTypes d filter -> f ∈ SYNC_FIELD_ORDER.
Proof.
  intros Hd. assert (f ∈ jfilter (fun f => bool_decide (f ∈ obj_keys d)) SYNC_FIELD_ORDER
    ++ jfilter (fun f => negb (bool_decide (f ∈ SYNC_FIELD_ORDER))) (obj_keys d) -> f ∈ SYNC_FIELD_ORDER) as H.
  { intros [[_ H]%jfilter_elem_of|[H1 H2]%jfilter_elem_of]%elem_of_app; [done|].
    apply list_elem_of_fmap in H2 as (kv & -> & Hin). rewrite obj_order_perm in Hin.
    unfold model_diffs_ok in Hd. rewrite Forall_forall in Hd. by apply Hd in Hin as [? _]. }
  unfold getOrderedRatioTypes. cbv zeta. destruct (_ || _); [done|]. intros [_ Hin]%jfilter_elem_of. by apply H.
Qed.

Lemma fold_left_inv {A B} (P : A -> Prop) (g : A -> B -> A) l a :
  P a -> (forall a b, b ∈ l -> P a -> P (g a b)) -> P (fold_left g l a).
Proof.
  revert a. induction l as [|b l IH]; intros a Ha Hg; [done|]. cbn. apply IH; [apply Hg; [by left|done]|].
  intros a' b' Hb. apply Hg. by right.
Qed.

Lemma bulk_select_ok diffs filter s rows R :
  diffs_ok diffs -> Forall (listed diffs) rows -> s <> [] -> resolutions_ok R ->
  resolutions_ok (handleBulkSelect diffs filter s rows R).
Proof.
  intros Hd Hrows Hs HR. unfold handleBulkSelect. rewrite Forall_forall in Hrows.
  apply fold_left_inv; [done|]. intros R1 row Hrow HR1. specialize (Hrows row Hrow).
  assert (model_diffs_ok (ratioTypes row)) as Hmd.
  { apply obj_get_in in Hrows. unfold diffs_ok in Hd. rewrite Forall_forall in Hd. apply (Hd _ Hrows). }
  apply fold_left_inv; [done|]. intros R2 f [Hf Hin]%jfilter_elem_of HR2. apply andb_prop in Hf as [_ Hsel].
  apply (select_ok _ _ _ _ _ _ (ratioTypes row)); [done|done|exact Hrows|by eapply ordered_known| |done].
  destruct (upstream_value (ratioTypes row) f s) as [v|] eqn:E; [|done].
  eapply selectable_scalar; [by eapply upstream_value_ok|done].
Qed.

Lemma prune_field_ok m diffs f : diffs_ok diffs -> diffs_ok (prune_field m diffs f).
Proof.
  intros Hd. unfold prune_field. destruct (obj_get m diffs) as [d|] eqn:Em; [|done].
  destruct (obj_get f d); [|done]. destruct (obj_delete f d) eqn:E; [by apply Forall_delete|]. rewrite <- E.
  apply obj_set_Forall; [|done]. apply Forall_delete. apply obj_get_in in Em. unfold diffs_ok in Hd.
  rewrite Forall_forall in Hd. apply (Hd _ Em).
Qed.

Lemma page_step_ok p e : possible p e -> page_ok p -> page_ok (page_step p e).
Proof.
  intros He [Hd HR]. unfold page_ok.
  destruct e as [m f v s|m f|filter s rows|filter s rows|diffs|]; cbn [possible page_step differences resolutions] in *.
  - destruct He as ([d Hm] & Hf & Hv & Hs). split; [done|]. by eapply select_ok.
  - split; [done|]. by apply unselect_ok.
  - destruct He as [Hrows Hs]. split; [done|]. by apply bulk_select_ok.
  - split; [done|]. unfold handleBulkUnselect. apply fold_left_inv; [done|]. intros R1 row _ HR1. apply fold_left_inv; [done|].
    intros R2 f _ HR2. destruct (upstream_value _ _ _); [by apply unselect_ok|done].
  - split; [done|]. split; [constructor|constructor].
  - split; [|split; constructor]. unfold prune_diffs. apply fold_left_inv; [done|]. intros ds [m r] _ Hds.
    apply fold_left_inv; [done|]. intros. by apply prune_field_ok.
Qed.

Lemma page_reachable p : rtc page_rel open_page p -> page_ok p.
Proof.
  assert (page_ok open_page) as H0 by (split; [constructor|split; constructor]). revert H0.
  generalize open_page. intros p0 H0 H. revert H0. induction H as [|q r p (e & He & ->) _ IH]; [done|]. intros Hq. by apply IH, page_step_ok.
Qed.

(** ** What a sync writes *)

(** The value a choice is written as. *)
Definition written (f : jstr) (v : json) : json :=
  if bool_decide (f ∈ NUMERIC_SYNC_FIELDS) then JNum (default nan (to_num (Some v))) else v.

(** The maps have all ten options. *)
Definition ratios_ok (r : Ratios) : Prop := map fst r = option_keys.

Lemma get_obj_set {V} k k' (v : V) o : obj_get k' (obj_set k v o) = if jeqb k k' then Some v else obj_get k' o.
Proof.
  destruct (jeqb k k') eqn:E; [apply jeqb_spec in E as ->; by rewrite obj_get_set_eq|].
  apply jeqb_neq in E. by rewrite obj_get_set_ne by congruence.
Qed.

Lemma ratio_of_set r key f k m :
  ratio_of (obj_set key f r) k m = if jeqb key k then obj_get m f else ratio_of r k m.
Proof. unfold ratio_of. rewrite get_obj_set. by destruct (jeqb key k). Qed.

Lemma set_existing_keys {V} k (v w : V) o : obj_get k o = Some w -> map fst (obj_set k v o) = map fst o.
Proof.
  intros H. rewrite obj_set_keys, bool_decide_true; [done|]. apply obj_has_spec. unfold obj_has. by rewrite H.
Qed.

Lemma drop_entry_spec m r key :
  map fst (drop_entry m r key) = map fst r /\
  forall k m', ratio_of (drop_entry m r key) k m' = if jeqb key k && jeqb m m' then None else ratio_of r k m'.
Proof.
  unfold drop_entry. destruct (obj_get key r) as [f|] eqn:E.
  - split; [by eapply set_existing_keys|]. intros k m'. rewrite ratio_of_set.
    destruct (jeqb key k) eqn:Ek; [|done]. apply jeqb_spec in Ek as <-. rewrite get_delete. cbn [andb].
    unfold ratio_of. by rewrite E.
  - split; [done|]. intros k m'. destruct (jeqb key k) eqn:Ek; [|done]. apply jeqb_spec in Ek as <-.
    unfold ratio_of. rewrite E. by destruct (jeqb m m').
Qed.

Lemma drop_entries_spec m keys r :
  map fst (fold_left (drop_entry m) keys r) = map fst r /\
  forall k m', ratio_of (fold_left (drop_entry m) keys r) k m'
    = if bool_decide (k ∈ keys) && jeqb m m' then None else ratio_of r k m'.
Proof.
  revert r. induction keys as [|key keys IH]; intros r; [done|]. cbn [fold_left].
  destruct (IH (drop_entry m r key)) as [H1 H2], (drop_entry_spec m r key) as [H3 H4].
  split; [by rewrite H1, H3|]. intros k m'. rewrite H2, H4.
  destruct (jeqb key k) eqn:E; [apply jeqb_spec in E as ->; rewrite (bool_decide_true (k ∈ k :: keys)) by by left|].
  - cbn [andb]. by destruct (bool_decide (k ∈ keys)), (jeqb m m').
  - apply jeqb_neq in E. cbn [andb].
    by rewrite (bool_decide_ext (k ∈ key :: keys) (k ∈ keys)) by (rewrite elem_of_cons; naive_solver).
Qed.

Lemma scalar_num v : scalar v = true -> to_num (Some v) = Some (default nan (to_num (Some v))).
Proof. by destruct v. Qed.

Lemma put_value_spec m r f v :
  ratios_ok r -> optionKeyBySyncField f ∈ option_keys -> scalar v = true ->
  exists r', put_value m (Some r) (f, v) = Some r' /\ ratios_ok r' /\
    forall k m', ratio_of r' k m' = if jeqb (optionKeyBySyncField f) k && jeqb m m' then Some (written f v) else ratio_of r k m'.
Proof.
  intros Hr Hk Hv. unfold put_value. cbn [fst snd]. set (key := optionKeyBySyncField f) in *.
  assert (exists o, obj_get key r = Some o) as [o Ho].
  { destruct (sync_get_some key r) as (o & ? & _); [by rewrite Hr|]. by exists o. }
  assert ((if bool_decide (f ∈ NUMERIC_SYNC_FIELDS)
           then match to_num (Some v) with Some x => Some (JNum x) | None => None end else Some v)
          = Some (written f v)) as ->.
  { unfold written. case_bool_decide; [|done]. by rewrite scalar_num. }
  rewrite Ho. eexists. split; [done|]. split; [unfold ratios_ok; by rewrite (set_existing_keys _ _ _ _ Ho)|].
  intros k m'. rewrite ratio_of_set. destruct (jeqb key k) eqn:E; [|done]. apply jeqb_spec in E as <-.
  rewrite get_obj_set. cbn [andb]. unfold ratio_of. by rewrite Ho.
Qed.

Lemma option_key_inj f g :
  f ∈ SYNC_FIELD_ORDER -> g ∈ SYNC_FIELD_ORDER -> optionKeyBySyncField f = optionKeyBySyncField g -> f = g.
Proof.
  apply NoDup_map_inj. apply (bool_decide_unpack _). by vm_compute.
Qed.

Lemma known_field (P : jstr -> bool) f : forallb P SYNC_FIELD_ORDER = true -> f ∈ SYNC_FIELD_ORDER -> P f = true.
Proof. rewrite forallb_forall. intros H Hf. by apply H, list_elem_of_In. Qed.

Lemma option_key_known f : f ∈ SYNC_FIELD_ORDER -> optionKeyBySyncField f ∈ option_keys.
Proof.
  intros Hf. eapply (bool_decide_eq_true_1 _).
  exact (known_field (fun f => bool_decide (optionKeyBySyncField f ∈ option_keys)) f ltac:(by vm_compute) Hf).
Qed.

Lemma option_key_kind f : f ∈ SYNC_FIELD_ORDER ->
  bool_decide (optionKeyBySyncField f ∈ ratio_keys) = bool_decide (f ∈ RATIO_SYNC_FIELDS) /\
  jeqb (u "ModelPrice") (optionKeyBySyncField f) = jeqb f (u "model_price").
Proof.
  intros Hf. split; apply Bool.eqb_prop.
  - exact (known_field (fun f => Bool.eqb (bool_decide (optionKeyBySyncField f ∈ ratio_keys))
      (bool_decide (f ∈ RATIO_SYNC_FIELDS))) f ltac:(by vm_compute) Hf).
  - exact (known_field (fun f => Bool.eqb (jeqb (u "ModelPrice") (optionKeyBySyncField f))
      (jeqb f (u "model_price"))) f ltac:(by vm_compute) Hf).
Qed.

Definition entries_ok (l : ModelRes) : Prop :=
  NoDup (map fst l) /\ Forall (fun kv => kv.1 ∈ SYNC_FIELD_ORDER /\ scalar kv.2 = true) l.

Lemma puts_spec m l r :
  ratios_ok r -> entries_ok l ->
  exists r', fold_left (put_value m) l (Some r) = Some r' /\ ratios_ok r' /\
    (forall f v, (f, v) ∈ l -> ratio_of r' (optionKeyBySyncField f) m = Some (written f v)) /\
    (forall k m', m' <> m \/ (forall f, f ∈ map fst l -> optionKeyBySyncField f <> k) -> ratio_of r' k m' = ratio_of r k m').
Proof.
  revert r. induction l as [|[f v] l IH]; intros r Hr [Hn Hl].
  { exists r. split_and!; [done..| |done]. by intros f v ?%elem_of_nil. }
  cbn [map fst] in Hn. apply NoDup_cons in Hn as [Hf Hn]. apply Forall_cons in Hl as [[Hk Hv] Hl]. cbn [fst snd] in *.
  destruct (put_value_spec m r f v Hr (option_key_known f Hk) Hv) as (r1 & H1 & Hr1 & Hg).
  cbn [fold_left]. rewrite H1. destruct (IH r1 Hr1) as (r' & H' & Hr' & Hin & Hout); [done|].
  exists r'. split_and!; [done..| |].
  - intros g w [[= -> ->]|Hgw]%elem_of_cons; [|by apply Hin].
    rewrite Hout, Hg, !jeqb_refl; [done|]. right. intros g Hg' E. rewrite Forall_forall in Hl.
    assert (g ∈ SYNC_FIELD_ORDER) as Hgk by (apply list_elem_of_fmap in Hg' as (kv & -> & ?); by apply Hl).
    by apply (option_key_inj _ _ Hgk Hk) in E as ->.
  - intros k m' Hor. rewrite Hout, Hg.
    + destruct Hor as [Hm|Hk']; [by rewrite (proj2 (jeqb_neq m m')), andb_false_r by congruence|].
      rewrite (proj2 (jeqb_neq (optionKeyBySyncField f) k)); [done|]. apply Hk'. by left.
    + destruct Hor as [Hm|Hk']; [by left|right]. intros g Hg'. apply Hk'. by right.
Qed.

(** What a sync leaves of a field: the choice, or nothing when a choice of the other kind replaces
    it, or what was there. *)
Definition replaced (res : ModelRes) (f : jstr) : bool :=
  (has_price res && bool_decide (f ∈ RATIO_SYNC_FIELDS)) || (has_ratio res && jeqb f (u "model_price")).

Definition synced_field (res : ModelRes) (before : option json) (f : jstr) : option json :=
  match obj_get f res with
  | Some v => Some (written f v)
  | None => if replaced res f then None else before
  end.

Lemma obj_get_perm {V} k (l l' : list (jstr * V)) : NoDup (map fst l) -> l ≡ₚ l' -> obj_get k l = obj_get k l'.
Proof.
  intros Hn Hp. assert (NoDup (map fst l')) as Hn' by by rewrite <- Hp.
  destruct (obj_get k l) as [v|] eqn:E.
  - apply obj_get_in in E. rewrite Hp in E. symmetry. by apply obj_get_elem.
  - destruct (obj_get k l') as [v|] eqn:E'; [|done]. apply obj_get_in in E'. rewrite <- Hp in E'.
    by rewrite (obj_get_elem l k v Hn E') in E.
Qed.

Lemma apply_model_spec r m res :
  ratios_ok r -> res_ok res ->
  exists r', apply_model (Some r) (m, res) = Some r' /\ ratios_ok r' /\
    (forall k m', m' <> m -> ratio_of r' k m' = ratio_of r k m') /\
    (forall f, f ∈ SYNC_FIELD_ORDER ->
      ratio_of r' (optionKeyBySyncField f) m = synced_field res (ratio_of r (optionKeyBySyncField f) m) f).
Proof.
  intros Hr Hres. unfold apply_model.
  set (r1 := if has_price res then fold_left (drop_entry m) ratio_keys r else r).
  set (r2 := if has_ratio res then drop_entry m r1 (u "ModelPrice") else r1).
  destruct (drop_entries_spec m ratio_keys r) as [Hd1 Hd2].
  assert (ratios_ok r1 /\ forall k m', ratio_of r1 k m' =
    if has_price res && bool_decide (k ∈ ratio_keys) && jeqb m m' then None else ratio_of r k m') as [Hr1 H1].
  { unfold r1, ratios_ok. destruct (has_price res); [by rewrite Hd1|done]. }
  destruct (drop_entry_spec m r1 (u "ModelPrice")) as [He1 He2].
  assert (ratios_ok r2 /\ forall k m', ratio_of r2 k m' =
    if has_ratio res && jeqb (u "ModelPrice") k && jeqb m m' then None else ratio_of r1 k m') as [Hr2 H2].
  { unfold r2, ratios_ok. destruct (has_ratio res); [by rewrite He1|done]. }
  destruct Hres as [_ Hn Hk _ _].
  destruct (puts_spec m (obj_order res) r2 Hr2) as (r' & H' & Hr' & Hin & Hout).
  { split; [by rewrite obj_order_perm|]. by rewrite obj_order_perm. }
  exists r'. split_and!; [done..| |].
  - intros k m' Hm. rewrite Hout, H2, H1 by by left. by rewrite (proj2 (jeqb_neq m m')), !andb_false_r by congruence.
  - intros f Hf. unfold synced_field. destruct (obj_get f res) as [v|] eqn:E.
    + apply Hin. rewrite obj_order_perm. by apply obj_get_in.
    + rewrite Hout.
      2: { right. intros g Hg Eg. assert (g = f) as ->.
           { apply option_key_inj; [|done..]. rewrite obj_order_perm in Hg. rewrite Forall_forall in Hk.
             apply list_elem_of_fmap in Hg as (kv & -> & Hkv). by apply Hk in Hkv as [? _]. }
           rewrite obj_order_perm in Hg. apply sync_get_some in Hg as (v & Hv & _). by rewrite Hv in E. }
      destruct (option_key_kind f Hf) as [Hk1 Hk2]. rewrite H2, H1, Hk1, Hk2, jeqb_refl, !andb_true_r. unfold replaced.
      by destruct (has_ratio res && _), (has_price res && _).
Qed.

(** The entry of a field after a sync of all choices. *)
Definition synced_entry (r : Ratios) (R : ResolutionsMap) (m f : jstr) : option json :=
  let before := ratio_of r (optionKeyBySyncField f) m in
  match obj_get m R with Some res => synced_field res before f | None => before end.

Lemma apply_models_spec l r :
  ratios_ok r -> NoDup (map fst l) -> Forall (fun mr => res_ok mr.2) l ->
  exists r', fold_left apply_model l (Some r) = Some r' /\ ratios_ok r' /\
    forall m f, f ∈ SYNC_FIELD_ORDER -> ratio_of r' (optionKeyBySyncField f) m = synced_entry r l m f.
Proof.
  revert r. induction l as [|[m res] l IH]; intros r Hr Hn Hl; [by exists r|].
  cbn [map fst] in Hn. apply NoDup_cons in Hn as [Hm Hn]. apply Forall_cons in Hl as [Hres Hl]. cbn [snd] in Hres.
  destruct (apply_model_spec r m res Hr Hres) as (r1 & H1 & Hr1 & Hother & Hsame).
  cbn [fold_left]. rewrite H1. destruct (IH r1 Hr1 Hn Hl) as (r' & H' & Hr' & Hspec).
  exists r'. split_and!; [done..|]. intros m' f Hf. rewrite Hspec by done. unfold synced_entry. cbn [obj_get].
  destruct (jeqb m m') eqn:E.
  - apply jeqb_spec in E as <-. rewrite (obj_get_absent l m Hm). by apply Hsame.
  - apply jeqb_neq in E. by rewrite Hother by congruence.
Qed.

Lemma final_ratios_spec r R :
  ratios_ok r -> resolutions_ok R ->
  exists r', finalRatios r R = Some r' /\ ratios_ok r' /\
    forall m f, f ∈ SYNC_FIELD_ORDER -> ratio_of r' (optionKeyBySyncField f) m = synced_entry r R m f.
Proof.
  intros Hr [Hn HR]. unfold finalRatios.
  destruct (apply_models_spec (obj_order R) r Hr) as (r' & H1 & H2 & H3);
    [by rewrite obj_order_perm|by rewrite obj_order_perm|].
  exists r'. split_and!; [done..|]. intros m f Hf. rewrite H3 by done. unfold synced_entry.
  by rewrite (obj_get_perm m (obj_order R) R) by (by rewrite ?obj_order_perm).
Qed.

(** C5: in every state the page can reach, the choices are consistent (a model never has a price
    and a ratio chosen, nor an expression without the mode), building the maps never fails, all ten
    options are written, and every field of every model has the chosen value, or nothing where a
    choice of the other kind replaces it, or the value it had. *)
Theorem page_sync_spec p r :
  rtc page_rel open_page p -> ratios_ok r ->
  resolutions_ok (resolutions p) /\
  exists r', performSync r (resolutions p) = Some (map (fun kv => (kv.1, stringify_indent (JObj kv.2))) r') /\
    map fst r' = option_keys /\
    forall m f, f ∈ SYNC_FIELD_ORDER ->
      ratio_of r' (optionKeyBySyncField f) m = synced_entry r (resolutions p) m f.
Proof.
  intros [_ HR]%page_reachable Hr. split; [done|].
  destruct (final_ratios_spec r (resolutions p) Hr HR) as (r' & H1 & H2 & H3).
  exists r'. unfold performSync. by rewrite H1.
Qed.

(** ** Kinds of price *)

Lemma ratio_keys_eq : ratio_keys = map optionKeyBySyncField RATIO_SYNC_FIELDS.
Proof. by vm_compute. Qed.

Lemma ratio_known f : f ∈ RATIO_SYNC_FIELDS -> f ∈ SYNC_FIELD_ORDER /\ jeqb f (u "model_price") = false.
Proof.
  intros Hf. split; [apply elem_of_app; by left|]. repeat (apply elem_of_cons in Hf as [->|Hf]; [done|]).
  by apply elem_of_nil in Hf.
Qed.

Lemma price_known : u "model_price" ∈ SYNC_FIELD_ORDER.
Proof. apply (bool_decide_unpack _). by vm_compute. Qed.

Lemma local_category_spec m r :
  getLocalBillingCategory m r =
    match ratio_of r (optionKeyBySyncField (u "model_price")) m with
    | Some _ => Some CatPrice
    | None => if existsb (fun f => match ratio_of r (optionKeyBySyncField f) m with Some _ => true | None => false end)
                   RATIO_SYNC_FIELDS
              then Some CatRatio else None
    end.
Proof.
  unfold getLocalBillingCategory. rewrite ratio_keys_eq.
  change (optionKeyBySyncField (u "model_price")) with (u "ModelPrice").
  by destruct (ratio_of r (u "ModelPrice") m).
Qed.

Lemma existsb_field (P : jstr -> bool) : existsb P RATIO_SYNC_FIELDS = true <-> exists f, f ∈ RATIO_SYNC_FIELDS /\ P f = true.
Proof. rewrite existsb_exists. by setoid_rewrite list_elem_of_In. Qed.

(** A model whose choices are of the kind it has keeps the kind. *)
Lemma synced_category r r' R m c :
  (forall f, f ∈ SYNC_FIELD_ORDER -> ratio_of r' (optionKeyBySyncField f) m = synced_entry r R m f) ->
  (forall res, obj_get m R = Some res -> newCat res = CatTiered \/ newCat res = c) ->
  getLocalBillingCategory m r = Some c -> getLocalBillingCategory m r' = Some c.
Proof.
  intros Hs Hc. rewrite !local_category_spec, (Hs _ price_known). unfold synced_entry.
  destruct (obj_get m R) as [res|] eqn:Em.
  2: { destruct (ratio_of r _ m); [done|]. destruct (existsb _ _) eqn:Ex; [|done]. intros [= <-].
       apply existsb_field in Ex as (f & Hf & H). rewrite (proj2 (existsb_field _)); [done|]. exists f. split; [done|].
       rewrite Hs by by apply ratio_known. unfold synced_entry. by rewrite Em. }
  specialize (Hc res eq_refl). unfold newCat in Hc. unfold synced_field at 1.
  unfold replaced. rewrite jeqb_refl, andb_true_r, (bool_decide_false (_ ∈ RATIO_SYNC_FIELDS)), andb_false_r
    by (intros [_ H]%ratio_known; by rewrite jeqb_refl in H). cbn [orb].
  destruct (ratio_of r (optionKeyBySyncField (u "model_price")) m) as [x|].
  - intros [= <-]. destruct (obj_get (u "model_price") res) eqn:Ep; [done|].
    unfold has_price, obj_has in Hc. rewrite Ep in Hc. destruct (has_ratio res); [by destruct Hc|done].
  - destruct (existsb _ _) eqn:Ex; [|done]. intros [= <-].
    destruct (obj_get (u "model_price") res) eqn:Ep.
    { unfold has_price, obj_has in Hc. rewrite Ep in Hc. by destruct Hc. }
    replace (if has_ratio res then None else None) with (@None json) by by destruct (has_ratio res).
    rewrite (proj2 (existsb_field _)); [done|].
    assert (has_price res = false) as Hp by (unfold has_price, obj_has; by rewrite Ep). rewrite Hp in Hc.
    destruct (has_ratio res) eqn:Hr.
    + unfold has_ratio in Hr. apply existsb_field in Hr as (f & Hf & Hh). exists f. split; [done|].
      rewrite Hs by by apply ratio_known. unfold synced_entry. rewrite Em. unfold synced_field, obj_has in *.
      by destruct (obj_get f res).
    + apply existsb_field in Ex as (f & Hf & H). exists f. split; [done|].
      rewrite Hs by by apply ratio_known. unfold synced_entry. rewrite Em. unfold synced_field.
      destruct (obj_get f res); [done|]. unfold replaced. by rewrite Hp, Hr.
Qed.

(** The fields of tiered pricing. *)
Definition TIERED_FIELDS : list jstr := [u "billing_mode"; u "billing_expr"].

Lemma tiered_known f : f ∈ TIERED_FIELDS -> f ∈ SYNC_FIELD_ORDER /\ forall res, replaced res f = false.
Proof.
  intros Hf. assert (f ∈ SYNC_FIELD_ORDER) as Ho by (unfold SYNC_FIELD_ORDER; set_solver). split; [done|]. intros res.
  unfold replaced. repeat (apply elem_of_cons in Hf as [->|Hf];
    [rewrite bool_decide_false by (apply (bool_decide_unpack _); by vm_compute); by rewrite andb_false_r, andb_false_r|]).
  by apply elem_of_nil in Hf.
Qed.

(** What a sync makes of a tiered field: the choice, if there is one. *)
Definition chosen_or_kept (R : ResolutionsMap) (m f : jstr) (before : option json) : option json :=
  match obj_get m R with
  | Some res => match obj_get f res with Some v => Some (written f v) | None => before end
  | None => before
  end.

(** C19: The question of a sync is about fixed prices against ratios.  A sync that starts without
    asking leaves every model that has a fixed price with a fixed price and every model that has ratios
    only with ratios only; and it asks exactly when a chosen price or ratio is of the other one of these
    two kinds than what a model has.  Tiered pricing is no kind of this question: a model with choices
    of tiered fields alone is never named, and a sync without a question writes the billing mode and
    the expression as they were chosen. *)
Theorem silent_sync_keeps_kind p r :
  rtc page_rel open_page p -> ratios_ok r ->
  match handleApplySync r (resolutions p) with
  | Synced updates =>
      exists r', finalRatios r (resolutions p) = Some r' /\ updates = performSync r (resolutions p) /\
        (forall m c, getLocalBillingCategory m r = Some c -> getLocalBillingCategory m r' = Some c) /\
        forall m f, f ∈ TIERED_FIELDS ->
          ratio_of r' (optionKeyBySyncField f) m
          = chosen_or_kept (resolutions p) m f (ratio_of r (optionKeyBySyncField f) m)
  | AskFirst models =>
      models <> [] /\ forall m, m ∈ models <-> exists res c, obj_get m (resolutions p) = Some res /\
        getLocalBillingCategory m r = Some c /\ newCat res <> CatTiered /\ newCat res <> c
  end.
Proof.
  intros [_ HR]%page_reachable Hr. set (R := resolutions p) in *.
  assert (forall m, m ∈ conflicts r R <-> exists res c, obj_get m R = Some res /\
    getLocalBillingCategory m r = Some c /\ newCat res <> CatTiered /\ newCat res <> c) as Hconf.
  { intros m. unfold conflicts. rewrite list_elem_of_fmap. split.
    - intros ([m' res] & -> & [Hp Hin]%jfilter_elem_of). rewrite obj_order_perm in Hin. cbn [fst].
      destruct (getLocalBillingCategory m' r) as [c|] eqn:Ec; [|done]. exists res, c.
      apply andb_prop in Hp as [H1%negb_true_iff%bool_decide_eq_false H2%negb_true_iff%bool_decide_eq_false].
      split_and!; [by apply obj_get_elem; [apply HR|]|done..|congruence].
    - intros (res & c & Hg & Hc & H1 & H2). exists (m, res). split; [done|]. apply jfilter_elem_of.
      rewrite Hc, !bool_decide_false by congruence. split; [done|]. rewrite obj_order_perm. by apply obj_get_in. }
  unfold handleApplySync. destruct (conflicts r R) as [|m0 l] eqn:E; [|split; [done|exact Hconf]].
  destruct (final_ratios_spec r R Hr HR) as (r' & H1 & H2 & H3). exists r'. split_and!; [done..| |].
  2: { intros m f [Hf Hn]%tiered_known. rewrite H3 by done. unfold synced_entry, chosen_or_kept, synced_field.
       destruct (obj_get m R) as [res|]; [|done]. by rewrite Hn. }
  intros m c Hc. apply (synced_category r r' R m c); [by intros; apply H3| |done].
  intros res Hres. destruct (decide (newCat res = CatTiered)) as [|Ht]; [by left|].
  destruct (decide (newCat res = c)) as [|Hne]; [by right|]. exfalso.
  apply (not_elem_of_nil m). apply Hconf. by exists res, c.
Qed.

(** ** Examples *)

Definition diff (l : list (jstr * json)) : RatioDifference := {| current := JNull; upstreams := l; confidence := [] |}.

Definition sample_diffs : DifferencesMap :=
  [(u "gpt", [(u "model_ratio", diff [(u "a", JNum (num_of_Z 2))]); (u "model_price", diff [(u "a", JStr (u "0.5"))])]);
   (u "tier", [(u "model_ratio", diff [(u "b", JNum (num_of_Z 3))]); (u "billing_expr", diff [(u "b", JStr (u "p * 2"))])])].

Definition sample_page : Page :=
  page_step (page_step (page_step open_page (Fetched sample_diffs))
    (Select (u "gpt") (u "model_price") (JStr (u "0.5")) (u "a")))
    (Select (u "tier") (u "model_ratio") (JNum (num_of_Z 3)) (u "b")).

Definition sample_ratios : Ratios :=
  map (fun k => (k, if jeqb k (u "ModelRatio") then [(u "gpt", JNum (num_of_Z 1)); (u "other", JNum (num_of_Z 7))] else [])) option_keys.

Lemma sample_page_reachable : rtc page_rel open_page sample_page.
Proof.
  eapply rtc_l; [exists (Fetched sample_diffs); split; [|reflexivity]|].
  { repeat constructor; cbn [fst snd]; apply (bool_decide_unpack _); by vm_compute. }
  eapply rtc_l; [eexists (Select (u "gpt") (u "model_price") (JStr (u "0.5")) (u "a")); split; [|reflexivity]|].
  { split; [by eexists|]. split; [apply (bool_decide_unpack _); by vm_compute|done]. }
  eapply rtc_l; [eexists (Select (u "tier") (u "model_ratio") (JNum (num_of_Z 3)) (u "b")); split; [|reflexivity]|apply rtc_refl].
  split; [by eexists|]. split; [apply (bool_decide_unpack _); by vm_compute|done].
Qed.

(** The text price is written as a number, the old ratio is gone, and the model with an expression
    has the expression and its mode instead of the ratio. *)
Lemma page_sync_spec_witness :
  exists r', performSync sample_ratios (resolutions sample_page)
             = Some (map (fun kv => (kv.1, stringify_indent (JObj kv.2))) r') /\
    ratio_of r' (optionKeyBySyncField (u "model_price")) (u "gpt") = Some (JNum (to_number (u "0.5"))) /\
    ratio_of r' (optionKeyBySyncField (u "model_ratio")) (u "gpt") = None /\
    ratio_of r' (optionKeyBySyncField (u "billing_mode")) (u "tier") = Some (JStr (u "tiered_expr")).
Proof.
  destruct (page_sync_spec sample_page sample_ratios) as (_ & r' & H1 & _ & H3); [apply sample_page_reachable|by vm_compute|].
  exists r'. split; [exact H1|]. clear H1. rewrite !H3 by (apply (bool_decide_eq_true_1 _); by vm_compute).
  clear H3. split_and!; vm_compute; reflexivity.
Defined.

Lemma silent_sync_keeps_kind_witness :
  handleApplySync sample_ratios (resolutions sample_page) = AskFirst [u "gpt"] /\
  exists res c, obj_get (u "gpt") (resolutions sample_page) = Some res /\
    getLocalBillingCategory (u "gpt") sample_ratios = Some c /\ newCat res <> CatTiered /\ newCat res <> c.
Proof.
  pose proof (silent_sync_keeps_kind sample_page sample_ratios sample_page_reachable ltac:(by vm_compute)) as H.
  assert (handleApplySync sample_ratios (resolutions sample_page) = AskFirst [u "gpt"]) as E by by vm_compute.
  rewrite E in H. split; [done|]. apply H. by left.
Defined.

(** A model with a fixed price for which an expression is chosen becomes a tiered model with no
    question. *)
Definition priced_ratios : Ratios :=
  map (fun k => (k, if jeqb k (u "ModelPrice") then [(u "tier", JNum (num_of_Z 1))] else [])) option_keys.

Definition tiered_page : Page :=
  page_step (page_step open_page (Fetched sample_diffs)) (Select (u "tier") (u "billing_expr") (JStr (u "p * 2")) (u "b")).

Example tiered_choice_silent :
  conflicts priced_ratios (resolutions tiered_page) = [] /\
  option_map (fun r => (ratio_of r (u "ModelPrice") (u "tier"), ratio_of r (u "billing_setting.billing_mode") (u "tier")))
    (finalRatios priced_ratios (resolutions tiered_page))
  = Some (Some (JNum (num_of_Z 1)), Some (JStr (u "tiered_expr"))).
Proof. split; vm_compute; reflexivity. Qed.

(** Choosing a whole source that lists both keeps only the price, and the box is left half
    checked. *)
Example bulk_select_keeps_price :
  let rows := dataSource sample_diffs in
  let R := handleBulkSelect sample_diffs [] (u "a") rows [] in
  R = [(u "gpt", [(u "model_price", JStr (u "0.5"))])] /\ checkboxState R [] (u "a") rows = Indeterminate.
Proof. by vm_compute. Qed.

(** Updates the server refuses are reported as synced all the same. *)
Example refused_sync_reported updates : sync_updates (fun _ _ => Some false) updates = true.
Proof. induction updates as [|[k v] l IH]; [done|]. exact IH. Qed.
