(* ===== verification/GroupRatios.v ===== *)
(** * Group ratio editor

    Model of [src/web/default/src/features/system-settings/models/group-ratio-visual-editor.tsx]:
    five settings that are JSON texts (group ratios, top-up ratios, selectable groups, overrides
    between groups, and the order of automatic assignment), the handlers that edit them, and the
    dialogs in front of the handlers.

    A handler is [None] where a text is JSON of another shape than the code casts it to. *)

From stdpp Require Import gmap.
From S2P Require Import Prelude JsString JsNumber Json JsonFacts SettingsJson.
Open Scope N_scope.

Record Texts := {
  groupRatio : jstr;
  topupGroupRatio : jstr;
  userUsableGroups : jstr;
  groupGroupRatio : jstr;
  autoGroups : jstr;
}.

Inductive simple_type : Type := GroupRatioType | TopupType.

Definition simple_text (t : Texts) (ty : simple_type) : jstr :=
  match ty with GroupRatioType => groupRatio t | TopupType => topupGroupRatio t end.

(** [onChange(field, text)] *)
Definition set_simple (t : Texts) (ty : simple_type) (s : jstr) : Texts :=
  match ty with
  | GroupRatioType =>
      {| groupRatio := s; topupGroupRatio := topupGroupRatio t; userUsableGroups := userUsableGroups t;
         groupGroupRatio := groupGroupRatio t; autoGroups := autoGroups t |}
  | TopupType =>
      {| groupRatio := groupRatio t; topupGroupRatio := s; userUsableGroups := userUsableGroups t;
         groupGroupRatio := groupGroupRatio t; autoGroups := autoGroups t |}
  end.

Definition set_usable (t : Texts) (s : jstr) : Texts :=
  {| groupRatio := groupRatio t; topupGroupRatio := topupGroupRatio t; userUsableGroups := s;
     groupGroupRatio := groupGroupRatio t; autoGroups := autoGroups t |}.

Definition set_overrides (t : Texts) (s : jstr) : Texts :=
  {| groupRatio := groupRatio t; topupGroupRatio := topupGroupRatio t; userUsableGroups := userUsableGroups t;
     groupGroupRatio := s; autoGroups := autoGroups t |}.

Definition set_auto (t : Texts) (s : jstr) : Texts :=
  {| groupRatio := groupRatio t; topupGroupRatio := topupGroupRatio t; userUsableGroups := userUsableGroups t;
     groupGroupRatio := groupGroupRatio t; autoGroups := s |}.

(** ** Lists shown *)

(** [groupRatioList], [topupRatioList] and [usableGroupsList]: names with [String(value)]. *)
Definition simple_list (text : jstr) : option (list (jstr * option jstr)) :=
  match text_map text with
  | Some m => Some (map (fun kv => (kv.1, to_str kv.2)) (obj_order m))
  | None => None
  end.

Definition autoGroupsList (text : jstr) : option (list json) :=
  match safeJsonParse (Some text) (Some (JArr [])) with JArr l => Some l | _ => None end.

(** The overrides of each user group. *)
Definition groupGroupRatioList (text : jstr) : option (list (jstr * list (jstr * json))) :=
  match text_map text with
  | Some m => Some (map (fun kv => (kv.1, spread kv.2)) (obj_order m))
  | None => None
  end.

(** ** Handlers *)

(** The entry of the edited group is dropped when its name changes. *)
Definition rename_away (edit : option jstr) (name : jstr) (m : Map) : Map :=
  match edit with
  | Some old => if jeqb old name then m else obj_delete old m
  | None => m
  end.

Definition handleSimpleSave (t : Texts) (ty : simple_type) (edit : option jstr) (name value : jstr) : option Texts :=
  match text_map (simple_text t ty) with
  | Some m =>
      let m := obj_set name (JNum (parse_float value)) (rename_away edit name m) in
      Some (set_simple t ty (stringify_indent (JObj m)))
  | None => None
  end.

Definition handleSimpleDelete (t : Texts) (ty : simple_type) (name : jstr) : option Texts :=
  match text_map (simple_text t ty) with
  | Some m => Some (set_simple t ty (stringify_indent (JObj (obj_delete name m))))
  | None => None
  end.

Definition handleUsableSave (t : Texts) (edit : option jstr) (name description : jstr) : option Texts :=
  match text_map (userUsableGroups t) with
  | Some m =>
      Some (set_usable t (stringify_indent (JObj (obj_set name (JStr description) (rename_away edit name m)))))
  | None => None
  end.

Definition handleUsableDelete (t : Texts) (name : jstr) : option Texts :=
  match text_map (userUsableGroups t) with
  | Some m => Some (set_usable t (stringify_indent (JObj (obj_delete name m))))
  | None => None
  end.

Definition handleAutoGroupSave (t : Texts) (autoGroupInput : jstr) : option Texts :=
  if negb (truthy (trim autoGroupInput)) then Some t else
  match autoGroupsList (autoGroups t) with
  | Some l => Some (set_auto t (stringify_indent (JArr (l ++ [JStr (trim autoGroupInput)]))))
  | None => None
  end.

Definition handleAutoGroupDelete (t : Texts) (index : nat) : option Texts :=
  match autoGroupsList (autoGroups t) with
  | Some l =>
      let list := map snd (jfilter (fun '(i, _) => negb (i =? index)%nat) (enum_from 0 l)) in
      Some (set_auto t (stringify_indent (JArr list)))
  | None => None
  end.

Inductive direction : Type := Up | Down.

Definition handleAutoGroupMove (t : Texts) (index : nat) (d : direction) : option Texts :=
  match autoGroupsList (autoGroups t) with
  | Some l =>
      let newIndex := match d with Up => (Z.of_nat index - 1)%Z | Down => (Z.of_nat index + 1)%Z end in
      if (newIndex <? 0)%Z || (Z.of_nat (length l) <=? newIndex)%Z then Some t else
      match l !! index, l !! Z.to_nat newIndex with
      | Some a, Some b => Some (set_auto t (stringify_indent (JArr (<[Z.to_nat newIndex := a]> (<[index := b]> l)))))
      | _, _ => None
      end
  | None => None
  end.

(** [map\[group\]] as the object it is cast to; a falsy value is replaced by an empty one. *)
Definition override_map (m : Map) (group : jstr) : option Map :=
  match obj_get group m with
  | None => Some []
  | Some (JObj f) => Some f
  | Some j => if json_truthy j then None else Some []
  end.

Definition handleUserGroupSave (t : Texts) (userGroupInput : jstr) : option Texts :=
  let group := trim userGroupInput in
  if negb (truthy group) then Some t else
  match text_map (groupGroupRatio t) with
  | Some m =>
      let m := match obj_get group m with
               | Some j => if json_truthy j then m else obj_set group (JObj []) m
               | None => obj_set group (JObj []) m
               end in
      Some (set_overrides t (stringify_indent (JObj m)))
  | None => None
  end.

Definition handleUserGroupDelete (t : Texts) (userGroup : jstr) : option Texts :=
  match text_map (groupGroupRatio t) with
  | Some m => Some (set_overrides t (stringify_indent (JObj (obj_delete userGroup m))))
  | None => None
  end.

Definition handleOverrideSave (t : Texts) (userGroup : option jstr) (targetGroup : jstr) (ratio : num)
    (oldTargetGroup : option jstr) : option Texts :=
  match userGroup with
  | None | Some [] => Some t
  | Some group =>
      match text_map (groupGroupRatio t) with
      | Some m =>
          match override_map m group with
          | Some f =>
              let old := match oldTargetGroup with Some (_ :: _) => oldTargetGroup | _ => None end in
              let f := obj_set targetGroup (JNum ratio) (rename_away old targetGroup f) in
              Some (set_overrides t (stringify_indent (JObj (obj_set group (JObj f) m))))
          | None => None
          end
      | None => None
      end
  end.

Definition handleOverrideDelete (t : Texts) (userGroup targetGroup : jstr) : option Texts :=
  match text_map (groupGroupRatio t) with
  | Some m =>
      match obj_get userGroup m with
      | None => Some (set_overrides t (stringify_indent (JObj m)))
      | Some (JObj f) =>
          let f := obj_delete targetGroup f in
          let m := match f with [] => obj_delete userGroup m | _ => obj_set userGroup (JObj f) m end in
          Some (set_overrides t (stringify_indent (JObj m)))
      | Some j => if json_truthy j then None else Some (set_overrides t (stringify_indent (JObj m)))
      end
  | None => None
  end.

(** ** Editing *)

Inductive operation : Type :=
| SimpleSave (ty : simple_type) (edit : option jstr) (name value : jstr)
| SimpleDelete (ty : simple_type) (name : jstr)
| UsableSave (edit : option jstr) (name description : jstr)
| UsableDelete (name : jstr)
| AutoAdd (input : jstr)
| AutoDelete (index : nat)
| AutoMove (index : nat) (d : direction)
| UserGroupAdd (input : jstr)
| UserGroupDelete (group : jstr)
| OverrideSave (group target : jstr) (ratio : num) (old : option jstr)
| OverrideDelete (group target : jstr).

Definition edit_step (t : Texts) (op : operation) : option Texts :=
  match op with
  | SimpleSave ty edit name value => handleSimpleSave t ty edit name value
  | SimpleDelete ty name => handleSimpleDelete t ty name
  | UsableSave edit name description => handleUsableSave t edit name description
  | UsableDelete name => handleUsableDelete t name
  | AutoAdd input => handleAutoGroupSave t input
  | AutoDelete index => handleAutoGroupDelete t index
  | AutoMove index d => handleAutoGroupMove t index d
  | UserGroupAdd input => handleUserGroupSave t input
  | UserGroupDelete group => handleUserGroupDelete t group
  | OverrideSave group target ratio old => handleOverrideSave t (Some group) target ratio old
  | OverrideDelete group target => handleOverrideDelete t group target
  end.

Fixpoint edit_run (t : Texts) (ops : list operation) : option Texts :=
  match ops with
  | [] => Some t
  | op :: rest => match edit_step t op with Some t' => edit_run t' rest | None => None end
  end.

(** ** The dialog of a group and its ratio *)

(** [SimpleGroupDialog]: what is open for which group, and the two inputs. *)
Record GroupDialog := {
  is_open : bool;
  edit_data : option (jstr * jstr);
  in_name : jstr;
  in_value : jstr;
}.

Definition closed_dialog : GroupDialog := {| is_open := false; edit_data := None; in_name := []; in_value := [] |}.

(** The callback the dialog passes to the dialog component. *)
Definition dialog_open_change (s : GroupDialog) (open : bool) : GroupDialog :=
  match open, edit_data s with
  | true, Some (n, v) => {| is_open := open; edit_data := edit_data s; in_name := n; in_value := v |}
  | _, _ => {| is_open := open; edit_data := edit_data s; in_name := []; in_value := [] |}
  end.

Inductive dialog_event : Type :=
| OpenFor (data : option (jstr * jstr))
| Dismiss
| Cancel
| TypeName (v : jstr)
| TypeValue (v : jstr)
| Save.

Section Dialog.
(** Whether the dialog component calls [onOpenChange] when its [open] property is set. *)
Context (notify_open : bool).

(** The state, and what [onSave] is called with. *)
Definition dialog_step (s : GroupDialog) (e : dialog_event) : GroupDialog * option (jstr * jstr) :=
  match e with
  | OpenFor data =>
      let s' := {| is_open := true; edit_data := data; in_name := in_name s; in_value := in_value s |} in
      (if notify_open then dialog_open_change s' true else s', None)
  | Dismiss => (dialog_open_change s false, None)
  | Cancel => ({| is_open := false; edit_data := edit_data s; in_name := in_name s; in_value := in_value s |}, None)
  | TypeName v =>
      (match edit_data s with
       | Some _ => s
       | None => {| is_open := is_open s; edit_data := None; in_name := v; in_value := in_value s |}
       end, None)
  | TypeValue v =>
      (if jeqb v [] || negb (is_nan (parse_float v))
       then {| is_open := is_open s; edit_data := edit_data s; in_name := in_name s; in_value := v |} else s, None)
  | Save =>
      if negb (truthy (trim (in_name s))) || negb (truthy (trim (in_value s))) then (s, None)
      else ({| is_open := false; edit_data := edit_data s; in_name := []; in_value := [] |},
            Some (trim (in_name s), trim (in_value s)))
  end.

Fixpoint dialog_run (s : GroupDialog) (l : list dialog_event) : GroupDialog * list (jstr * jstr) :=
  match l with
  | [] => (s, [])
  | e :: t =>
      let '(s', saved) := dialog_step s e in
      let '(s'', rest) := dialog_run s' t in
      (s'', match saved with Some x => x :: rest | None => rest end)
  end.
End Dialog.
