(* ===== verification/GroupRatioFacts.v ===== *)
(** * The group ratio editor refines finite maps

    The five texts stand for finite maps (one of them of maps) and a list; every handler does to
    the text what its name says on the map or list, over any sequence of edits. The dialog in
    front of the ratio maps opens for editing with empty inputs. *)

From stdpp Require Import gmap.
From S2P Require Import Prelude JsString JsNumber Json JsonFacts SettingsJson GroupRatios.
Open Scope N_scope.

(** ** What the texts stand for *)

Record Groups := {
  ratios : gmap jstr json;
  topups : gmap jstr json;
  usable : gmap jstr json;
  overrides : gmap jstr (gmap jstr json);
  auto : list jstr;
}.

Definition as_map (o : Map) : gmap jstr json := list_to_map o.

Lemma as_map_lookup o k : as_map o !! k = obj_get k o.
Proof.
  induction o as [|[k' v] o IH]; [apply lookup_empty|]. unfold as_map in *. cbn [list_to_map foldr obj_get fst snd].
  destruct (jeqb k' k) eqn:E.
  - apply jeqb_spec in E as ->. apply lookup_insert_eq.
  - apply jeqb_neq in E. cbn. by rewrite lookup_insert_ne.
Qed.

Lemma as_map_set k v o : as_map (obj_set k v o) = <[k := v]> (as_map o).
Proof.
  apply map_eq. intros k'. rewrite as_map_lookup, get_set. destruct (jeqb k k') eqn:E.
  - apply jeqb_spec in E as ->. by rewrite lookup_insert_eq.
  - apply jeqb_neq in E. by rewrite lookup_insert_ne, as_map_lookup.
Qed.

Lemma as_map_delete k o : as_map (obj_delete k o) = delete k (as_map o).
Proof.
  apply map_eq. intros k'. rewrite as_map_lookup, get_delete. destruct (jeqb k k') eqn:E.
  - apply jeqb_spec in E as ->. by rewrite lookup_delete_eq.
  - apply jeqb_neq in E. by rewrite lookup_delete_ne, as_map_lookup.
Qed.

(** The object of a value, the empty one for other values. *)
Definition fields_of (j : json) : Map := match j with JObj f => f | _ => [] end.

Definition is_object (j : json) : bool := match j with JObj _ => true | _ => false end.

Definition as_overrides (o : Map) : gmap jstr (gmap jstr json) := (fun j => as_map (fields_of j)) <$> as_map o.

(** A text that stands for a map. *)
Definition map_text (s : jstr) (m : gmap jstr json) : Prop :=
  exists o, text_map s = Some o /\ obj_ok o /\ as_map o = m.

Definition overrides_text (s : jstr) (m : gmap jstr (gmap jstr json)) : Prop :=
  exists o, text_map s = Some o /\ obj_ok o /\ Forall (fun kv => is_object kv.2 = true) o /\ as_overrides o = m.

Definition auto_text (s : jstr) (l : list jstr) : Prop :=
  autoGroupsList s = Some (map JStr l) /\ Forall units l.

Record represents (t : Texts) (g : Groups) : Prop := {
  rep_ratios : map_text (groupRatio t) (ratios g);
  rep_topups : map_text (topupGroupRatio t) (topups g);
  rep_usable : map_text (userUsableGroups t) (usable g);
  rep_overrides : overrides_text (groupGroupRatio t) (overrides g);
  rep_auto : auto_text (autoGroups t) (auto g);
}.

(** ** The edits on maps *)

Definition move_key (edit : option jstr) (name : jstr) (v : json) (m : gmap jstr json) : gmap jstr json :=
  <[name := v]> (match edit with Some old => if jeqb old name then m else delete old m | None => m end).

Definition swap_at {A} (l : list A) (i j : nat) : list A :=
  match l !! i, l !! j with Some a, Some b => <[j := a]> (<[i := b]> l) | _, _ => l end.

Definition abstract_step (g : Groups) (op : operation) : Groups :=
  let with_ratios m := {| ratios := m; topups := topups g; usable := usable g; overrides := overrides g; auto := auto g |} in
  let with_topups m := {| ratios := ratios g; topups := m; usable := usable g; overrides := overrides g; auto := auto g |} in
  let with_usable m := {| ratios := ratios g; topups := topups g; usable := m; overrides := overrides g; auto := auto g |} in
  let with_over m := {| ratios := ratios g; topups := topups g; usable := usable g; overrides := m; auto := auto g |} in
  let with_auto l := {| ratios := ratios g; topups := topups g; usable := usable g; overrides := overrides g; auto := l |} in
  match op with
  | SimpleSave GroupRatioType edit name value => with_ratios (move_key edit name (JNum (parse_float value)) (ratios g))
  | SimpleSave TopupType edit name value => with_topups (move_key edit name (JNum (parse_float value)) (topups g))
  | SimpleDelete GroupRatioType name => with_ratios (delete name (ratios g))
  | SimpleDelete TopupType name => with_topups (delete name (topups g))
  | UsableSave edit name description => with_usable (move_key edit name (JStr description) (usable g))
  | UsableDelete name => with_usable (delete name (usable g))
  | AutoAdd input => if truthy (trim input) then with_auto (auto g ++ [trim input]) else g
  | AutoDelete i => with_auto (delete i (auto g))
  | AutoMove i Up => with_auto (match i with O => auto g | S j => swap_at (auto g) i j end)
  | AutoMove i Down => with_auto (swap_at (auto g) i (S i))
  | UserGroupAdd input =>
      let group := trim input in
      if truthy group then with_over (match overrides g !! group with Some _ => overrides g | None => <[group := ∅]> (overrides g) end)
      else g
  | UserGroupDelete group => with_over (delete group (overrides g))
  | OverrideSave group target ratio old =>
      let old := match old with Some (_ :: _) => old | _ => None end in
      with_over (<[group := move_key old target (JNum ratio) (default ∅ (overrides g !! group))]> (overrides g))
  | OverrideDelete group target =>
      match overrides g !! group with
      | Some m => with_over (if decide (delete target m = ∅) then delete group (overrides g)
                             else <[group := delete target m]> (overrides g))
      | None => g
      end
  end.

(** Edits whose names and numbers are printed and read exactly. *)
Definition op_ok (op : operation) : bool :=
  match op with
  | SimpleSave _ _ name value => key_ok name && num_ok (parse_float value)
  | UsableSave _ name description => key_ok name && forallb (fun c => c <? 65536) description
  | AutoAdd input => forallb (fun c => c <? 65536) input
  | UserGroupAdd input => key_ok (trim input)
  | OverrideSave group target ratio _ => truthy group && key_ok group && key_ok target && num_ok ratio
  | _ => true
  end.

(** ** Maps *)

Lemma rename_away_ok edit name o : obj_ok o -> obj_ok (rename_away edit name o).
Proof. intros Ho. unfold rename_away. destruct edit as [old|]; [|done]. destruct (jeqb old name); [done|]. by apply obj_ok_delete. Qed.

Lemma as_map_rename edit name v o :
  as_map (obj_set name v (rename_away edit name o)) = move_key edit name v (as_map o).
Proof.
  rewrite as_map_set. unfold move_key, rename_away. destruct edit as [old|]; [|done].
  destruct (jeqb old name); [done|]. by rewrite as_map_delete.
Qed.

Lemma map_text_indent o : obj_ok o -> map_text (stringify_indent (JObj o)) (as_map o).
Proof. intros Ho. exists o. by rewrite text_map_indent. Qed.

Lemma map_text_save o edit name v :
  obj_ok o -> key_ok name = true -> json_ok v = true ->
  map_text (stringify_indent (JObj (obj_set name v (rename_away edit name o)))) (move_key edit name v (as_map o)).
Proof. intros Ho Hk Hv. rewrite <- as_map_rename. apply map_text_indent, obj_ok_set; [done..|]. by apply rename_away_ok. Qed.

Lemma map_text_delete o name : obj_ok o -> map_text (stringify_indent (JObj (obj_delete name o))) (delete name (as_map o)).
Proof. intros Ho. rewrite <- as_map_delete. by apply map_text_indent, obj_ok_delete. Qed.

(** ** Lists *)

Lemma auto_text_indent l : Forall units l -> auto_text (stringify_indent (JArr (map JStr l))) l.
Proof.
  intros Hl. assert (json_ok (JArr (map JStr l)) = true) as Hj.
  { cbn [json_ok]. apply forallb_forall. intros j (s & <- & Hs)%in_map_iff. cbn.
    rewrite Forall_forall in Hl. apply forallb_forall. intros c Hc. apply N.ltb_lt.
    specialize (Hl s (proj2 (list_elem_of_In _ _) Hs)). unfold units in Hl. rewrite Forall_forall in Hl.
    apply Hl. by apply list_elem_of_In. }
  split; [|done]. unfold autoGroupsList, safeJsonParse. destruct (indent_trim _ Hj) as [-> Hne].
  by rewrite (proj2 (truthy_spec _) Hne), (proj2 (jeqb_neq _ _) Hne), json_roundtrip_indent.
Qed.

Lemma filter_index {A} (l : list A) n i :
  map snd (jfilter (fun '(j, _) => negb (j =? n + i)%nat) (enum_from n l)) = delete i l.
Proof.
  revert n i. induction l as [|x l IH]; intros n i; [done|]. cbn [enum_from jfilter].
  destruct i as [|i].
  - rewrite Nat.add_0_r, Nat.eqb_refl. cbn [negb]. cbn.
    assert (forall k, (n < k)%nat -> map snd (jfilter (fun '(j, _) => negb (j =? n)%nat) (enum_from k l)) = l) as H.
    { clear IH. induction l as [|y l IHl]; intros k Hk; [done|]. cbn [enum_from jfilter].
      replace (k =? n)%nat with false by (symmetry; apply Nat.eqb_neq; lia). cbn. f_equal. apply IHl. lia. }
    apply H. lia.
  - replace (n =? n + S i)%nat with false by (symmetry; apply Nat.eqb_neq; lia). cbn [negb map snd].
    change (delete (S i) (x :: l)) with (x :: delete i l). f_equal. rewrite <- (IH (S n) i). by replace (S n + i)%nat with (n + S i)%nat by lia.
Qed.

Lemma Forall_delete_at {A} (P : A -> Prop) i l : Forall P l -> Forall P (delete i l).
Proof. rewrite delete_take_drop. intros H. apply Forall_app. split; [by apply Forall_take|by apply Forall_drop]. Qed.

Lemma swap_at_map {A B} (f : A -> B) l i j : swap_at (map f l) i j = map f (swap_at l i j).
Proof.
  unfold swap_at. rewrite !list_lookup_fmap. destruct (l !! i), (l !! j); try done. cbn. by rewrite !list_fmap_insert.
Qed.

Lemma swap_at_Forall {A} (P : A -> Prop) l i j : Forall P l -> Forall P (swap_at l i j).
Proof.
  intros Hl. unfold swap_at. destruct (l !! i) eqn:Hi, (l !! j) eqn:Hj; try done.
  apply Forall_insert; [apply Forall_insert; [done|]|]; by eapply Forall_lookup_1.
Qed.

(** ** The overrides *)

Lemma overrides_lookup o k : as_overrides o !! k = (fun j => as_map (fields_of j)) <$> obj_get k o.
Proof. unfold as_overrides. by rewrite lookup_fmap, as_map_lookup. Qed.

Lemma overrides_text_indent o :
  obj_ok o -> Forall (fun kv => is_object kv.2 = true) o -> overrides_text (stringify_indent (JObj o)) (as_overrides o).
Proof. intros Ho Hf. exists o. by rewrite text_map_indent. Qed.

Lemma as_overrides_set k f o : as_overrides (obj_set k (JObj f) o) = <[k := as_map f]> (as_overrides o).
Proof. unfold as_overrides. by rewrite as_map_set, fmap_insert. Qed.

Lemma as_overrides_delete k o : as_overrides (obj_delete k o) = delete k (as_overrides o).
Proof. unfold as_overrides. by rewrite as_map_delete, fmap_delete. Qed.

Lemma object_entry o k j :
  obj_ok o -> Forall (fun kv => is_object kv.2 = true) o -> obj_get k o = Some j -> exists f, j = JObj f /\ obj_ok f.
Proof.
  intros [Ho _] Hf Hg%obj_get_in. rewrite Forall_forall in Ho, Hf. specialize (Hf _ Hg). destruct (Ho _ Hg) as [_ Hj].
  destruct j as [| | | | |f]; try done. exists f. split; [done|]. by apply obj_ok_spec.
Qed.

Lemma objects_delete k o : Forall (fun kv => is_object kv.2 = true) o -> Forall (fun kv => is_object kv.2 = true) (obj_delete k o).
Proof. rewrite !Forall_forall. intros H kv [_ Hin]%jfilter_elem_of. by apply H. Qed.

Lemma as_map_empty o : as_map o = ∅ <-> o = [].
Proof.
  split; [|by intros ->]. destruct o as [|[k v] o]; [done|]. intros H. apply (f_equal (lookup k)) in H.
  by rewrite as_map_lookup, lookup_empty in H; cbn in H; rewrite jeqb_refl in H.
Qed.

Lemma obj_ok_nil : obj_ok [].
Proof. split; constructor. Qed.

Lemma override_save_text s m group target ratio old :
  overrides_text s m -> key_ok group = true -> key_ok target = true -> num_ok ratio = true ->
  exists o f, text_map s = Some o /\ override_map o group = Some f /\
    overrides_text (stringify_indent (JObj (obj_set group (JObj (obj_set target (JNum ratio) (rename_away old target f))) o)))
      (<[group := move_key old target (JNum ratio) (default ∅ (m !! group))]> m).
Proof.
  intros (o & Ht & Ho & Hf & <-) Hg Hk Hr.
  assert (exists f, override_map o group = Some f /\ obj_ok f /\ as_map f = default ∅ (as_overrides o !! group)) as (f & Hm & Hof & Hdef).
  { unfold override_map. rewrite overrides_lookup. destruct (obj_get group o) as [j|] eqn:E.
    - destruct (object_entry _ _ _ Ho Hf E) as (f & -> & Hof). by exists f.
    - exists []. split_and!; [done|apply obj_ok_nil|done]. }
  exists o, f. split_and!; [done..|]. rewrite <- Hdef, <- as_map_rename, <- as_overrides_set.
  apply overrides_text_indent; [|by apply obj_set_Forall]. apply obj_ok_set; [done| |done].
  apply obj_ok_spec, obj_ok_set; [done..|]. by apply rename_away_ok.
Qed.

(** ** Refinement *)

Lemma simple_text_rep t g ty : represents t g ->
  map_text (simple_text t ty) (match ty with GroupRatioType => ratios g | TopupType => topups g end).
Proof. intros []. by destruct ty. Qed.

Lemma swap_texts t g i j :
  represents t g -> (i < length (auto g))%nat -> (j < length (auto g))%nat ->
  exists a b, map JStr (auto g) !! i = Some a /\ map JStr (auto g) !! j = Some b /\
    auto_text (stringify_indent (JArr (<[j := a]> (<[i := b]> (map JStr (auto g)))))) (swap_at (auto g) i j).
Proof.
  intros [_ _ _ _ [_ Hu]] Hi Hj.
  apply lookup_lt_is_Some in Hi as [x Hi], Hj as [y Hj]. exists (JStr x), (JStr y).
  rewrite !list_lookup_fmap, Hi, Hj. split_and!; [done..|].
  assert (<[j := JStr x]> (<[i := JStr y]> (map JStr (auto g))) = map JStr (swap_at (auto g) i j)) as ->.
  { rewrite <- swap_at_map. unfold swap_at. by rewrite !list_lookup_fmap, Hi, Hj. }
  by apply auto_text_indent, swap_at_Forall.
Qed.

Lemma move_refines t g i d :
  represents t g -> (i < length (auto g))%nat ->
  exists t', handleAutoGroupMove t i d = Some t' /\ represents t' (abstract_step g (AutoMove i d)).
Proof.
  intros Hrep Hi. pose proof Hrep as [H1 H2 H3 H4 [Ha Hu]]. unfold handleAutoGroupMove. rewrite Ha, length_map. cbv zeta.
  destruct d.
  - destruct i as [|j]; [by exists t|]. replace (Z.of_nat (S j) - 1)%Z with (Z.of_nat j) by lia.
    replace (_ || _) with false by lia. rewrite Nat2Z.id.
    destruct (swap_texts t g (S j) j) as (x & y & -> & -> & Hs); [done|lia..|]. eexists. split; [done|]. by split.
  - replace (Z.of_nat i + 1)%Z with (Z.of_nat (S i)) by lia. rewrite Nat2Z.id.
    destruct (decide (S i < length (auto g))%nat) as [Hlt|Hge].
    + replace (_ || _) with false by lia.
      destruct (swap_texts t g i (S i)) as (x & y & -> & -> & Hs); [done|lia..|]. eexists. split; [done|]. by split.
    + replace (_ || _) with true by lia. exists t. split; [done|]. split; try done. cbn [abstract_step auto].
      replace (swap_at (auto g) i (S i)) with (auto g); [done|]. unfold swap_at.
      rewrite (lookup_ge_None_2 (auto g) (S i)) by lia. by destruct (auto g !! i).
Qed.

(** An edit the page can make: the arrows and the bin of a row of the list are those of a row. *)
Definition op_valid (g : Groups) (op : operation) : bool :=
  op_ok op && match op with AutoMove i _ | AutoDelete i => (i <? length (auto g))%nat | _ => true end.

Lemma edit_step_refines t g op :
  represents t g -> op_valid g op = true -> exists t', edit_step t op = Some t' /\ represents t' (abstract_step g op).
Proof.
  intros Hrep [Hop Hrow]%andb_prop. pose proof Hrep as [H1 H2 H3 H4 H5].
  destruct op as [ty edit name value|ty name|edit name desc|name|input|i|i d|input|group|group target ratio old|group target];
    cbn [edit_step op_ok] in *.
  - apply andb_prop in Hop as [Hk Hv]. destruct (simple_text_rep t g ty Hrep) as (o & Ht & Ho & Hm).
    unfold handleSimpleSave. rewrite Ht. eexists. split; [done|].
    pose proof (map_text_save o edit name (JNum (parse_float value)) Ho Hk Hv) as Hs. rewrite Hm in Hs.
    by destruct ty; split.
  - destruct (simple_text_rep t g ty Hrep) as (o & Ht & Ho & Hm). unfold handleSimpleDelete. rewrite Ht.
    eexists. split; [done|]. pose proof (map_text_delete o name Ho) as Hs. rewrite Hm in Hs. by destruct ty; split.
  - apply andb_prop in Hop as [Hk Hv]. destruct H3 as (o & Ht & Ho & Hm). unfold handleUsableSave. rewrite Ht.
    eexists. split; [done|]. pose proof (map_text_save o edit name (JStr desc) Ho Hk Hv) as Hs. rewrite Hm in Hs. by split.
  - destruct H3 as (o & Ht & Ho & Hm). unfold handleUsableDelete. rewrite Ht.
    eexists. split; [done|]. pose proof (map_text_delete o name Ho) as Hs. rewrite Hm in Hs. by split.
  - unfold handleAutoGroupSave. cbn [abstract_step]. destruct (truthy (trim input)) eqn:E; cbn [negb]; [|by exists t].
    destruct H5 as [Ha Hu]. rewrite Ha. eexists. split; [done|].
    change [JStr (trim input)] with (map JStr [trim input]). rewrite <- map_app.
    split; [done..|]. apply auto_text_indent, Forall_app. split; [done|]. repeat constructor.
    by apply units_forallb, trim_forallb.
  - destruct H5 as [Ha Hu]. unfold handleAutoGroupDelete. rewrite Ha. eexists. split; [done|].
    pose proof (filter_index (map JStr (auto g)) 0 i) as Hd. cbn [Nat.add] in Hd. cbv zeta. rewrite Hd.
    split; [done..|]. cbn [abstract_step auto autoGroups set_auto].
    rewrite <- list_fmap_delete. by apply auto_text_indent, Forall_delete_at.
  - apply move_refines; [done|]. by apply Nat.ltb_lt.
  - unfold handleUserGroupSave. cbn [abstract_step]. destruct (truthy (trim input)) eqn:E; cbn [negb]; [|by exists t].
    destruct H4 as (o & Ht & Ho & Hf & <-). rewrite Ht. eexists. split; [done|]. rewrite overrides_lookup.
    destruct (obj_get (trim input) o) as [j|] eqn:Eg.
    + destruct (object_entry _ _ _ Ho Hf Eg) as (f & -> & _). split; [done..| |done]. by apply overrides_text_indent.
    + split; [done..| |done]. cbn [fmap option_fmap option_map]. rewrite <- (as_overrides_set (trim input) []).
      apply overrides_text_indent; [|by apply obj_set_Forall]. by apply obj_ok_set.
  - destruct H4 as (o & Ht & Ho & Hf & Hm). unfold handleUserGroupDelete. rewrite Ht. eexists. split; [done|].
    split; [done..| |done]. cbn [abstract_step overrides groupGroupRatio set_overrides]. rewrite <- Hm, <- as_overrides_delete.
    apply overrides_text_indent; [by apply obj_ok_delete|by apply objects_delete].
  - apply andb_prop in Hop as [[[Hg Hk]%andb_prop Htg]%andb_prop Hr].
    destruct (override_save_text _ _ group target ratio (match old with Some (_ :: _) => old | _ => None end) H4 Hk Htg Hr)
      as (o & f & Ht & Hm & Hs).
    unfold handleOverrideSave. destruct group as [|c group]; [done|]. rewrite Ht, Hm. eexists. split; [done|]. by split.
  - destruct H4 as (o & Ht & Ho & Hf & Hm). unfold handleOverrideDelete. rewrite Ht. cbn [abstract_step].
    rewrite <- Hm, overrides_lookup. destruct (obj_get group o) as [j|] eqn:E.
    + destruct (object_entry _ _ _ Ho Hf E) as (f & -> & Hof). eexists. split; [done|]. cbn [fmap option_fmap option_map fields_of].
      split; [done..| |done]. cbn [overrides groupGroupRatio set_overrides].
      rewrite <- as_map_delete. destruct (obj_delete target f) as [|kv f'] eqn:Ed.
      * rewrite decide_True by done. rewrite <- as_overrides_delete.
        apply overrides_text_indent; [by apply obj_ok_delete|by apply objects_delete].
      * rewrite decide_False by (rewrite as_map_empty; done). rewrite <- Ed, <- as_overrides_set.
        apply overrides_text_indent; [|by apply obj_set_Forall]. apply obj_ok_set; [| |done].
        -- destruct Ho as [Ho _]. rewrite Forall_forall in Ho. by apply obj_get_in, Ho in E as [? _].
        -- by apply obj_ok_spec, obj_ok_delete.
    + eexists. split; [done|]. split; [done..| |done]. cbn. rewrite <- Hm. by apply overrides_text_indent.
Qed.

Fixpoint run_valid (g : Groups) (ops : list operation) : bool :=
  match ops with
  | [] => true
  | op :: rest => op_valid g op && run_valid (abstract_step g op) rest
  end.

(** C11: over any sequence of edits, the five texts stand for the maps and the list that the same
    edits give on finite maps: saving a group sets its entry and drops the one it had under another
    name, deleting removes it, an override map that becomes empty goes with its group, and the
    automatic order is edited in place. *)
Theorem group_editor_refines t g ops :
  represents t g -> run_valid g ops = true ->
  exists t', edit_run t ops = Some t' /\ represents t' (fold_left abstract_step ops g).
Proof.
  revert t g. induction ops as [|op ops IH]; intros t g Hrep; [by exists t|]. cbn [run_valid edit_run fold_left].
  intros [Hop Hops]%andb_prop. destruct (edit_step_refines t g op Hrep Hop) as (t1 & -> & Hrep1). by apply IH.
Qed.

Definition sample_group_texts : Texts :=
  {| groupRatio := u "{`default`: 1, `vip`: 0.5}"; topupGroupRatio := []; userUsableGroups := u "{`vip`: `VIP`}";
     groupGroupRatio := u "{`vip`: {`default`: 0.9}}"; autoGroups := u "[`default`, `vip`]" |}.

Definition sample_groups_of (t : Texts) : Groups :=
  let m s := as_map (default [] (text_map s)) in
  {| ratios := m (groupRatio t); topups := m (topupGroupRatio t); usable := m (userUsableGroups t);
     overrides := as_overrides (default [] (text_map (groupGroupRatio t))); auto := [u "default"; u "vip"] |}.

Lemma sample_represents : represents sample_group_texts (sample_groups_of sample_group_texts).
Proof.
  assert (forall s, match text_map s with Some o => json_ok (JObj o) | None => false end = true ->
    map_text s (as_map (default [] (text_map s)))) as H.
  { intros s. destruct (text_map s) as [o|] eqn:E; [|done]. intros Ho. exists o. by rewrite obj_ok_spec. }
  split; try (apply H; by vm_compute).
  - cbn [groupGroupRatio sample_group_texts sample_groups_of overrides]. unfold overrides_text.
    exists [(u "vip", JObj [(u "default", JNum (to_number (u "0.9")))])].
    assert (text_map (u "{`vip`: {`default`: 0.9}}") = Some [(u "vip", JObj [(u "default", JNum (to_number (u "0.9")))])]) as ->
      by (vm_compute; reflexivity).
    split_and!; [done|apply obj_ok_spec; by vm_compute|by repeat constructor|done].
  - split; [by vm_compute|]. repeat constructor; apply units_forallb; by vm_compute.
Qed.

Definition sample_edits : list operation :=
  [SimpleSave GroupRatioType (Some (u "vip")) (u "gold") (u "0.25"); OverrideDelete (u "vip") (u "default"); AutoMove 1 Up].

Lemma group_editor_refines_witness :
  exists t' g', edit_run sample_group_texts sample_edits = Some t' /\ represents t' g' /\
    ratios g' !! u "vip" = None /\ ratios g' !! u "gold" = Some (JNum (to_number (u "0.25"))) /\
    overrides g' = ∅ /\ auto g' = [u "vip"; u "default"].
Proof.
  destruct (group_editor_refines sample_group_texts _ sample_edits sample_represents) as (t' & H1 & H2); [by vm_compute|].
  exists t'. eexists. split; [exact H1|]. split; [exact H2|]. clear. split_and!; vm_compute; reflexivity.
Defined.

(** ** The dialog *)

(** Opened for a group from empty inputs by a component that does not report it, the dialog never
    saves: the name cannot be typed and nothing fills it in. *)
Lemma edit_dialog_dead data l :
  Forall (fun e => match e with OpenFor None => False | _ => True end) l ->
  forall s, in_name s = [] -> edit_data s = Some data -> (dialog_run false s l).2 = [].
Proof.
  intros Hl. revert data. induction Hl as [|e l He Hl IH]; intros data s Hn Hd; [done|]. cbn [dialog_run].
  assert (exists data' s', dialog_step false s e = (s', None) /\ in_name s' = [] /\ edit_data s' = Some data') as (data' & s' & Hs & Hn' & Hd').
  { destruct e as [[d|]| | |v|v|]; try done; cbn [dialog_step].
    - by exists d, {| is_open := true; edit_data := Some d; in_name := in_name s; in_value := in_value s |}.
    - unfold dialog_open_change. by eexists data, _.
    - by eexists data, _.
    - rewrite Hd. by exists data, s.
    - destruct (_ || _); [by eexists data, _|by exists data, s].
    - rewrite Hn. by exists data, s. }
  rewrite Hs. specialize (IH data' s' Hn' Hd'). destruct (dialog_run false s' l). done.
Qed.

(** Opening the dialog on a listed group, as the page does, and then editing: nothing is saved. *)
Lemma edit_never_saves name value l :
  Forall (fun e => match e with OpenFor None => False | _ => True end) l ->
  (dialog_run false closed_dialog (OpenFor (Some (name, value)) :: l)).2 = [].
Proof.
  intros Hl. cbn [dialog_run dialog_step].
  pose proof (edit_dialog_dead (name, value) l Hl
    {| is_open := true; edit_data := Some (name, value); in_name := []; in_value := [] |} eq_refl eq_refl) as H.
  by destruct (dialog_run _ _ l).
Qed.

(** A component that reported it would make the dialog work. *)
Example edit_saves_when_notified :
  (dialog_run true closed_dialog [OpenFor (Some (u "vip", u "1")); TypeValue (u "2"); Save]).2 = [(u "vip", u "2")].
Proof. by vm_compute. Qed.

(** Inputs left behind by Cancel: a name typed for a new group is saved for the group that is edited
    next, which loses its own entry. *)
Example cancelled_name_renames :
  (dialog_run false closed_dialog [OpenFor None; TypeName (u "trial"); TypeValue (u "3"); Cancel;
     OpenFor (Some (u "vip", u "0.5")); Save]) = 
  ({| is_open := false; edit_data := Some (u "vip", u "0.5"); in_name := []; in_value := [] |}, [(u "trial", u "3")]) /\
  (groupRatio <$> handleSimpleSave sample_group_texts GroupRatioType (Some (u "vip")) (u "trial") (u "3"))
  = Some (stringify_indent (JObj [(u "default", JNum (num_of_Z 1)); (u "trial", JNum (num_of_Z 3))])).
Proof. by vm_compute. Qed.
