(* ===== verification/ChatLinks.v ===== *)
(** * Chat links

    Model of [src/web/default/src/features/chat/lib/chat-links.ts] and of the handlers that open a
    link: [src/web/default/src/components/layout/components/chat-presets-item.tsx]. A preset is a
    template; its tokens are replaced by the address of the server and an API key, or by a
    configuration of both as base64.

    [window.btoa] and [encodeURIComponent] may throw: the result is an [outcome]. [toLowerCase] is a
    parameter. *)

From S2P Require Import Prelude JsString JsNumber Json JsonFacts Utf8 UrlEncoding Base64.
Open Scope N_scope.

(** ** Templates *)

(** [s.split(token)] for a token that is not empty: [cur] is the part so far, reversed, and [skip]
    what is left of a token. *)
Fixpoint split_text (token : jstr) (skip : nat) (cur : jstr) (s : jstr) : list jstr :=
  match s with
  | [] => [rev cur]
  | c :: t =>
      match skip with
      | S n => split_text token n cur t
      | O => if starts_with token s then rev cur :: split_text token (pred (length token)) [] t
             else split_text token 0 (c :: cur) t
      end
  end.

Definition replaceToken (source token value : jstr) : jstr := join value (split_text token 0 [] source).

Inductive ChatLinkType : Type := Web | Fluent | CustomProtocol.

#[export] Instance link_type_eq_dec : EqDecision ChatLinkType.
Proof. solve_decision. Defined.

Definition lower_char (c : N) : N := if in_range 65 90 c then c + 32 else c.

(** [/^https?:\/\//i.test(url)] *)
Definition HTTP_REGEX (url : jstr) : bool :=
  let s := map lower_char (take 8 url) in starts_with (u "http://") s || starts_with (u "https://") s.

Section Links.
Context (toLowerCase : jstr -> jstr).

Definition detectChatLinkType (url : jstr) : ChatLinkType :=
  if HTTP_REGEX url then Web
  else if starts_with (u "fluent") (toLowerCase url) then Fluent else CustomProtocol.

Record ChatPreset := { id : jstr; preset_name : jstr; url : jstr; type : ChatLinkType }.

(** One entry of the configuration, an object with one property that is a text. *)
Definition parse_entry (index : nat) (entry : json) : option ChatPreset :=
  match entry with
  | JObj [(name, JStr value)] =>
      let url := trim value in
      if truthy url
      then Some {| id := string_of_N (N.of_nat index); preset_name := name; url := url; type := detectChatLinkType url |}
      else None
  | _ => None
  end.

(** [raw] is [None] for [undefined]; a text is parsed first. *)
Definition parseChatConfig (raw : option json) : list ChatPreset :=
  let parsed := match raw with
                | Some (JStr s) => match json_parse s with Some j => Some j | None => Some (JArr []) end
                | _ => raw
                end in
  match parsed with
  | Some (JArr l) =>
      flat_map (fun '(i, e) => match parse_entry i e with Some p => [p] | None => [] end) (enum_from 0 l)
  | _ => []
  end.
End Links.

Definition toBase64 (value : jstr) : outcome jstr :=
  match btoa value with Some s => Ret s | None => Throw end.

Definition component (value : jstr) : outcome jstr :=
  match encodeURIComponent value with Some s => Ret s | None => Throw end.

Definition config_payload (name address key : jstr) : json :=
  JObj [(name, JStr (u "new-api")); (u "baseUrl", JStr address); (u "apiKey", JStr key)].

Definition config_url (template token name address key : jstr) : outcome jstr :=
  bind! encoded := obind (toBase64 (stringify (config_payload name address key))) component in
  Ret (replaceToken template token encoded).

(** [apiKey] is empty for [undefined]. *)
Definition resolveChatUrl (template apiKey serverAddress : jstr) : outcome jstr :=
  if includes (u "{cherryConfig}") template
  then config_url template (u "{cherryConfig}") (u "id") serverAddress apiKey
  else if includes (u "{aionuiConfig}") template
  then config_url template (u "{aionuiConfig}") (u "platform") serverAddress apiKey
  else
    bind! url := if truthy serverAddress
                 then obind (component serverAddress) (fun e => Ret (replaceToken template (u "{address}") e))
                 else Ret template in
    Ret (if truthy apiKey then replaceToken url (u "{key}") apiKey else url).

Record ActiveApiKey := { key : jstr; status : Z }.

Definition getFirstActiveKey (keys : list ActiveApiKey) : option ActiveApiKey :=
  match jfilter (fun item => (status item =? 1)%Z) keys with k :: _ => Some k | [] => None end.

(** ** Opening a preset *)

Definition requiresApiKey (preset : ChatPreset) : bool :=
  includes (u "{key}") (url preset) || includes (u "{cherryConfig}") (url preset).

(** The query for the key: running, failed or done. *)
Inductive KeyQuery : Type := KeyPending | KeyFailed | KeyReady (k : jstr).

Inductive OpenResult : Type :=
| Ignored
| TryAgain
| NoKey
| InvalidLink
| Opened (url : jstr).

Definition handleOpenExternal (preset : ChatPreset) (query : KeyQuery) (serverAddress : jstr) : outcome OpenResult :=
  if bool_decide (type preset = Web) then Ret Ignored else
  let needsKey := requiresApiKey preset in
  let activeKey := match query with KeyReady k => k | _ => [] end in
  match needsKey, query with
  | true, KeyPending => Ret TryAgain
  | _, _ =>
      if needsKey && negb (truthy activeKey) then Ret NoKey else
      bind! url := resolveChatUrl (url preset) (if needsKey then activeKey else []) serverAddress in
      Ret (if truthy url then Opened url else InvalidLink)
  end.

(** ** Replacing tokens *)

(** The replacement in one pass. *)
Fixpoint subst_text (token value : jstr) (skip : nat) (s : jstr) : jstr :=
  match s with
  | [] => []
  | c :: t =>
      match skip with
      | S n => subst_text token value n t
      | O => if starts_with token s then value ++ subst_text token value (pred (length token)) t
             else c :: subst_text token value 0 t
      end
  end.

Lemma split_text_nonempty token skip cur s : split_text token skip cur s <> [].
Proof.
  revert skip cur. induction s as [|c t IH]; intros skip cur; [done|]. cbn [split_text].
  destruct skip; [|apply IH]. by destruct (starts_with token (c :: t)).
Qed.

Lemma join_split_text token value skip cur s :
  join value (split_text token skip cur s) = rev cur ++ subst_text token value skip s.
Proof.
  revert skip cur. induction s as [|c t IH]; intros skip cur; cbn [split_text subst_text]; [by rewrite app_nil_r|].
  destruct skip as [|n]; [|apply IH]. destruct (starts_with token (c :: t)).
  - destruct (split_text token (pred (length token)) [] t) as [|x l] eqn:E; [by apply split_text_nonempty in E|].
    rewrite join_cons, <- E, IH. done.
  - rewrite IH. cbn [rev]. by rewrite <- (assoc_L (++)).
Qed.

Lemma replaceToken_subst source token value : replaceToken source token value = subst_text token value 0 source.
Proof. unfold replaceToken. by rewrite join_split_text. Qed.

Lemma subst_skip token value w t : subst_text token value (length w) (w ++ t) = subst_text token value 0 t.
Proof. induction w as [|c w IH]; [done|]. exact IH. Qed.

(** A token starts with a brace. *)
Definition braced (token : jstr) : Prop := exists rest, token = ch "{" :: rest.

Lemma subst_token token value t : braced token -> subst_text token value 0 (token ++ t) = value ++ subst_text token value 0 t.
Proof.
  intros [rest ->]. cbn [app subst_text]. change (?c :: rest ++ t) with ((c :: rest) ++ t). rewrite starts_with_app.
  cbn [length pred]. by rewrite subst_skip.
Qed.

Definition no_brace (s : jstr) : bool := forallb (fun c => negb (c =? ch "{")) s.

Lemma subst_plain token value w t :
  braced token -> no_brace w = true -> subst_text token value 0 (w ++ t) = w ++ subst_text token value 0 t.
Proof.
  intros [rest ->]. induction w as [|c w IH]; [done|]. cbn [no_brace forallb app subst_text]. intros [Hc Hw]%andb_prop.
  replace (starts_with (ch "{" :: rest) (c :: w ++ t)) with false; [by rewrite IH|].
  cbn [starts_with]. apply negb_true_iff in Hc. by rewrite N.eqb_sym, Hc.
Qed.

Lemma subst_all_plain token value w : braced token -> no_brace w = true -> subst_text token value 0 w = w.
Proof. intros Ht Hw. rewrite <- (app_nil_r w) at 1. rewrite subst_plain by done. apply app_nil_r. Qed.

(** Another token, told apart by its second character. *)
Lemma subst_other token value a b rest w t :
  token = ch "{" :: a :: rest -> (a =? b) = false -> no_brace (b :: w) = true ->
  subst_text token value 0 ((ch "{" :: b :: w) ++ t) = (ch "{" :: b :: w) ++ subst_text token value 0 t.
Proof.
  intros -> Hab Hw. cbn [app subst_text]. 
  replace (starts_with _ _) with false by (cbn [starts_with]; by rewrite N.eqb_refl, Hab).
  f_equal. by apply (subst_plain _ _ (b :: w)); [eexists|].
Qed.

(** ** Templates of an address and a key *)

(** A template: texts without a brace, and the two tokens. *)
Inductive piece : Type := Plain (s : jstr) | AddressToken | KeyToken.

Definition piece_text (p : piece) : jstr :=
  match p with Plain s => s | AddressToken => u "{address}" | KeyToken => u "{key}" end.

Definition piece_ok (p : piece) : bool := match p with Plain s => no_brace s | _ => true end.

Definition template_text (ps : list piece) : jstr := flat_map piece_text ps.

(** What a piece becomes; a value that is missing leaves the token. *)
Definition piece_value (address key : jstr) (p : piece) : jstr :=
  match p with
  | Plain s => s
  | AddressToken => if truthy address then address else u "{address}"
  | KeyToken => if truthy key then key else u "{key}"
  end.

Definition with_address (e : jstr) (p : piece) : piece := match p with AddressToken => Plain e | _ => p end.

Lemma subst_address e ps :
  forallb piece_ok ps = true ->
  subst_text (u "{address}") e 0 (template_text ps) = template_text (map (with_address e) ps).
Proof.
  induction ps as [|p ps IH]; [done|]. cbn [forallb template_text flat_map map]. intros [Hp Hps]%andb_prop.
  specialize (IH Hps). unfold template_text in IH. destruct p as [s| |]; cbn [piece_text with_address].
  - rewrite subst_plain by (done || by eexists). by rewrite IH.
  - rewrite subst_token by by eexists. by rewrite IH.
  - rewrite (subst_other _ _ (ch "a") (ch "k") (u "ddress}") (u "ey}")) by done. by rewrite IH.
Qed.

Lemma subst_key k ps :
  forallb piece_ok ps = true ->
  subst_text (u "{key}") k 0 (template_text ps) = flat_map (fun p => match p with KeyToken => k | _ => piece_text p end) ps.
Proof.
  induction ps as [|p ps IH]; [done|]. cbn [forallb template_text flat_map]. intros [Hp Hps]%andb_prop.
  specialize (IH Hps). unfold template_text in IH. destruct p as [s| |]; cbn [piece_text].
  - rewrite subst_plain by (done || by eexists). by rewrite IH.
  - rewrite (subst_other _ _ (ch "k") (ch "a") (u "ey}") (u "ddress}")) by done. by rewrite IH.
  - rewrite subst_token by by eexists. by rewrite IH.
Qed.

Lemma component_no_brace s e : encodeURIComponent s = Some e -> no_brace e = true.
Proof.
  unfold encodeURIComponent. destruct (well_formed s) eqn:Hs; [|done]. intros [= <-].
  pose proof (utf8_encode_bytes s (well_formed_units s Hs)) as Hb. unfold no_brace. rewrite forallb_forall.
  intros c (b & Hin & Hc)%in_flat_map. rewrite Forall_forall in Hb. specialize (Hb b (proj2 (list_elem_of_In _ _) Hin)).
  pose proof (all_below_spec 256 (fun b => forallb (fun c => negb (c =? ch "{")) (component_byte b)) b
    ltac:(by vm_compute) Hb) as H. rewrite forallb_forall in H. by apply H.
Qed.

(** a template of plain texts and tokens resolves to the template with each address token
    replaced by the encoded address and each key token by the key, all at once: neither value is
    searched for tokens, and a value that is missing leaves its tokens. *)
Theorem template_resolved ps key address e :
  forallb piece_ok ps = true ->
  includes (u "{cherryConfig}") (template_text ps) = false ->
  includes (u "{aionuiConfig}") (template_text ps) = false ->
  encodeURIComponent address = Some e ->
  resolveChatUrl (template_text ps) key address = Ret (flat_map (piece_value e key) ps).
Proof.
  intros Hps H1 H2 He. unfold resolveChatUrl. rewrite H1, H2.
  assert (truthy address = truthy e) as Ht.
  { unfold encodeURIComponent in He. destruct (well_formed address) eqn:Hw; [|done]. injection He as <-.
    destruct address as [|c t]; [done|]. cbn [truthy]. symmetry. apply truthy_spec. intros E.
    assert (encodeURIComponent (c :: t) = Some []) as Hn by (unfold encodeURIComponent; by rewrite Hw, E).
    by apply component_decode_encode in Hn. }
  assert (obind (if truthy address then obind (component address) (fun e => Ret (replaceToken (template_text ps) (u "{address}") e))
    else Ret (template_text ps)) Ret = Ret (template_text (if truthy e then map (with_address e) ps else ps))) as Ha.
  { rewrite Ht. destruct (truthy e); [|done]. unfold component. rewrite He. cbn [obind].
    by rewrite replaceToken_subst, subst_address. }
  destruct (if truthy address then _ else _) as [s|]; [|done]. cbn [obind] in *. injection Ha as ->.
  f_equal. set (qs := if truthy e then map (with_address e) ps else ps).
  assert (forallb piece_ok qs = true) as Hqs.
  { unfold qs. destruct (truthy e); [|done]. rewrite forallb_forall in Hps |- *.
    intros q ([s| |] & <- & Hin)%in_map_iff; try done; [by apply Hps in Hin|]. by eapply component_no_brace. }
  rewrite replaceToken_subst. transitivity (flat_map (fun p => match p with KeyToken => if truthy key then key else u "{key}" | _ => piece_text p end) qs).
  - destruct (truthy key); [by apply subst_key|]. unfold template_text. apply flat_map_ext. by intros [].
  - unfold qs. destruct (truthy e) eqn:Et; [rewrite flat_map_concat_map, map_map, <- flat_map_concat_map|];
      apply flat_map_ext; intros [s| |]; cbn; rewrite ?Et; done.
Qed.

Definition sample_template : list piece :=
  [Plain (u "app://open?k="); KeyToken; Plain (u "&u="); AddressToken; Plain (u "&again="); KeyToken].

Lemma template_resolved_witness :
  resolveChatUrl (template_text sample_template) (u "sk-{address}") (u "https://a.b/{key}")
  = Ret (u "app://open?k=sk-{address}&u=https%3A%2F%2Fa.b%2F%7Bkey%7D&again=sk-{address}").
Proof.
  etrans; [apply (template_resolved _ _ _ (u "https%3A%2F%2Fa.b%2F%7Bkey%7D")); by vm_compute|by vm_compute].
Defined.

(** ** Configurations *)

Lemma escape_bytes s : forallb is_byte s = true -> forallb is_byte (escape s) = true.
Proof.
  induction s as [|c s IH]; [done|]. cbn [forallb escape]. intros [Hc Hs]%andb_prop. unfold is_byte in Hc.
  unfold is_high_surrogate, is_low_surrogate, in_range.
  replace ((55296 <=? c) && (c <=? 56319)) with false by lia. replace ((56320 <=? c) && (c <=? 57343)) with false by lia.
  rewrite forallb_app, IH by done. rewrite andb_true_r.
  apply (all_below_spec 256 (fun c => forallb is_byte (escape_char c))); [by vm_compute|]. by apply N.ltb_lt.
Qed.

Lemma quote_bytes s : forallb is_byte s = true -> forallb is_byte (quote s) = true.
Proof. intros Hs. unfold quote. cbn [forallb]. by rewrite forallb_app, escape_bytes. Qed.

Lemma payload_bytes name address key :
  forallb is_byte name = true -> forallb is_byte address = true -> forallb is_byte key = true ->
  is_index name = false ->
  forallb is_byte (stringify (config_payload name address key)) = true.
Proof.
  intros Hn Ha Hk Hi. unfold config_payload. cbn [stringify map fst snd].
  rewrite obj_order_plain by (cbn [forallb fst]; by rewrite Hi). cbn [map fst snd]. rewrite !join_cons. cbn [join].
  rewrite !forallb_app, !quote_bytes by done. done.
Qed.

Lemma encoded_ascii bytes : Forall (fun b => b < 256) bytes -> forallb is_ascii (encode_bytes bytes) = true.
Proof.
  intros Hb. rewrite encode_padded, forallb_app. apply andb_true_intro. split.
  - rewrite forallb_forall. intros c (n & <- & _)%in_map_iff. unfold sym.
    destruct (nth_in_or_default (N.to_nat n) alphabet 61) as [Hin| ->]; [|done].
    assert (forallb is_ascii alphabet = true) as Ha by by vm_compute. rewrite forallb_forall in Ha. by apply Ha.
  - rewrite forallb_forall. by intros c ->%repeat_spec.
Qed.

(** The configuration in an encoded text, as the client that opens the link reads it. *)
Definition read_config (encoded : jstr) : option json :=
  match atob (decode_from idle (percent_decode 43 encoded)) with Some s => json_parse s | None => None end.

Definition latin (s : jstr) : Prop := forallb is_byte s = true.

Lemma config_encoded name address key :
  latin name -> latin address -> latin key -> key_ok name = true -> NoDup [name; u "baseUrl"; u "apiKey"] ->
  exists e, obind (toBase64 (stringify (config_payload name address key))) component = Ret e /\
    read_config e = Some (config_payload name address key).
Proof.
  intros Hn Ha Hk Hname Hnd. pose proof Hname as [_ Hi%negb_true_iff]%andb_prop.
  pose proof (payload_bytes name address key Hn Ha Hk Hi) as Hb.
  assert (Forall (fun b => b < 256) (stringify (config_payload name address key))) as Hf.
  { apply Forall_forall. intros b Hin%list_elem_of_In. rewrite forallb_forall in Hb. by apply N.ltb_lt, Hb. }
  unfold toBase64, btoa. rewrite Hb. cbn [obind]. unfold component.
  set (b64 := encode_bytes _). assert (well_formed b64 = true) as Hw by by apply ascii_well_formed, encoded_ascii.
  assert (exists e, encodeURIComponent b64 = Some e) as [e He] by (unfold encodeURIComponent; rewrite Hw; by eexists).
  exists e. rewrite He. split; [done|]. unfold read_config. rewrite (component_decode_encode b64 e He).
  unfold b64. rewrite atob_encode by done. apply json_roundtrip, obj_ok_spec. split; [|exact Hnd].
  assert (forall s, latin s -> json_ok (JStr s) = true) as Hs.
  { intros s Hl. cbn. eapply forallb_impl; [|exact Hl]. intros c Hc. unfold is_byte in Hc. lia. }
  repeat constructor; cbn [fst snd]; try done; by apply Hs.
Qed.



(** ** Where a link fails *)

(** An address outside Latin-1 makes the link throw. *)
Example wide_address_throws :
  resolveChatUrl (u "app://{cherryConfig}") (u "sk-1") (u "https://" ++ [26085; 26412] ++ u ".jp") = Throw.
Proof. by vm_compute. Qed.

(** A preset with the other configuration token is opened without asking for a key, so the
    configuration it carries has none, whatever keys the user has. *)
Lemma aionui_opens_without_key p query address pre post :
  type p <> Web -> url p = pre ++ u "{aionuiConfig}" ++ post -> requiresApiKey p = false ->
  includes (u "{cherryConfig}") (url p) = false -> no_brace pre = true -> no_brace post = true -> latin address ->
  exists e, handleOpenExternal p query address = Ret (Opened (pre ++ e ++ post)) /\
    read_config e = Some (config_payload (u "platform") address []).
Proof.
  intros Ht Hu Hr Hc Hpre Hpost Ha. unfold handleOpenExternal. rewrite bool_decide_false, Hr by done. cbn [andb].
  destruct (config_encoded (u "platform") address []) as (e & He & Hd); [done..|by vm_compute|apply (bool_decide_unpack _); by vm_compute|].
  exists e. split; [|done]. unfold resolveChatUrl. rewrite Hc, Hu, (proj2 (includes_spec _ _)) by by exists pre, post.
  unfold config_url. rewrite He. cbn [obind]. f_equal. rewrite replaceToken_subst.
  rewrite subst_plain, subst_token by (done || by eexists).
  rewrite (subst_all_plain _ e post) by (done || by eexists).
  assert (e <> []) as Hne by by intros ->. destruct pre; [|done]. by destruct e.
Qed.
