(* ===== verification/ChannelDrawer.v ===== *)
(** * The channel drawer

    Model of [src/web/default/src/features/channels/components/drawers/channel-mutate-drawer.tsx],
    with the provider and the dialogs it opens ([channels-provider.tsx], [channels-dialogs.tsx],
    [missing-models-confirmation-dialog.tsx], [status-code-risk-dialog.tsx]).

    The drawer stays mounted while it is closed, so its state outlives a visit. A handler is a
    function on the state [Drawer]; [settle] runs the effects of the renderings that follow. A
    submission that waits for an answer is the data it goes on with ([Submission]); answers, replies
    of the server and results of the queries are events. [Drawer_step] has one rule per event. *)

From S2P Require Import Prelude JsString JsNumber Json ModelMapping StatusCodes Channels ChannelForm.
Open Scope Z_scope.

#[export] Instance channel_info_eq_dec : EqDecision ChannelInfo.
Proof. solve_decision. Defined.
#[export] Instance channel_eq_dec : EqDecision Channel.
Proof. solve_decision. Defined.

(** ** The form *)

Definition set_models (m : jstr) (v : ChannelFormValues) : ChannelFormValues :=
  {| f_name := f_name v; f_type := f_type v; f_base_url := f_base_url v; f_key := f_key v;
     f_openai_organization := f_openai_organization v; f_models := m; f_group := f_group v;
     f_model_mapping := f_model_mapping v; f_priority := f_priority v; f_weight := f_weight v;
     f_test_model := f_test_model v; f_auto_ban := f_auto_ban v; f_status := f_status v;
     f_status_code_mapping := f_status_code_mapping v; f_tag := f_tag v; f_remark := f_remark v;
     f_setting := f_setting v; f_param_override := f_param_override v;
     f_header_override := f_header_override v; f_settings := f_settings v; f_other := f_other v;
     f_multi_key_mode := f_multi_key_mode v; f_multi_key_type := f_multi_key_type v;
     f_batch_add_set_key_prefix_2_name := f_batch_add_set_key_prefix_2_name v;
     f_key_mode := f_key_mode v; f_extra := f_extra v; f_typed := f_typed v |}.

(** [form.setValue] of the address, the key and the field [other]. *)
Definition set_texts (url k o : jstr) (v : ChannelFormValues) : ChannelFormValues :=
  {| f_name := f_name v; f_type := f_type v; f_base_url := url; f_key := k;
     f_openai_organization := f_openai_organization v; f_models := f_models v; f_group := f_group v;
     f_model_mapping := f_model_mapping v; f_priority := f_priority v; f_weight := f_weight v;
     f_test_model := f_test_model v; f_auto_ban := f_auto_ban v; f_status := f_status v;
     f_status_code_mapping := f_status_code_mapping v; f_tag := f_tag v; f_remark := f_remark v;
     f_setting := f_setting v; f_param_override := f_param_override v;
     f_header_override := f_header_override v; f_settings := f_settings v; f_other := o;
     f_multi_key_mode := f_multi_key_mode v; f_multi_key_type := f_multi_key_type v;
     f_batch_add_set_key_prefix_2_name := f_batch_add_set_key_prefix_2_name v;
     f_key_mode := f_key_mode v; f_extra := f_extra v; f_typed := f_typed v |}.

Definition one_of (s : jstr) (l : list jstr) : bool := existsb (jeqb s) l.
Definition schema_bool (j : json) : bool := match j with JBool _ => true | _ => false end.
Definition schema_text (j : json) : bool := match j with JStr _ => true | _ => false end.
Definition schema_enum (j : json) (l : list jstr) : bool := match j with JStr s => one_of s l | _ => false end.

Definition extra_schema (e : ExtraSettings) : bool :=
  schema_bool (force_format e) && schema_bool (thinking_to_content e) && schema_text (proxy e) &&
  schema_bool (pass_through_body_enabled e) && schema_text (system_prompt e) && schema_bool (system_prompt_override e).

(** What [zodResolver(channelFormSchema)] accepts. *)
Definition channelFormSchema (v : ChannelFormValues) : bool :=
  truthy (f_name v) && (0 <=? f_type v) && truthy (f_models v) &&
  negb (length (f_group v) =? 0)%nat && is_finite (f_priority v) && is_finite (f_weight v) &&
  match f_auto_ban v with Some n => is_finite n | None => true end &&
  (length (f_remark v) <=? 255)%nat &&
  one_of (f_multi_key_mode v) [u "single"; u "batch"; u "multi_to_single"] &&
  one_of (f_multi_key_type v) [u "random"; u "polling"] &&
  one_of (f_key_mode v) [u "append"; u "replace"] && extra_schema (f_extra v) &&
  schema_enum (vertex_key_type (f_typed v)) [u "json"; u "api_key"] &&
  schema_enum (aws_key_type (f_typed v)) [u "ak_sk"; u "api_key"] &&
  schema_text (azure_responses_version (f_typed v)).

(** [value?.trim()] as a condition: a value of the settings text that is no string has no [trim]. *)
Definition trimmed_set (j : json) : outcome bool :=
  match j with JStr s => Ret (truthy (trim s)) | JNull => Ret false | _ => Throw end.

Definition or_else (c : outcome bool) (d : outcome bool) : outcome bool :=
  match c with Ret false => d | _ => c end.

Definition hasAdvancedSettingsValues (values : ChannelFormValues) : outcome bool :=
  let t := f_typed values in
  or_else (Ret (truthy (trim (f_model_mapping values)) || truthy (trim (f_param_override values)) ||
                truthy (trim (f_header_override values)) || truthy (trim (f_status_code_mapping values)) ||
                truthy (trim (f_tag values)) || truthy (trim (f_remark values)) ||
                ftruthy (f_priority values) || ftruthy (f_weight values)))
 (or_else (trimmed_set (proxy (f_extra values)))
 (or_else (trimmed_set (system_prompt (f_extra values)))
 (Ret (json_truthy (force_format (f_extra values)) || json_truthy (thinking_to_content (f_extra values)) ||
       json_truthy (pass_through_body_enabled (f_extra values)) ||
       json_truthy (system_prompt_override (f_extra values)) ||
       claude_beta_query t || upstream_model_update_check_enabled t ||
       upstream_model_update_auto_sync_enabled t ||
       truthy (trim (upstream_model_update_ignored_models t)))))).

(** ** What the drawer shows *)

Record ModelMappingGuardrail := {
  invalidJson : bool;
  entries : list (jstr * jstr);
  missingSourceModels : list jstr;
  exposedTargetModels : list jstr
}.

Definition createEmptyModelMappingGuardrail : ModelMappingGuardrail :=
  {| invalidJson := false; entries := []; missingSourceModels := []; exposedTargetModels := [] |}.

Definition invalid_guardrail : ModelMappingGuardrail :=
  {| invalidJson := true; entries := []; missingSourceModels := []; exposedTargetModels := [] |}.

(** [String(rawTarget ?? '').trim()] *)
Definition target_text (rawTarget : json) : jstr :=
  match rawTarget with JNull => [] | j => trim (json_to_string j) end.

Definition mapping_pairs (parsed : list (jstr * json)) : list (jstr * jstr) :=
  jfilter (fun e => truthy e.1 && truthy e.2)
    (map (fun kv => (trim kv.1, target_text kv.2)) (obj_order parsed)).

Definition modelMappingGuardrail (currentModelMapping : jstr) (currentModelsArray : list jstr)
  : ModelMappingGuardrail :=
  if negb (truthy (trim currentModelMapping)) then createEmptyModelMappingGuardrail else
  match json_parse currentModelMapping with
  | Some (JObj parsed) =>
      let es := mapping_pairs parsed in
      {| invalidJson := false; entries := es;
         missingSourceModels :=
           dedup (map fst (jfilter (fun e => truthy e.1 && negb (bool_decide (e.1 ∈ currentModelsArray))) es));
         exposedTargetModels :=
           dedup (map snd (jfilter (fun e => truthy e.2 && bool_decide (e.2 ∈ currentModelsArray)) es)) |}
  | _ => invalid_guardrail
  end.

(** The preview of the mapping and the number of entries it leaves out. *)
Definition mappingPreviewPairs (g : ModelMappingGuardrail) : list (jstr * jstr) :=
  match entries g with [] => [(u "client-model", u "upstream-model")] | es => take 3 es end.
Definition remainingMappingCount (g : ModelMappingGuardrail) : nat := length (entries g) - 3.

Definition parseSettingsRecord (settings : jstr) : list (jstr * json) :=
  if negb (truthy (trim settings)) then [] else
  match json_parse settings with Some (JObj f) => f | _ => [] end.

Definition detectedModels (currentSettings : jstr) : list jstr :=
  match obj_get (u "upstream_model_update_last_detected_models") (parseSettingsRecord currentSettings) with
  | Some (JArr l) => normalizeModelList l
  | _ => []
  end.

(** The models offered for a type, the options of the two selectors. *)
Definition basicModels (currentType : Z) (allModelsList : list jstr) : list jstr :=
  if currentType =? 1
  then jfilter (fun m => starts_with (u "gpt-") m || starts_with (u "text-") m) allModelsList
  else allModelsList.
Definition modelOptions (allModelsList currentModelsArray : list jstr) : list jstr :=
  dedup (allModelsList ++ currentModelsArray).
Definition groupOptions (groupsData : option (list jstr)) (currentGroups : list jstr) : list jstr :=
  match groupsData with Some gs => dedup (gs ++ currentGroups) | None => [] end.

(** ** State *)

(** [open] and [currentRow] of the provider. *)
Inductive DrawerPage : Type := DrawerClosed | Creating | Updating (row : Channel).

(** The three refs the first values are kept in. *)
Record Initial := { initialModels : list jstr; initialModelMapping : jstr; initialStatusCodeMapping : jstr }.

Definition no_initial : Initial := {| initialModels := []; initialModelMapping := []; initialStatusCodeMapping := [] |}.

Inductive MissingModelsAction : Type := MCancel | MSubmit | MAdd.

(** A submission under way: the row and the kind of channel its callback closed over and the data
    of the form. [confirmed] and [chosen] keep the answers that were given. *)
Record Submission := {
  sub_row : option Channel;
  sub_multi : bool;
  data : ChannelFormValues;
  confirmed : list jstr;
  chosen : option (list jstr * MissingModelsAction)
}.

(** A question: who waits for the answer, and what the dialog shows. *)
Record Question := { waiting : option Submission; shown : bool; items : list jstr }.

Definition no_question : Question := {| waiting := None; shown := false; items := [] |}.

Inductive Body : Type :=
| CreateBody (payload : CreatePayload)
| UpdateBody (id : Z) (payload : list (jstr * json)).

Record Sent := { by_submission : Submission; body : Body }.

Inductive Toast : Type :=
| InvalidEntries (l : list jstr)
| InvalidMapping (error : jstr)
| Updated | Created | Failed
| NoKeys | NoDuplicates | RemovedKeys (before after : nat)
| NotFetchable | KeyFirst | Fetched (n : nat) | NoModelsFetched
| AddedModels (n : nat) | NoModelsAvailable | FilledModels (n : nat) | ClearedModels | BadGroup
| KeyUnlocked | KeyRefused.

Record Drawer := {
  page : DrawerPage;
  details : list (Z * Channel);        (* the cached answers of getChannel *)
  form : ChannelFormValues;
  keyError : bool;
  initial : Initial;
  advancedSettingsOpen : bool;
  preference : bool;                   (* the entry of the local storage *)
  customModel : jstr;
  fetchModelsDialogOpen : bool;
  fetching : option (list jstr);       (* the models the request for models was made with *)
  channelKey : option jstr;
  risk : Question;
  missing : Question;
  isSubmitting : bool;
  sent : list Sent;
  toasts : list Toast;
  crashed : bool                       (* an effect threw *)
}.

Definition set_form (v : ChannelFormValues) (s : Drawer) : Drawer :=
  {| page := page s; details := details s; form := v; keyError := keyError s; initial := initial s;
     advancedSettingsOpen := advancedSettingsOpen s; preference := preference s; customModel := customModel s;
     fetchModelsDialogOpen := fetchModelsDialogOpen s; fetching := fetching s; channelKey := channelKey s;
     risk := risk s; missing := missing s; isSubmitting := isSubmitting s; sent := sent s; toasts := toasts s;
     crashed := crashed s |}.

Definition set_page (p : DrawerPage) (s : Drawer) : Drawer :=
  {| page := p; details := details s; form := form s; keyError := keyError s; initial := initial s;
     advancedSettingsOpen := advancedSettingsOpen s; preference := preference s; customModel := customModel s;
     fetchModelsDialogOpen := fetchModelsDialogOpen s; fetching := fetching s; channelKey := channelKey s;
     risk := risk s; missing := missing s; isSubmitting := isSubmitting s; sent := sent s; toasts := toasts s;
     crashed := crashed s |}.

Definition set_details (d : list (Z * Channel)) (s : Drawer) : Drawer :=
  {| page := page s; details := d; form := form s; keyError := keyError s; initial := initial s;
     advancedSettingsOpen := advancedSettingsOpen s; preference := preference s; customModel := customModel s;
     fetchModelsDialogOpen := fetchModelsDialogOpen s; fetching := fetching s; channelKey := channelKey s;
     risk := risk s; missing := missing s; isSubmitting := isSubmitting s; sent := sent s; toasts := toasts s;
     crashed := crashed s |}.

(** [form.reset(v)] with the refs and the section that follow; a reset clears the errors. *)
Definition reset_form (v : ChannelFormValues) (i : Initial) (advanced broken : bool) (s : Drawer) : Drawer :=
  {| page := page s; details := details s; form := v; keyError := false; initial := i;
     advancedSettingsOpen := advanced; preference := preference s; customModel := customModel s;
     fetchModelsDialogOpen := fetchModelsDialogOpen s; fetching := fetching s; channelKey := channelKey s;
     risk := risk s; missing := missing s; isSubmitting := isSubmitting s; sent := sent s; toasts := toasts s;
     crashed := crashed s || broken |}.

Definition set_advanced (a p : bool) (s : Drawer) : Drawer :=
  {| page := page s; details := details s; form := form s; keyError := keyError s; initial := initial s;
     advancedSettingsOpen := a; preference := p; customModel := customModel s;
     fetchModelsDialogOpen := fetchModelsDialogOpen s; fetching := fetching s; channelKey := channelKey s;
     risk := risk s; missing := missing s; isSubmitting := isSubmitting s; sent := sent s; toasts := toasts s;
     crashed := crashed s |}.

Definition set_inputs (c : jstr) (dialog : bool) (f : option (list jstr)) (s : Drawer) : Drawer :=
  {| page := page s; details := details s; form := form s; keyError := keyError s; initial := initial s;
     advancedSettingsOpen := advancedSettingsOpen s; preference := preference s; customModel := c;
     fetchModelsDialogOpen := dialog; fetching := f; channelKey := channelKey s;
     risk := risk s; missing := missing s; isSubmitting := isSubmitting s; sent := sent s; toasts := toasts s;
     crashed := crashed s |}.

Definition set_key_state (k : option jstr) (e : bool) (s : Drawer) : Drawer :=
  {| page := page s; details := details s; form := form s; keyError := e; initial := initial s;
     advancedSettingsOpen := advancedSettingsOpen s; preference := preference s; customModel := customModel s;
     fetchModelsDialogOpen := fetchModelsDialogOpen s; fetching := fetching s; channelKey := k;
     risk := risk s; missing := missing s; isSubmitting := isSubmitting s; sent := sent s; toasts := toasts s;
     crashed := crashed s |}.

Definition set_questions (r m : Question) (s : Drawer) : Drawer :=
  {| page := page s; details := details s; form := form s; keyError := keyError s; initial := initial s;
     advancedSettingsOpen := advancedSettingsOpen s; preference := preference s; customModel := customModel s;
     fetchModelsDialogOpen := fetchModelsDialogOpen s; fetching := fetching s; channelKey := channelKey s;
     risk := r; missing := m; isSubmitting := isSubmitting s; sent := sent s; toasts := toasts s;
     crashed := crashed s |}.

Definition set_sent (b : bool) (l : list Sent) (s : Drawer) : Drawer :=
  {| page := page s; details := details s; form := form s; keyError := keyError s; initial := initial s;
     advancedSettingsOpen := advancedSettingsOpen s; preference := preference s; customModel := customModel s;
     fetchModelsDialogOpen := fetchModelsDialogOpen s; fetching := fetching s; channelKey := channelKey s;
     risk := risk s; missing := missing s; isSubmitting := b; sent := l; toasts := toasts s;
     crashed := crashed s |}.

Definition toast (t : Toast) (s : Drawer) : Drawer :=
  {| page := page s; details := details s; form := form s; keyError := keyError s; initial := initial s;
     advancedSettingsOpen := advancedSettingsOpen s; preference := preference s; customModel := customModel s;
     fetchModelsDialogOpen := fetchModelsDialogOpen s; fetching := fetching s; channelKey := channelKey s;
     risk := risk s; missing := missing s; isSubmitting := isSubmitting s; sent := sent s; toasts := toasts s ++ [t];
     crashed := crashed s |}.

(** The drawer when the page of channels is opened, after its effects. *)
Definition mounted (pref : bool) : Drawer :=
  {| page := DrawerClosed; details := []; form := CHANNEL_FORM_DEFAULT_VALUES; keyError := false;
     initial := no_initial; advancedSettingsOpen := false; preference := pref; customModel := [];
     fetchModelsDialogOpen := false; fetching := None; channelKey := None; risk := no_question;
     missing := no_question; isSubmitting := false; sent := []; toasts := []; crashed := false |}.

Definition is_open (s : Drawer) : bool := match page s with DrawerClosed => false | _ => true end.
Definition currentRow (s : Drawer) : option Channel := match page s with Updating ch => Some ch | _ => None end.
Definition isEditing (s : Drawer) : bool := match currentRow s with Some _ => true | None => false end.
Definition channelId (s : Drawer) : option Z := option_map id (currentRow s).
Definition channelData (s : Drawer) : option Channel :=
  match currentRow s with Some ch => assoc (id ch) (details s) | None => None end.
Definition isMultiKey (s : Drawer) : bool :=
  match channelData s with Some ch => is_multi_key (channel_info ch) | None => false end.
Definition currentModelsArray (s : Drawer) : list jstr := parseModelsString (f_models (form s)).
Definition isBatchMode (v : ChannelFormValues) : bool :=
  jeqb (f_multi_key_mode v) (u "batch") || jeqb (f_multi_key_mode v) (u "multi_to_single").

(** ** Effects *)

Definition loaded (ch : Channel) : Initial :=
  {| initialModels := parseModelsString (models ch);
     initialModelMapping := text_or (model_mapping ch) [];
     initialStatusCodeMapping := text_or (status_code_mapping ch) [] |}.

(** The values of a loaded channel, or the defaults of a new one. *)
Definition load_effect (s : Drawer) : Drawer :=
  match currentRow s, channelData s with
  | Some _, Some ch =>
      let defaults := transformChannelToFormDefaults ch in
      match or_else (Ret (preference s)) (hasAdvancedSettingsValues defaults) with
      | Ret advanced => reset_form defaults (loaded ch) advanced false s
      | Throw => reset_form defaults (initial s) (advancedSettingsOpen s) true s
      end
  | Some _, None => s
  | None, _ => reset_form CHANNEL_FORM_DEFAULT_VALUES no_initial false false s
  end.

(** Default values for two types, when a channel is created. *)
Definition type_effect (currentType : Z) (s : Drawer) : Drawer :=
  if isEditing s then s else
  let v := form s in
  let v := if (currentType =? 45) && negb (truthy (f_base_url v))
           then set_texts (u "https://ark.cn-beijing.volces.com") (f_key v) (f_other v) v else v in
  let v := if (currentType =? 18) && negb (truthy (f_other v))
           then set_texts (f_base_url v) (f_key v) (u "v2.1") v else v in
  set_form v s.

(** The effect on [open] and [channelId]. *)
Definition key_effect (s : Drawer) : Drawer :=
  if negb (is_open s) || isEditing s then set_key_state None (keyError s) s else s.

(** The effects after a rendering of [next]: each runs when what it depends on has changed since
    the rendering of [prev]. *)
Definition effects (prev next : Drawer) : Drawer :=
  let s := if bool_decide (is_open prev = is_open next /\ channelId prev = channelId next)
           then next else key_effect next in
  let s := if bool_decide (isEditing prev = isEditing next /\ channelData prev = channelData next)
           then s else load_effect s in
  if bool_decide (f_type (form prev) = f_type (form next) /\ isEditing prev = isEditing next)
  then s else type_effect (f_type (form next)) s.

(** A handler took [prev] to [next]: the effects change the form, which is rendered once more. *)
Definition settle (prev next : Drawer) : Drawer :=
  let s := effects prev next in effects next s.

(** ** Handlers of the form *)

Definition handleDeduplicateKeys (s : Drawer) : Drawer :=
  let currentKey := f_key (form s) in
  if negb (truthy currentKey) || negb (truthy (trim currentKey)) then toast NoKeys s else
  let result := deduplicateKeys currentKey in
  if (removedCount result =? 0)%nat then toast NoDuplicates s
  else toast (RemovedKeys (beforeCount result) (afterCount result))
         (set_form (set_texts (f_base_url (form s)) (deduplicatedText result) (f_other (form s)) (form s)) s).

(** [current] is the list of models of the rendering that made the callback. *)
Definition updateModels (current newModels : list jstr) (merge : bool) (s : Drawer) : Drawer :=
  let finalModels := if merge then formatModelsArray (current ++ newModels) else formatModelsArray newModels in
  set_form (set_models finalModels (form s)) s.

(** The request for the models of the upstream, and its answer: [None] when it failed or had none. *)
Definition handleFetchModels (s : Drawer) : Drawer :=
  if negb (bool_decide (f_type (form s) ∈ MODEL_FETCHABLE_TYPES)) then toast NotFetchable s
  else if isEditing s then set_inputs (customModel s) true (fetching s) s
  else if negb (truthy (trim (f_key (form s)))) then toast KeyFirst s
  else set_inputs (customModel s) (fetchModelsDialogOpen s) (Some (currentModelsArray s)) s.

Definition models_fetched (answer : option (list jstr)) (s : Drawer) : Drawer :=
  match fetching s with
  | None => s
  | Some current =>
      let s := set_inputs (customModel s) (fetchModelsDialogOpen s) None s in
      match answer with
      | Some l => toast (Fetched (length l)) (updateModels current l true s)
      | None => toast NoModelsFetched s
      end
  end.

Definition handleAddCustomModels (s : Drawer) : Drawer :=
  if negb (truthy (trim (customModel s))) then s else
  let modelArray := parseModelsString (customModel s) in
  toast (AddedModels (length modelArray))
    (set_inputs [] (fetchModelsDialogOpen s) (fetching s) (updateModels (currentModelsArray s) modelArray true s)).

Definition fill_models (l : list jstr) (s : Drawer) : Drawer :=
  match l with
  | [] => toast NoModelsAvailable s
  | _ => toast (FilledModels (length l)) (updateModels (currentModelsArray s) l false s)
  end.

Definition handleFillRelatedModels (allModelsList : list jstr) (s : Drawer) : Drawer :=
  fill_models (basicModels (f_type (form s)) allModelsList) s.
Definition handleFillAllModels (allModelsList : list jstr) (s : Drawer) : Drawer := fill_models allModelsList s.

Definition handleClearModels (s : Drawer) : Drawer := toast ClearedModels (set_form (set_models [] (form s)) s).

(** The items of a prefill group are a list of names, or the JSON text of one; its elements are
    texts, as the type says. *)
Definition group_items (items : json) : option (list jstr) :=
  let parsed := match items with JStr s => json_parse s | j => Some j end in
  match parsed with Some (JArr l) => Some (map json_to_string l) | _ => None end.

Definition handleAddPrefillGroup (items : json) (s : Drawer) : Drawer :=
  match group_items items with
  | Some l => toast (AddedModels (length l)) (updateModels (currentModelsArray s) l true s)
  | None => toast BadGroup s
  end.

Definition handleModelsChange (selected : list jstr) (s : Drawer) : Drawer :=
  set_form (set_models (join (u ",") selected) (form s)) s.

(** [onModelsSelected] of the dialog with the upstream models. *)
Definition models_selected (l : list jstr) (s : Drawer) : Drawer :=
  set_inputs (customModel s) false (fetching s) (set_form (set_models (formatModelsArray l) (form s)) s).

Definition handleAdvancedSettingsOpenChange (nextOpen : bool) (s : Drawer) : Drawer :=
  set_advanced nextOpen nextOpen s.

(** [handleOpenChange(false)], the user closes the drawer. *)
Definition close_drawer (s : Drawer) : Drawer :=
  set_page DrawerClosed (reset_form CHANNEL_FORM_DEFAULT_VALUES (initial s) false false s).

(** The answer of the request for the key, after the verification. *)
Definition fetchChannelKey (answer : option jstr) (s : Drawer) : Drawer :=
  match answer with
  | Some k => toast KeyUnlocked (set_key_state (Some k) (keyError s) s)
  | None => toast KeyRefused s
  end.

(** ** Submitting *)

Definition submission (s : Drawer) (v : ChannelFormValues) : Submission :=
  {| sub_row := currentRow s; sub_multi := isMultiKey s; data := v; confirmed := []; chosen := None |}.

Definition with_confirmed (l : list jstr) (p : Submission) : Submission :=
  {| sub_row := sub_row p; sub_multi := sub_multi p; data := data p; confirmed := l; chosen := chosen p |}.

Definition with_chosen (l : list jstr) (a : MissingModelsAction) (v : ChannelFormValues) (p : Submission) : Submission :=
  {| sub_row := sub_row p; sub_multi := sub_multi p; data := v; confirmed := confirmed p; chosen := Some (l, a) |}.

(** The request of a submission; building it may throw. *)
Definition request_of (p : Submission) : outcome Body :=
  match sub_row p with
  | Some ch =>
      bind! payload := transformFormDataToUpdatePayload (data p) (id ch) in
      Ret (UpdateBody (id ch)
             (if sub_multi p && truthy (f_key_mode (data p))
              then obj_set (u "key_mode") (JStr (f_key_mode (data p))) payload else payload))
  | None => bind! payload := transformFormDataToCreatePayload (data p) in Ret (CreateBody payload)
  end.

(** The last part of [onSubmit]. *)
Definition send (p : Submission) (s : Drawer) : Drawer :=
  match request_of p with
  | Ret b => set_sent true (sent s ++ [{| by_submission := p; body := b |}]) s
  | Throw => toast Failed (set_sent false (sent s) s)
  end.

(** From the test of the model mapping on. The refs are read when this part runs. *)
Definition submit_models (p : Submission) (s : Drawer) : Drawer :=
  let mapping := f_model_mapping (data p) in
  if negb (truthy (trim mapping)) then send p s else
  match validateModelMappingJson mapping with
  | Invalid e => toast (InvalidMapping e) s
  | Valid =>
      let normalizedModels := parseModelsString (f_models (data p)) in
      let missingModels := findMissingModelsInMapping mapping normalizedModels in
      if negb (length missingModels =? 0)%nat &&
         hasModelConfigChanged normalizedModels mapping (initialModels (initial s)) (initialModelMapping (initial s))
      then set_questions (risk s) {| waiting := Some p; shown := true; items := missingModels |} s
      else send p s
  end.

(** [onSubmit], up to the first question. *)
Definition onSubmit (v : ChannelFormValues) (s : Drawer) : Drawer :=
  let p := submission s v in
  if negb (isEditing s) && negb (truthy (trim (f_key v))) then set_key_state (channelKey s) true s else
  if negb (truthy (trim (f_status_code_mapping v))) then submit_models p s else
  match RiskGuard.collectInvalidStatusCodeEntries (Some (f_status_code_mapping v)) with
  | _ :: _ as invalidEntries => toast (InvalidEntries invalidEntries) s
  | [] =>
      match RiskGuard.collectNewDisallowedStatusCodeRedirects
              (Some (initialStatusCodeMapping (initial s))) (Some (f_status_code_mapping v)) with
      | [] => submit_models p s
      | riskyRedirects => set_questions {| waiting := Some p; shown := true; items := riskyRedirects |} (missing s) s
      end
  end.

(** [form.handleSubmit(onSubmit)]: the errors are those of the schema, then the callback runs. *)
Definition handleSubmit (s : Drawer) : Drawer :=
  let s := set_key_state (channelKey s) false s in
  if channelFormSchema (form s) then onSubmit (form s) s else s.

(** The submit button is disabled while a request runs. *)
Definition submit_click (s : Drawer) : Drawer := if isSubmitting s then s else handleSubmit s.

(** [Array.from(new Set([...normalizedModels, ...missingModels]))] *)
Definition completed_models (p : Submission) (missingModels : list jstr) : jstr :=
  formatModelsArray (dedup (parseModelsString (f_models (data p)) ++ missingModels)).

(** [confirmStatusCodeRisk] goes on with the answer of the dialog. *)
Definition handleStatusCodeRiskAction (confirm : bool) (s : Drawer) : Drawer :=
  let asked := risk s in
  let s := set_questions no_question (missing s) s in
  match waiting asked with
  | Some p => if confirm then submit_models (with_confirmed (items asked) p) s else s
  | None => s
  end.

(** [confirmMissingModelMappings] goes on with the action of the dialog; the list stays. *)
Definition handleMissingModelsAction (action : MissingModelsAction) (s : Drawer) : Drawer :=
  let asked := missing s in
  let s := set_questions (risk s) {| waiting := None; shown := false; items := items asked |} s in
  match waiting asked with
  | None => s
  | Some p =>
      match action with
      | MCancel => s
      | MSubmit => send (with_chosen (items asked) MSubmit (data p) p) s
      | MAdd =>
          let v := set_models (completed_models p (items asked)) (data p) in
          send (with_chosen (items asked) MAdd v p) (set_form (set_models (f_models v) (form s)) s)
      end
  end.

(** The answer of the server: [None] for a failed request, else [success]. A success closes the
    drawer through the provider and not through [handleOpenChange]. *)
Definition submit_answer (editing : bool) (answer : option bool) (s : Drawer) : Drawer :=
  let s := set_sent false (sent s) s in
  match answer with
  | None => toast Failed s
  | Some false => s
  | Some true => set_page DrawerClosed (toast (if editing then Updated else Created) s)
  end.

(** ** The dialog of risky redirects *)

(** Its check boxes and its text; [requiredText] is a translation. *)
Record RiskBoxes := { checkedItems : list nat; confirmText : jstr }.

Definition no_boxes : RiskBoxes := {| checkedItems := []; confirmText := [] |}.

Definition toggleCheck (idx : nat) (b : RiskBoxes) : RiskBoxes :=
  {| checkedItems := if bool_decide (idx ∈ checkedItems b)
                     then jfilter (fun i => negb (i =? idx)%nat) (checkedItems b)
                     else checkedItems b ++ [idx];
     confirmText := confirmText b |}.

Definition canConfirm (requiredText : jstr) (b : RiskBoxes) : bool :=
  (length (checkedItems b) =? 4)%nat && jeqb (trim (confirmText b)) (trim requiredText).

(** ** Events *)

Inductive Event : Type :=
| OpenCreate
| OpenUpdate (row : Channel)
| CloseDrawer
| DetailLoaded (ch : Channel)
| EditField (v : ChannelFormValues)
| SetAdvanced (b : bool)
| TypeCustomModel (t : jstr)
| DeduplicateKeys
| FetchModels
| ModelsFetched (answer : option (list jstr))
| AddCustomModels
| FillRelated (all : list jstr)
| FillAll (all : list jstr)
| ClearModels
| AddPrefillGroup (items : json)
| SelectModels (l : list jstr)
| UpstreamSelected (l : list jstr)
| KeyAnswer (answer : option jstr)
| Submit
| ToggleRisk (idx : nat)
| TypeRiskText (t : jstr)
| ConfirmRisk
| CancelRisk
| DismissRisk
| AnswerMissing (a : MissingModelsAction)
| ServerAnswer (editing : bool) (answer : option bool).

Record Page := { drawer : Drawer; boxes : RiskBoxes }.

Definition cached (ch : Channel) (l : list (Z * Channel)) : list (Z * Channel) :=
  (id ch, ch) :: jfilter (fun e => negb (e.1 =? id ch)) l.

Definition when_open (f : Drawer -> Drawer) (s : Drawer) : Drawer := if is_open s then f s else s.

Definition when_closed (f : Drawer -> Drawer) (s : Drawer) : Drawer := if is_open s then s else f s.

(** A question covers the drawer. *)
Definition asking (s : Drawer) : bool := shown (risk s) || shown (missing s).

(** The handler of an event. The open drawer covers the page. A dialog that is closed has no buttons; the two other buttons of the
    dialog of missing models close it as well, which answers [MCancel] once more. *)
Definition handle (requiredText : jstr) (e : Event) (p : Page) : Page :=
  let s := drawer p in
  let on s' := {| drawer := s'; boxes := boxes p |} in
  match e with
  | OpenCreate => on (when_closed (set_page Creating) s)
  | OpenUpdate row => on (when_closed (set_page (Updating row)) s)
  | CloseDrawer => on (if asking s then s else when_open close_drawer s)
  | DetailLoaded ch => on (set_details (cached ch (details s)) s)
  | EditField v => on (when_open (set_form v) s)
  | SetAdvanced b => on (when_open (handleAdvancedSettingsOpenChange b) s)
  | TypeCustomModel t => on (when_open (set_inputs t (fetchModelsDialogOpen s) (fetching s)) s)
  | DeduplicateKeys => on (when_open handleDeduplicateKeys s)
  | FetchModels => on (when_open handleFetchModels s)
  | ModelsFetched answer => on (models_fetched answer s)
  | AddCustomModels => on (when_open handleAddCustomModels s)
  | FillRelated all => on (when_open (handleFillRelatedModels all) s)
  | FillAll all => on (when_open (handleFillAllModels all) s)
  | ClearModels => on (when_open handleClearModels s)
  | AddPrefillGroup items => on (when_open (handleAddPrefillGroup items) s)
  | SelectModels l => on (when_open (handleModelsChange l) s)
  | UpstreamSelected l => on (when_open (models_selected l) s)
  | KeyAnswer answer => on (fetchChannelKey answer s)
  | Submit => on (if asking s then s else when_open submit_click s)
  | ToggleRisk idx => if shown (risk s) then {| drawer := s; boxes := toggleCheck idx (boxes p) |} else p
  | TypeRiskText t =>
      if shown (risk s)
      then {| drawer := s; boxes := {| checkedItems := checkedItems (boxes p); confirmText := t |} |} else p
  | ConfirmRisk =>
      if shown (risk s) && canConfirm requiredText (boxes p)
      then {| drawer := handleStatusCodeRiskAction true s; boxes := no_boxes |} else p
  | CancelRisk => if shown (risk s) then {| drawer := handleStatusCodeRiskAction false s; boxes := no_boxes |} else p
  | DismissRisk => if shown (risk s) then on (handleStatusCodeRiskAction false s) else p
  | AnswerMissing a =>
      if shown (missing s)
      then on (match a with
               | MSubmit => handleMissingModelsAction a s
               | _ => handleMissingModelsAction MCancel (handleMissingModelsAction a s)
               end)
      else p
  | ServerAnswer editing answer => on (if isSubmitting s then submit_answer editing answer s else s)
  end.

(** A handler and the renderings after it; an effect that throws takes the page down. *)
Definition react (requiredText : jstr) (e : Event) (p : Page) : Page :=
  if crashed (drawer p) then p else
  let q := handle requiredText e p in {| drawer := settle (drawer p) (drawer q); boxes := boxes q |}.

Definition run_events (requiredText : jstr) (es : list Event) (p : Page) : Page :=
  fold_left (fun q e => react requiredText e q) es p.

Definition start (pref : bool) : Page := {| drawer := mounted pref; boxes := no_boxes |}.
