(* ===== verification/ChannelDrawerFacts.v ===== *)
(** * Theorems on the channel drawer

    The effects come to rest; what is known of every request the drawer sends, whatever the order of
    clicks, answers and refetches; submitting a channel as it was loaded; the warnings under the
    model mapping against the checks of the submission; and the runs in which input is lost. *)

From S2P Require Import Prelude JsString JsNumber Json JsonFacts ModelMapping StatusCodes Channels ChannelForm ChannelFormFacts ChannelDrawer.
Open Scope Z_scope.

(** ** Effects *)

Lemma effects_page prev next : page (effects prev next) = page next /\ details (effects prev next) = details next.
Proof.
  unfold effects, key_effect, load_effect, type_effect.
  repeat case_match; try done.
Qed.

(** Two drawers on the same page with the same cache. *)
Lemma same_derived s t :
  page s = page t -> details s = details t ->
  is_open s = is_open t /\ channelId s = channelId t /\ isEditing s = isEditing t /\ channelData s = channelData t.
Proof. unfold is_open, channelId, isEditing, channelData, currentRow. by intros -> ->. Qed.

Lemma type_effect_type n s : f_type (form (type_effect n s)) = f_type (form s).
Proof. unfold type_effect. repeat case_match; done. Qed.

(** On an unchanged page only the type of the form is left to react to. *)
Lemma effects_same_page s t :
  page s = page t -> details s = details t ->
  effects s t = if decide (f_type (form s) = f_type (form t)) then t else type_effect (f_type (form t)) t.
Proof.
  intros Hp Hd. destruct (same_derived s t Hp Hd) as (H1 & H2 & H3 & H4).
  unfold effects. rewrite H1, H2, H3, H4.
  repeat case_bool_decide; case_decide; (done || tauto).
Qed.

(** the effects of the channel drawer come to rest: whatever a handler changed, after the two
    renderings of [settle] a further one runs no effect that changes anything. *)
Theorem drawer_settles prev next :
  effects (effects prev next) (settle prev next) = settle prev next.
Proof.
  unfold settle. set (s := effects prev next).
  destruct (effects_page prev next) as [Hp Hd]. fold s in Hp, Hd.
  rewrite (effects_same_page next s) by done. case_decide.
  - rewrite effects_same_page by done. by rewrite decide_True.
  - rewrite effects_same_page; [|by unfold type_effect; repeat case_match..].
    by rewrite decide_True by (symmetry; apply type_effect_type).
Qed.

(** ** Lists of models as texts *)

Lemma elem_of_split_join c w l :
  forallb (fun d => negb (d =? c)%N) w = true -> w ∈ l -> w ∈ split_on c (join [c] l).
Proof.
  intros Hw. induction l as [|x [|y l] IH]; [by intros ?%elem_of_nil| |].
  - intros ->%list_elem_of_singleton. cbn [join]. rewrite split_on_plain by done. by left.
  - rewrite join_cons. change ([c] ++ ?k) with (c :: k). rewrite split_on_cut, elem_of_app.
    intros [->|Hin]%elem_of_cons; [left|right; by apply IH].
    rewrite split_on_plain by done. by left.
Qed.

(** A name without a comma is read back from any printed list that has it. *)
Lemma listed_name m l : list_name m = true -> m ∈ l -> m ∈ parseModelsString (formatModelsArray l).
Proof.
  intros (Hne & Ht & Hc)%list_name_spec Hin. unfold parseModelsString, formatModelsArray.
  assert (m ∈ split_on COMMA (join [COMMA] (dedup l))) as Hs
    by (apply elem_of_split_join; [done|by apply elem_of_dedup]).
  assert (m ∈ split_trim COMMA (join [COMMA] (dedup l))) as Hm.
  { apply jfilter_elem_of. split; [by apply truthy_spec|]. apply list_elem_of_fmap.
    exists m. by rewrite trim_id. }
  destruct (truthy _) eqn:Htr; [done|]. destruct (join _ _); [|done]. by apply elem_of_nil in Hm.
Qed.

Lemma parsed_names s : Forall (fun w => list_name w = true) (parseModelsString s).
Proof.
  unfold parseModelsString. destruct (truthy s); [|constructor].
  eapply Forall_impl; [apply split_trim_spec|]. cbn beta. intros w Hw. by apply list_name_spec.
Qed.

(** After "add and submit" only names with a comma are still missing. *)
Lemma completed_missing mapping models l m :
  l = findMissingModelsInMapping mapping (parseModelsString models) ->
  m ∈ findMissingModelsInMapping mapping
        (parseModelsString (formatModelsArray (dedup (parseModelsString models ++ l)))) ->
  COMMA ∈ m.
Proof.
  intros -> (Ht & Hne & Hk & Hnot)%elem_of_missing.
  destruct (decide (COMMA ∈ m)) as [|Hc]; [done|exfalso]. destruct Hnot.
  pose proof (mapping_keys_trimmed m mapping Hk) as Htr.
  assert (list_name m = true) as Hm.
  { apply list_name_spec. split_and!; [done|rewrite <- Htr; apply trim_trimmed|].
    apply forallb_Forall, Forall_forall. intros d Hd. apply negb_true_iff, N.eqb_neq. by intros ->. }
  apply list_elem_of_fmap. exists m. split; [done|]. apply listed_name; [done|].
  rewrite elem_of_dedup, elem_of_app.
  destruct (decide (m ∈ map trim (parseModelsString models))) as [Hin|Hin].
  - left. apply list_elem_of_fmap in Hin as (k & -> & Hin).
    pose proof (parsed_names models) as Hp. rewrite Forall_forall in Hp.
    destruct (proj1 (list_name_spec k) (Hp k Hin)) as (_ & Hn & _). by rewrite trim_id.
  - right. by apply elem_of_missing.
Qed.

(** ** What is known of a submission *)

(** What a channel had when the form was filled: nothing for a new channel, or while the channel was
    not loaded yet, else what an answer for this channel had. *)
Definition origin (es : list Event) (row : option Channel) (i : Initial) : Prop :=
  i = no_initial \/
  exists r ch, row = Some r /\ DetailLoaded ch ∈ es /\ id ch = id r /\ i = loaded ch.

Definition status_mapping (p : Submission) : option jstr := Some (f_status_code_mapping (data p)).

(** The checks before the first question. *)
Definition entries_checked (p : Submission) : Prop :=
  (sub_row p = None -> trim (f_key (data p)) <> []) /\
  RiskGuard.collectInvalidStatusCodeEntries (status_mapping p) = [].

(** Every redirect of a risky code that the channel did not have was shown in the dialog of risky
    redirects and confirmed there. *)
Definition risk_confirmed (es : list Event) (p : Submission) : Prop :=
  (exists i, origin es (sub_row p) i /\
     forall r, r ∈ RiskGuard.collectNewDisallowedStatusCodeRedirects
                     (Some (initialStatusCodeMapping i)) (status_mapping p) -> r ∈ confirmed p) /\
  (confirmed p <> [] -> ConfirmRisk ∈ es).

Definition models_of (p : Submission) : list jstr := parseModelsString (f_models (data p)).

Definition missing_of (p : Submission) : list jstr :=
  findMissingModelsInMapping (f_model_mapping (data p)) (models_of p).

(** Every name of the mapping that the models lack was shown and sent on purpose, could not be added
    because it has a comma, or was missing from a configuration that did not change. *)
Definition missing_answered (es : list Event) (p : Submission) : Prop :=
  forall m, m ∈ missing_of p ->
    (exists l, chosen p = Some (l, MSubmit) /\ m ∈ l /\ AnswerMissing MSubmit ∈ es) \/
    (exists l, chosen p = Some (l, MAdd) /\ COMMA ∈ m /\ AnswerMissing MAdd ∈ es) \/
    (exists i, origin es (sub_row p) i /\
       hasModelConfigChanged (models_of p) (f_model_mapping (data p)) (initialModels i) (initialModelMapping i) = false).

Definition checked (es : list Event) (p : Submission) : Prop :=
  entries_checked p /\ risk_confirmed es p /\
  validateModelMappingJson (f_model_mapping (data p)) = Valid /\ missing_answered es p.

Definition sent_checked (es : list Event) (x : Sent) : Prop :=
  request_of (by_submission x) = Ret (body x) /\ checked es (by_submission x).

(** The questions that are open. *)
Definition risk_pending (es : list Event) (q : Question) : Prop :=
  forall p, waiting q = Some p ->
    entries_checked p /\
    exists i, origin es (sub_row p) i /\
      items q = RiskGuard.collectNewDisallowedStatusCodeRedirects
                  (Some (initialStatusCodeMapping i)) (status_mapping p).

Definition missing_pending (es : list Event) (q : Question) : Prop :=
  forall p, waiting q = Some p ->
    entries_checked p /\ risk_confirmed es p /\
    validateModelMappingJson (f_model_mapping (data p)) = Valid /\ items q = missing_of p.

(** The refs hold what the loaded channel had. *)
Definition initial_ok (s : Drawer) : Prop :=
  initial s = match channelData s with Some ch => loaded ch | None => no_initial end.

Definition details_ok (es : list Event) (s : Drawer) : Prop :=
  forall k ch, assoc k (details s) = Some ch -> id ch = k /\ DetailLoaded ch ∈ es.

(** A question is shown while a submission of the open row waits for it; there is at most one, and
    no request runs meanwhile. *)
Definition is_waiting (q : Question) : bool := match waiting q with Some _ => true | None => false end.

Definition waits (s : Drawer) (p : Submission) : Prop :=
  currentRow s = sub_row p /\ isSubmitting s = false /\ is_open s = true.

Definition questions_ok (s : Drawer) : Prop :=
  shown (risk s) = is_waiting (risk s) /\ shown (missing s) = is_waiting (missing s) /\
  match waiting (risk s), waiting (missing s) with
  | Some _, Some _ => False
  | Some p, None => waits s p
  | None, Some p => waits s p
  | None, None => True
  end.

Record pending_ok (es : list Event) (s : Drawer) : Prop := {
  ok_details : details_ok es s;
  ok_questions : questions_ok s;
  ok_risk : risk_pending es (risk s);
  ok_missing : missing_pending es (missing s);
  ok_sent : forall x, x ∈ sent s -> sent_checked es x
}.

Definition drawer_ok (es : list Event) (s : Drawer) : Prop :=
  (crashed s = false -> initial_ok s) /\ pending_ok es s.

Lemma origin_mono es es' row i : es ⊆ es' -> origin es row i -> origin es' row i.
Proof. unfold origin. set_solver. Qed.

Lemma risk_confirmed_mono es es' p : es ⊆ es' -> risk_confirmed es p -> risk_confirmed es' p.
Proof.
  intros H [(i & Hi & Hr) Hc]. split; [|by intros ?; apply H, Hc].
  exists i. split; [by eapply origin_mono|done].
Qed.

Lemma missing_answered_mono es es' p : es ⊆ es' -> missing_answered es p -> missing_answered es' p.
Proof.
  intros H Hm m Hin. destruct (Hm m Hin) as [(l & ? & ? & ?)|[(l & ? & ? & ?)|(i & ? & ?)]].
  - left. exists l. auto.
  - right; left. exists l. auto.
  - right; right. exists i. eauto using origin_mono.
Qed.

Lemma pending_ok_mono es es' s : es ⊆ es' -> pending_ok es s -> pending_ok es' s.
Proof.
  intros H [Hd Hq Hr Hm Hs]. split; [|done|..].
  - intros k ch Hk. destruct (Hd k ch Hk). auto.
  - intros p Hp. destruct (Hr p Hp) as (? & i & ? & ?). eauto 6 using origin_mono.
  - intros p Hp. destruct (Hm p Hp) as (? & ? & ? & ?). eauto using risk_confirmed_mono.
  - intros x Hx. destruct (Hs x Hx) as (? & ? & ? & ? & ?). split; [done|].
    split_and!; eauto using risk_confirmed_mono, missing_answered_mono.
Qed.

(** ** The effects keep it *)

Lemma effects_frame prev next :
  let s := effects prev next in
  risk s = risk next /\ missing s = missing next /\ sent s = sent next /\ isSubmitting s = isSubmitting next.
Proof. cbn zeta. unfold effects, key_effect, load_effect, type_effect. repeat case_match; done. Qed.

Lemma type_effect_initial n s : initial (type_effect n s) = initial s /\ crashed (type_effect n s) = crashed s.
Proof. unfold type_effect. repeat case_match; done. Qed.

Lemma key_effect_frame s :
  page (key_effect s) = page s /\ details (key_effect s) = details s /\
  initial (key_effect s) = initial s /\ crashed (key_effect s) = crashed s.
Proof. unfold key_effect. by case_match. Qed.

Lemma initial_ok_same s t :
  page s = page t -> details s = details t -> initial s = initial t -> initial_ok t -> initial_ok s.
Proof.
  intros Hp Hd Hi. destruct (same_derived s t Hp Hd) as (_ & _ & _ & Hc). unfold initial_ok. by rewrite Hc, Hi.
Qed.

Lemma load_initial s :
  crashed (load_effect s) = false -> (currentRow s <> None -> channelData s = None -> initial_ok s) ->
  initial_ok (load_effect s).
Proof.
  unfold initial_ok. intros Hc Hn.
  assert (channelData (load_effect s) = channelData s) as ->
    by (apply same_derived; unfold load_effect; repeat case_match; done).
  unfold load_effect in *. destruct (currentRow s) eqn:Hrow.
  - destruct (channelData s) eqn:Hd; [|by apply Hn]. case_match; [done|].
    cbn in Hc. by rewrite orb_true_r in Hc.
  - cbn. unfold channelData. by rewrite Hrow.
Qed.

(** The data of the row were not there before, are there now, or there is no row. *)
Definition moved (prev next : Drawer) : Prop :=
  channelData prev = None \/ channelData next <> None \/ currentRow next = None.

Lemma effects_initial prev next :
  initial_ok prev -> initial next = initial prev -> moved prev next ->
  crashed (effects prev next) = false -> initial_ok (effects prev next).
Proof.
  intros Hok Hi Hmv. unfold effects.
  set (s := if bool_decide (_ /\ channelId prev = _) then next else key_effect next).
  assert (page s = page next /\ details s = details next /\ initial s = initial next /\ crashed s = crashed next)
    as (Hp & Hd & Hs & _) by (unfold s; case_match; [done|apply key_effect_frame]).
  destruct (same_derived s next Hp Hd) as (_ & _ & _ & Hcd).
  set (s1 := if bool_decide (_ /\ channelData prev = _) then s else load_effect s).
  intros Hc.
  assert (initial_ok s1) as H1.
  { assert (crashed s1 = false) as Hc1
      by (revert Hc; case_match; [done|]; by rewrite (proj2 (type_effect_initial _ _))).
    unfold s1 in *. case_bool_decide as Hdep.
    - destruct Hdep as [_ Hdep]. unfold initial_ok. by rewrite Hs, Hi, Hcd, <- Hdep.
    - apply load_initial; [done|]. intros Hrow Hnone. unfold initial_ok. rewrite Hnone, Hs, Hi.
      destruct Hmv as [Hmv|[Hmv|Hmv]].
      + unfold initial_ok in Hok. by rewrite Hmv in Hok.
      + by rewrite <- Hcd in Hmv.
      + unfold currentRow in *. by rewrite Hp in Hrow. }
  case_match; [done|].
  eapply initial_ok_same; [..|exact H1]; [| |apply type_effect_initial];
    unfold type_effect; repeat case_match; done.
Qed.

Lemma effects_pending es prev next : pending_ok es next -> pending_ok es (effects prev next).
Proof.
  destruct (effects_page prev next) as [Hp Hd], (effects_frame prev next) as (Hr & Hm & Hs & Hb).
  intros [H1 H2 H3 H4 H5]. split; [unfold details_ok|unfold questions_ok, waits, is_open, currentRow|..];
    rewrite ?Hd, ?Hp, ?Hr, ?Hm, ?Hs, ?Hb; done.
Qed.

Lemma drawer_settle_ok es prev next :
  initial_ok prev -> initial next = initial prev -> moved prev next ->
  pending_ok es next -> drawer_ok es (settle prev next).
Proof.
  intros Hok Hi Hmv Hpend. unfold settle. set (s := effects prev next).
  destruct (effects_page prev next) as [Hp1 Hd1]. fold s in Hp1, Hd1.
  split; [|by apply effects_pending, effects_pending].
  rewrite effects_same_page by done. intros Hc.
  assert (crashed s = false) as Hcs
    by (revert Hc; case_decide; [done|]; by rewrite (proj2 (type_effect_initial _ _))).
  assert (initial_ok s) as H by (apply effects_initial; auto).
  case_decide; [done|].
  eapply initial_ok_same; [..|exact H]; [| |apply type_effect_initial];
    unfold type_effect; repeat case_match; done.
Qed.

(** ** The submission keeps it *)

Lemma initial_origin es s : details_ok es s -> initial_ok s -> origin es (currentRow s) (initial s).
Proof.
  unfold initial_ok, channelData. intros Hd ->. destruct (currentRow s) as [r|]; [|by left].
  destruct (assoc (id r) (details s)) as [ch|] eqn:Hk; [|by left].
  destruct (Hd _ _ Hk). right. by exists r, ch.
Qed.

Definition idle (s : Drawer) : Prop := waiting (risk s) = None /\ waiting (missing s) = None.

Lemma send_pending es p s : pending_ok es s -> idle s -> checked es p -> pending_ok es (send p s).
Proof.
  intros [Hd (Hq1 & Hq2 & Hq) Hr Hm Hs] [Hi1 Hi2] Hc. unfold send.
  destruct (request_of p) as [b|] eqn:Hb; (split; [exact Hd| |exact Hr|exact Hm|]).
  - split_and!; [done..|]. cbn. by rewrite Hi1, Hi2.
  - intros x [Hx| ->%list_elem_of_singleton]%elem_of_app; [by apply Hs|done].
  - split_and!; [done..|]. cbn. by rewrite Hi1, Hi2.
  - done.
Qed.

Lemma blank_mapping mapping : trim mapping = [] -> validateModelMappingJson mapping = Valid.
Proof. unfold validateModelMappingJson. intros ->. by rewrite orb_true_r. Qed.

Lemma truthy_false_nil s : truthy s = false -> s = [].
Proof. by destruct s. Qed.

Lemma submit_models_pending es p s :
  pending_ok es s -> idle s -> waits s p ->
  origin es (sub_row p) (initial s) -> entries_checked p -> risk_confirmed es p ->
  pending_ok es (submit_models p s).
Proof.
  intros Hok Hidle Hw Ho He Hr. unfold submit_models.
  destruct (truthy (trim (f_model_mapping (data p)))) eqn:Ht; cbn [negb].
  - destruct (validateModelMappingJson _) eqn:Hv; [|by destruct Hok; split].
    destruct (negb _ && _) eqn:Hask.
    + destruct Hok as [Hd (Hq1 & Hq2 & Hq) Hr' Hm Hs], Hidle as [Hi1 Hi2]. split; [exact Hd| |exact Hr'| |exact Hs].
      * split_and!; [exact Hq1|done|]. cbn. by rewrite Hi1.
      * intros p' [= <-]. done.
    + apply send_pending; [done..|]. split_and!; [done|done|done|]. intros m Hin. right; right.
      exists (initial s). split; [done|]. fold (models_of p) in Hask. apply andb_false_iff in Hask as [Hl|Hch]; [|exact Hch].
      fold (missing_of p) in Hl. destruct (missing_of p); [by apply elem_of_nil in Hin|done].
  - apply send_pending; [done..|]. split_and!; [done|done|by apply blank_mapping, truthy_false_nil|].
    intros m (Hne & _)%elem_of_missing. by apply truthy_false_nil in Ht.
Qed.

Lemma set_key_pending es k e s : pending_ok es s -> pending_ok es (set_key_state k e s).
Proof. by intros []; split. Qed.

Lemma blank_entries s : truthy (trim s) = false -> RiskGuard.mapping_entries (Some s) = [].
Proof. intros H. unfold RiskGuard.mapping_entries. by rewrite H. Qed.

Lemma onSubmit_pending es v s :
  pending_ok es s -> idle s -> isSubmitting s = false -> is_open s = true -> initial_ok s -> pending_ok es (onSubmit v s).
Proof.
  intros Hok Hidle Hsub Hopen Hi. pose proof (initial_origin es s (ok_details _ _ Hok) Hi) as Ho. unfold onSubmit.
  destruct (negb (isEditing s) && _) eqn:Hkey; [by apply set_key_pending|].
  assert (sub_row (submission s v) = None -> trim (f_key v) <> []) as Hk.
  { cbn. intros Hrow. unfold isEditing in Hkey. rewrite Hrow in Hkey.
    apply truthy_spec. by destruct (truthy (trim (f_key v))). }
  assert (forall l, RiskGuard.collectNewDisallowedStatusCodeRedirects
    (Some (initialStatusCodeMapping (initial s))) (Some (f_status_code_mapping v)) = l -> l = [] ->
    risk_confirmed es (submission s v)) as Hconf.
  { intros l Hl ->. split; [|by intros []]. exists (initial s). split; [done|].
    change (status_mapping (submission s v)) with (Some (f_status_code_mapping v)). rewrite Hl.
    by intros r ?%elem_of_nil. }
  destruct (truthy (trim (f_status_code_mapping v))) eqn:Ht; cbn [negb].
  - destruct (RiskGuard.collectInvalidStatusCodeEntries _) eqn:Hinv; [|by destruct Hok; split].
    destruct (RiskGuard.collectNewDisallowedStatusCodeRedirects _ _) as [|r l] eqn:Hnew.
    + apply submit_models_pending; eauto; by split.
    + destruct Hok as [Hd (Hq1 & Hq2 & Hq) Hr Hm Hs], Hidle as [Hi1 Hi2].
      split; [exact Hd| | |exact Hm|exact Hs].
      * split_and!; [done|exact Hq2|]. cbn. by rewrite Hi2.
      * intros p' [= <-]. split; [by split|]. by exists (initial s).
  - pose proof (blank_entries _ Ht) as Hb. apply submit_models_pending; [done..| |].
    + split; [done|]. unfold RiskGuard.collectInvalidStatusCodeEntries, status_mapping. cbn [submission data]. by rewrite Hb.
    + eapply Hconf; [reflexivity|]. unfold RiskGuard.collectNewDisallowedStatusCodeRedirects,
        RiskGuard.collectDisallowedStatusCodeRedirects. by rewrite Hb.
Qed.

Lemma set_questions_pending es r m s :
  pending_ok es s -> waiting r = None -> waiting m = None -> shown r = false -> shown m = false ->
  pending_ok es (set_questions r m s).
Proof.
  intros [Hd _ _ _ Hs] Hr Hm Hr' Hm'. split; [exact Hd| | | |exact Hs].
  - unfold questions_ok, is_waiting. cbn. by rewrite Hr, Hm, Hr', Hm'.
  - intros p. cbn. by rewrite Hr.
  - intros p. cbn. by rewrite Hm.
Qed.

Lemma risk_action_pending es confirm s :
  pending_ok es s -> initial_ok s -> (confirm = true -> ConfirmRisk ∈ es) ->
  pending_ok es (handleStatusCodeRiskAction confirm s).
Proof.
  intros Hok Hi Hc. unfold handleStatusCodeRiskAction.
  pose proof (initial_origin es s (ok_details _ _ Hok) Hi) as Ho.
  destruct (ok_questions _ _ Hok) as (Hs1 & Hs2 & Hq).
  destruct (waiting (risk s)) as [p|] eqn:Hw.
  - destruct (waiting (missing s)) eqn:Hm; [done|]. pose proof Hq as (Hrow & _ & _).
    assert (pending_ok es (set_questions no_question (missing s) s)) as Hok1
      by (apply set_questions_pending; try done; unfold is_waiting in Hs2; by rewrite Hm in Hs2).
    destruct confirm; [|done].
    destruct (ok_risk _ _ Hok p Hw) as (He & i & Hio & Hit).
    apply submit_models_pending; [done|by split|done|by cbn; rewrite <- Hrow|done|].
    split; [|by intros _; apply Hc]. exists i. split; [done|]. cbn [with_confirmed confirmed]. by rewrite Hit.
  - destruct (ok_questions _ _ Hok) as (_ & _ & Hq'). destruct Hok as [Hd _ _ Hm Hs].
    split; [exact Hd| |done|exact Hm|exact Hs].
    split_and!; [done|exact Hs2|]. cbn. by rewrite Hw in Hq'.
Qed.

Lemma missing_action_pending es a s :
  pending_ok es s -> (a <> MCancel -> AnswerMissing a ∈ es) -> pending_ok es (handleMissingModelsAction a s).
Proof.
  intros Hok Ha. unfold handleMissingModelsAction.
  destruct (ok_questions _ _ Hok) as (Hs1 & Hs2 & Hq).
  destruct (waiting (missing s)) as [p|] eqn:Hw.
  - destruct (waiting (risk s)) eqn:Hr; [done|].
    destruct (ok_missing _ _ Hok p Hw) as (He & Hrc & Hv & Hit).
    set (s1 := set_questions (risk s) _ s).
    assert (pending_ok es s1) as Hok1
      by (apply set_questions_pending; try done; unfold is_waiting in Hs1; by rewrite Hr in Hs1).
    destruct a; [done| |].
    + apply send_pending; [done|by split|]. split_and!; [exact He|exact Hrc|exact Hv|].
      intros m Hin. left. exists (items (missing s)). rewrite Hit. auto.
    + apply send_pending; [by destruct Hok1; split|by split|].
      split_and!; [exact He|exact Hrc|exact Hv|].
      intros m Hin. right; left. exists (items (missing s)). split_and!; [done| |by apply Ha].
      by eapply (completed_missing _ (f_models (data p))); [exact Hit|exact Hin].
  - destruct Hok as [Hd _ Hr _ Hs]. split; [exact Hd| |exact Hr|done|exact Hs].
    split_and!; [exact Hs1|done|]. cbn. by destruct (waiting (risk s)).
Qed.

(** ** Every event keeps it *)

(** Handlers that leave the questions, the requests, the cache and the refs as they are. *)
Definition inert (s t : Drawer) : Prop :=
  page t = page s /\ details t = details s /\ initial t = initial s /\ crashed t = crashed s /\
  risk t = risk s /\ missing t = missing s /\ sent t = sent s /\ isSubmitting t = isSubmitting s.

Lemma inert_pending es s t : inert s t -> pending_ok es s -> pending_ok es t.
Proof.
  intros (Hp & Hd & _ & _ & Hr & Hm & Hs & Hb) [H1 H2 H3 H4 H5].
  split; [unfold details_ok|unfold questions_ok, waits, is_open, currentRow|..]; rewrite ?Hd, ?Hp, ?Hr, ?Hm, ?Hs, ?Hb; done.
Qed.

Lemma same_moved s t : page t = page s -> details t = details s -> moved s t.
Proof.
  intros Hp Hd. destruct (same_derived t s Hp Hd) as (_ & _ & _ & Hc). unfold moved. rewrite Hc.
  destruct (channelData s); auto.
Qed.

Ltac crush_inert :=
  unfold inert, when_open, handleDeduplicateKeys, handleFetchModels, models_fetched, handleAddCustomModels,
    handleFillRelatedModels, handleFillAllModels, fill_models, handleClearModels, handleAddPrefillGroup,
    handleModelsChange, models_selected, handleAdvancedSettingsOpenChange, fetchChannelKey, updateModels;
  repeat case_match; done.

(** The events that do not concern a submission, the page or the cache. *)
Definition plain_event (e : Event) : bool :=
  match e with
  | OpenCreate | OpenUpdate _ | CloseDrawer | DetailLoaded _ | Submit
  | ConfirmRisk | CancelRisk | DismissRisk | AnswerMissing _ | ServerAnswer _ _ => false
  | _ => true
  end.

Lemma plain_inert rt e p : plain_event e = true -> inert (drawer p) (drawer (handle rt e p)).
Proof. destruct e; try done; intros _; cbn [handle drawer]; crush_inert. Qed.

Definition still (s t : Drawer) : Prop := page t = page s /\ details t = details s /\ initial t = initial s.

Lemma send_still p s : still s (send p s).
Proof. unfold send. by case_match. Qed.

Lemma still_trans s t r : still s t -> still t r -> still s r.
Proof. unfold still. naive_solver congruence. Qed.

Lemma submit_models_still p s : still s (submit_models p s).
Proof. unfold submit_models. repeat case_match; solve [done|apply send_still]. Qed.

Lemma onSubmit_still v s : still s (onSubmit v s).
Proof. unfold onSubmit. repeat case_match; solve [done|apply submit_models_still]. Qed.

Lemma risk_action_still b s : still s (handleStatusCodeRiskAction b s).
Proof.
  unfold handleStatusCodeRiskAction. repeat case_match; try done.
  eapply still_trans; [|apply submit_models_still]. done.
Qed.

Lemma missing_action_still a s : still s (handleMissingModelsAction a s).
Proof.
  unfold handleMissingModelsAction. repeat case_match; try done;
    (eapply still_trans; [|apply send_still]); done.
Qed.

(** What a handler has to keep for [drawer_settle_ok]. *)
Definition handled_ok (es : list Event) (s t : Drawer) : Prop :=
  initial t = initial s /\ moved s t /\ pending_ok es t.

Lemma still_handled es s t : still s t -> pending_ok es t -> handled_ok es s t.
Proof. intros (Hp & Hd & Hi) H. split_and!; [done|by apply same_moved|done]. Qed.

Lemma asking_idle es s : pending_ok es s -> asking s = false -> idle s.
Proof.
  intros Hok Ha. destruct (ok_questions _ _ Hok) as (H1 & H2 & _).
  unfold asking in Ha. apply orb_false_iff in Ha as [Hr Hm]. rewrite Hr in H1. rewrite Hm in H2.
  unfold idle, is_waiting in *. by destruct (waiting (risk s)), (waiting (missing s)).
Qed.

Lemma closed_pending es s t :
  pending_ok es s -> idle s -> details t = details s -> risk t = risk s -> missing t = missing s -> sent t = sent s ->
  pending_ok es t.
Proof.
  intros [Hd (Hs1 & Hs2 & _) Hr Hm Hs] [Hi1 Hi2] E1 E2 E3 E4.
  split; [unfold details_ok|unfold questions_ok|..]; rewrite ?E1, ?E2, ?E3, ?E4; try done.
  by rewrite Hi1, Hi2.
Qed.

Lemma assoc_cached ch k l : assoc k (cached ch l) = if id ch =? k then Some ch else assoc k l.
Proof.
  unfold cached. cbn [assoc]. destruct (id ch =? k) eqn:Hk; [done|].
  induction l as [|[k' v] l IH]; [done|]. cbn [List.filter fst assoc].
  destruct (k' =? id ch) eqn:Hk'; cbn [negb]; cbn [assoc].
  - rewrite IH. apply Z.eqb_eq in Hk' as ->. by rewrite Hk.
  - by rewrite IH.
Qed.

Lemma loaded_handled es ch s :
  pending_ok es s -> DetailLoaded ch ∈ es -> handled_ok es s (set_details (cached ch (details s)) s).
Proof.
  intros [Hd Hq Hr Hm Hs] Hin. split_and!; [done| |].
  - unfold moved, channelData. cbn [set_details currentRow page details].
    change (currentRow (set_details _ s)) with (currentRow s). destruct (currentRow s) as [r|]; [|auto].
    rewrite assoc_cached. destruct (id ch =? id r); [by right; left|].
    destruct (assoc (id r) (details s)); auto.
  - split; [|done|exact Hr|exact Hm|exact Hs].
    intros k ch'. cbn [set_details details]. rewrite assoc_cached.
    destruct (id ch =? k) eqn:Hk; [|by apply Hd]. intros [= <-]. by apply Z.eqb_eq in Hk.
Qed.

Lemma closed_idle es s : pending_ok es s -> is_open s = false -> idle s.
Proof.
  intros Hok Ho. destruct (ok_questions _ _ Hok) as (_ & _ & Hq). unfold waits, idle in *. rewrite Ho in Hq.
  destruct (waiting (risk s)), (waiting (missing s)); naive_solver.
Qed.

Lemma submit_handled es s :
  pending_ok es s -> idle s -> is_open s = true -> initial_ok s -> handled_ok es s (submit_click s).
Proof.
  intros Hok Hidle Ho Hi. unfold submit_click. destruct (isSubmitting s) eqn:Hb; [by apply still_handled|].
  unfold handleSubmit. set (s1 := set_key_state (channelKey s) false s).
  assert (pending_ok es s1) as Hok1 by by apply set_key_pending.
  case_match; [|by apply still_handled].
  apply still_handled; [by eapply still_trans; [|apply onSubmit_still]|]. by apply onSubmit_pending.
Qed.

Lemma missing_handled es a s :
  pending_ok es s -> AnswerMissing a ∈ es ->
  handled_ok es s (match a with
                   | MSubmit => handleMissingModelsAction a s
                   | _ => handleMissingModelsAction MCancel (handleMissingModelsAction a s)
                   end).
Proof.
  intros Hok Ha. pose proof (missing_action_still a s) as Hst.
  assert (pending_ok es (handleMissingModelsAction a s)) as Hp by by apply missing_action_pending.
  destruct a; (apply still_handled; [|try done; by apply missing_action_pending]); try done;
    (eapply still_trans; [exact Hst|apply missing_action_still]).
Qed.

Lemma answer_handled es editing answer s :
  pending_ok es s -> handled_ok es s (if isSubmitting s then submit_answer editing answer s else s).
Proof.
  intros Hok. destruct (isSubmitting s) eqn:Hb; [|by apply still_handled].
  assert (idle s) as Hidle.
  { destruct (ok_questions _ _ Hok) as (_ & _ & Hq). unfold waits, idle in *. rewrite Hb in Hq.
    destruct (waiting (risk s)), (waiting (missing s)); naive_solver. }
  unfold submit_answer. destruct answer as [[]|].
  - split_and!; [done|by right; right|by apply (closed_pending es s)].
  - apply still_handled; [done|by apply (closed_pending es s)].
  - apply still_handled; [done|by apply (closed_pending es s)].
Qed.

Lemma drawer_handle_ok rt e es p :
  e ∈ es -> initial_ok (drawer p) -> pending_ok es (drawer p) ->
  handled_ok es (drawer p) (drawer (handle rt e p)).
Proof.
  intros He Hi Hok. set (s := drawer p) in *.
  destruct (plain_event e) eqn:Hplain.
  { pose proof (plain_inert rt e p Hplain) as Hin. apply still_handled; [by destruct Hin as (? & ? & ? & _)|].
    by eapply inert_pending. }
  destruct e; try done; cbn [handle drawer]; fold s.
  - unfold when_closed. destruct (is_open s) eqn:Ho; [by apply still_handled|]. split_and!; [done|by right; right|].
    by apply (closed_pending es s); try done; eapply closed_idle.
  - unfold when_closed. destruct (is_open s) eqn:Ho; [by apply still_handled|].
    split_and!; [done| |by apply (closed_pending es s); try done; eapply closed_idle].
    left. unfold channelData, currentRow. unfold is_open in Ho. by destruct (page s).
  - destruct (asking s) eqn:Ha; [by apply still_handled|]. unfold when_open.
    destruct (is_open s); [|by apply still_handled]. split_and!; [done|by right; right|].
    by apply (closed_pending es s); try done; eapply asking_idle.
  - by apply loaded_handled.
  - destruct (asking s) eqn:Ha; [by apply still_handled|]. unfold when_open.
    destruct (is_open s) eqn:Ho; [|by apply still_handled]. by apply submit_handled; eauto using asking_idle.
  - case_match; [|by apply still_handled]. apply still_handled; [apply risk_action_still|].
    by apply risk_action_pending.
  - case_match; [|by apply still_handled]. apply still_handled; [apply risk_action_still|].
    by apply risk_action_pending.
  - case_match; [|by apply still_handled]. apply still_handled; [apply risk_action_still|].
    by apply risk_action_pending.
  - case_match; [|by apply still_handled]. by apply missing_handled.
  - by apply answer_handled.
Qed.

(** ** Every request was checked *)

Lemma react_ok rt e es p :
  drawer_ok es (drawer p) -> drawer_ok (es ++ [e]) (drawer (react rt e p)).
Proof.
  intros [Hi Hok]. assert (es ⊆ es ++ [e]) as Hsub by set_solver.
  pose proof (pending_ok_mono _ _ _ Hsub Hok) as Hok'. unfold react.
  destruct (crashed (drawer p)) eqn:Hc; [by split; [rewrite Hc|]|].
  destruct (drawer_handle_ok rt e (es ++ [e]) p) as (H1 & H2 & H3); [set_solver|by apply Hi|done|].
  by apply drawer_settle_ok; [apply Hi| | |].
Qed.

Lemma run_ok rt es seen p :
  drawer_ok seen (drawer p) -> drawer_ok (seen ++ es) (drawer (run_events rt es p)).
Proof.
  revert seen p. induction es as [|e es IH]; intros seen p Hp; cbn [run_events fold_left].
  - by rewrite app_nil_r.
  - rewrite cons_middle, app_assoc. by apply IH, react_ok.
Qed.

Lemma start_ok pref : drawer_ok [] (drawer (start pref)).
Proof. split; [done|]. split; try done. by intros x ?%elem_of_nil. Qed.

(** C4: however clicks, edits, refetches and answers of the server follow each other, every request
    the channel drawer sends was checked: it is the payload of its data; a new channel has a key;
    every status code entry is valid; every redirect of a risky code that the loaded channel did not
    have was listed in the risk dialog and confirmed there; the model mapping is valid; and every
    name of the mapping that the models lack was listed and accepted, could not be added because of a
    comma, or was lacking in a configuration that did not change. *)
Theorem requests_checked requiredText pref es x :
  x ∈ sent (drawer (run_events requiredText es (start pref))) -> sent_checked es x.
Proof.
  intros Hx. destruct (run_ok requiredText es [] (start pref) (start_ok pref)) as [_ Hok].
  by apply (ok_sent _ _ Hok).
Qed.

Definition sample_channel (n : Z) (key_text : jstr) : Channel :=
  {| id := n; type := 1; key := key_text; openai_organization := None; test_model := None; status := 1;
     name := u "main"; weight := Some (num_of_Z 1); created_time := num_of_Z 1700000000; test_time := zero;
     response_time := zero; base_url := None; other := []; balance := zero; balance_updated_time := zero;
     models := u "gpt-4o,o3"; group := u "default"; used_quota := num_of_Z 500;
     model_mapping := Some (u "{`gpt-4o`: `gpt-4o-2024`}"); status_code_mapping := Some (u "{`429`: `500`}");
     priority := None; auto_ban := Some (num_of_Z 1); other_info := []; tag := None; setting := None;
     param_override := None; header_override := None; remark := [];
     channel_info := {| is_multi_key := false; multi_key_size := 0; multi_key_status_list := None;
                        multi_key_polling_index := 0; multi_key_mode := [] |};
     settings := [] |}.

(** The values of a form with other texts in the two mappings. *)
Definition set_mappings (model_map status_map : jstr) (v : ChannelFormValues) : ChannelFormValues :=
  {| f_name := f_name v; f_type := f_type v; f_base_url := f_base_url v; f_key := f_key v;
     f_openai_organization := f_openai_organization v; f_models := f_models v; f_group := f_group v;
     f_model_mapping := model_map; f_priority := f_priority v; f_weight := f_weight v;
     f_test_model := f_test_model v; f_auto_ban := f_auto_ban v; f_status := f_status v;
     f_status_code_mapping := status_map; f_tag := f_tag v; f_remark := f_remark v;
     f_setting := f_setting v; f_param_override := f_param_override v;
     f_header_override := f_header_override v; f_settings := f_settings v; f_other := f_other v;
     f_multi_key_mode := f_multi_key_mode v; f_multi_key_type := f_multi_key_type v;
     f_batch_add_set_key_prefix_2_name := f_batch_add_set_key_prefix_2_name v;
     f_key_mode := f_key_mode v; f_extra := f_extra v; f_typed := f_typed v |}.

(** A channel is opened, two mappings are edited, and both questions are answered. *)
Definition risky_run : list Event :=
  let ch := sample_channel 7 [] in
  [OpenUpdate ch; DetailLoaded ch;
   EditField (set_mappings (u "{`fast`: `o3`}") (u "{`504`: 200}") (transformChannelToFormDefaults ch));
   Submit; ToggleRisk 0; ToggleRisk 1; ToggleRisk 2; ToggleRisk 3; TypeRiskText (u " I agree "); ConfirmRisk;
   AnswerMissing MAdd].

Lemma requests_checked_witness :
  match sent (drawer (run_events (u "I agree") risky_run (start false))) with
  | [x] => sent_checked risky_run x /\ confirmed (by_submission x) = [u "504 -> 200"] /\
           models_of (by_submission x) = [u "gpt-4o"; u "o3"; u "fast"]
  | _ => False
  end.
Proof.
  destruct (sent _) as [|x [|y l]] eqn:E; [by vm_compute in E| |by vm_compute in E].
  assert (sent_checked risky_run x) as H by (apply (requests_checked (u "I agree") false); rewrite E; by left).
  split; [exact H|]. clear H. revert E. vm_compute. intros [= <-]. split; reflexivity.
Defined.

(** ** Input that is lost *)

(** The channel in the cache is replaced: the effect fills the form again. *)
Lemma reload_form rt ch row p :
  let s := drawer p in
  crashed s = false -> page s = Updating row -> id ch = id row -> channelData s <> Some ch ->
  form (drawer (react rt (DetailLoaded ch) p)) = transformChannelToFormDefaults ch.
Proof.
  cbn zeta. set (s := drawer p). intros Hc Hp Hid Hne. unfold react. fold s. rewrite Hc. cbn [handle drawer]. fold s.
  set (t := set_details (cached ch (details s)) s).
  assert (currentRow s = Some row /\ currentRow t = Some row) as [Hr1 Hr2]
    by (unfold currentRow, t; cbn; by rewrite Hp).
  assert (channelData t = Some ch) as Hcd.
  { unfold channelData. rewrite Hr2. cbn [t set_details details]. rewrite assoc_cached.
    by rewrite (proj2 (Z.eqb_eq _ _) Hid). }
  assert (isEditing s = true /\ isEditing t = true) as [He1 He2] by (unfold isEditing; by rewrite Hr1, Hr2).
  assert (channelId s = channelId t) as Hci by (unfold channelId; by rewrite Hr1, Hr2).
  unfold settle. set (s1 := effects s t).
  assert (form s1 = transformChannelToFormDefaults ch /\ isEditing s1 = true) as [Hf He].
  { split; [|by destruct (effects_page s t) as [Hpp _]; unfold isEditing, currentRow, s1; rewrite Hpp; cbn; rewrite Hp].
    unfold s1, effects. rewrite (bool_decide_eq_true_2 (is_open s = is_open t /\ _)) by done.
    rewrite (bool_decide_eq_false_2 (isEditing s = _ /\ _)) by (rewrite Hcd; naive_solver).
    rewrite (bool_decide_eq_true_2 (f_type _ = _ /\ _)) by (by rewrite He1, He2).
    unfold load_effect. rewrite Hr2, Hcd. by case_match. }
  rewrite effects_same_page; [|by destruct (effects_page s t)..].
  case_decide; [done|]. unfold type_effect. by rewrite He.
Qed.

(** a refetch of the channel that brings anything new, such as a used quota or a test time, fills
    the form of the open drawer with the channel as it is now: whatever was typed is gone. *)
Theorem refetch_discards_edits rt ch row p v :
  let q := react rt (EditField v) p in
  crashed (drawer q) = false -> page (drawer q) = Updating row -> id ch = id row -> channelData (drawer q) <> Some ch ->
  form (drawer (react rt (DetailLoaded ch) q)) = transformChannelToFormDefaults ch.
Proof. cbn zeta. apply reload_form. Qed.

Lemma refetch_discards_edits_witness :
  let ch := sample_channel 7 [] in
  let newer := {| id := 7; type := 1; key := []; openai_organization := None; test_model := None; status := 1;
     name := u "main"; weight := Some (num_of_Z 1); created_time := num_of_Z 1700000000; test_time := zero;
     response_time := zero; base_url := None; other := []; balance := zero; balance_updated_time := zero;
     models := u "gpt-4o,o3"; group := u "default"; used_quota := num_of_Z 501;
     model_mapping := Some (u "{`gpt-4o`: `gpt-4o-2024`}"); status_code_mapping := Some (u "{`429`: `500`}");
     priority := None; auto_ban := Some (num_of_Z 1); other_info := []; tag := None; setting := None;
     param_override := None; header_override := None; remark := []; channel_info := channel_info ch;
     settings := [] |} in
  let q := react [] (EditField (set_models (u "mine") (transformChannelToFormDefaults ch)))
             (run_events [] [OpenUpdate ch; DetailLoaded ch] (start false)) in
  f_models (form (drawer q)) = u "mine" /\
  form (drawer (react [] (DetailLoaded newer) q)) = transformChannelToFormDefaults newer /\
  transformChannelToFormDefaults newer = transformChannelToFormDefaults ch.
Proof.
  cbn zeta. split; [by vm_compute|]. split; [|by vm_compute].
  apply (refetch_discards_edits [] _ (sample_channel 7 [])); [by vm_compute..|].
  vm_compute. intros [=].
Defined.

(** Outside of editing the effects leave a form of the same type as it is. *)
Lemma settle_creating s t :
  currentRow s = None -> currentRow t = None -> f_type (form s) = f_type (form t) ->
  page (settle s t) = page t /\ form (settle s t) = form t /\ crashed (settle s t) = crashed t.
Proof.
  intros Hs Ht Hty. unfold settle.
  assert (form (effects s t) = form t /\ crashed (effects s t) = crashed t) as [Hf Hc].
  { unfold effects, isEditing, channelData. rewrite Hs, Ht, Hty.
    rewrite (bool_decide_eq_true_2 (false = false /\ _)) by done.
    rewrite (bool_decide_eq_true_2 (_ /\ false = false)) by done.
    unfold key_effect. repeat case_match; done. }
  destruct (effects_page s t) as [Hp Hd]. rewrite effects_same_page by done.
  by rewrite decide_True by (by rewrite Hf).
Qed.

(** a channel that was created leaves its values, the key among them, in the form: the drawer
    opened next to create another channel shows them again. *)
Theorem created_values_kept rt p :
  crashed (drawer p) = false -> page (drawer p) = Creating -> isSubmitting (drawer p) = true ->
  let q := run_events rt [ServerAnswer false (Some true); OpenCreate] p in
  page (drawer q) = Creating /\ form (drawer q) = form (drawer p).
Proof.
  intros Hc Hp Hb. cbn [run_events fold_left]. set (q := react rt (ServerAnswer _ _) p).
  assert (page (drawer q) = DrawerClosed /\ form (drawer q) = form (drawer p) /\ crashed (drawer q) = false)
    as (Hq1 & Hq2 & Hq3).
  { unfold q, react. rewrite Hc. cbn [handle drawer]. rewrite Hb.
    destruct (settle_creating (drawer p) (submit_answer false (Some true) (drawer p))) as (H1 & H2 & H3);
      [unfold currentRow; by rewrite Hp|done|done|]. by rewrite H1, H2, H3. }
  unfold react. rewrite Hq3. cbn [handle drawer]. unfold when_closed, is_open. rewrite Hq1.
  destruct (settle_creating (drawer q) (set_page Creating (drawer q))) as (H1 & H2 & _);
    [unfold currentRow; by rewrite Hq1|done|done|]. by rewrite H1, H2, <- Hq2.
Qed.

Lemma created_values_kept_witness :
  let v := set_texts [] (u "sk-secret") [] (set_models (u "gpt-4o") (transformChannelToFormDefaults (sample_channel 0 []))) in
  let p := run_events [] [OpenCreate; EditField v; Submit] (start false) in
  let q := run_events [] [ServerAnswer false (Some true); OpenCreate] p in
  length (sent (drawer p)) = 1%nat /\ page (drawer q) = Creating /\ f_key (form (drawer q)) = u "sk-secret".
Proof.
  cbn zeta. split; [by vm_compute|].
  set (p := run_events [] [OpenCreate; _; _] _).
  destruct (created_values_kept [] p) as [H1 H2]; [by vm_compute..|]. split; [exact H1|]. rewrite H2. by vm_compute.
Defined.

(** ** Saving a channel as it was loaded *)

Lemma schema_texts e : extra_schema e = true -> exists a b, proxy e = JStr a /\ system_prompt e = JStr b.
Proof.
  unfold extra_schema. intros H. repeat apply andb_prop in H as [H ?].
  destruct (proxy e), (system_prompt e); try done. eauto.
Qed.

(** For values the schema accepts the section of advanced settings is decided without exception. *)
Lemma advanced_decided v : extra_schema (f_extra v) = true -> exists b, hasAdvancedSettingsValues v = Ret b.
Proof.
  intros (a & b & Ha & Hb)%schema_texts. unfold hasAdvancedSettingsValues. rewrite Ha, Hb. cbn [trimmed_set].
  unfold or_else. repeat (case_match; simplify_eq); eauto.
Qed.

(** The drawer after the channel of a row was loaded. *)
Lemma channel_opened rt pref row ch :
  id ch = id row -> extra_schema (f_extra (transformChannelToFormDefaults ch)) = true ->
  let s := drawer (run_events rt [OpenUpdate row; DetailLoaded ch] (start pref)) in
  crashed s = false /\ currentRow s = Some row /\ form s = transformChannelToFormDefaults ch /\
  initial s = loaded ch /\ channelData s = Some ch /\ idle s /\ isSubmitting s = false /\ sent s = [] /\ asking s = false.
Proof.
  intros Hid Hex. cbn [run_events fold_left].
  assert (drawer (react rt (OpenUpdate row) (start pref)) = set_page (Updating row) (mounted pref)) as Ho.
  { unfold react. cbn [start drawer handle when_closed is_open mounted page crashed]. unfold settle, effects.
    cbn. repeat case_bool_decide; naive_solver. }
  set (p := react rt (OpenUpdate row) (start pref)) in *. unfold react. rewrite Ho. cbn [handle drawer].
  rewrite Ho. set (s := set_page (Updating row) (mounted pref)). cbn [crashed s set_page mounted].
  set (t := set_details _ _).
  assert (effects s t = load_effect t) as He.
  { unfold effects. rewrite (bool_decide_eq_true_2 (is_open s = is_open t /\ channelId s = channelId t)) by done.
    rewrite (bool_decide_eq_false_2 (isEditing s = isEditing t /\ channelData s = channelData t)).
    - by rewrite bool_decide_eq_true_2.
    - intros [_ H]. revert H. unfold channelData. cbn. by rewrite Hid, Z.eqb_refl. }
  assert (channelData t = Some ch) as Hcd by (unfold channelData; cbn; by rewrite Hid, Z.eqb_refl).
  destruct (advanced_decided _ Hex) as [b Hb].
  assert (exists b', load_effect t = reset_form (transformChannelToFormDefaults ch) (loaded ch) b' false t) as [b' Hl].
  { unfold load_effect. rewrite Hcd. change (currentRow t) with (Some row). rewrite Hb.
    unfold or_else. destruct (preference t); eauto. }
  unfold settle. rewrite He, Hl. rewrite effects_same_page by done.
  assert (forall n r, type_effect n (reset_form (transformChannelToFormDefaults ch) (loaded ch) b' r t) =
    reset_form (transformChannelToFormDefaults ch) (loaded ch) b' r t) as Hty by done.
  cbn [drawer]. case_decide; rewrite ?Hty; split_and!; try done; exact Hcd.
Qed.

Lemma models_same l : models_differ l l = false.
Proof. induction l as [|x l IH]; [done|]. cbn. by rewrite (proj2 (jeqb_spec x x)). Qed.

(** Models and a mapping that are not both empty are recognized as unchanged. *)
Lemma config_same models mapping : truthy mapping = true -> hasModelConfigChanged models mapping models mapping = false.
Proof.
  intros Hm. unfold hasModelConfigChanged. rewrite Hm, andb_false_r. cbn. rewrite Nat.eqb_refl. cbn.
  rewrite models_same. by rewrite (proj2 (jeqb_spec _ _)).
Qed.

Lemma risky_same s : RiskGuard.collectNewDisallowedStatusCodeRedirects s s = [].
Proof.
  unfold RiskGuard.collectNewDisallowedStatusCodeRedirects. case_match; [done|].
  set (l := RiskGuard.collectDisallowedStatusCodeRedirects s).
  assert (forall k, (forall x, x ∈ k -> x ∈ dedup l) -> jfilter (fun m => negb (bool_decide (m ∈ dedup l))) k = []) as Hnone.
  { induction k as [|x k IH]; intros Hk; [done|]. cbn.
    rewrite bool_decide_eq_true_2 by (apply Hk; by left). cbn. apply IH. intros y Hy. apply Hk. by right. }
  apply Hnone. intros x. by rewrite elem_of_dedup.
Qed.

Lemma unchanged_submission ch s :
  let v := transformChannelToFormDefaults ch in
  isEditing s = true -> initial s = loaded ch ->
  RiskGuard.collectInvalidStatusCodeEntries (Some (f_status_code_mapping v)) = [] ->
  validateModelMappingJson (f_model_mapping v) = Valid ->
  onSubmit v s = send (submission s v) s.
Proof.
  cbn zeta. intros Hed Hi Hinv Hval. set (v := transformChannelToFormDefaults ch) in *.
  assert (submit_models (submission s v) s = send (submission s v) s) as Hm.
  { unfold submit_models. cbn [submission data]. destruct (truthy (trim (f_model_mapping v))) eqn:Ht; [|done].
    cbn [negb]. rewrite Hval, Hi.
    change (initialModels (loaded ch)) with (parseModelsString (f_models v)).
    change (initialModelMapping (loaded ch)) with (f_model_mapping v).
    rewrite config_same; [by rewrite andb_false_r|]. by destruct (f_model_mapping v). }
  unfold onSubmit. rewrite Hed. cbn [negb andb]. rewrite Hm. case_match; [done|]. rewrite Hinv, Hi.
  change (initialStatusCodeMapping (loaded ch)) with (f_status_code_mapping v). by rewrite risky_same.
Qed.

(** C13: a channel that is opened and submitted as it was loaded asks nothing, even when its mappings
    have risky redirects or lack models, and sends one update with the payload of the channel. *)
Theorem resave_asks_nothing rt pref row ch payload :
  let v := transformChannelToFormDefaults ch in
  id ch = id row -> channelFormSchema v = true ->
  RiskGuard.collectInvalidStatusCodeEntries (Some (f_status_code_mapping v)) = [] ->
  validateModelMappingJson (f_model_mapping v) = Valid ->
  transformFormDataToUpdatePayload v (id row) = Ret payload ->
  let s := drawer (run_events rt [OpenUpdate row; DetailLoaded ch; Submit] (start pref)) in
  asking s = false /\ isSubmitting s = true /\
  map body (sent s) = [UpdateBody (id row)
    (if is_multi_key (channel_info ch) then obj_set (u "key_mode") (JStr (u "append")) payload else payload)].
Proof.
  cbn zeta. intros Hid Hsch Hinv Hval Hpay.
  assert (extra_schema (f_extra (transformChannelToFormDefaults ch)) = true) as Hex.
  { unfold channelFormSchema in Hsch. by repeat apply andb_prop in Hsch as [Hsch ?]. }
  change (run_events rt [OpenUpdate row; DetailLoaded ch; Submit] (start pref)) with
    (react rt Submit (run_events rt [OpenUpdate row; DetailLoaded ch] (start pref))).
  destruct (channel_opened rt pref row ch Hid Hex) as (Hc & Hrow & Hf & Hi & Hcd & [Hw1 Hw2] & Hb & Hs & Ha).
  set (p := run_events rt _ _) in *. unfold react. rewrite Hc. cbn [handle drawer]. rewrite Ha.
  unfold when_open. assert (is_open (drawer p) = true) as ->.
  { unfold is_open. unfold currentRow in Hrow. by destruct (page (drawer p)). }
  unfold submit_click. rewrite Hb. unfold handleSubmit. set (s := set_key_state _ false (drawer p)).
  change (form s) with (form (drawer p)). rewrite Hf, Hsch.
  assert (isEditing s = true) as Hed by (unfold isEditing; change (currentRow s) with (currentRow (drawer p)); by rewrite Hrow).
  assert (initial s = loaded ch) as Hin by exact Hi.
  rewrite (unchanged_submission ch s) by done. unfold send.
  assert (request_of (submission s (transformChannelToFormDefaults ch)) = Ret (UpdateBody (id row)
    (if is_multi_key (channel_info ch) then obj_set (u "key_mode") (JStr (u "append")) payload else payload))) as ->.
  { unfold request_of. cbn [submission sub_row data sub_multi]. change (currentRow s) with (currentRow (drawer p)).
    rewrite Hrow, Hpay. cbn [obind]. unfold isMultiKey. change (channelData s) with (channelData (drawer p)).
    rewrite Hcd. by rewrite andb_true_r. }
  set (t := set_sent true _ s).
  assert (page t = page (drawer p) /\ details t = details (drawer p) /\ form t = form (drawer p)) as (Hp1 & Hp2 & Hp3) by done.
  assert (settle (drawer p) t = t) as ->.
  { unfold settle. rewrite (effects_same_page (drawer p) t), decide_True by (by rewrite ?Hp3).
    by rewrite effects_same_page, decide_True. }
  split_and!; [exact Ha|done|]. cbn [sent t set_sent]. change (sent s) with (sent (drawer p)). by rewrite Hs.
Qed.

Lemma resave_asks_nothing_witness :
  let ch := sample_channel 7 [] in
  match transformFormDataToUpdatePayload (transformChannelToFormDefaults ch) 7 with
  | Ret payload =>
      let s := drawer (run_events [] [OpenUpdate ch; DetailLoaded ch; Submit] (start true)) in
      asking s = false /\ isSubmitting s = true /\ map body (sent s) = [UpdateBody 7 payload]
  | Throw => False
  end.
Proof.
  cbn zeta. destruct (transformFormDataToUpdatePayload _ 7) as [payload|] eqn:E; [|by vm_compute in E].
  apply (resave_asks_nothing [] true (sample_channel 7 []) (sample_channel 7 []) payload);
    [reflexivity|by vm_compute|by vm_compute|by vm_compute|exact E].
Defined.

(** ** The warnings under the model mapping *)

Lemma jfilter_dedup_from {A} `{EqDecision A} (f : A -> bool) seen seen' l :
  (forall x, f x = true -> x ∈ seen <-> x ∈ seen') ->
  jfilter f (dedup_from seen l) = dedup_from seen' (jfilter f l).
Proof.
  revert seen seen'. induction l as [|x l IH]; intros seen seen' Hs; [done|]. cbn [dedup_from List.filter].
  destruct (f x) eqn:Hf.
  - cbn [dedup_from]. destruct (decide (x ∈ seen)) as [Hin|Hin].
    + rewrite decide_True by by apply Hs. by apply IH.
    + rewrite decide_False by by rewrite <- Hs. cbn [List.filter]. rewrite Hf. f_equal. apply IH.
      intros y Hy. rewrite !elem_of_cons. by rewrite Hs.
  - destruct (decide (x ∈ seen)); [by apply IH|]. cbn [List.filter]. rewrite Hf. apply IH.
    intros y Hy. rewrite elem_of_cons, <- Hs by done. split; [intros [->|]; [congruence|done]|by right].
Qed.

Lemma jfilter_dedup {A} `{EqDecision A} (f : A -> bool) l : jfilter f (dedup l) = dedup (jfilter f l).
Proof. by apply jfilter_dedup_from. Qed.

(** An entry of the mapping from a name to a name. *)
Definition name_entry (kv : jstr * json) : bool :=
  truthy (trim kv.1) && match kv.2 with JStr s => truthy (trim s) | _ => false end.

Lemma missing_entries (f : jstr -> bool) l :
  forallb name_entry l = true ->
  map fst (jfilter (fun e => truthy e.1 && f e.1)
    (jfilter (fun e => truthy e.1 && truthy e.2) (map (fun kv => (trim kv.1, target_text kv.2)) l))) =
  jfilter (fun k => truthy k && f k) (map trim (map fst l)).
Proof.
  induction l as [|[k j] l IH]; [done|]. cbn [forallb map]. intros [Hk Hl]%andb_prop.
  unfold name_entry in Hk. cbn [fst snd] in *. apply andb_prop in Hk as [Hk Hj]. destruct j; try done.
  cbn [List.filter fst snd target_text]. change (json_to_string (JStr s)) with s. rewrite Hk, Hj. cbn [andb List.filter fst snd].
  rewrite Hk. cbn [andb]. destruct (f (trim k)); cbn [map fst]; by rewrite IH.
Qed.

Lemma exposed_entries (f : jstr -> bool) l :
  forallb name_entry l = true ->
  map snd (jfilter (fun e => truthy e.2 && f e.2)
    (jfilter (fun e => truthy e.1 && truthy e.2) (map (fun kv => (trim kv.1, target_text kv.2)) l))) =
  jfilter f (jfilter truthy (map trimmed_string (map snd l))).
Proof.
  induction l as [|[k j] l IH]; [done|]. cbn [forallb map]. intros [Hk Hl]%andb_prop.
  unfold name_entry in Hk. cbn [fst snd] in *. apply andb_prop in Hk as [Hk Hj]. destruct j; try done.
  cbn [List.filter fst snd target_text trimmed_string]. change (json_to_string (JStr s)) with s.
  rewrite Hk, Hj. cbn [andb List.filter fst snd]. rewrite Hj. cbn [andb].
  destruct (f (trim s)); cbn [map snd]; by rewrite IH.
Qed.

Lemma parsed_trim s : map trim (parseModelsString s) = parseModelsString s.
Proof.
  pose proof (parsed_names s) as H. induction H as [|x l Hx _ IH]; [done|]. cbn. rewrite IH.
  apply list_name_spec in Hx as (_ & Ht & _). by rewrite trim_id.
Qed.

(** C18: for a mapping from names to names, the warnings the drawer shows are the checks of the
    library: the models it reports as missing are those the submission asks about, and the targets
    it reports as exposed are those of [findExposedTargetModels]. *)
Theorem guardrail_agrees mapping models f :
  trim mapping = mapping -> json_parse mapping = Some (JObj f) -> forallb name_entry f = true ->
  let current := parseModelsString models in
  let g := modelMappingGuardrail mapping current in
  invalidJson g = false /\ missingSourceModels g = findMissingModelsInMapping mapping current /\
  exposedTargetModels g = findExposedTargetModels mapping current.
Proof.
  intros Ht Hp Hf. cbn zeta.
  assert (map normalizeModelName (parseModelsString models) = parseModelsString models) as Hm by apply parsed_trim.
  assert (forallb name_entry (obj_order f) = true) as Ho.
  { rewrite forallb_Forall in *. by rewrite obj_order_perm. }
  unfold modelMappingGuardrail, findMissingModelsInMapping, findExposedTargetModels, extractRedirectModels, parse_object.
  rewrite Ht, Hp. assert (truthy mapping = true) as ->.
  { destruct mapping; [|done]. by vm_compute in Hp. }
  cbn [negb orb]. rewrite !Hm. unfold obj_keys, obj_values, mapping_pairs. split_and!; [done| |].
  - cbn [missingSourceModels].
    pose (lacks := fun m : jstr => negb (bool_decide (m ∈ parseModelsString models))).
    apply f_equal, (missing_entries lacks _ Ho).
  - cbn [exposedTargetModels].
    rewrite jfilter_dedup. apply f_equal.
    pose (has := fun m : jstr => bool_decide (m ∈ parseModelsString models)).
    etrans; [apply (exposed_entries has _ Ho)|]. unfold has.
    assert (Forall (fun m => trim m = m) (jfilter truthy (map trimmed_string (map snd (obj_order f))))) as Htr.
    { apply Forall_forall. intros m [_ Hin]%jfilter_elem_of. apply list_elem_of_fmap in Hin as (j & -> & _).
      destruct j; try done. apply trim_idemp. }
    induction Htr as [|x l Hx _ IH]; [done|]. cbn [List.filter]. unfold normalizeModelName. rewrite Hx.
    rewrite IH. done.
Qed.

Definition sample_mapping : jstr := u "{`fast`: `o3`, ` slow `: `gpt-4o`, `o3`: `o3-pro`}".

Lemma guardrail_agrees_witness :
  let g := modelMappingGuardrail sample_mapping (parseModelsString (u "gpt-4o, o3")) in
  missingSourceModels g = [u "fast"; u "slow"] /\ exposedTargetModels g = [u "o3"; u "gpt-4o"].
Proof.
  cbn zeta. destruct (json_parse sample_mapping) as [[| | | | |f]|] eqn:E; try (exfalso; by vm_compute in E).
  destruct (guardrail_agrees sample_mapping (u "gpt-4o, o3") f) as (_ & H1 & H2);
    [by vm_compute|exact E|by revert E; vm_compute; intros [= <-]|].
  rewrite H1, H2. split; by vm_compute.
Defined.

(** A target that is empty: nothing is shown, and the submission asks. *)
Example guardrail_silent :
  let mapping := u "{`fast`: ``}" in
  missingSourceModels (modelMappingGuardrail mapping [u "o3"]) = [] /\
  findMissingModelsInMapping mapping [u "o3"] = [u "fast"].
Proof. by vm_compute. Qed.

(** ** Further runs *)

(** The dialog of risky redirects dismissed with Escape keeps its ticks and its text: the next one
    can be confirmed at once. *)
Example risk_boxes_kept :
  let ch := sample_channel 7 [] in
  let risky := EditField (set_mappings [] (u "{`504`: 200}") (transformChannelToFormDefaults ch)) in
  let ticks := [ToggleRisk 0; ToggleRisk 1; ToggleRisk 2; ToggleRisk 3; TypeRiskText (u "yes")] in
  let p := run_events (u "yes") ([OpenUpdate ch; DetailLoaded ch; risky; Submit] ++ ticks ++
                                 [DismissRisk; Submit; ConfirmRisk]) (start false) in
  let q := run_events (u "yes") ([OpenUpdate ch; DetailLoaded ch; risky; Submit] ++ ticks ++
                                 [CancelRisk; Submit; ConfirmRisk]) (start false) in
  length (sent (drawer p)) = 1%nat /\ length (sent (drawer q)) = 0%nat.
Proof. by vm_compute. Qed.

(** The models of an answer are added to those there were at the click: what was added while the
    request ran is lost. *)
Example fetched_over_edits :
  let v m := set_texts [] (u "sk") [] (set_models (u m) CHANNEL_FORM_DEFAULT_VALUES) in
  let p := run_events [] [OpenCreate; EditField (v "a"); FetchModels; EditField (v "a,mine"); ModelsFetched (Some [u "b"])]
             (start false) in
  f_models (form (drawer p)) = u "a,b".
Proof. by vm_compute. Qed.

(** A key that arrives after another channel was opened is shown there. *)
Example key_of_other_channel :
  let p := run_events [] [OpenUpdate (sample_channel 7 []); CloseDrawer; OpenUpdate (sample_channel 8 []);
                          KeyAnswer (Some (u "sk-of-7"))] (start false) in
  channelId (drawer p) = Some 8 /\ channelKey (drawer p) = Some (u "sk-of-7").
Proof. by vm_compute. Qed.

(** A channel that was updated is read from the cache when it is opened again: before the refetch it
    shows, and would save, the values from before the update. *)
Example stale_after_update :
  let ch := sample_channel 7 [] in
  let p := run_events [] [OpenUpdate ch; DetailLoaded ch;
                          EditField (set_models (u "new") (transformChannelToFormDefaults ch)); Submit; AnswerMissing MSubmit;
                          ServerAnswer true (Some true); OpenUpdate ch] (start false) in
  f_models (form (drawer p)) = u "gpt-4o,o3" /\ length (sent (drawer p)) = 1%nat.
Proof. by vm_compute. Qed.
