(* ===== verification/FetchModels.v ===== *)
(** * The dialog of upstream models

    Model of [src/web/default/src/features/channels/components/dialogs/fetch-models-dialog.tsx]: the
    models the upstream of a channel lists, next to those the channel has. The dialog is opened from
    the table, where it saves the channel, and from the channel drawer, where it fills the form.

    [toLowerCase] and the collation of the category names are parameters. Theorems: every listed model
    is shown once, and a category box selects exactly its models. *)

From S2P Require Import Prelude JsString JsNumber Json ModelMapping Channels ChannelForm ChannelDrawer.
Open Scope Z_scope.

Definition normalizeModelNameList (names : list jstr) : list jstr :=
  dedup (jfilter truthy (map normalizeModelName names)).

(** The state of the dialog for the row [row]. *)
Record FetchDialog := {
  fd_open : bool;
  fetchedModels : list jstr;
  selectedModels : list jstr;
  searchKeyword : jstr;
  isSaving : bool
}.

Definition new_dialog : FetchDialog :=
  {| fd_open := false; fetchedModels := []; selectedModels := []; searchKeyword := []; isSaving := false |}.

Definition set_selected (l : list jstr) (d : FetchDialog) : FetchDialog :=
  {| fd_open := fd_open d; fetchedModels := fetchedModels d; selectedModels := l; searchKeyword := searchKeyword d;
     isSaving := isSaving d |}.

Definition set_dialog_open (b : bool) (d : FetchDialog) : FetchDialog :=
  {| fd_open := b; fetchedModels := fetchedModels d; selectedModels := selectedModels d;
     searchKeyword := searchKeyword d; isSaving := isSaving d |}.

Definition existingModels (row : Channel) : list jstr := parseModelsString (models row).

(** The answer of the request that opening the dialog makes: [None] when it failed. *)
Definition fetch_answer (row : Channel) (answer : option (list jstr)) (d : FetchDialog) : FetchDialog :=
  match answer with
  | Some l => {| fd_open := fd_open d; fetchedModels := l; selectedModels := existingModels row;
                 searchKeyword := searchKeyword d; isSaving := isSaving d |}
  | None => {| fd_open := fd_open d; fetchedModels := []; selectedModels := selectedModels d;
               searchKeyword := searchKeyword d; isSaving := isSaving d |}
  end.

Definition toggleModel (model : jstr) (d : FetchDialog) : FetchDialog :=
  set_selected (if bool_decide (model ∈ selectedModels d)
                then jfilter (fun m => negb (jeqb m model)) (selectedModels d)
                else selectedModels d ++ [model]) d.

(** [newSelected.push(model)] for the models that are not there yet. *)
Definition push_missing (prev categoryModels : list jstr) : list jstr :=
  fold_left (fun acc m => if bool_decide (m ∈ acc) then acc else acc ++ [m]) categoryModels prev.

Definition toggleCategory (categoryModels : list jstr) (isChecked : bool) (d : FetchDialog) : FetchDialog :=
  set_selected (if isChecked then push_missing (selectedModels d) categoryModels
                else jfilter (fun m => negb (bool_decide (m ∈ categoryModels))) (selectedModels d)) d.

Definition isCategorySelected (categoryModels : list jstr) (d : FetchDialog) : bool :=
  forallb (fun m => bool_decide (m ∈ selectedModels d)) categoryModels.

Definition handleClose (d : FetchDialog) : FetchDialog :=
  {| fd_open := false; fetchedModels := []; selectedModels := []; searchKeyword := []; isSaving := isSaving d |}.

(** What [handleSave] does: fill the form of the drawer, or the body of an update of the channel. *)
Inductive SaveResult : Type := Filled (l : list jstr) | UpdateRequest (id : Z) (models : jstr).

Definition dialog_save (inForm : bool) (row : Channel) (d : FetchDialog) : SaveResult * FetchDialog :=
  if inForm then (Filled (selectedModels d), set_dialog_open false d)
  else (UpdateRequest (id row) (join (u ",") (selectedModels d)),
        {| fd_open := fd_open d; fetchedModels := fetchedModels d; selectedModels := selectedModels d;
           searchKeyword := searchKeyword d; isSaving := true |}).

(** The answer to the update. *)
Definition save_answer (success : bool) (d : FetchDialog) : FetchDialog :=
  {| fd_open := if success then false else fd_open d; fetchedModels := fetchedModels d;
     selectedModels := selectedModels d; searchKeyword := searchKeyword d; isSaving := false |}.

Section Dialog.
Context (toLowerCase : jstr -> jstr) (localeCompare : jstr -> jstr -> Z).

Definition category_of (model : jstr) : jstr :=
  let has w := includes w (toLowerCase model) in
  if has (u "gpt") || has (u "o1") || has (u "o3") then u "OpenAI"
  else if has (u "claude") then u "Anthropic"
  else if has (u "gemini") then u "Gemini"
  else if has (u "qwen") then u "Qwen"
  else if has (u "deepseek") then u "DeepSeek"
  else if has (u "glm") then u "Zhipu"
  else if has (u "llama") then u "Meta"
  else if has (u "mistral") then u "Mistral"
  else u "Other".

(** [categories\[category\].push(model)] *)
Fixpoint push_category (c m : jstr) (l : list (jstr * list jstr)) : list (jstr * list jstr) :=
  match l with
  | [] => [(c, [m])]
  | (k, ms) :: t => if jeqb k c then (k, ms ++ [m]) :: t else (k, ms) :: push_category c m t
  end.

Definition categorizeModels (names : list jstr) : list (jstr * list jstr) :=
  fold_left (fun acc m => push_category (category_of m) m acc) names [].

Definition compare_categories (a b : jstr) : Z :=
  if jeqb a (u "Other") then 1 else if jeqb b (u "Other") then -1 else localeCompare a b.

Definition getSortedCategoryEntries (categories : list (jstr * list jstr)) : list (jstr * list jstr) :=
  sort_by (fun a b => 0 <? compare_categories a.1 b.1) categories.

Definition filteredModels (d : FetchDialog) : list jstr :=
  if negb (truthy (searchKeyword d)) then fetchedModels d
  else jfilter (fun m => includes (toLowerCase (searchKeyword d)) (toLowerCase m)) (fetchedModels d).

(** Whether the channel has the model, in its list or as the target of a redirect. *)
Definition isExistingModel (row : Channel) (redirectModels : list jstr) (model : jstr) : bool :=
  bool_decide (normalizeModelName model ∈
    classificationSet (categorizeModelsWithRedirect (existingModels row) redirectModels)).

Definition newModels (row : Channel) (redirectModels : list jstr) (d : FetchDialog) : list jstr :=
  jfilter (fun m => negb (isExistingModel row redirectModels m)) (filteredModels d).
Definition existingFilteredModels (row : Channel) (redirectModels : list jstr) (d : FetchDialog) : list jstr :=
  jfilter (isExistingModel row redirectModels) (filteredModels d).

Definition removedModels (redirectSourceModels : list jstr) (d : FetchDialog) : list jstr :=
  let kw := trim (toLowerCase (searchKeyword d)) in
  jfilter (fun model =>
      negb (bool_decide (model ∈ normalizeModelNameList (fetchedModels d))) &&
      negb (bool_decide (model ∈ normalizeModelNameList redirectSourceModels)) &&
      (negb (truthy kw) || includes kw (toLowerCase model)))
    (normalizeModelNameList (selectedModels d)).

(** The three tabs, as lists of categories. *)
Definition new_tab row redirects d := getSortedCategoryEntries (categorizeModels (newModels row redirects d)).
Definition existing_tab row redirects d :=
  getSortedCategoryEntries (categorizeModels (existingFilteredModels row redirects d)).

(** ** Theorems *)

Lemma push_category_models c m l :
  flat_map snd (push_category c m l) ≡ₚ m :: flat_map snd l.
Proof.
  induction l as [|[k ms] l IH]; [done|]. cbn [push_category]. destruct (jeqb k c); cbn [flat_map snd].
  - rewrite <- app_assoc. symmetry. apply Permutation_middle.
  - rewrite IH. symmetry. apply Permutation_middle.
Qed.

Lemma categorize_perm_acc names acc :
  flat_map snd (fold_left (fun acc m => push_category (category_of m) m acc) names acc) ≡ₚ flat_map snd acc ++ names.
Proof.
  revert acc. induction names as [|m names IH]; intros acc; cbn [fold_left]; [by rewrite app_nil_r|].
  rewrite IH, push_category_models. cbn [app]. apply Permutation_middle.
Qed.

Definition labelled (l : list (jstr * list jstr)) : Prop :=
  NoDup (map fst l) /\ Forall (fun e => e.2 <> [] /\ Forall (fun m => category_of m = e.1) e.2) l.

Lemma push_category_keys c m l k : k ∈ map fst (push_category c m l) <-> k = c \/ k ∈ map fst l.
Proof.
  induction l as [|[k' ms] l IH]; cbn [push_category map fst]; [rewrite elem_of_cons; tauto|].
  destruct (jeqb k' c) eqn:E; cbn [map fst]; rewrite !elem_of_cons, ?IH; [|tauto].
  apply jeqb_spec in E as ->. tauto.
Qed.

Lemma push_category_labelled m l : labelled l -> labelled (push_category (category_of m) m l).
Proof.
  intros [Hn Hf]. induction Hf as [|[k ms] l [Hne Hms] Hf IH]; cbn [push_category].
  - split; [apply NoDup_singleton|]. by repeat constructor.
  - cbn [map fst] in Hn. apply NoDup_cons in Hn as [Hk Hn]. destruct (jeqb k (category_of m)) eqn:E; cbn [snd fst] in *.
    + apply jeqb_spec in E as ->. split; [by cbn [map fst]; apply NoDup_cons_2|]. constructor; [|done]. cbn [fst snd].
      split; [by destruct ms|]. apply Forall_app. split; [done|]. by repeat constructor.
    + destruct (IH Hn) as [Hn' Hf']. split; [|by constructor]. cbn [map fst]. apply NoDup_cons_2; [|done].
      rewrite push_category_keys. intros [->|?]; [|done]. by rewrite (proj2 (jeqb_spec _ _)) in E.
Qed.

Lemma categorize_labelled_acc names acc :
  labelled acc -> labelled (fold_left (fun acc m => push_category (category_of m) m acc) names acc).
Proof. revert acc. induction names as [|m l IH]; intros acc Ha; [done|]. by apply IH, push_category_labelled. Qed.

Lemma sorted_entries l : getSortedCategoryEntries l ≡ₚ l.
Proof. apply sort_by_perm. Qed.

Lemma filter_split {A} (f : A -> bool) l : jfilter (fun x => negb (f x)) l ++ jfilter f l ≡ₚ l.
Proof.
  induction l as [|x l IH]; [done|]. cbn. destruct (f x); cbn [negb app].
  - rewrite <- Permutation_middle. by rewrite IH.
  - by rewrite IH.
Qed.

(** every model the upstream lists and the search keeps is shown exactly once, in the tab of new
    or the tab of existing models and there in the category of its name; the categories of a tab are
    distinct and not empty. *)
Theorem fetch_tabs_partition row redirects d :
  flat_map snd (new_tab row redirects d) ++ flat_map snd (existing_tab row redirects d) ≡ₚ filteredModels d /\
  labelled (new_tab row redirects d) /\ labelled (existing_tab row redirects d) /\
  forall m, m ∈ flat_map snd (new_tab row redirects d) -> isExistingModel row redirects m = false.
Proof.
  assert (forall names, flat_map snd (getSortedCategoryEntries (categorizeModels names)) ≡ₚ names) as Hp.
  { intros names. rewrite sorted_entries. unfold categorizeModels. by rewrite categorize_perm_acc. }
  assert (forall names, labelled (getSortedCategoryEntries (categorizeModels names))) as Hl.
  { intros names. destruct (categorize_labelled_acc names []) as [Hn Hf]; [by split; [apply NoDup_nil_2|]|].
    fold (categorizeModels names) in Hn, Hf. split; by rewrite sorted_entries. }
  unfold new_tab, existing_tab. split_and!; [|apply Hl|apply Hl|].
  - rewrite !Hp. apply filter_split.
  - intros m. rewrite Hp. intros [Hm _]%jfilter_elem_of. by apply negb_true_iff.
Qed.
End Dialog.

Lemma elem_of_push_missing prev l m : m ∈ push_missing prev l <-> m ∈ prev \/ m ∈ l.
Proof.
  revert prev. unfold push_missing. induction l as [|x l IH]; intros prev; cbn [fold_left].
  - rewrite elem_of_nil. tauto.
  - rewrite IH, elem_of_cons. case_bool_decide; [|rewrite elem_of_app, list_elem_of_singleton]; naive_solver.
Qed.

(** The box of a category selects exactly its models, and clears exactly them. *)
Theorem toggle_category_spec ms checked_ d m :
  let d' := toggleCategory ms checked_ d in
  (m ∈ selectedModels d' <-> if checked_ then m ∈ selectedModels d \/ m ∈ ms else m ∈ selectedModels d /\ m ∉ ms) /\
  (checked_ = true -> isCategorySelected ms d' = true).
Proof.
  cbn zeta. unfold toggleCategory, isCategorySelected. destruct checked_; cbn [set_selected selectedModels].
  - split; [apply elem_of_push_missing|]. intros _. apply forallb_Forall, Forall_forall. intros x Hx.
    apply bool_decide_eq_true_2. apply elem_of_push_missing. by right.
  - split; [|done]. rewrite jfilter_elem_of, negb_true_iff, bool_decide_eq_false. tauto.
Qed.

(** Saving the dialog as it was opened leaves the models of the channel. *)
Theorem untouched_save row l d :
  forallb list_name (existingModels row) = true -> NoDup (existingModels row) ->
  let d' := fetch_answer row (Some l) d in
  (exists text, (dialog_save false row d').1 = UpdateRequest (id row) text /\ parseModelsString text = existingModels row) /\
  (dialog_save true row d').1 = Filled (existingModels row).
Proof.
  intros Hn Hd. cbn zeta. split; [|done]. eexists. split; [reflexivity|]. cbn [fetch_answer selectedModels].
  rewrite <- (dedup_id (existingModels row)) at 1 by done. rewrite <- (dedup_id (existingModels row)) at 2 by done.
  by apply (models_roundtrip (existingModels row)).
Qed.

(** ** Runs *)

(** A model of the tab of removed models that is unticked is in no tab any more. *)
Theorem unticked_removed_gone toLowerCase sources d m :
  m ∈ removedModels toLowerCase sources d -> m ∈ selectedModels d ->
  Forall (fun x => trim x = x) (selectedModels d) ->
  (m ∉ removedModels toLowerCase sources (toggleModel m d)) /\ (m ∉ filteredModels toLowerCase (toggleModel m d)).
Proof.
  unfold removedModels. rewrite jfilter_elem_of. intros [Hm Hin0] Hsel Htr.
  apply elem_of_dedup, jfilter_elem_of in Hin0 as [Hne0 _].
  assert (trim m = m) as Hmt by (rewrite Forall_forall in Htr; by apply Htr). split.
  - intros [_ Hin]%jfilter_elem_of. unfold normalizeModelNameList in Hin.
    rewrite elem_of_dedup, jfilter_elem_of in Hin. destruct Hin as [_ (x & -> & Hx)%list_elem_of_fmap].
    unfold toggleModel in Hx. rewrite bool_decide_eq_true_2 in Hx by done. cbn [set_selected selectedModels] in Hx.
    apply jfilter_elem_of in Hx as [Hne Hx]. rewrite Forall_forall in Htr. unfold normalizeModelName in Hne.
    rewrite (Htr x Hx) in Hne. by rewrite (proj2 (jeqb_spec x x)) in Hne.
  - apply andb_prop in Hm as [Hm _]. apply andb_prop in Hm as [Hm _].
    apply negb_true_iff, bool_decide_eq_false in Hm. intros Hin. destruct Hm.
    assert (m ∈ fetchedModels d) as Hf.
    { unfold filteredModels in Hin. change (fetchedModels (toggleModel m d)) with (fetchedModels d) in Hin.
      case_match; [done|]. by apply jfilter_elem_of in Hin as [_ ?]. }
    apply elem_of_dedup, jfilter_elem_of. split; [done|]. apply list_elem_of_fmap. by exists m.
Qed.

(** From the drawer the dialog starts from the row of the table: models that were added to the form
    before are lost when it is saved. *)
Example upstream_fill_discards ch :
  models ch = u "a,b" ->
  let d := fetch_answer ch (Some [u "a"; u "b"; u "c"]) new_dialog in
  (dialog_save true ch (toggleModel (u "c") d)).1 = Filled [u "a"; u "b"; u "c"] /\
  (let s := set_form (set_models (u "a,b,mine") (form (mounted false))) (mounted false) in
   f_models (form (models_selected [u "a"; u "b"; u "c"] s)) = u "a,b,c").
Proof. intros H. cbn zeta. unfold fetch_answer, existingModels. rewrite H. by vm_compute. Qed.
