(* ===== verification/FloatBounds.v ===== *)
(** * Rounding of binary64 numbers

    The error of one multiplication or division of numbers ([JsNumber]), in real numbers: the result
    differs from the exact product or quotient by at most one part in [2^53] as long as it stays away
    from the ends of the range. [Math.round] is the nearest integer. The round trips of amounts
    ([Format], [KeyForms]) rest on these bounds. *)

From Stdlib Require Import Reals Lra.
From S2P Require Import Prelude JsString JsNumber.
Open Scope Z_scope.

(** ** Powers of two *)

Definition pow2 (e : Z) : R := powerRZ 2 e.

Lemma two_neq_0 : 2%R <> 0%R.
Proof. lra. Qed.

Lemma pow2_pos e : (0 < pow2 e)%R.
Proof. apply powerRZ_lt. lra. Qed.

Lemma pow2_add a b : pow2 (a + b) = (pow2 a * pow2 b)%R.
Proof. apply powerRZ_add, two_neq_0. Qed.

Lemma pow2_sub a b : pow2 (a - b) = (pow2 a / pow2 b)%R.
Proof.
  unfold Rdiv. unfold Z.sub. rewrite pow2_add. f_equal. unfold pow2. by rewrite powerRZ_neg'.
Qed.

Lemma pow2_IZR n : 0 <= n -> pow2 n = IZR (2 ^ n).
Proof.
  intros Hn. unfold pow2. rewrite <- (Z2Nat.id n) by done. rewrite <- pow_powerRZ.
  rewrite pow_IZR. f_equal. 
Qed.

Lemma pow2_le a b : a <= b -> (pow2 a <= pow2 b)%R.
Proof.
  intros H. replace b with (a + (b - a)) by lia. rewrite pow2_add.
  rewrite (pow2_IZR (b - a)) by lia. assert (1 <= IZR (2 ^ (b - a)))%R.
  { apply (IZR_le 1). pose proof (Z.pow_pos_nonneg 2 (b - a)). lia. }
  pose proof (pow2_pos a). nra.
Qed.

Lemma pow2_lt_inv a b : (pow2 a < pow2 b)%R -> a < b.
Proof. intros H. destruct (Z.lt_ge_cases a b) as [|Hle]; [done|]. apply pow2_le in Hle. lra. Qed.

(** ** Mantissas *)

Definition fval (m : positive) (e : Z) : R := (IZR (Zpos m) * pow2 e)%R.

Lemma fval_pos m e : (0 < fval m e)%R.
Proof. unfold fval. pose proof (pow2_pos e). assert (0 < IZR (Zpos m))%R by (apply IZR_lt; lia). nra. Qed.

Lemma digits_bounds p : 2 ^ (Zpos (digits2_pos p) - 1) <= Zpos p < 2 ^ Zpos (digits2_pos p).
Proof.
  induction p as [p IH|p IH|]; cbn [digits2_pos]; [| |done].
  - rewrite Pos2Z.inj_succ. replace (Z.succ _ - 1) with (Z.succ (Zpos (digits2_pos p) - 1)) by lia.
    rewrite !Z.pow_succ_r by lia. lia.
  - rewrite Pos2Z.inj_succ. replace (Z.succ _ - 1) with (Z.succ (Zpos (digits2_pos p) - 1)) by lia.
    rewrite !Z.pow_succ_r by lia. lia.
Qed.

(** The number of digits before the point. *)
Definition magnitude (m : positive) (e : Z) : Z := Zpos (digits2_pos m) + e.

Lemma fval_magnitude m e : (pow2 (magnitude m e - 1) <= fval m e < pow2 (magnitude m e))%R.
Proof.
  unfold fval, magnitude. destruct (digits_bounds m) as [H1 H2]. pose proof (pow2_pos e).
  replace (Z.pos (digits2_pos m) + e - 1) with (Z.pos (digits2_pos m) - 1 + e) by lia.
  rewrite !pow2_add, (pow2_IZR (_ - 1)), (pow2_IZR (Z.pos _)) by lia. apply IZR_le in H1. apply IZR_lt in H2.
  split; [apply Rmult_le_compat_r|apply Rmult_lt_compat_r]; lra.
Qed.

Lemma magnitude_range m e a b :
  (pow2 a <= fval m e < pow2 b)%R -> a < magnitude m e <= b.
Proof.
  intros [Ha Hb]. destruct (fval_magnitude m e) as [H1 H2]. split; [apply pow2_lt_inv; lra|].
  assert (magnitude m e - 1 < b) by (apply pow2_lt_inv; lra). lia.
Qed.

(** ** Shifting with a guard and a sticky bit *)

(** The part below the last digit. *)
Definition frac_ok (r s : bool) (f : R) : Prop :=
  match r, s with
  | false, false => f = 0%R
  | false, true => (0 < f < 1 / 2)%R
  | true, false => f = (1 / 2)%R
  | true, true => (1 / 2 < f < 1)%R
  end.

Definition rec_ok (rec : shr_record) (t : R) : Prop :=
  0 <= shr_m rec /\ frac_ok (shr_r rec) (shr_s rec) (t - IZR (shr_m rec)).

Lemma shr_1_ok rec t : rec_ok rec t -> rec_ok (shr_1 rec) (t / 2).
Proof.
  destruct rec as [m r s]. unfold rec_ok. cbn [shr_m shr_r shr_s]. intros [Hm Hf].
  destruct m as [|[p|p|]|p]; [| | | |lia]; cbn [shr_1 shr_m shr_r shr_s];
    (split; [lia|]); rewrite ?(Pos2Z.inj_xI p), ?(Pos2Z.inj_xO p), ?plus_IZR, ?mult_IZR in Hf;
    unfold frac_ok in *; destruct r, s; cbn [orb] in *; lra.
Qed.

Lemma iter_ok n rec t : rec_ok rec t -> rec_ok (SpecFloat.iter_pos shr_1 n rec) (t / pow2 (Zpos n)).
Proof.
  revert rec t. induction n as [n IH|n IH|]; intros rec t H; cbn [SpecFloat.iter_pos].
  - replace (t / pow2 (Z.pos n~1))%R with (t / 2 / pow2 (Zpos n) / pow2 (Zpos n))%R; [by apply IH, IH, shr_1_ok|].
    rewrite Pos2Z.inj_xI. replace (2 * Z.pos n + 1) with (1 + Z.pos n + Z.pos n) by lia. rewrite !pow2_add.
    pose proof (pow2_pos (Zpos n)). change (pow2 1) with (powerRZ 2 1). rewrite powerRZ_1. field. lra.
  - replace (t / pow2 (Z.pos n~0))%R with (t / pow2 (Zpos n) / pow2 (Zpos n))%R; [by apply IH, IH|].
    rewrite Pos2Z.inj_xO. replace (2 * Z.pos n) with (Z.pos n + Z.pos n) by lia. rewrite pow2_add.
    pose proof (pow2_pos (Zpos n)). field. lra.
  - change (pow2 1) with (powerRZ 2 1). rewrite powerRZ_1. by apply shr_1_ok.
Qed.

(** A mantissa with what is known of the digits after it. *)
Definition located (m : Z) (l : location) (t : R) : Prop := rec_ok (shr_record_of_loc m l) t.

Lemma shr_ok rec e n t :
  rec_ok rec t -> rec_ok (shr rec e n).1 (t / pow2 (Z.max 0 n)) /\ (shr rec e n).2 = e + Z.max 0 n.
Proof.
  intros H. destruct n as [|p|p]; cbn [shr fst snd].
  - change (Z.max 0 0) with 0. change (pow2 0) with 1%R. rewrite Rdiv_1_r. split; [done|lia].
  - replace (Z.max 0 (Z.pos p)) with (Z.pos p) by lia. split; [by apply iter_ok|lia].
  - replace (Z.max 0 (Z.neg p)) with 0 by lia. change (pow2 0) with 1%R. rewrite Rdiv_1_r. split; [done|lia].
Qed.

Definition ulp_exponent (m e : Z) : Z := Z.max e (fexp 53 1024 (Zdigits2 m + e)).

Lemma shr_fexp_ok m e l t :
  located m l t ->
  rec_ok (shr_fexp 53 1024 m e l).1 (t / pow2 (ulp_exponent m e - e)) /\
  (shr_fexp 53 1024 m e l).2 = ulp_exponent m e.
Proof.
  intros H. unfold shr_fexp. destruct (shr_ok (shr_record_of_loc m l) e (fexp 53 1024 (Zdigits2 m + e) - e) t H) as [H1 H2].
  unfold ulp_exponent. rewrite H2. split; [|lia].
  by replace (Z.max e (fexp 53 1024 (Zdigits2 m + e)) - e) with (Z.max 0 (fexp 53 1024 (Zdigits2 m + e) - e)) by lia.
Qed.

Lemma round_ok rec t :
  rec_ok rec t ->
  let n := round_nearest_even (shr_m rec) (loc_of_shr_record rec) in
  (Rabs (IZR n - t) <= 1 / 2)%R /\ shr_m rec <= n <= shr_m rec + 1 /\
  (loc_of_shr_record rec = loc_Exact -> IZR n = t).
Proof.
  destruct rec as [m r s]. unfold rec_ok, frac_ok. cbn [shr_m shr_r shr_s]. intros [Hm Hf].
  cbn zeta. split_and!.
  - destruct r, s; cbn [loc_of_shr_record round_nearest_even]; try destruct (Z.even m);
      rewrite ?plus_IZR; apply Rabs_le; lra.
  - destruct r, s; cbn [loc_of_shr_record round_nearest_even]; try destruct (Z.even m); lia.
  - destruct r, s; cbn [loc_of_shr_record round_nearest_even]; try destruct (Z.even m); try lia.
  - destruct r, s; cbn [loc_of_shr_record round_nearest_even]; try done. intros _. lra.
Qed.

(** The second shift, of a mantissa of at most 53 digits or [2^53] itself. *)
Lemma renormalize_ok n e :
  0 < n <= 2 ^ 53 -> -1074 <= e <= 970 ->
  let '(mrs, e') := shr_fexp 53 1024 n e loc_Exact in
  exists m, shr_m mrs = Zpos m /\ e' <= 971 /\ fval m e' = (IZR n * pow2 e)%R /\ (n < 2 ^ 53 -> e' = e).
Proof.
  intros Hn He. destruct n as [|p|p]; [lia| |lia].
  destruct (digits_bounds p) as [Hd1 Hd2]. 
  assert (Zpos (digits2_pos p) <= 54) as Hd.
  { destruct (Z.le_gt_cases (Zpos (digits2_pos p)) 54) as [|Hgt]; [done|].
    assert (2 ^ 54 <= 2 ^ (Zpos (digits2_pos p) - 1)) by (apply Z.pow_le_mono_r; lia).
    change (2 ^ 54) with (2 * 2 ^ 53) in *. lia. }
  assert (located (Zpos p) loc_Exact (IZR (Zpos p))) as Hl.
  { split; [done|]. cbn [shr_record_of_loc shr_r shr_s shr_m frac_ok]. lra. }
  destruct (shr_fexp_ok (Zpos p) e loc_Exact _ Hl) as [Hrec He'].
  destruct (shr_fexp 53 1024 (Zpos p) e loc_Exact) as [mrs e'] eqn:Hs. cbn [fst snd] in *.
  unfold ulp_exponent, fexp, emin in *. cbn [Zdigits2] in *.
  destruct (Z.le_gt_cases (Zpos (digits2_pos p)) 53) as [H53|H53].
  - assert (e' = e) as -> by lia. replace (Z.max e _ - e) with 0 in Hrec by lia.
    unfold shr_fexp, shr, fexp, emin in Hs. cbn [Zdigits2] in Hs.
    destruct (Z.max _ _ - e) eqn:Hz in Hs; [|lia|]; injection Hs as <-; exists p; (split_and!; [done|lia|done|done]).
  - assert (Zpos p = 2 ^ 53) as Hp.
    { assert (2 ^ 53 <= 2 ^ (Zpos (digits2_pos p) - 1)) by (apply Z.pow_le_mono_r; lia). lia. }
    assert (p = (2 ^ 53)%positive) as -> by lia.
    unfold shr_fexp, shr, fexp, emin in Hs. cbn [Zdigits2] in Hs.
    change (Z.pos (digits2_pos (2 ^ 53))) with 54 in *.
    replace (Z.max (54 + e - 53) (3 - 1024 - 53) - e) with 1 in Hs by lia.
    injection Hs as <- <-. exists (2 ^ 52)%positive. split_and!; [done|lia| |lia].
    unfold fval. rewrite pow2_add. change (pow2 1) with (powerRZ 2 1). rewrite powerRZ_1.
    replace (IZR (Z.pos (2 ^ 53))) with (2 * IZR (Z.pos (2 ^ 52)))%R by (rewrite <- mult_IZR; f_equal).
    ring.
Qed.

Lemma located_bounds m l t : located m l t -> (IZR m <= t < IZR m + 1)%R.
Proof.
  unfold located, rec_ok. intros [_ H]. destruct l as [|[]]; cbn [shr_record_of_loc shr_m shr_r shr_s frac_ok] in H; lra.
Qed.

Lemma rec_bounds rec t : rec_ok rec t -> (IZR (shr_m rec) <= t < IZR (shr_m rec) + 1)%R.
Proof. destruct rec as [m r s]. unfold rec_ok. cbn [shr_m shr_r shr_s]. intros [_ H]. destruct r, s; cbn in H; lra. Qed.

Lemma rec_exact rec z : rec_ok rec (IZR z) -> loc_of_shr_record rec = loc_Exact.
Proof.
  intros H. pose proof (rec_bounds _ _ H) as [H1 H2]. rewrite <- plus_IZR in H2.
  apply le_IZR in H1. apply lt_IZR in H2. assert (shr_m rec = z) as Hz by lia.
  destruct rec as [m r s]. destruct H as [_ H]. cbn [shr_m shr_r shr_s] in *. rewrite Hz, Rminus_diag in H.
  destruct r, s; cbn in H; [lra..|done].
Qed.

(** A short mantissa without digits after it is not shifted. *)
Lemma short_exact m e :
  Zdigits2 m < 53 -> -1074 <= e -> (shr_fexp 53 1024 m e loc_Exact).1 = shr_record_of_loc m loc_Exact.
Proof.
  intros Hd He. unfold shr_fexp, shr, fexp, emin. destruct (Z.max _ _ - e) eqn:Hz; [done| |done]. lia.
Qed.

Section Round.
Context (mx ex : Z) (lx : location) (x : R).
Context (Hmx : 0 < mx) (Hloc : located mx lx (x / pow2 ex)).
Context (Hlong : lx <> loc_Exact -> 53 <= Zdigits2 mx).
Context (Hex : ex <= 970) (Hmag : -900 <= Zdigits2 mx + ex <= 1000).

Local Abbreviation e' := (ulp_exponent mx ex).

Lemma round_digits : 2 ^ (Zdigits2 mx - 1) <= mx < 2 ^ Zdigits2 mx /\ 0 < Zdigits2 mx.
Proof. destruct mx as [|p|p]; [lia| |lia]. split; [apply digits_bounds|done]. Qed.

Lemma round_scaled : (x / pow2 ex / pow2 (e' - ex) = x / pow2 e')%R.
Proof. rewrite pow2_sub. pose proof (pow2_pos ex). pose proof (pow2_pos e'). field. lra. Qed.

Lemma round_range : (IZR mx * pow2 ex <= x < (IZR mx + 1) * pow2 ex)%R.
Proof.
  pose proof (located_bounds _ _ _ Hloc) as [H1 H2]. pose proof (pow2_pos ex) as Hp.
  assert (x = x / pow2 ex * pow2 ex)%R as Hx by (field; lra).
  generalize dependent (x / pow2 ex)%R. intros t ? ? ? ->.
  split; [apply Rmult_le_compat_r|apply Rmult_lt_compat_r]; lra.
Qed.

(** Either nothing is cut off, or the unit of the last place is one part in [2^52] at most. *)
Lemma round_ulp :
  loc_of_shr_record (shr_fexp 53 1024 mx ex lx).1 = loc_Exact \/ (pow2 52 * pow2 e' <= x)%R.
Proof.
  destruct round_digits as [[Hd1 Hd2] Hd0].
  destruct (Z.lt_ge_cases (Zdigits2 mx) 53) as [Hs|Hl].
  - left. destruct lx; [|pose proof (Hlong ltac:(done)); lia].
    rewrite short_exact by lia. done.
  - right. rewrite <- pow2_add. destruct round_range as [Hx _].
    apply Rle_trans with (2 := Hx). apply Rle_trans with (pow2 (Zdigits2 mx - 1 + ex)).
    + apply pow2_le. unfold ulp_exponent, fexp, emin. lia.
    + rewrite pow2_add, (pow2_IZR (_ - 1)) by lia. pose proof (pow2_pos ex). apply IZR_le in Hd1.
      by apply Rmult_le_compat_r; [lra|].
Qed.

Lemma round_upper : (x < pow2 53 * pow2 e')%R.
Proof.
  destruct round_digits as [[Hd1 Hd2] Hd0]. destruct round_range as [_ Hx]. rewrite <- pow2_add.
  apply Rlt_le_trans with (1 := Hx). apply Rle_trans with (pow2 (Zdigits2 mx + ex)).
  - rewrite pow2_add, (pow2_IZR (Zdigits2 mx)) by lia. pose proof (pow2_pos ex).
    assert (IZR mx + 1 <= IZR (2 ^ Zdigits2 mx))%R by (rewrite <- plus_IZR; apply IZR_le; lia). nra.
  - apply pow2_le. unfold ulp_exponent, fexp. lia.
Qed.

(** The rounded number is finite and off by at most one part in [2^53], and a multiple of the unit
    of the last place is not changed. *)
Lemma round_aux_spec sx :
  exists m e, binary_round_aux 53 1024 sx mx ex lx = S754_finite sx m e /\
    (Rabs (fval m e - x) <= x * pow2 (-53))%R /\
    (forall z, x = (IZR z * pow2 e')%R -> fval m e = x /\ e = e').
Proof.
  destruct (shr_fexp_ok mx ex lx _ Hloc) as [Hrec He].
  unfold binary_round_aux. pose proof round_ulp as Hulp. pose proof round_upper as Hup.
  destruct (shr_fexp 53 1024 mx ex lx) as [rec e1]. cbn [fst snd] in *. subst e1.
  rewrite round_scaled in Hrec. destruct (round_ok rec _ Hrec) as (Herr & Hn & Hexact).
  pose proof (rec_bounds _ _ Hrec) as [Hb1 Hb2].
  set (n := round_nearest_even _ _) in *. pose proof (pow2_pos e') as Hp.
  destruct round_range as [Hlow _].
  assert (0 < x)%R as Hx0 by (pose proof (pow2_pos ex); apply IZR_lt in Hmx; nra).
  set (t := (x / pow2 e')%R) in *. assert (x = t * pow2 e')%R as Hxt by (unfold t; field; lra).
  change (pow2 52) with (pow2 52) in Hulp. rewrite pow2_IZR in Hulp, Hup by lia.
  assert (t < IZR (2 ^ 53))%R as Ht by nra.
  assert (0 < t)%R as Ht0 by nra.
  assert (shr_m rec < 2 ^ 53) as Hr53 by (apply lt_IZR; lra).
  assert (0 < n) as Hn0.
  { destruct Hulp as [Hl|Hl]; [apply lt_IZR; rewrite (Hexact Hl); lra|].
    assert (IZR (2 ^ 52) <= t)%R by nra.
    assert (2 ^ 52 - 1 < shr_m rec); [|lia]. apply lt_IZR. rewrite minus_IZR. lra. }
  destruct round_digits as [_ Hd0].
  assert (-1074 <= e' <= 970) as He' by (unfold ulp_exponent, fexp, emin; lia).
  pose proof (renormalize_ok n e') as Hren. destruct (shr_fexp 53 1024 n e' loc_Exact) as [mrs e2].
  destruct Hren as (m & -> & He2 & Hv & Hsame); [lia|lia|].
  exists m, e2. rewrite (proj2 (Z.leb_le _ _)) by lia. split; [done|]. rewrite Hv. split.
  2:{ intros z Hz. assert (t = IZR z) as Htz by (unfold t; rewrite Hz; field; lra).
      assert (IZR n = t) as Hnt by (apply Hexact, (rec_exact _ z); by rewrite <- Htz).
      rewrite Hnt. split; [by rewrite Hxt|]. apply Hsame, lt_IZR. by rewrite Hnt. }
  replace (IZR n * pow2 e' - x)%R with ((IZR n - t) * pow2 e')%R by (rewrite Hxt; ring).
  rewrite Rabs_mult, (Rabs_right (pow2 e')) by lra.
  destruct Hulp as [Hl|Hl].
  - rewrite (Hexact Hl), Rminus_diag, Rabs_R0. pose proof (pow2_pos (-53)). nra.
  - assert (pow2 (-53) = / 2 / IZR (2 ^ 52))%R as ->.
    { change (-53) with (-1 - 52). rewrite pow2_sub, (pow2_IZR 52) by lia. unfold Rdiv. f_equal.
      change (pow2 (-1)) with (/ (2 * 1))%R. by rewrite Rmult_1_r. }
    assert (0 < IZR (2 ^ 52))%R by (apply IZR_lt; lia).
    apply Rle_trans with (1 / 2 * pow2 e')%R; [nra|].
    apply (Rmult_le_reg_r (IZR (2 ^ 52))); [done|]. field_simplify; [|lra]. lra.
Qed.

Lemma round_aux_ok sx :
  exists m e, binary_round_aux 53 1024 sx mx ex lx = S754_finite sx m e /\
    (Rabs (fval m e - x) <= x * pow2 (-53))%R.
Proof. destruct (round_aux_spec sx) as (m & e & H1 & H2 & _). by exists m, e. Qed.

(** An integer of at most 53 digits is not rounded, and its mantissa is filled up to 53 digits. *)
Lemma round_aux_integer sx z :
  x = IZR z -> z < 2 ^ 53 -> 53 <= Zdigits2 mx ->
  exists m e, binary_round_aux 53 1024 sx mx ex lx = S754_finite sx m e /\ fval m e = x /\
    Zpos (digits2_pos m) = 53.
Proof.
  intros Hz Hlt H53. destruct (round_aux_spec sx) as (m & e & H1 & _ & H3).
  destruct round_range as [Hlow _]. destruct round_digits as [[Hd _] Hd0].
  assert (pow2 (Zdigits2 mx - 1 + ex) <= x)%R as Hxl.
  { rewrite pow2_add, (pow2_IZR (_ - 1)) by lia. apply IZR_le in Hd. pose proof (pow2_pos ex).
    apply Rle_trans with (2 := Hlow). by apply Rmult_le_compat_r; [lra|]. }
  assert (Zdigits2 mx - 1 + ex < 53) as Hm.
  { apply pow2_lt_inv. rewrite (pow2_IZR 53) by lia. apply Rle_lt_trans with (1 := Hxl).
    rewrite Hz. by apply IZR_lt. }
  assert (e' = Zdigits2 mx + ex - 53) as He' by (unfold ulp_exponent, fexp, emin; lia).
  destruct (H3 (z * 2 ^ (- e'))) as [Hv ->].
  - rewrite mult_IZR, <- (pow2_IZR (- e')) by lia.
    rewrite Rmult_assoc, <- pow2_add. replace (- e' + e') with 0 by lia. change (pow2 0) with 1%R. by rewrite Rmult_1_r.
  - exists m, e'. split_and!; [done..|].
    assert (Zdigits2 mx - 1 + ex < magnitude m e' <= 53 + e') as Hmag'; [|unfold magnitude in Hmag'; lia].
    apply magnitude_range. rewrite Hv. split; [done|]. rewrite pow2_add. apply round_upper.
Qed.
End Round.

(** What the lemmas of the section need to round [mx * 2^ex] with the digits [lx] after it. *)
Definition roundable (mx ex : Z) (lx : location) (x : R) : Prop :=
  0 < mx /\ located mx lx (x / pow2 ex) /\ (lx <> loc_Exact -> 53 <= Zdigits2 mx) /\ ex <= 970 /\
  -900 <= Zdigits2 mx + ex <= 1000.

Lemma roundable_near mx ex lx x sx :
  roundable mx ex lx x ->
  exists m e, binary_round_aux 53 1024 sx mx ex lx = S754_finite sx m e /\
    (Rabs (fval m e - x) <= x * pow2 (-53))%R.
Proof. intros (?&?&?&?&?). by apply round_aux_ok. Qed.

Lemma roundable_integer mx ex lx x sx z :
  roundable mx ex lx x -> x = IZR z -> z < 2 ^ 53 -> 53 <= Zdigits2 mx ->
  exists m e, binary_round_aux 53 1024 sx mx ex lx = S754_finite sx m e /\ fval m e = x /\
    Zpos (digits2_pos m) = 53.
Proof. intros (?&?&?&?&?). by apply round_aux_integer. Qed.

(** ** Products and quotients *)

(** Numbers well inside the range. *)
Definition inside (k : Z) (m : positive) (e : Z) : Prop := - k <= magnitude m e <= k.

(** [y] is [x] up to one rounding. *)
Definition near (y x : R) : Prop := (Rabs (y - x) <= x * pow2 (-53))%R.

Lemma inside_range k m e : (pow2 (- k) <= fval m e < pow2 k)%R -> inside k m e.
Proof. intros H%magnitude_range. unfold inside. lia. Qed.

Lemma inside_bounds k m e : inside k m e -> (pow2 (- k - 1) <= fval m e < pow2 k)%R.
Proof.
  intros [H1 H2]. destruct (fval_magnitude m e) as [Hl Hu].
  assert (pow2 (- k - 1) <= pow2 (magnitude m e - 1))%R by (apply pow2_le; lia).
  assert (pow2 (magnitude m e) <= pow2 k)%R by (apply pow2_le; lia). lra.
Qed.

Lemma abs_bounds a b : (Rabs a <= b -> - b <= a <= b)%R.
Proof. unfold Rabs. destruct (Rcase_abs a); lra. Qed.

Lemma near_bounds y x a b : near y x -> (pow2 a <= x < pow2 b)%R -> (pow2 (a - 1) <= y < pow2 (b + 1))%R.
Proof.
  unfold near. intros Hn [Ha Hb]. assert (pow2 (-53) <= pow2 (-1))%R as Hp by (apply pow2_le; lia).
  change (pow2 (-1)) with (/ (2 * 1))%R in Hp. rewrite Rmult_1_r in Hp.
  rewrite pow2_sub, pow2_add. change (pow2 1) with (2 * 1)%R. rewrite Rmult_1_r. pose proof (pow2_pos a).
  apply abs_bounds in Hn. split; nra.
Qed.

Lemma fval_mul m1 e1 m2 e2 : fval (m1 * m2) (e1 + e2) = (fval m1 e1 * fval m2 e2)%R.
Proof. unfold fval. rewrite Pos2Z.inj_mul, mult_IZR, pow2_add. ring. Qed.

Lemma exact_located n : located (Zpos n) loc_Exact (IZR (Zpos n)).
Proof. split; [done|]. cbn [shr_record_of_loc shr_r shr_s shr_m frac_ok]. lra. Qed.

Lemma inside_product m1 e1 m2 e2 :
  inside 400 m1 e1 -> inside 400 m2 e2 -> -900 <= magnitude (m1 * m2) (e1 + e2) <= 1000.
Proof.
  intros H1 H2. pose proof (inside_bounds _ _ _ H1). pose proof (inside_bounds _ _ _ H2).
  assert (inside 802 (m1 * m2) (e1 + e2)) as Hin; [|unfold inside in Hin; lia].
  apply inside_range. rewrite fval_mul. change (- (802)) with ((- (400) - 1) + (- (400) - 1)).
  pose proof (pow2_pos (- (400) - 1)). pose proof (pow2_pos 400).
  split; [rewrite pow2_add; apply Rmult_le_compat; lra|].
  apply Rlt_le_trans with (pow2 400 * pow2 400)%R; [apply Rmult_le_0_lt_compat; lra|].
  rewrite <- pow2_add. apply pow2_le. lia.
Qed.

Lemma fmul_roundable m1 e1 m2 e2 :
  inside 400 m1 e1 -> inside 400 m2 e2 ->
  roundable (Zpos (m1 * m2)) (e1 + e2) loc_Exact (fval m1 e1 * fval m2 e2).
Proof.
  intros H1 H2. split_and!; [done| |done| |..].
  - rewrite <- fval_mul. unfold fval. pose proof (pow2_pos (e1 + e2)).
    replace (_ / _)%R with (IZR (Zpos (m1 * m2))) by (field; lra). apply exact_located.
  - unfold inside, magnitude in *. lia.
  - apply (inside_product m1 e1 m2 e2 H1 H2).
  - apply (inside_product m1 e1 m2 e2 H1 H2).
Qed.

Lemma fmul_ok s1 m1 e1 s2 m2 e2 :
  inside 400 m1 e1 -> inside 400 m2 e2 ->
  exists m e, fmul (S754_finite s1 m1 e1) (S754_finite s2 m2 e2) = S754_finite (xorb s1 s2) m e /\
    near (fval m e) (fval m1 e1 * fval m2 e2).
Proof. intros H1 H2. by apply roundable_near, fmul_roundable. Qed.

Lemma new_location_ok n q r :
  0 < n -> 0 <= q -> 0 <= r < n -> located q (new_location n r) (IZR q + IZR r / IZR n).
Proof.
  intros Hn Hq Hr. assert (0 < IZR n)%R as Hn' by by apply IZR_lt.
  assert (forall c, (r = 0 -> c = loc_Exact) ->
     (0 < r -> 2 * r < n -> c = loc_Inexact Lt) -> (2 * r = n -> c = loc_Inexact Eq) ->
     (n < 2 * r -> c = loc_Inexact Gt) -> located q c (IZR q + IZR r / IZR n)) as Hc.
  { intros c H0 H1 H2 H3. split; [by destruct c as [|[]]|].
    replace (shr_m (shr_record_of_loc q c)) with q by by destruct c as [|[]].
    replace (IZR q + IZR r / IZR n - IZR q)%R with (IZR r / IZR n)%R by ring.
    destruct (Z.eq_dec r 0) as [->|Hr0]; [rewrite H0 by done; cbn; lra|].
    assert (0 < IZR r)%R as Hr1 by (apply IZR_lt; lia).
    assert (IZR r < IZR n)%R as Hr2 by (apply IZR_lt; lia).
    assert (IZR r = IZR r / IZR n * IZR n)%R as Hrn by (field; lra).
    set (f := (IZR r / IZR n)%R) in *.
    destruct (Z.lt_trichotomy (2 * r) n) as [Hlt|[Heq|Hgt]].
    - rewrite H1 by lia. cbn. apply IZR_lt in Hlt. rewrite mult_IZR in Hlt. split; nra.
    - rewrite H2 by lia. cbn. assert (2 * IZR r = IZR n)%R by (rewrite <- mult_IZR; by f_equal). nra.
    - rewrite H3 by lia. cbn. apply IZR_lt in Hgt. rewrite mult_IZR in Hgt. split; nra. }
  apply Hc; unfold new_location, new_location_even, new_location_odd.
  - intros ->. by destruct (Z.even n).
  - intros H1 H2. destruct (Z.even n) eqn:E; rewrite (proj2 (Z.eqb_neq r 0)) by lia.
    + by rewrite (proj2 (Z.compare_lt_iff _ _)).
    + destruct (Z.compare_spec (2 * r + 1) n); [done|done|lia].
  - intros H. destruct (Z.even n) eqn:E; rewrite (proj2 (Z.eqb_neq r 0)) by lia.
    + by rewrite (proj2 (Z.compare_eq_iff _ _)).
    + exfalso. rewrite <- H, Z.even_mul in E. done.
  - intros H. destruct (Z.even n) eqn:E; rewrite (proj2 (Z.eqb_neq r 0)) by lia.
    + by rewrite (proj2 (Z.compare_gt_iff _ _)).
    + destruct (Z.compare_spec (2 * r + 1) n); [lia|lia|done].
Qed.

(** The quotient of the mantissas, after the shift that gives it 53 digits at least. *)
Lemma div_core_ok m1 e1 m2 e2 :
  inside 400 m1 e1 -> inside 400 m2 e2 ->
  let x := (fval m1 e1 / fval m2 e2)%R in
  let '(q, e, l) := SFdiv_core_binary 53 1024 (Zpos m1) e1 (Zpos m2) e2 in
  located q l (x / pow2 e) /\ (pow2 52 <= x / pow2 e)%R /\ 0 <= q /\ e <= 970.
Proof.
  intros H1 H2 x. unfold SFdiv_core_binary. cbn [Zdigits2].
  fold (magnitude m1 e1). fold (magnitude m2 e2). set (D := magnitude m1 e1 - magnitude m2 e2).
  set (e := Z.min (fexp 53 1024 D) (e1 - e2)). set (s := e1 - e2 - e).
  assert (0 <= s) as Hs by lia.
  assert (e <= D - 53 /\ D - 53 <= 970) as [He HD] by (unfold inside in *; unfold e, fexp, emin; lia).
  set (m' := match s with Z0 => Zpos m1 | Zpos _ => Z.shiftl (Zpos m1) s | Zneg _ => 0 end).
  assert (m' = Zpos m1 * 2 ^ s) as Hm'.
  { unfold m'. destruct s eqn:E; [lia| |lia]. by rewrite Z.shiftl_mul_pow2. }
  pose proof (Z_div_mod m' (Zpos m2)) as Hdiv. destruct (Z.div_eucl m' (Zpos m2)) as [q r].
  destruct Hdiv as [Hq Hr]; [done|].
  assert (0 <= q) as Hq0. { assert (0 <= m') by (rewrite Hm'; lia). nia. }
  assert (x / pow2 e = IZR q + IZR r / IZR (Zpos m2))%R as Hx.
  { assert (IZR (Zpos m1) * IZR (2 ^ s) = IZR (Zpos m2) * IZR q + IZR r)%R as Hz
      by (rewrite <- !mult_IZR, <- plus_IZR; f_equal; lia).
    rewrite <- pow2_IZR in Hz by done. unfold x, fval. unfold s in Hz. rewrite !pow2_sub in Hz.
    pose proof (pow2_pos e). pose proof (pow2_pos e2). assert (0 < IZR (Zpos m2))%R by (apply IZR_lt; lia).
    apply (Rmult_eq_reg_r (IZR (Zpos m2))); [|lra].
    replace ((IZR q + IZR r / IZR (Z.pos m2)) * IZR (Z.pos m2))%R with (IZR (Z.pos m2) * IZR q + IZR r)%R by (field; lra).
    rewrite <- Hz. field. lra. }
  split_and!; [rewrite Hx; by apply new_location_ok| |done|lia].
  destruct (fval_magnitude m1 e1) as [Hl1 _], (fval_magnitude m2 e2) as [_ Hu2].
  pose proof (fval_pos m2 e2). pose proof (pow2_pos e).
  assert (pow2 52 * pow2 e <= pow2 (D - 1))%R as Hp by (rewrite <- pow2_add; apply pow2_le; lia).
  assert (pow2 (D - 1) = pow2 (magnitude m1 e1 - 1) / pow2 (magnitude m2 e2))%R as HD1
    by (rewrite <- pow2_sub; f_equal; lia).
  assert (pow2 (D - 1) <= x)%R as Hxl.
  { rewrite HD1. unfold x, Rdiv. pose proof (pow2_pos (magnitude m1 e1 - 1)). pose proof (pow2_pos (magnitude m2 e2)).
    apply Rmult_le_compat; [lra| |lra|]; [left; by apply Rinv_0_lt_compat|].
    left. apply Rinv_lt_contravar; [nra|done]. }
  apply (Rmult_le_reg_r (pow2 e)); [done|]. replace (x / pow2 e * pow2 e)%R with x by (field; lra). lra.
Qed.

Lemma fdiv_roundable m1 e1 m2 e2 :
  inside 400 m1 e1 -> inside 400 m2 e2 ->
  let '(q, e, l) := SFdiv_core_binary 53 1024 (Zpos m1) e1 (Zpos m2) e2 in
  roundable q e l (fval m1 e1 / fval m2 e2) /\ 53 <= Zdigits2 q.
Proof.
  intros H1 H2. pose proof (div_core_ok m1 e1 m2 e2 H1 H2) as Hcore. cbn zeta in Hcore.
  destruct (SFdiv_core_binary 53 1024 (Zpos m1) e1 (Zpos m2) e2) as [[q e] l].
  destruct Hcore as (Hl & Hbig & Hq & He). set (x := (fval m1 e1 / fval m2 e2)%R) in *.
  pose proof (located_bounds _ _ _ Hl) as [Hb1 Hb2]. pose proof (pow2_pos e) as Hp.
  assert (2 ^ 52 <= q) as Hq52.
  { assert (2 ^ 52 - 1 < q); [|lia]. apply lt_IZR. rewrite minus_IZR, <- pow2_IZR by lia. lra. }
  destruct q as [|p|p]; [lia| |lia].
  assert (52 < Zpos (digits2_pos p)) as Hd.
  { destruct (digits_bounds p) as [_ Hd]. destruct (Z.le_gt_cases (Zpos (digits2_pos p)) 52) as [Hle|]; [|done].
    assert (2 ^ Zpos (digits2_pos p) <= 2 ^ 52) by (apply Z.pow_le_mono_r; lia). lia. }
  split; [|cbn; lia]. assert (inside 803 p e) as Hin; [|unfold inside, magnitude in Hin; split_and!; [done|done|cbn; lia|lia|cbn; lia..]].
  apply inside_range.
  pose proof (inside_bounds _ _ _ H1) as [Ha1 Ha2]. pose proof (inside_bounds _ _ _ H2) as [Hc1 Hc2].
  pose proof (fval_pos m2 e2) as Hv2.
  assert (x = x / pow2 e * pow2 e)%R as Hxe by (field; lra).
  assert (1 <= IZR (Zpos p))%R by (apply IZR_le; lia).
  assert (x < pow2 801)%R as Hx1.
  { unfold x. apply (Rmult_lt_reg_r (fval m2 e2)); [done|].
    replace (fval m1 e1 / fval m2 e2 * fval m2 e2)%R with (fval m1 e1) by (field; lra).
    assert (pow2 400 = pow2 801 * pow2 (- (400) - 1))%R as Hpw by (rewrite <- pow2_add; by f_equal).
    pose proof (pow2_pos 801). nra. }
  assert (pow2 (-801) <= x)%R as Hx2.
  { unfold x. apply (Rmult_le_reg_r (fval m2 e2)); [done|].
    replace (fval m1 e1 / fval m2 e2 * fval m2 e2)%R with (fval m1 e1) by (field; lra).
    assert (pow2 (- (400) - 1) = pow2 (-801) * pow2 400)%R as Hpw by (rewrite <- pow2_add; by f_equal).
    pose proof (pow2_pos (-801)). nra. }
  assert (pow2 (-802) * 2 = pow2 (-801))%R as Hhalf.
  { change (-801) with (-802 + 1). rewrite pow2_add. change (pow2 1) with (2 * 1)%R. ring. }
  assert (pow2 801 <= pow2 803 /\ pow2 (- (803)) <= pow2 (-802))%R as [] by (split; apply pow2_le; lia).
  unfold fval. set (t := (x / pow2 e)%R) in *. split; nra.
Qed.

Lemma fdiv_ok s1 m1 e1 s2 m2 e2 :
  inside 400 m1 e1 -> inside 400 m2 e2 ->
  exists m e, fdiv (S754_finite s1 m1 e1) (S754_finite s2 m2 e2) = S754_finite (xorb s1 s2) m e /\
    near (fval m e) (fval m1 e1 / fval m2 e2).
Proof.
  intros H1 H2. pose proof (fdiv_roundable m1 e1 m2 e2 H1 H2) as Hr. unfold fdiv, SFdiv.
  destruct (SFdiv_core_binary 53 1024 (Zpos m1) e1 (Zpos m2) e2) as [[q e] l].
  destruct Hr as [Hr _]. exact (roundable_near _ _ _ _ _ Hr).
Qed.

(** ** Several roundings *)

(** [y] differs from [x] by [k] parts in [2^52] at most. *)
Definition within (k : R) (y x : R) : Prop := (Rabs (y - x) <= x * k * pow2 (-52))%R.

Lemma pow2_53 : pow2 (-53) = (pow2 (-52) / 2)%R.
Proof.
  change (-53) with (-52 - 1). rewrite pow2_sub. change (pow2 1) with (2 * 1)%R. by rewrite Rmult_1_r.
Qed.

Lemma pow2_52_small : (0 < pow2 (-52) <= 1 / 128)%R.
Proof.
  split; [apply pow2_pos|]. apply Rle_trans with (pow2 (-7)); [apply pow2_le; lia|].
  change (-7) with (0 - 7). rewrite pow2_sub, (pow2_IZR 7) by lia. change (pow2 0) with 1%R. change (2 ^ 7) with 128. lra.
Qed.

Lemma near_within y x : near y x -> within 1 y x.
Proof. unfold near, within. rewrite pow2_53. intros H. pose proof pow2_52_small. pose proof (abs_bounds _ _ H). nra. Qed.

Lemma within_scale k y x c z :
  (0 <= k <= 100 -> 0 < x -> 0 < c -> within k y x -> near z (y * c) -> within (k + 1) z (x * c))%R.
Proof.
  unfold within, near. rewrite pow2_53. intros Hk Hx Hc H1 H2.
  pose proof pow2_52_small as Hv. set (v := pow2 (-52)) in *.
  apply abs_bounds in H1, H2. apply Rabs_le.
  assert (0 <= x * k * v <= x)%R as Hxk.
  { split; [apply Rmult_le_pos; [|lra]; apply Rmult_le_pos; lra|].
    replace (x * k * v)%R with (x * (k * v))%R by ring. rewrite <- (Rmult_1_r x) at 2.
    apply Rmult_le_compat_l; [lra|]. nra. }
  assert (0 < x * c)%R as Hxc by nra.
  assert (- (x * k * v) * c <= (y - x) * c <= x * k * v * c)%R as [Hy1 Hy2] by (split; nra).
  assert (y * c * (v / 2) <= x * c * v)%R as Hyc.
  { replace (x * c * v)%R with (2 * x * c * (v / 2))%R by field. apply Rmult_le_compat_r; [lra|].
    apply Rmult_le_compat_r; lra. }
  lra.
Qed.

Lemma within_bounds k y x a b :
  (0 <= k <= 32)%R -> within k y x -> (pow2 a <= x < pow2 b)%R -> (pow2 (a - 1) <= y < pow2 (b + 1))%R.
Proof.
  unfold within. intros Hk Hn [Ha Hb]. pose proof pow2_52_small as Hv. set (v := pow2 (-52)) in *.
  rewrite pow2_sub, pow2_add. change (pow2 1) with (2 * 1)%R. rewrite Rmult_1_r. pose proof (pow2_pos a).
  apply abs_bounds in Hn. assert (0 <= x * k * v <= x / 2)%R.
  { split; [apply Rmult_le_pos; [|lra]; apply Rmult_le_pos; lra|].
    replace (x / 2)%R with (x * (1 / 2))%R by field. rewrite Rmult_assoc. apply Rmult_le_compat_l; [lra|]. nra. }
  lra.
Qed.

(** ** Integers *)

Lemma iter_xO p k : Zpos (Pos.iter xO p k) = Zpos p * 2 ^ Zpos k.
Proof.
  induction k as [|k IH] using Pos.peano_ind.
  { rewrite Z.pow_1_r. cbn [Pos.iter]. rewrite Pos2Z.inj_xO. lia. }
  rewrite Pos.iter_succ, Pos2Z.inj_xO, IH, Pos2Z.inj_succ, Z.pow_succ_r by lia. ring.
Qed.

(** A number that is an integer, with a mantissa of 53 digits. *)
Definition integral (s : bool) (v : num) (z : positive) : Prop :=
  exists m e, v = S754_finite s m e /\ fval m e = IZR (Zpos z) /\ Zpos (digits2_pos m) = 53.

Lemma integer_inside k m e z :
  53 <= k -> fval m e = IZR (Zpos z) -> Zpos z < 2 ^ 53 -> inside k m e.
Proof.
  intros Hk Hv Hz. assert (0 < magnitude m e <= 53) as Hm; [|unfold inside; lia].
  apply magnitude_range. rewrite Hv. change (pow2 0) with 1%R. rewrite pow2_IZR by lia.
  split; [apply (IZR_le 1); lia|by apply IZR_lt].
Qed.

Lemma integer_roundable m e z :
  fval m e = IZR (Zpos z) -> Zpos z < 2 ^ 53 -> roundable (Zpos m) e loc_Exact (IZR (Zpos z)).
Proof.
  intros Hv Hz. pose proof (integer_inside 53 m e z ltac:(lia) Hv Hz) as Hm. unfold inside, magnitude in Hm.
  split_and!; [done| |done|lia|cbn; lia..]. rewrite <- Hv. unfold fval. pose proof (pow2_pos e).
  replace (_ / _)%R with (IZR (Zpos m)) by (field; lra). apply exact_located.
Qed.

Lemma digits_unique p n : 0 < n -> 2 ^ (n - 1) <= Zpos p < 2 ^ n -> Zpos (digits2_pos p) = n.
Proof.
  intros Hn [H1 H2]. destruct (digits_bounds p) as [H3 H4].
  assert (n - 1 < Zpos (digits2_pos p)) by (apply (Z.pow_lt_mono_r_iff 2); lia).
  assert (Zpos (digits2_pos p) - 1 < n) by (apply (Z.pow_lt_mono_r_iff 2); lia). lia.
Qed.

Lemma num_of_Z_integral (s : bool) (p : positive) :
  Zpos p < 2 ^ 53 -> integral s (num_of_Z (if s then Zneg p else Zpos p)) p.
Proof.
  intros Hp. assert (integral s (binary_round 53 1024 s p 0) p) as H; [|by destruct s].
  destruct (digits_bounds p) as [Hd1 Hd2].
  assert (Zpos (digits2_pos p) <= 53) as Hd.
  { destruct (Z.le_gt_cases (Zpos (digits2_pos p)) 53) as [|Hgt]; [done|].
    assert (2 ^ 53 <= 2 ^ (Zpos (digits2_pos p) - 1)) by (apply Z.pow_le_mono_r; lia). lia. }
  unfold binary_round, shl_align. rewrite Z.add_0_r, Z.sub_0_r.
  assert (fexp 53 1024 (Zpos (digits2_pos p)) = Zpos (digits2_pos p) - 53) as Hf by (unfold fexp, emin; lia).
  rewrite Hf.
  assert (forall mz ez, fval mz ez = IZR (Zpos p) -> 53 <= Zpos (digits2_pos mz) ->
    integral s (binary_round_aux 53 1024 s (Zpos mz) ez loc_Exact) p) as Hround.
  { intros mz ez Hv Hez. by apply (roundable_integer _ _ _ _ _ (Zpos p)); [apply integer_roundable|..]. }
  destruct (Zpos (digits2_pos p) - 53) as [|k|k] eqn:Hk; [|lia|].
  - apply Hround; [|lia]. unfold fval. change (pow2 0) with 1%R. ring.
  - apply Hround.
    + unfold fval. rewrite iter_xO, mult_IZR, <- pow2_IZR by lia.
      rewrite Rmult_assoc, <- pow2_add. replace (Z.pos k + Z.neg k) with 0 by lia. change (pow2 0) with 1%R. ring.
    + rewrite (digits_unique _ 53); [lia|lia|]. rewrite iter_xO.
      replace (53 - 1) with (Zpos (digits2_pos p) - 1 + Zpos k) by lia.
      replace 53 with (Zpos (digits2_pos p) + Zpos k) by lia. rewrite !Z.pow_add_r by lia.
      pose proof (Z.pow_pos_nonneg 2 (Zpos k)). nia.
Qed.

(** There is only one such number for each integer, and they compare like the integers. *)
Lemma integral_exponent m m' e e' a b :
  fval m e = IZR (Zpos a) -> Zpos (digits2_pos m) = 53 ->
  fval m' e' = IZR (Zpos b) -> Zpos (digits2_pos m') = 53 -> Zpos a <= Zpos b -> e <= e'.
Proof.
  intros Hv Hd Hv' Hd' Hab. destruct (fval_magnitude m e) as [H1 _], (fval_magnitude m' e') as [_ H2].
  assert (magnitude m e - 1 < magnitude m' e') as Hm; [|unfold magnitude in Hm; lia].
  apply pow2_lt_inv. apply IZR_le in Hab. lra.
Qed.

Lemma integral_unique s v w z : integral s v z -> integral s w z -> v = w.
Proof.
  intros (m & e & -> & Hv & Hd) (m' & e' & -> & Hv' & Hd').
  assert (e = e') as ->.
  { apply Z.le_antisymm; [apply (integral_exponent m m' e e' z z)|apply (integral_exponent m' m e' e z z)]; done. }
  f_equal. unfold fval in *. pose proof (pow2_pos e'). apply Pos2Z.inj, eq_IZR.
  apply (Rmult_eq_reg_r (pow2 e')); lra.
Qed.

Lemma integral_num s v z : Zpos z < 2 ^ 53 -> integral s v z -> v = num_of_Z (if s then Zneg z else Zpos z).
Proof. intros Hz H. by apply (integral_unique s v _ z), num_of_Z_integral. Qed.

Lemma integral_flt v w a b :
  integral false v a -> integral false w b -> Zpos a <= Zpos b -> flt w v = false.
Proof.
  intros (m & e & -> & Hv & Hd) (m' & e' & -> & Hv' & Hd') Hab.
  pose proof (integral_exponent m m' e e' a b Hv Hd Hv' Hd' Hab) as He.
  unfold flt, SFltb, SFcompare. destruct (Z.compare_spec e' e) as [->|?|?]; [|lia|done].
  assert (Zpos m <= Zpos m') as Hm.
  { apply le_IZR. apply IZR_le in Hab. rewrite <- Hv, <- Hv' in Hab. unfold fval in Hab. pose proof (pow2_pos e).
    by apply (Rmult_le_reg_r (pow2 e)). }
  change (Pos.compare_cont Eq m' m) with (Pos.compare m' m). destruct (Pos.compare_spec m' m); [done|lia|done].
Qed.

Lemma near_refl x : (0 <= x)%R -> near x x.
Proof. intros H. unfold near. rewrite Rminus_diag, Rabs_R0. pose proof (pow2_pos (-53)). nra. Qed.

Lemma integral_lt v w a b :
  integral false v a -> integral false w b -> Zpos a < Zpos b -> flt v w = true.
Proof.
  intros (m & e & -> & Hv & Hd) (m' & e' & -> & Hv' & Hd') Hab.
  pose proof (integral_exponent m m' e e' a b Hv Hd Hv' Hd' ltac:(lia)) as He.
  unfold flt, SFltb, SFcompare. destruct (Z.compare_spec e e') as [->|?|?]; [|done|lia].
  assert (Zpos m < Zpos m') as Hm.
  { apply lt_IZR. apply IZR_lt in Hab. rewrite <- Hv, <- Hv' in Hab. unfold fval in Hab. pose proof (pow2_pos e').
    by apply (Rmult_lt_reg_r (pow2 e')). }
  change (Pos.compare_cont Eq m m') with (Pos.compare m m'). destruct (Pos.compare_spec m m'); [lia|done|lia].
Qed.

(** Integers of at most 53 digits compare as numbers like as integers. *)
Lemma flt_integers a b : 0 <= a < 2 ^ 53 -> 0 < b < 2 ^ 53 -> flt (num_of_Z a) (num_of_Z b) = (a <? b).
Proof.
  intros Ha Hb. destruct b as [|b|]; [lia| |lia].
  pose proof (num_of_Z_integral false b ltac:(lia)) as Ib. cbn iota in Ib.
  destruct a as [|a|]; [|pose proof (num_of_Z_integral false a ltac:(lia)) as Ia; cbn iota in Ia|lia].
  - destruct Ib as (m & e & -> & _). done.
  - destruct (Z.ltb_spec (Zpos a) (Zpos b)); [by eapply integral_lt|by eapply integral_flt].
Qed.

(** Products and quotients that are integers of at most 53 digits are exact. *)
Lemma fmul_integral s v w a b :
  integral s v a -> integral false w b -> Zpos (a * b) < 2 ^ 53 -> integral s (fmul v w) (a * b).
Proof.
  intros (m1 & e1 & -> & Hv1 & Hd1) (m2 & e2 & -> & Hv2 & Hd2) Hab.
  pose proof (integer_inside 400 m1 e1 a ltac:(lia) Hv1 ltac:(nia)) as Hi1.
  pose proof (integer_inside 400 m2 e2 b ltac:(lia) Hv2 ltac:(nia)) as Hi2.
  pose proof (fmul_roundable _ _ _ _ Hi1 Hi2) as Hr.
  assert (fval m1 e1 * fval m2 e2 = IZR (Zpos (a * b)))%R as Hx by (by rewrite Hv1, Hv2, <- mult_IZR).
  rewrite Hx in Hr. unfold integral, fmul, SFmul. rewrite (xorb_false_r s).
  apply (roundable_integer _ _ _ _ s (Zpos (a * b))); [done..|]. cbn [Zdigits2].
  destruct (digits_bounds m1) as [Hl1 _]. destruct (digits_bounds (m1 * m2)) as [_ Hu].
  destruct (Z.le_gt_cases 53 (Zpos (digits2_pos (m1 * m2)))) as [|Hlt]; [done|].
  assert (2 ^ Zpos (digits2_pos (m1 * m2)) <= 2 ^ 52) by (apply Z.pow_le_mono_r; lia).
  rewrite Hd1 in Hl1. change (53 - 1) with 52 in Hl1. nia.
Qed.

Lemma fdiv_integral s v w a b :
  integral s v (a * b) -> integral false w b -> Zpos (a * b) < 2 ^ 53 -> integral s (fdiv v w) a.
Proof.
  intros (m1 & e1 & -> & Hv1 & Hd1) (m2 & e2 & -> & Hv2 & Hd2) Hab.
  pose proof (integer_inside 400 m1 e1 (a * b) ltac:(lia) Hv1 ltac:(nia)) as Hi1.
  pose proof (integer_inside 400 m2 e2 b ltac:(lia) Hv2 ltac:(nia)) as Hi2.
  pose proof (fdiv_roundable _ _ _ _ Hi1 Hi2) as Hr. unfold fdiv, SFdiv.
  destruct (SFdiv_core_binary 53 1024 (Zpos m1) e1 (Zpos m2) e2) as [[q e] l]. destruct Hr as [Hr Hq].
  assert (fval m1 e1 / fval m2 e2 = IZR (Zpos a))%R as Hx.
  { rewrite Hv1, Hv2, Pos2Z.inj_mul, mult_IZR. field. apply not_0_IZR. lia. }
  rewrite Hx in Hr. rewrite xorb_false_r.
  apply (roundable_integer _ _ _ _ s (Zpos a)); [done..|nia|done].
Qed.

(** [Math.round(x)]: the integer nearest to a finite number, the greater one of two. *)
Definition round_Z (x : num) : Z :=
  match x with
  | S754_finite s m e =>
      let '(a, b) := ratio m e in if s then (- (2 * a) + b) / (2 * b) else (2 * a + b) / (2 * b)
  | _ => 0
  end.

Definition f_round (x : num) : num :=
  match x with
  | S754_finite s m e => match round_Z x with Z0 => S754_zero s | z => num_of_Z z end
  | _ => x
  end.

Lemma ratio_ok m e : exists a b, ratio m e = (a, b) /\ 0 < b /\ (fval m e = IZR a / IZR b)%R.
Proof.
  unfold ratio, fval. destruct (0 <=? e) eqn:He.
  - apply Z.leb_le in He. exists (Zpos m * 2 ^ e), 1. split_and!; [done..|].
    rewrite mult_IZR, <- pow2_IZR by done. field.
  - apply Z.leb_gt in He. exists (Zpos m), (2 ^ (- e)). split_and!; [done|apply Z.pow_pos_nonneg; lia|].
    rewrite <- pow2_IZR by lia. replace (- e) with (0 - e) by lia. rewrite pow2_sub. change (pow2 0) with 1%R.
    pose proof (pow2_pos e). field. lra.
Qed.

Lemma integral_ratio m e z :
  fval m e = IZR (Zpos z) -> let '(a, b) := ratio m e in a / b = Zpos z /\ - a / b = Zneg z.
Proof.
  intros Hv. destruct (ratio_ok m e) as (a & b & -> & Hb & Hr). rewrite Hv in Hr.
  assert (a = Zpos z * b) as -> by (apply eq_IZR; rewrite mult_IZR, Hr; field; apply not_0_IZR; lia).
  rewrite Zopp_mult_distr_l, !Z.div_mul by lia. done.
Qed.

(** [Math.floor] of an integer. *)
Lemma floor_integral s v z : integral s v z -> f_floor v = num_of_Z (if s then Zneg z else Zpos z).
Proof.
  intros (m & e & -> & Hv & _). pose proof (integral_ratio m e z Hv) as H. unfold f_floor, floor_Z.
  destruct (ratio m e) as [a b]. destruct H as [H1 H2]. by destruct s; rewrite ?H1, ?H2.
Qed.

Lemma round_Z_ok (s : bool) m e q :
  (Rabs (fval m e - IZR q) < 1 / 2)%R -> round_Z (S754_finite s m e) = if s then - q else q.
Proof.
  intros H. unfold round_Z.
  destruct (ratio_ok m e) as (a & b & -> & Hb & Hv).
  assert (0 < IZR b)%R as Hb' by by apply IZR_lt.
  assert (Rabs (fval m e - IZR q) = Rabs (IZR a - IZR q * IZR b) / IZR b)%R as Habs.
  { rewrite Hv. replace (IZR a / IZR b - IZR q)%R with ((IZR a - IZR q * IZR b) / IZR b)%R by (field; lra).
    unfold Rdiv. rewrite Rabs_mult, (Rabs_right (/ IZR b)); [done|]. apply Rle_ge. left. by apply Rinv_0_lt_compat. }
  assert (2 * Z.abs (a - q * b) < b) as Hz.
  { apply lt_IZR. rewrite mult_IZR, abs_IZR, minus_IZR, mult_IZR. rewrite Habs in H.
    apply (Rmult_lt_compat_r (IZR b)) in H; [|done].
    replace (Rabs (IZR a - IZR q * IZR b) / IZR b * IZR b)%R with (Rabs (IZR a - IZR q * IZR b)) in H by (field; lra). lra. }
  destruct s; symmetry; [apply (Z.div_unique _ _ _ (- (2 * a) + b + 2 * b * q))|apply (Z.div_unique _ _ _ (2 * a + b - 2 * b * q))]; lia.
Qed.

(** A number within [k] parts of an integer rounds to this integer. *)
Lemma within_round (k : R) (s : bool) m e q :
  (0 <= k)%R -> within k (fval m e) (IZR (Zpos q)) -> (k * IZR (Zpos q) * pow2 (-52) < 1 / 2)%R ->
  f_round (S754_finite s m e) = num_of_Z (if s then Zneg q else Zpos q).
Proof.
  unfold within. intros Hk Hw Hsmall. cbn [f_round].
  rewrite (round_Z_ok s m e (Zpos q)) by (eapply Rle_lt_trans; [exact Hw|]; lra). by destruct s.
Qed.

(** ** Chains of operations *)

(** A factor well inside the range, such as a rate. *)
Definition moderate (x : num) : bool :=
  match x with
  | S754_finite false m e => (-100 <=? magnitude m e) && (magnitude m e <=? 100)
  | _ => false
  end.

(** A finite number of sign [s] that is [x] up to [k] roundings. *)
Definition approx (s : bool) (v : num) (x k : R) : Prop :=
  exists m e, v = S754_finite s m e /\ within k (fval m e) x.

Section Chain.
Context (c : num) (mc : positive) (ec : Z) (Hc : c = S754_finite false mc ec) (Hin : inside 100 mc ec).

Local Abbreviation vc := (fval mc ec).

Lemma factor_pos : (0 < vc)%R.
Proof. apply fval_pos. Qed.

Lemma scale_down x a b : (pow2 a <= x < pow2 b)%R -> (pow2 (a - 100) <= x / vc < pow2 (b + 101))%R.
Proof.
  intros [Ha Hb]. destruct (inside_bounds _ _ _ Hin) as [H1 H2]. pose proof factor_pos as Hp.
  pose proof (pow2_pos a) as Pa. pose proof (pow2_pos 100) as P100.
  assert (pow2 (b + 101) * pow2 (- (100) - 1) = pow2 b)%R as Hb' by (rewrite <- pow2_add; f_equal; lia).
  pose proof (pow2_pos (b + 101)) as Pb. split.
  - rewrite pow2_sub. unfold Rdiv. apply Rmult_le_compat; [lra| |done|].
    + left. by apply Rinv_0_lt_compat.
    + apply Rinv_le_contravar; lra.
  - apply (Rmult_lt_reg_r vc); [done|]. replace (x / vc * vc)%R with x by (field; lra).
    apply Rlt_le_trans with (1 := Hb). rewrite <- Hb'. apply Rmult_le_compat_l; lra.
Qed.

Lemma scale_up_bounds x a b : (pow2 a <= x < pow2 b)%R -> (pow2 (a - 101) <= x * vc < pow2 (b + 100))%R.
Proof.
  intros [Ha Hb]. destruct (inside_bounds _ _ _ Hin) as [H1 H2]. pose proof (pow2_pos a).
  pose proof (pow2_pos (- (100) - 1)). pose proof (pow2_pos 100).
  assert (pow2 (a - 101) = pow2 a * pow2 (- (100) - 1))%R as -> by (rewrite <- pow2_add; f_equal; lia).
  assert (pow2 (b + 100) = pow2 b * pow2 100)%R as -> by apply pow2_add.
  split; [apply Rmult_le_compat; lra|]. apply Rmult_le_0_lt_compat; lra.
Qed.

Lemma approx_inside s v x k a b :
  approx s v x k -> (0 <= k <= 32)%R -> (pow2 a <= x < pow2 b)%R -> -390 <= a -> b <= 390 ->
  exists m e, v = S754_finite s m e /\ within k (fval m e) x /\ inside 400 m e.
Proof.
  intros (m & e & -> & Hw) Hk Hx Ha Hb. exists m, e. split_and!; [done..|].
  pose proof (within_bounds _ _ _ _ _ Hk Hw Hx) as [H1 H2]. apply inside_range. split.
  - apply Rle_trans with (2 := H1). apply pow2_le. lia.
  - apply Rlt_le_trans with (1 := H2). apply pow2_le. lia.
Qed.

Lemma factor_inside : inside 400 mc ec.
Proof. unfold inside in *. lia. Qed.

Lemma chain_div s v x k a b :
  approx s v x k -> (0 <= k <= 30)%R -> (pow2 a <= x < pow2 b)%R -> -390 <= a -> b <= 390 ->
  approx s (fdiv v c) (x / vc) (k + 1).
Proof.
  intros Hv Hk Hx Ha Hb. destruct (approx_inside _ _ _ _ _ _ Hv ltac:(lra) Hx Ha Hb) as (m & e & -> & Hw & Hi).
  rewrite Hc. destruct (fdiv_ok s m e false mc ec Hi factor_inside) as (m' & e' & -> & Hn).
  exists m', e'. rewrite xorb_false_r. split; [done|]. pose proof factor_pos. pose proof (pow2_pos a).
  apply (within_scale k (fval m e) x (/ vc)%R); [lra|lra|by apply Rinv_0_lt_compat|done|done].
Qed.

Lemma chain_mul s v x k a b :
  approx s v x k -> (0 <= k <= 30)%R -> (pow2 a <= x < pow2 b)%R -> -390 <= a -> b <= 390 ->
  approx s (fmul v c) (x * vc) (k + 1).
Proof.
  intros Hv Hk Hx Ha Hb. destruct (approx_inside _ _ _ _ _ _ Hv ltac:(lra) Hx Ha Hb) as (m & e & -> & Hw & Hi).
  rewrite Hc. destruct (fmul_ok s m e false mc ec Hi factor_inside) as (m' & e' & -> & Hn).
  exists m', e'. rewrite xorb_false_r. split; [done|]. pose proof factor_pos. pose proof (pow2_pos a).
  by apply (within_scale k (fval m e) x vc); [lra|lra|lra|..].
Qed.
End Chain.

(** Neither zero nor an infinity or [NaN]. *)
Definition ordinary (v : num) : Prop := is_finite v = true /\ ftruthy v = true.

Lemma approx_ordinary s v x k : approx s v x k -> ordinary v.
Proof. by intros (m & e & -> & _). Qed.

(** An integer of up to 48 digits is one rounding away from itself at most. *)
Lemma approx_integer (s : bool) q :
  Zpos q <= 2 ^ 48 -> approx s (num_of_Z (if s then Zneg q else Zpos q)) (IZR (Zpos q)) 1 /\
  (pow2 0 <= IZR (Zpos q) < pow2 49)%R.
Proof.
  intros Hq. assert (2 ^ 48 < 2 ^ 53 /\ 2 ^ 48 < 2 ^ 49) as [] by done. split.
  - destruct (num_of_Z_integral s q) as (m & e & -> & Hn & _); [lia|]. exists m, e. split; [done|].
    rewrite Hn. apply near_within, near_refl. left. apply IZR_lt. lia.
  - change (pow2 0) with 1%R. rewrite pow2_IZR by lia. split; [apply (IZR_le 1); lia|apply IZR_lt; lia].
Qed.

(** After at most seven roundings it is still found. *)
Lemma approx_round (s : bool) v q k :
  Zpos q <= 2 ^ 48 -> (0 <= k <= 7)%R -> approx s v (IZR (Zpos q)) k ->
  f_round v = num_of_Z (if s then Zneg q else Zpos q).
Proof.
  intros Hq Hk (m & e & -> & Hw). apply (within_round k); [lra|done|].
  apply IZR_le in Hq. rewrite <- (pow2_IZR 48) in Hq by lia.
  assert (pow2 48 * pow2 (-52) = 1 / 16)%R as Hp.
  { rewrite <- pow2_add. change (48 + -52) with (0 - 4). rewrite pow2_sub, (pow2_IZR 4) by lia.
    change (pow2 0) with 1%R. by change (2 ^ 4) with 16. }
  pose proof pow2_52_small. assert (1 <= IZR (Zpos q))%R by (apply IZR_le; lia).
  assert (IZR (Zpos q) * pow2 (-52) <= 1 / 16)%R by (rewrite <- Hp; apply Rmult_le_compat_r; lra). nra.
Qed.

Lemma moderate_spec c :
  moderate c = true -> exists m e, c = S754_finite false m e /\ inside 100 m e.
Proof.
  destruct c as [| | |[] m e]; try done. cbn [moderate]. intros H. exists m, e. split; [done|].
  unfold inside. bool_to_prop. lia.
Qed.

(** Dividing an integer of up to 48 binary digits by a factor and multiplying it back gives, after
    [Math.round], the integer. *)
Lemma scaled_integer (s : bool) q c :
  Zpos q <= 2 ^ 48 -> moderate c = true ->
  let n := num_of_Z (if s then Zneg q else Zpos q) in f_round (fmul (fdiv n c) c) = n /\ ordinary (fdiv n c).
Proof.
  intros Hq (m & e & Hc & Hin)%moderate_spec. cbn zeta.
  destruct (approx_integer s q Hq) as [H0 Hr]. pose proof (fval_pos m e).
  assert (approx s (fdiv (num_of_Z (if s then Zneg q else Zpos q)) c) (IZR (Zpos q) / fval m e) (1 + 1)) as H1
    by (eapply chain_div; [done..|lra|exact Hr|lia|lia]).
  split; [|by eapply approx_ordinary].
  pose proof (scale_down m e Hin _ _ _ Hr) as Hr1.
  eapply (chain_mul c m e Hc Hin) in H1; [|lra|exact Hr1|lia|lia].
  replace (IZR (Zpos q) / fval m e * fval m e)%R with (IZR (Zpos q)) in H1 by (field; lra).
  by eapply approx_round; [done| |exact H1]; lra.
Qed.

(** The same with a second factor in between. *)
Lemma scaled_twice (s : bool) q c r :
  Zpos q <= 2 ^ 48 -> moderate c = true -> moderate r = true ->
  let n := num_of_Z (if s then Zneg q else Zpos q) in
  let d := fmul (fdiv n c) r in f_round (fmul (fdiv d r) c) = n /\ ordinary d.
Proof.
  intros Hq (m & e & Hc & Hin)%moderate_spec (m' & e' & Hc' & Hin')%moderate_spec. cbn zeta.
  destruct (approx_integer s q Hq) as [H0 Hr]. pose proof (fval_pos m e). pose proof (fval_pos m' e').
  eapply (chain_div c m e Hc Hin) in H0; [|lra|exact Hr|lia|lia].
  pose proof (scale_down m e Hin _ _ _ Hr) as Hr1.
  eapply (chain_mul r m' e' Hc' Hin') in H0; [|lra|exact Hr1|lia|lia].
  split; [|by eapply approx_ordinary].
  pose proof (scale_up_bounds m' e' Hin' _ _ _ Hr1) as Hr2.
  eapply (chain_div r m' e' Hc' Hin') in H0; [|lra|exact Hr2|lia|lia].
  replace (IZR (Zpos q) / fval m e * fval m' e' / fval m' e')%R with (IZR (Zpos q) / fval m e)%R in H0 by (field; lra).
  eapply (chain_mul c m e Hc Hin) in H0; [|lra|exact Hr1|lia|lia].
  replace (IZR (Zpos q) / fval m e * fval m e)%R with (IZR (Zpos q)) in H0 by (field; lra).
  by eapply approx_round; [done| |exact H0]; lra.
Qed.
