(* ===== verification/Format.v ===== *)
(** * Formatting of numbers, quota, times and tags

    [web/default/src/lib/format.ts]: the formatters shared by the pages, the two conversions between
    quota units and the amount of the input fields ([quotaUnitsToDollars], [parseQuotaFromDollars]),
    and the colour of a tag. [Intl.NumberFormat], [dayjs] and the reading of a date by [new Date(text)]
    are parameters. [seconds_roundtrip] and [quota_roundtrip] rest on [FloatBounds]. *)

From Stdlib Require Import Reals Lra.
From S2P Require Import Prelude JsString JsNumber Json Currency FloatBounds.
Open Scope Z_scope.

(** ** Remainder and dates *)

(** [x % y] of finite numbers: the remainder of the truncated quotient, with the sign of [x]; it is
    exact, so the two mantissas are brought to one exponent. *)
Definition fmod (x y : num) : num :=
  match x, y with
  | S754_nan, _ | _, S754_nan | S754_infinity _, _ | _, S754_zero _ => nan
  | S754_zero _, _ | _, S754_infinity _ => x
  | S754_finite s m e, S754_finite _ m' e' =>
      let e0 := Z.min e e' in
      let r := Z.rem (Zpos m * 2 ^ (e - e0)) (Zpos m' * 2 ^ (e' - e0)) in
      binary_normalize 53 1024 (if s then - r else r) e0 s
  end.

(** A [Date] is its time value in milliseconds, [NaN] when it is invalid. *)
Definition Date : Type := num.

Definition f_trunc (x : num) : num :=
  match x with
  | S754_finite s m e => let '(a, b) := ratio m e in num_of_Z (if s then - (a / b) else a / b)
  | _ => zero
  end.

(** [new Date(ms)] *)
Definition new_Date (ms : num) : Date :=
  if negb (is_finite ms) then nan
  else if flt (num_of_Z 8640000000000000) (fabs ms) then nan
  else f_trunc ms.

(** [Math.floor(date.getTime() / 1000)] *)
Definition date_seconds (d : Date) : num := f_floor (fdiv d (num_of_Z 1000)).

(** [new Date(seconds * 1000)] *)
Definition seconds_date (t : num) : Date := new_Date (fmul t (num_of_Z 1000)).

(** ** Numbers *)

Section Formatters.
Context (currencyFormat : jstr -> nat -> num -> jstr) (decimalFormat : nat -> num -> jstr).
Context (compactFormat percentFormat : nat -> num -> jstr).
(** [dayjs(ms).format(pattern)] *)
Context (dayjsFormat : num -> jstr -> jstr).

Definition formatNumber (value : option num) : jstr := or_dash value (decimalFormat 2).

Definition formatCompactNumber (value : option num) : jstr := or_dash value (compactFormat 1).

Definition formatPercent (value : option num) : jstr :=
  or_dash value (fun v => percentFormat 2 (fdiv v (num_of_Z 100))).

Definition formatCurrencyUSD (state : option StoredCurrency) (value : option num) : jstr :=
  formatCurrencyFromUSD currencyFormat decimalFormat state value None.

(** ** Quota *)

Definition quota_options (large small : nat) (abbr : bool) (credit : option bool)
    : option CurrencyFormatOptions :=
  Some {| o_digitsLarge := Some large; o_digitsSmall := Some small; o_abbreviate := Some abbr;
          o_minimumNonZero := None; o_useCreditDisplay := credit |}.

Definition formatQuota (state : option StoredCurrency) (quota : num) : jstr :=
  formatQuotaWithCurrency currencyFormat decimalFormat state (Some quota) (quota_options 2 4 true None).

Definition formatQuotaInternal (state : option StoredCurrency) (quota : num) : jstr :=
  formatQuotaWithCurrency currencyFormat decimalFormat state (Some quota)
    (quota_options 2 4 true (Some false)).

Definition formatLogQuota (state : option StoredCurrency) (quota : num) : jstr :=
  formatQuotaWithCurrency currencyFormat decimalFormat state (Some quota) (quota_options 4 6 false None).

(** ** Times *)

Definition minus_one : num := num_of_Z (-1).

Inductive TimestampUnit := Seconds | Milliseconds.

Definition formatTimestampToDate (timestamp : option num) (unit : TimestampUnit) : jstr :=
  match timestamp with
  | None => u "-"
  | Some t =>
      if negb (ftruthy t) || feq t minus_one || feq t zero then u "-" else
      let ms := match unit with Seconds => fmul t (num_of_Z 1000) | Milliseconds => t end in
      dayjsFormat ms (u "YYYY-MM-DD HH:mm:ss")
  end.

Definition formatTimestamp (timestamp : num) : jstr :=
  if feq timestamp minus_one then u "Never" else formatTimestampToDate (Some timestamp) Seconds.

Definition formatDateTimeStr (date : Date) : jstr := dayjsFormat date (u "YYYY-MM-DD HH:mm:ss").
Definition formatDateStr (date : Date) : jstr := dayjsFormat date (u "YYYY-MM-DD").
Definition formatTimeStr (date : Date) : jstr := dayjsFormat date (u "HH:mm:ss").

Definition formatTimestampForInput (timestamp : num) : jstr :=
  if feq timestamp minus_one then []
  else dayjsFormat (fmul timestamp (num_of_Z 1000)) (u "YYYY-MM-DDTHH:mm").
End Formatters.

(** [dateOf value] is [new Date(value)]. *)
Definition parseTimestampFromInput (dateOf : jstr -> Date) (value : jstr) : num :=
  if negb (truthy value) then minus_one else date_seconds (dateOf value).

Definition formatTokens (tokens : num) : jstr :=
  if feq tokens zero then u "-"
  else if flt tokens (num_of_Z 1000) then num_to_string tokens
  else if flt tokens (num_of_Z 1000000) then to_fixed 1 (fdiv tokens (num_of_Z 1000)) ++ u "K"
  else to_fixed 2 (fdiv tokens (num_of_Z 1000000)) ++ u "M".

Definition formatUseTime (seconds : num) : jstr :=
  if flt seconds (num_of_Z 60) then to_fixed 1 seconds ++ u "s" else
  let minutes := f_floor (fdiv seconds (num_of_Z 60)) in
  let remainingSeconds := fmod seconds (num_of_Z 60) in
  num_to_string minutes ++ u "m " ++ to_fixed 0 remainingSeconds ++ u "s".

(** ** Quota units and displayed amounts *)

(** [config.creditDisplay.enabled && config.creditDisplay.quotaPerCredit > 0] *)
Definition credit_shown (config : CurrencyConfig) : bool :=
  credit_enabled (creditDisplay config) && flt zero (quotaPerCredit (creditDisplay config)).

Definition parseQuotaFromDollars (state : option StoredCurrency) (amount : num) : num :=
  if negb (is_finite amount) then zero else
  let '(config, meta) := getCurrencyDisplay state in
  if credit_shown config then f_round (fmul amount (quotaPerCredit (creditDisplay config))) else
  match meta with
  | MetaTokens _ => f_round amount
  | MetaCurrency _ _ exchangeRate | MetaCustom _ exchangeRate =>
      let usdAmount := if flt zero exchangeRate then fdiv amount exchangeRate else amount in
      f_round (fmul usdAmount (quotaPerUnit config))
  end.

Definition quotaUnitsToDollars (state : option StoredCurrency) (units : num) : num :=
  let '(config, meta) := getCurrencyDisplay state in
  if credit_shown config then fdiv units (quotaPerCredit (creditDisplay config)) else
  match meta with
  | MetaTokens _ => units
  | MetaCurrency _ _ exchangeRate | MetaCustom _ exchangeRate =>
      let usdAmount := fdiv units (quotaPerUnit config) in fmul usdAmount exchangeRate
  end.

(** ** Colours of tags *)

(** [x | 0]: the signed 32-bit integer congruent to [x]. *)
Definition to_int32 (x : Z) : Z := (x + 2 ^ 31) mod 2 ^ 32 - 2 ^ 31.

(** One round of the loop; the sum is exact in a number, [hash & hash] brings it to 32 bits. *)
Definition hash_step (hash : Z) (c : N) : Z :=
  to_int32 (Z.of_N c + (to_int32 (Z.shiftl hash 5) - hash)).

Definition hash_string (str : jstr) : Z := fold_left hash_step str 0.

(** The hue, the saturation and the lightness. *)
Definition hash_color (hash : Z) : Z * Z * Z :=
  (Z.abs (Z.rem hash 360), 65 + Z.rem (Z.abs hash) 10, 55 + Z.rem (Z.abs (Z.shiftr hash 8)) 10).

Definition stringToColor (str : jstr) : jstr :=
  if negb (truthy str) then u "gray" else
  let '(hue, saturation, lightness) := hash_color (hash_string str) in
  u "hsl(" ++ string_of_int hue ++ u ", " ++ string_of_int saturation ++ u "%, " ++
  string_of_int lightness ++ u "%)".

Example color_gpt : stringToColor (u "gpt-4") = u "hsl(218, 73%, 62%)".
Proof. reflexivity. Qed.

Example use_time : formatUseTime (num_of_decimal false 1254 (-1)) = u "2m 5s".
Proof. reflexivity. Qed.

(** A remainder between 59.5 and 60 is shown as sixty seconds. *)
Example use_time_sixty : formatUseTime (num_of_decimal false 1196 (-1)) = u "1m 60s".
Proof. reflexivity. Qed.

(** ** Colours are in their ranges *)

Lemma to_int32_range x : - 2 ^ 31 <= to_int32 x < 2 ^ 31.
Proof. unfold to_int32. pose proof (Z.mod_pos_bound (x + 2 ^ 31) (2 ^ 32)). lia. Qed.

Lemma hash_string_range str : - 2 ^ 31 <= hash_string str < 2 ^ 31.
Proof.
  unfold hash_string. induction str as [|c str _] using rev_ind; [done|].
  rewrite fold_left_app. apply to_int32_range.
Qed.

(** The colour of a tag has a hue below 360, a saturation of 65 to 74 and a lightness of 55 to 64
    percent, whatever the name. *)
Theorem color_ranges str :
  let '(hue, saturation, lightness) := hash_color (hash_string str) in
  0 <= hue < 360 /\ 65 <= saturation <= 74 /\ 55 <= lightness <= 64.
Proof.
  unfold hash_color. set (h := hash_string str).
  pose proof (Z.rem_bound_abs h 360 ltac:(lia)). pose proof (Z.rem_bound_pos (Z.abs h) 10 ltac:(lia) ltac:(lia)).
  pose proof (Z.rem_bound_pos (Z.abs (Z.shiftr h 8)) 10 ltac:(lia) ltac:(lia)). lia.
Qed.

(** ** Times in seconds *)

Lemma trunc_integral s v z : integral s v z -> f_trunc v = num_of_Z (if s then Zneg z else Zpos z).
Proof.
  intros (m & e & -> & Hv & _). pose proof (integral_ratio m e z Hv) as H. unfold f_trunc.
  destruct (ratio m e) as [a b]. destruct H as [-> _]. by destruct s.
Qed.

(** A time in seconds survives the detour over a [Date]. *)
Lemma seconds_roundtrip t : 0 < t <= 8640000000000 -> date_seconds (seconds_date (num_of_Z t)) = num_of_Z t.
Proof.
  intros Ht. destruct t as [|t|]; [lia| |lia]. unfold date_seconds, seconds_date.
  pose proof (num_of_Z_integral false t ltac:(lia)) as H1. cbn iota in H1.
  pose proof (num_of_Z_integral false 1000 ltac:(lia)) as H2. cbn iota in H2.
  pose proof (fmul_integral _ _ _ _ _ H1 H2 ltac:(lia)) as H3.
  assert (new_Date (fmul (num_of_Z (Zpos t)) (num_of_Z 1000)) = num_of_Z (Zpos (t * 1000))) as ->.
  { unfold new_Date. destruct H3 as (m & e & Hm & H3). rewrite Hm. cbn [is_finite negb fabs SFabs].
    rewrite (integral_flt _ _ (t * 1000) 8640000000000000); [|by exists m, e|by apply (num_of_Z_integral false)|lia].
    by apply (trunc_integral false); exists m, e. }
  apply (floor_integral false), (fdiv_integral false _ _ _ 1000); [|done|lia].
  apply (num_of_Z_integral false). lia.
Qed.

(** ** Quota *)

(** The factors of the display are far from the ends of the range: between [2^-100] and [2^100]. *)
Definition moderate_display (state : option StoredCurrency) : bool :=
  let config := getConfig state in
  moderate (quotaPerCredit (creditDisplay config)) && moderate (quotaPerUnit config) &&
  moderate (usdExchangeRate config) && moderate (customCurrencyExchangeRate config).

Lemma moderate_positive c : moderate c = true -> flt zero c = true.
Proof. intros (m & e & -> & _)%moderate_spec. done. Qed.

Lemma moderate_zero c : moderate c = true -> fdiv zero c = zero /\ fmul zero c = zero.
Proof. by intros (m & e & -> & _)%moderate_spec. Qed.

Lemma one_moderate : moderate (num_of_Z 1) = true.
Proof. reflexivity. Qed.

Lemma display_rate state :
  moderate_display state = true ->
  match (getCurrencyDisplay state).2 with
  | MetaCurrency _ _ rate | MetaCustom _ rate => moderate rate = true
  | MetaTokens _ => True
  end.
Proof.
  unfold moderate_display, getCurrencyDisplay, getDisplayMeta. cbn [snd]. intros H. bool_to_prop.
  destruct (quotaDisplayType (getConfig state)); done.
Qed.

Lemma one_rounding : (0 <= 1 <= 7)%R.
Proof. lra. Qed.

(** An integer of sign [s] in the field and back; the field does not show zero. *)
Lemma quota_signed state (s : bool) q :
  moderate_display state = true -> Zpos q <= 2 ^ 48 ->
  let n := num_of_Z (if s then Zneg q else Zpos q) in
  parseQuotaFromDollars state (quotaUnitsToDollars state n) = n /\ ordinary (quotaUnitsToDollars state n).
Proof.
  intros Hm Hq. cbn zeta. pose proof (display_rate state Hm) as Hr. unfold moderate_display in Hm. bool_to_prop.
  unfold parseQuotaFromDollars, quotaUnitsToDollars. unfold getCurrencyDisplay in *. cbn [snd] in Hr.
  destruct (credit_shown (getConfig state)) eqn:Hc.
  - destruct (scaled_integer s q (quotaPerCredit (creditDisplay (getConfig state)))) as [E [F G]]; [done..|].
    by rewrite F.
  - assert (forall r, moderate r = true -> forall n, n = num_of_Z (if s then Zneg q else Zpos q) ->
      let d := fmul (fdiv n (quotaPerUnit (getConfig state))) r in
      (if negb (is_finite d) then zero else
       f_round (fmul (if flt zero r then fdiv d r else d) (quotaPerUnit (getConfig state)))) = n /\ ordinary d) as Hrate.
    { intros r Hr' n ->. cbn zeta. destruct (scaled_twice s q (quotaPerUnit (getConfig state)) r) as [E [F G]]; [done..|].
      by rewrite F, (moderate_positive r Hr'). }
    destruct (getDisplayMeta (getConfig state)) as [sym code r|sym r|per]; [by apply Hrate..|].
    destruct (approx_integer s q Hq) as [Ha _]. destruct (approx_ordinary _ _ _ _ Ha) as [F G]. rewrite F.
    split; [|done]. exact (approx_round s _ q _ Hq one_rounding Ha).
Qed.

Lemma parse_zero state : moderate_display state = true -> parseQuotaFromDollars state zero = zero.
Proof.
  intros Hm. pose proof (display_rate state Hm) as Hr. unfold moderate_display in Hm. bool_to_prop.
  unfold parseQuotaFromDollars. unfold getCurrencyDisplay in *. cbn [snd] in Hr. cbn [is_finite negb zero].
  destruct (moderate_zero (quotaPerCredit (creditDisplay (getConfig state)))) as [C1 C2]; [done|].
  destruct (moderate_zero (quotaPerUnit (getConfig state))) as [U1 U2]; [done|].
  destruct (credit_shown (getConfig state)); [by rewrite C2|].
  destruct (getDisplayMeta (getConfig state)) as [sym code r|sym r|per]; [| |done];
    rewrite (moderate_positive r Hr), (proj1 (moderate_zero r Hr)), U2; done.
Qed.

Lemma units_zero state : moderate_display state = true -> quotaUnitsToDollars state zero = zero.
Proof.
  intros Hm. pose proof (display_rate state Hm) as Hr. unfold moderate_display in Hm. bool_to_prop.
  unfold quotaUnitsToDollars. unfold getCurrencyDisplay in *. cbn [snd] in Hr.
  destruct (moderate_zero (quotaPerCredit (creditDisplay (getConfig state)))) as [C1 C2]; [done|].
  destruct (moderate_zero (quotaPerUnit (getConfig state))) as [U1 U2]; [done|].
  destruct (credit_shown (getConfig state)); [by rewrite C1|].
  destruct (getDisplayMeta (getConfig state)) as [sym code r|sym r|per]; [| |done];
    rewrite U1, (proj2 (moderate_zero r Hr)); done.
Qed.

Lemma quota_zero state :
  moderate_display state = true -> parseQuotaFromDollars state (quotaUnitsToDollars state zero) = zero.
Proof. intros Hm. rewrite units_zero by done. by apply parse_zero. Qed.

(** A field cleared to zero with [|| 0] keeps the round trip. *)
Lemma quota_or_zero state q :
  moderate_display state = true -> Z.abs q <= 2 ^ 48 ->
  parseQuotaFromDollars state (f_or (quotaUnitsToDollars state (num_of_Z q)) zero) = num_of_Z q.
Proof.
  intros Hm Hq. unfold f_or. destruct q as [|q|q].
  - destruct (ftruthy _); [by apply quota_zero|]. by apply parse_zero.
  - destruct (quota_signed state false q Hm Hq) as [E [_ ->]]. done.
  - destruct (quota_signed state true q Hm Hq) as [E [_ ->]]. done.
Qed.

(** C17: bounds of the quota fields: for an integer quota of at most [2^48] units in absolute value
    (more than 500 million dollars at the default 500000 units per dollar), reading back the amount
    shown for it gives exactly the same quota, in every display (credits, dollars, another currency,
    tokens) and for every rate between [2^-100] and [2^100]: the three or four roundings in between
    never move the result to another integer, and nothing overflows. *)
Theorem quota_roundtrip state q :
  moderate_display state = true -> Z.abs q <= 2 ^ 48 ->
  parseQuotaFromDollars state (quotaUnitsToDollars state (num_of_Z q)) = num_of_Z q.
Proof.
  intros Hm Hq. destruct q as [|q|q]; [by apply quota_zero|by apply (quota_signed state false)|].
  by apply (quota_signed state true).
Qed.

Definition yuan_display : option StoredCurrency :=
  Some {| st_displayInCurrency := None; st_quotaDisplayType := Some CNY; st_quotaPerUnit := None;
          st_usdExchangeRate := Some (num_of_decimal false 73 (-1)); st_customCurrencySymbol := None;
          st_customCurrencyExchangeRate := None;
          st_creditDisplay := Some {| st_enabled := Some false; st_label := None;
                                      st_quotaPerCredit := None; st_precision := None |} |}.

Lemma quota_roundtrip_witness :
  moderate_display yuan_display = true /\
  parseQuotaFromDollars yuan_display (quotaUnitsToDollars yuan_display (num_of_Z 123457)) = num_of_Z 123457.
Proof. split; [reflexivity|]. apply quota_roundtrip; [reflexivity|lia]. Defined.

(** Past [2^51] a unit may be lost. *)
Example quota_unit_lost :
  parseQuotaFromDollars yuan_display (quotaUnitsToDollars yuan_display (num_of_Z 4421856776554443))
  = num_of_Z 4421856776554444.
Proof. reflexivity. Qed.
