(* ===== verification/KeyForms.v ===== *)
(** * Forms of keys, redemption codes and users

    [web/default/src/features/keys/lib/api-key-form.ts],
    [features/redemption-codes/lib/redemption-form.ts] and [utils.ts],
    [features/users/lib/user-form.ts] and the quota dialog
    ([features/users/components/user-quota-dialog.tsx]): what a form shows of a record of the server
    and what it sends back. The amounts go through [Format], so an unchanged form sends the quota it was
    given ([key_roundtrip], [redemption_roundtrip]). *)

From S2P Require Import Prelude JsString JsNumber Json Currency FloatBounds Format.
Open Scope Z_scope.

(** [s || d] of an optional text. *)
Definition text_or (s : option jstr) (d : jstr) : jstr :=
  match s with Some t => if truthy t then t else d | None => d end.

(** [x || d] of an optional number. *)
Definition num_or (x : option num) (d : num) : num := match x with Some v => f_or v d | None => d end.

(** [Boolean(b)] of an optional boolean. *)
Definition is_true (b : option bool) : bool := match b with Some true => true | _ => false end.

(** [z.number().min(lo)], of an optional field: a number of the schema is finite. *)
Definition opt_min (lo : Z) (x : option num) : bool :=
  match x with Some v => is_finite v && fle (num_of_Z lo) v | None => true end.

(** [z.date().optional()] *)
Definition opt_date (d : option Date) : bool := match d with Some v => negb (is_nan v) | None => true end.

(** The form of a time in seconds, and back with the mark [never] of a record without one. *)
Definition expiry_date (t : num) : option Date := if flt zero t then Some (seconds_date t) else None.

Definition expiry_seconds (never : num) (d : option Date) : num :=
  match d with Some v => date_seconds v | None => never end.

Lemma expiry_roundtrip never t :
  0 < t <= 8640000000000 \/ ((t = -1 \/ t = 0) /\ never = num_of_Z t) ->
  expiry_seconds never (expiry_date (num_of_Z t)) = num_of_Z t.
Proof.
  unfold expiry_date. intros [Ht|[[-> | ->] ->]]; [|done..].
  destruct t as [|t|]; [lia| |lia].
  destruct (num_of_Z_integral false t ltac:(lia)) as (m & e & Hm & _). cbn iota in Hm.
  assert (flt zero (num_of_Z (Zpos t)) = true) as -> by (by rewrite Hm). by apply seconds_roundtrip.
Qed.

(** ** Keys *)

(** The fields the forms read; one of type [string | null | undefined] is an option. *)
Record ApiKey := {
  ak_id : Z;
  ak_name : jstr;
  ak_status : Z;
  ak_remain_quota : num;
  ak_unlimited_quota : bool;
  ak_expired_time : num;
  ak_group : option jstr;
  ak_cross_group_retry : option bool;
  ak_model_limits_enabled : bool;
  ak_model_limits : option jstr;
  ak_allow_ips : option jstr
}.

Record ApiKeyFormData := {
  kp_name : jstr;
  kp_remain_quota : num;
  kp_expired_time : num;
  kp_unlimited_quota : bool;
  kp_model_limits_enabled : bool;
  kp_model_limits : jstr;
  kp_allow_ips : jstr;
  kp_group : jstr;
  kp_cross_group_retry : bool
}.

Record ApiKeyFormValues := {
  kf_name : jstr;
  kf_remain_quota_dollars : option num;
  kf_expired_time : option Date;
  kf_unlimited_quota : bool;
  kf_model_limits : list jstr;
  kf_allow_ips : option jstr;
  kf_group : option jstr;
  kf_cross_group_retry : option bool;
  kf_tokenCount : option num
}.

Definition apiKeyFormSchema (v : ApiKeyFormValues) : bool :=
  (1 <=? Z.of_nat (length (kf_name v))) && opt_min 0 (kf_remain_quota_dollars v) &&
  opt_date (kf_expired_time v) && opt_min 1 (kf_tokenCount v).

Definition API_KEY_DEFAULT_GROUP : jstr := [].

Definition API_KEY_FORM_DEFAULT_VALUES : ApiKeyFormValues :=
  {| kf_name := []; kf_remain_quota_dollars := Some (num_of_Z 10); kf_expired_time := None;
     kf_unlimited_quota := true; kf_model_limits := []; kf_allow_ips := Some [];
     kf_group := Some API_KEY_DEFAULT_GROUP; kf_cross_group_retry := Some true;
     kf_tokenCount := Some (num_of_Z 1) |}.

Definition getApiKeyFormDefaultValues (defaultUseAutoGroup : bool) : ApiKeyFormValues :=
  let d := API_KEY_FORM_DEFAULT_VALUES in
  {| kf_name := kf_name d; kf_remain_quota_dollars := kf_remain_quota_dollars d;
     kf_expired_time := kf_expired_time d; kf_unlimited_quota := kf_unlimited_quota d;
     kf_model_limits := kf_model_limits d; kf_allow_ips := kf_allow_ips d;
     kf_group := Some (if defaultUseAutoGroup then u "auto" else API_KEY_DEFAULT_GROUP);
     kf_cross_group_retry := Some defaultUseAutoGroup; kf_tokenCount := kf_tokenCount d |}.

Definition key_payload (state : option StoredCurrency) (data : ApiKeyFormValues) : ApiKeyFormData :=
  {| kp_name := kf_name data;
     kp_remain_quota := if kf_unlimited_quota data then zero
                        else parseQuotaFromDollars state (num_or (kf_remain_quota_dollars data) zero);
     kp_expired_time := expiry_seconds minus_one (kf_expired_time data);
     kp_unlimited_quota := kf_unlimited_quota data;
     kp_model_limits_enabled := negb (bool_decide (kf_model_limits data = []));
     kp_model_limits := join (u ",") (kf_model_limits data);
     kp_allow_ips := text_or (kf_allow_ips data) [];
     kp_group := text_or (kf_group data) [];
     kp_cross_group_retry := if bool_decide (kf_group data = Some (u "auto"))
                             then is_true (kf_cross_group_retry data) else false |}.

(** [text ? text.split(',').filter(Boolean) : []] *)
Definition limits_list (text : option jstr) : list jstr :=
  match text with
  | Some s => if truthy s then jfilter truthy (split_on (ch ",") s) else []
  | None => []
  end.

Definition transformApiKeyToFormDefaults (state : option StoredCurrency) (apiKey : ApiKey)
    : ApiKeyFormValues :=
  {| kf_name := ak_name apiKey;
     kf_remain_quota_dollars := Some (quotaUnitsToDollars state (ak_remain_quota apiKey));
     kf_expired_time := expiry_date (ak_expired_time apiKey);
     kf_unlimited_quota := ak_unlimited_quota apiKey;
     kf_model_limits := limits_list (ak_model_limits apiKey);
     kf_allow_ips := Some (text_or (ak_allow_ips apiKey) []);
     kf_group := Some (text_or (ak_group apiKey) API_KEY_DEFAULT_GROUP);
     kf_cross_group_retry := Some (is_true (ak_cross_group_retry apiKey));
     kf_tokenCount := Some (num_of_Z 1) |}.

(** ** Redemption codes *)

Record Redemption := {
  rd_id : Z;
  rd_name : jstr;
  rd_status : Z;
  rd_quota : num;
  rd_expired_time : num
}.

Record RedemptionFormValues := {
  rf_name : jstr;
  rf_quota_dollars : num;
  rf_expired_time : option Date;
  rf_count : option num
}.

Record RedemptionFormData := {
  rp_name : jstr;
  rp_quota : num;
  rp_expired_time : num;
  rp_count : num
}.

Definition getRedemptionFormSchema (v : RedemptionFormValues) : bool :=
  (1 <=? Z.of_nat (length (rf_name v))) && (Z.of_nat (length (rf_name v)) <=? 20) &&
  opt_min 0 (Some (rf_quota_dollars v)) && opt_date (rf_expired_time v) &&
  opt_min 1 (rf_count v) && match rf_count v with Some c => fle c (num_of_Z 100) | None => true end.

Definition REDEMPTION_FORM_DEFAULT_VALUES : RedemptionFormValues :=
  {| rf_name := []; rf_quota_dollars := num_of_Z 10; rf_expired_time := None;
     rf_count := Some (num_of_Z 1) |}.

Definition redemption_payload (state : option StoredCurrency) (data : RedemptionFormValues)
    : RedemptionFormData :=
  {| rp_name := rf_name data;
     rp_quota := parseQuotaFromDollars state (rf_quota_dollars data);
     rp_expired_time := expiry_seconds zero (rf_expired_time data);
     rp_count := num_or (rf_count data) (num_of_Z 1) |}.

Definition transformRedemptionToFormDefaults (state : option StoredCurrency) (redemption : Redemption)
    : RedemptionFormValues :=
  {| rf_name := rd_name redemption;
     rf_quota_dollars := quotaUnitsToDollars state (rd_quota redemption);
     rf_expired_time := expiry_date (rd_expired_time redemption);
     rf_count := Some (num_of_Z 1) |}.

(** [now] is [Date.now()]. *)
Definition isTimestampExpired (now timestamp : num) : bool :=
  if feq timestamp zero then false else flt timestamp (fdiv now (num_of_Z 1000)).

Definition isRedemptionExpired (now expired_time : num) (status : Z) : bool :=
  (status =? 1) && isTimestampExpired now expired_time.

(** ** Users *)

Record User := {
  us_id : Z;
  us_username : jstr;
  us_display_name : jstr;
  us_quota : num;
  us_group : jstr;
  us_role : Z;
  us_remark : option jstr
}.

Record UserFormValues := {
  uf_username : jstr;
  uf_display_name : option jstr;
  uf_password : option jstr;
  uf_role : option Z;
  uf_quota_dollars : option num;
  uf_group : option jstr;
  uf_remark : option jstr
}.

(** A field set to [undefined] or not set is [None]; neither reaches the text of the request. *)
Record UserFormData := {
  up_id : option Z;
  up_username : jstr;
  up_display_name : jstr;
  up_password : option jstr;
  up_role : option Z;
  up_group : option jstr;
  up_remark : option jstr
}.

Definition userFormSchema (v : UserFormValues) : bool :=
  (1 <=? Z.of_nat (length (uf_username v))) && opt_min 0 (uf_quota_dollars v).

Definition USER_DEFAULT_GROUP : jstr := u "default".

Definition USER_FORM_DEFAULT_VALUES : UserFormValues :=
  {| uf_username := []; uf_display_name := Some []; uf_password := Some []; uf_role := Some 1;
     uf_quota_dollars := Some zero; uf_group := Some USER_DEFAULT_GROUP; uf_remark := Some [] |}.

(** [s || undefined] *)
Definition text_or_none (s : option jstr) : option jstr :=
  match s with Some t => if truthy t then Some t else None | None => None end.

Definition user_payload (data : UserFormValues) (userId : option Z) : UserFormData :=
  let payload role group remark :=
    {| up_id := userId; up_username := uf_username data;
       up_display_name := text_or (uf_display_name data) (uf_username data);
       up_password := text_or_none (uf_password data);
       up_role := role; up_group := group; up_remark := remark |} in
  match userId with
  | None => payload (Some (match uf_role data with Some 0 | None => 1 | Some r => r end)) None None
  | Some _ => payload None (uf_group data) (text_or_none (uf_remark data))
  end.

Definition transformUserToFormDefaults (state : option StoredCurrency) (user : User) : UserFormValues :=
  {| uf_username := us_username user; uf_display_name := Some (us_display_name user);
     uf_password := Some []; uf_role := Some (us_role user);
     uf_quota_dollars := Some (quotaUnitsToDollars state (us_quota user));
     uf_group := Some (text_or (Some (us_group user)) USER_DEFAULT_GROUP);
     uf_remark := Some (text_or (us_remark user) []) |}.

(** ** The quota of a user *)

Inductive QuotaAdjustMode := Add | Subtract | Override.

#[export] Instance adjust_mode_eq_dec : EqDecision QuotaAdjustMode.
Proof. solve_decision. Defined.

Record QuotaDialog := {
  qd_mode : QuotaAdjustMode;
  qd_amount : jstr;
  qd_loading : bool;
  qd_open : bool
}.

(** What the server answers. *)
Record ApiAnswer := { success : bool; message : option jstr }.

Inductive Toast := ToastSuccess (text : jstr) | ToastError (text : jstr).

(** A rejected request has the message of the exception when it is an [Error]. *)
Inductive Answer := Answered (a : ApiAnswer) | Rejected (message : option jstr).

Definition amountValue (d : QuotaDialog) : num := f_or (parse_float (qd_amount d)) zero.

Definition quotaValue (state : option StoredCurrency) (d : QuotaDialog) : num :=
  parseQuotaFromDollars state (fabs (amountValue d)).

(** The quota the preview shows after the adjustment. *)
Definition preview_quota (state : option StoredCurrency) (current : num) (d : QuotaDialog) : num :=
  match qd_mode d with
  | Add => fadd current (quotaValue state d)
  | Subtract => fsub current (quotaValue state d)
  | Override => parseQuotaFromDollars state (amountValue d)
  end.

Definition getPreviewText (formatQuota : num -> jstr) (t : jstr -> jstr) (state : option StoredCurrency)
    (current : num) (d : QuotaDialog) : jstr :=
  let head := t (u "Current quota") ++ u ": " ++ formatQuota current in
  let result := formatQuota (preview_quota state current d) in
  match qd_mode d with
  | Add => head ++ u "  +" ++ formatQuota (quotaValue state d) ++ u " = " ++ result
  | Subtract => head ++ u "  -" ++ formatQuota (quotaValue state d) ++ u " = " ++ result
  | Override => head ++ u " → " ++ result
  end.

(** The request of [handleConfirm] up to its [await]: the mode and the value, if one is sent. *)
Definition confirm_request (state : option StoredCurrency) (d : QuotaDialog) : option (QuotaAdjustMode * num) :=
  let override := bool_decide (qd_mode d = Override) in
  if negb (truthy (qd_amount d)) && negb override then None
  else if fle (quotaValue state d) zero && negb override then None
  else
    let value := if override then parseQuotaFromDollars state (amountValue d) else quotaValue state d in
    Some (qd_mode d, if override then value else fabs value).

Definition closed_dialog : QuotaDialog :=
  {| qd_mode := Add; qd_amount := []; qd_loading := false; qd_open := false |}.

(** [handleConfirm]: the request sent, the dialog and the toast when its answer is there, and whether
    [onSuccess] was called. *)
Definition handleConfirm (t : jstr -> jstr) (state : option StoredCurrency)
    (respond : QuotaAdjustMode * num -> Answer) (d : QuotaDialog)
    : option (QuotaAdjustMode * num) * QuotaDialog * option Toast * bool :=
  match confirm_request state d with
  | None => (None, d, None, false)
  | Some request =>
      let failed := {| qd_mode := qd_mode d; qd_amount := qd_amount d; qd_loading := false;
                       qd_open := qd_open d |} in
      match respond request with
      | Answered a =>
          if success a then
            (Some request, closed_dialog, Some (ToastSuccess (t (u "Quota adjusted successfully"))), true)
          else (Some request, failed,
                Some (ToastError (text_or (message a) (t (u "Failed to adjust quota")))), false)
      | Rejected e => (Some request, failed,
                       Some (ToastError (option_or e (t (u "Failed to adjust quota")))), false)
      end
  end.

Definition handleCancel (d : QuotaDialog) : QuotaDialog :=
  {| qd_mode := Add; qd_amount := []; qd_loading := qd_loading d; qd_open := false |}.

(** ** Properties *)







(** A second save sends what the first one sent: the key the server holds after the first save. *)
Definition saved_key (key : ApiKey) (p : ApiKeyFormData) : ApiKey :=
  {| ak_id := ak_id key; ak_name := kp_name p; ak_status := ak_status key; ak_remain_quota := kp_remain_quota p;
     ak_unlimited_quota := kp_unlimited_quota p; ak_expired_time := kp_expired_time p;
     ak_group := Some (kp_group p); ak_cross_group_retry := Some (kp_cross_group_retry p);
     ak_model_limits_enabled := kp_model_limits_enabled p; ak_model_limits := Some (kp_model_limits p);
     ak_allow_ips := Some (kp_allow_ips p) |}.





(** The switch of the model limits is not part of the form: a key whose list is kept but whose limits
    are switched off has them on after any save. *)
Example limits_switched_on :
  let key := {| ak_id := 7; ak_name := u "ci"; ak_status := 1; ak_remain_quota := num_of_Z 10;
                ak_unlimited_quota := false; ak_expired_time := minus_one; ak_group := None;
                ak_cross_group_retry := None; ak_model_limits_enabled := false;
                ak_model_limits := Some (u "gpt-4o"); ak_allow_ips := None |} in
  let saved := saved_key key (key_payload None (transformApiKeyToFormDefaults None key)) in
  (ak_model_limits_enabled key, ak_model_limits_enabled saved) = (false, true).
Proof. reflexivity. Qed.

(** A redemption code comes back as it was, with the mark of a code that does not expire. *)
Theorem redemption_roundtrip state code q t :
  moderate_display state = true -> Z.abs q <= 2 ^ 48 -> t = 0 \/ 0 < t <= 8640000000000 ->
  rd_quota code = num_of_Z q -> rd_expired_time code = num_of_Z t ->
  redemption_payload state (transformRedemptionToFormDefaults state code) =
  {| rp_name := rd_name code; rp_quota := rd_quota code; rp_expired_time := rd_expired_time code;
     rp_count := num_of_Z 1 |}.
Proof.
  intros Hm Hq Ht Eq Et. unfold redemption_payload, transformRedemptionToFormDefaults.
  cbn [rf_name rf_quota_dollars rf_expired_time rf_count num_or]. rewrite Eq, Et.
  rewrite expiry_roundtrip by (destruct Ht as [->|]; [right; split; [by right|done]|by left]).
  f_equal. pose proof (quota_or_zero state q Hm Hq) as H. unfold f_or in H.
  destruct (ftruthy (quotaUnitsToDollars state (num_of_Z q))) eqn:Hd; [done|].
  destruct q as [|q|q].
  - by rewrite units_zero.
  - destruct (quota_signed state false q Hm Hq) as [E [_ F]]. cbn iota in F. congruence.
  - destruct (quota_signed state true q Hm Hq) as [E [_ F]]. cbn iota in F. congruence.
Qed.

(** An edited user keeps the group and the remark; the quota and the role are not sent. *)
Theorem user_roundtrip state user :
  us_username user <> [] -> us_display_name user <> [] -> us_group user <> [] ->
  user_payload (transformUserToFormDefaults state user) (Some (us_id user)) =
  {| up_id := Some (us_id user); up_username := us_username user; up_display_name := us_display_name user;
     up_password := None; up_role := None; up_group := Some (us_group user);
     up_remark := text_or_none (us_remark user) |}.
Proof.
  intros H1 H2 H3. unfold user_payload, transformUserToFormDefaults.
  cbn [uf_username uf_display_name uf_password uf_role uf_quota_dollars uf_group uf_remark].
  unfold text_or at 1 2. rewrite (proj2 (truthy_spec _) H2), (proj2 (truthy_spec _) H3).
  f_equal. by destruct (us_remark user) as [[|]|].
Qed.

(** A confirmed addition or subtraction asks for a positive amount, the one of the preview; a text
    without an amount asks for nothing. *)
Lemma fabs_of_positive x : fle x zero = false -> is_nan x = false -> fabs x = x /\ flt zero x = true.
Proof. by destruct x as [[]|[]| |[] m e]. Qed.

Theorem confirm_positive state d mode value :
  confirm_request state d = Some (mode, value) -> mode <> Override -> is_nan (quotaValue state d) = false ->
  value = quotaValue state d /\ flt zero value = true /\ mode = qd_mode d.
Proof.
  unfold confirm_request. intros H Hmode Hnan.
  destruct (bool_decide (qd_mode d = Override)) eqn:E.
  { rewrite !andb_false_r in H. apply bool_decide_eq_true in E. congruence. }
  destruct (truthy (qd_amount d)); [|done]. cbn in H.
  destruct (fle (quotaValue state d) zero) eqn:Hle; [done|]. cbn in H. injection H as <- <-.
  destruct (fabs_of_positive _ Hle Hnan) as [-> ?]. done.
Qed.
