(* ===== verification/KeyStore.v ===== *)
(** * The page of API keys

    [web/default/src/features/keys/components/api-keys-provider.tsx] (the cache of the unmasked keys and its
    requests), [data-table-bulk-actions.tsx] (copying the selected keys) and
    [api-keys-mutate-drawer.tsx] (the form of one key: its loading effect and its submission). A handler that
    awaits a request is split at the [await]: the part before it makes a request, the answer is a step of its
    own, so that answers may come in any order. *)

From S2P Require Import Prelude JsString JsNumber Json Currency FloatBounds Format KeyForms.
From stdpp Require Import gmap.
Open Scope Z_scope.

(** ** The cache of the provider *)

(** [resolvedKeys], the ids of [loadingKeys] and of [pendingRequests], and the batches in flight, each with the
    ids it waits for. *)
Record KeyCache := {
  resolvedKeys : gmap Z jstr;
  loadingKeys : gset Z;
  pendingRequests : gset Z;
  pendingBatches : list (list Z)
}.

Definition empty_cache : KeyCache :=
  {| resolvedKeys := ∅; loadingKeys := ∅; pendingRequests := ∅; pendingBatches := [] |}.

(** [resolvedKeys[id]] when it is truthy. *)
Definition cached (m : gmap Z jstr) (id : Z) : option jstr :=
  match m !! id with Some k => if truthy k then Some k else None | None => None end.

Definition sk (key : jstr) : jstr := u "sk-" ++ key.

(** What [resolveRealKey] gives its caller at once: a key, the promise of a request that is under way, or the
    promise of its own new request. *)
Inductive Resolution := Cached (key : jstr) | Joined | Requested.

(** [resolveRealKey(id)] up to its [await]. The callback reads the [resolvedKeys] of the render it was made in,
    [view]. *)
Definition resolveRealKey (view : gmap Z jstr) (id : Z) (c : KeyCache) : Resolution * KeyCache :=
  match cached view id with
  | Some k => (Cached k, c)
  | None =>
      if decide (id ∈ pendingRequests c) then (Joined, c) else
      (Requested, {| resolvedKeys := resolvedKeys c; loadingKeys := {[id]} ∪ loadingKeys c;
                     pendingRequests := {[id]} ∪ pendingRequests c; pendingBatches := pendingBatches c |})
  end.

(** An answer of [fetchTokenKey], with [data?.key], or a rejected request. *)
Inductive KeyAnswer :=
| KeyAnswered (ok : bool) (key : option jstr) (message : option jstr)
| KeyRejected.

Definition unexpected (t : jstr -> jstr) : Toast := ToastError (t (u "An unexpected error occurred")).

(** The rest of the request of [id]: the result of the promise, the cache and the toast. *)
Definition resolve_answer (t : jstr -> jstr) (id : Z) (answer : KeyAnswer) (c : KeyCache)
    : option jstr * KeyCache * option Toast :=
  let finally resolved := {| resolvedKeys := resolved; loadingKeys := loadingKeys c ∖ {[id]};
                             pendingRequests := pendingRequests c ∖ {[id]};
                             pendingBatches := pendingBatches c |} in
  match answer with
  | KeyAnswered ok key message =>
      let key := text_or key [] in
      if ok && truthy key then (Some (sk key), finally (<[id := sk key]> (resolvedKeys c)), None)
      else (None, finally (resolvedKeys c),
            Some (ToastError (text_or message (t (u "An unexpected error occurred")))))
  | KeyRejected => (None, finally (resolvedKeys c), Some (unexpected t))
  end.

Definition uncachedIds (view : gmap Z jstr) (ids : list Z) : list Z :=
  jfilter (fun id => match cached view id with Some _ => false | None => true end) ids.

(** [for (const id of ids) if (view[id]) result[id] = view[id]] *)
Definition copy_cached (view : gmap Z jstr) (ids : list Z) (result : gmap Z jstr) : gmap Z jstr :=
  fold_left (fun r id => match cached view id with Some k => <[id := k]> r | None => r end) ids result.

(** [resolveRealKeysBatch(ids)] up to its [await]: the keys when all of them are there, or the request. *)
Definition resolveRealKeysBatch (view : gmap Z jstr) (ids : list Z) (c : KeyCache)
    : option (gmap Z jstr) * KeyCache :=
  match uncachedIds view ids with
  | [] => (Some (copy_cached view ids ∅), c)
  | uncached =>
      (None, {| resolvedKeys := resolvedKeys c; loadingKeys := list_to_set uncached ∪ loadingKeys c;
                pendingRequests := pendingRequests c; pendingBatches := pendingBatches c ++ [uncached] |})
  end.

Inductive BatchAnswer :=
| KeysAnswered (ok : bool) (keys : option (gmap Z jstr)) (message : option jstr)
| KeysRejected.

(** The rest of the [n]-th batch in flight, that was asked for [ids] with the keys of [view]. *)
Definition batch_answer (t : jstr -> jstr) (n : nat) (view : gmap Z jstr) (ids : list Z) (answer : BatchAnswer)
    (c : KeyCache) : gmap Z jstr * KeyCache * option Toast :=
  let uncached := option_or (pendingBatches c !! n) [] in
  let finally resolved := {| resolvedKeys := resolved; loadingKeys := loadingKeys c ∖ list_to_set uncached;
                             pendingRequests := pendingRequests c;
                             pendingBatches := delete n (pendingBatches c) |} in
  match answer with
  | KeysAnswered true (Some keys) _ =>
      let newKeys := sk <$> keys in
      (copy_cached view ids newKeys, finally (newKeys ∪ resolvedKeys c), None)
  | KeysAnswered _ _ message =>
      (∅, finally (resolvedKeys c), Some (ToastError (text_or message (t (u "An unexpected error occurred")))))
  | KeysRejected => (∅, finally (resolvedKeys c), Some (unexpected t))
  end.

(** The lines [handleBatchCopy] puts on the clipboard: a name and a key for each row that has one. *)
Definition copy_lines (keysMap : gmap Z jstr) (rows : list ApiKey) : list jstr :=
  omap (fun row => match cached keysMap (ak_id row) with
                   | Some k => Some (ak_name row ++ [9%N] ++ k)
                   | None => None
                   end) rows.

(** *** The cache over time *)

(** Calls come from any render, so [view] is any map; an answer belongs to a request that is in flight. *)
Inductive cache_step (t : jstr -> jstr) : KeyCache -> KeyCache -> Prop :=
| StepResolve view id c : cache_step t c (resolveRealKey view id c).2
| StepBatch view ids c : cache_step t c (resolveRealKeysBatch view ids c).2
| StepAnswer id answer c :
    id ∈ pendingRequests c -> cache_step t c (resolve_answer t id answer c).1.2
| StepBatchAnswer n view ids answer c :
    (n < length (pendingBatches c))%nat -> cache_step t c (batch_answer t n view ids answer c).1.2.

(** Every key that is shown as loading is waited for. *)
Definition loading_justified (c : KeyCache) : Prop :=
  forall id, id ∈ loadingKeys c -> id ∈ pendingRequests c \/ exists b, b ∈ pendingBatches c /\ id ∈ b.

Lemma resolve_justified view id c : loading_justified c -> loading_justified (resolveRealKey view id c).2.
Proof.
  intros H. unfold resolveRealKey. destruct (cached view id); [done|]. case_decide; [done|].
  intros i Hi. cbn [snd loadingKeys pendingRequests pendingBatches] in *.
  apply elem_of_union in Hi as [Hi|Hi]; [left; set_solver|]. destruct (H i Hi); [left; set_solver|by right].
Qed.

Lemma batch_justified view ids c : loading_justified c -> loading_justified (resolveRealKeysBatch view ids c).2.
Proof.
  intros H. unfold resolveRealKeysBatch. destruct (uncachedIds view ids) as [|x l] eqn:E; [done|].
  rewrite <- E. clear E. intros i Hi. cbn [snd loadingKeys pendingRequests pendingBatches] in *.
  apply elem_of_union in Hi as [Hi|Hi].
  - right. exists (uncachedIds view ids). split; [set_solver|]. by apply elem_of_list_to_set in Hi.
  - destruct (H i Hi) as [?|(b & Hb & Hib)]; [by left|right]. exists b. split; [set_solver|done].
Qed.

Lemma answer_justified t id answer c :
  loading_justified c -> loading_justified (resolve_answer t id answer c).1.2.
Proof.
  intros H. assert (forall r, loading_justified
    {| resolvedKeys := r; loadingKeys := loadingKeys c ∖ {[id]}; pendingRequests := pendingRequests c ∖ {[id]};
       pendingBatches := pendingBatches c |}) as Hf.
  { intros r i Hi. cbn [loadingKeys pendingRequests pendingBatches] in *.
    apply elem_of_difference in Hi as [Hi Hne]. destruct (H i Hi); [left; set_solver|by right]. }
  unfold resolve_answer. destruct answer as [ok key message|]; [destruct (ok && _)|]; apply Hf.
Qed.

Lemma batch_answer_justified t n view ids answer c :
  (n < length (pendingBatches c))%nat ->
  loading_justified c -> loading_justified (batch_answer t n view ids answer c).1.2.
Proof.
  intros Hn H. assert (forall r, loading_justified
    {| resolvedKeys := r; loadingKeys := loadingKeys c ∖ list_to_set (option_or (pendingBatches c !! n) []);
       pendingRequests := pendingRequests c; pendingBatches := delete n (pendingBatches c) |}) as Hf.
  { intros r i Hi. cbn [loadingKeys pendingRequests pendingBatches] in *.
    apply elem_of_difference in Hi as [Hi Hne]. destruct (H i Hi) as [?|(b & Hb & Hib)]; [by left|right].
    exists b. split; [|done]. apply list_elem_of_lookup in Hb as [k Hk].
    destruct (decide (k = n)) as [->|Hkn].
    { rewrite Hk in Hne. cbn [option_or] in Hne. rewrite elem_of_list_to_set in Hne. done. }
    apply list_elem_of_lookup. destruct (decide (k < n)%nat) as [Hlt|Hge].
    - exists k. by rewrite list_lookup_delete_lt.
    - exists (k - 1)%nat. rewrite list_lookup_delete_ge by lia. replace (S (k - 1)) with k by lia. done. }
  unfold batch_answer. destruct answer as [[] [keys|] message|]; apply Hf.
Qed.

(** C27: no spinner is left behind: in every state the provider can reach, by calls and answers in any order, a
    key that is shown as loading is waited for by a request of its own or by a batch; once all requests are
    answered none is loading. *)
Theorem loading_waited_for t c :
  rtc (cache_step t) empty_cache c ->
  loading_justified c /\
  (pendingRequests c = ∅ -> pendingBatches c = [] -> loadingKeys c = ∅).
Proof.
  intros Hr. assert (loading_justified c) as H.
  { assert (forall a b, cache_step t a b -> loading_justified a -> loading_justified b) as Hstep.
    { intros a b [] Ha; [by apply resolve_justified|by apply batch_justified|by apply answer_justified|].
      by apply batch_answer_justified. }
    remember empty_cache as c0 eqn:E. assert (loading_justified c0) as H0 by (subst c0; intros i Hi; set_solver).
    clear E. induction Hr as [|a b c Hab _ IH]; [done|]. apply IH. by eapply Hstep. }
  split; [done|]. intros Hp Hb. apply set_eq. intros i. split; [|set_solver]. intros Hi.
  destruct (H i Hi) as [Hi'|(b & Hb' & _)]; [by rewrite Hp in Hi'|]. rewrite Hb in Hb'. set_solver.
Qed.

Lemma loading_waited_for_witness :
  loadingKeys (resolve_answer id 3 (KeyAnswered true (Some (u "abc")) None) (resolveRealKey ∅ 3 empty_cache).2).1.2 = ∅.
Proof.
  apply (loading_waited_for id); [|reflexivity|reflexivity].
  eapply rtc_l; [apply (StepResolve id ∅ 3)|]. eapply rtc_l; [|apply rtc_refl]. apply StepAnswer.
  vm_compute. reflexivity.
Defined.

(** A batch that ends takes the spinner of a request of its own away. *)
Example spinner_lost :
  let c1 := (resolveRealKey ∅ 3 empty_cache).2 in
  let c2 := (resolveRealKeysBatch ∅ [3] c1).2 in
  let c3 := (batch_answer id 0 ∅ [3] KeysRejected c2).1.2 in
  (elements (pendingRequests c3), elements (loadingKeys c3)) = ([3], []).
Proof. reflexivity. Qed.

(** *** The keys are the real ones *)

Section Sound.
(** The key behind an id. *)
Context (real : Z -> jstr).

Definition sound_keys (m : gmap Z jstr) : Prop := forall id k, m !! id = Some k -> k = sk (real id).

Lemma cached_sound m id k : sound_keys m -> cached m id = Some k -> k = sk (real id).
Proof.
  unfold cached. intros H. destruct (m !! id) as [k'|] eqn:E; [|done]. destruct (truthy k'); [|done].
  intros [= <-]. by apply H.
Qed.

Lemma copy_cached_lookup view ids r id :
  copy_cached view ids r !! id =
  match cached view id with Some k => if decide (id ∈ ids) then Some k else r !! id | None => r !! id end.
Proof.
  unfold copy_cached. revert r. induction ids as [|i ids IH]; intros r; cbn [fold_left].
  { destruct (cached view id); [|done]. rewrite decide_False by apply not_elem_of_nil. done. }
  rewrite IH. destruct (cached view id) as [k|] eqn:E.
  - destruct (decide (id ∈ ids)) as [Hin|Hin]; [by rewrite decide_True by set_solver|].
    destruct (decide (i = id)) as [->|Hne].
    + rewrite E, lookup_insert_eq, decide_True by set_solver. done.
    + rewrite decide_False by set_solver. destruct (cached view i); [by rewrite lookup_insert_ne|done].
  - destruct (decide (i = id)) as [->|Hne]; [by rewrite E|].
    destruct (cached view i); [by rewrite lookup_insert_ne|done].
Qed.

Lemma answers_sound t id answer c :
  sound_keys (resolvedKeys c) -> (forall key message, answer = KeyAnswered true (Some key) message -> key = real id) ->
  sound_keys (resolvedKeys (resolve_answer t id answer c).1.2).
Proof.
  intros H Ha. unfold resolve_answer. destruct answer as [[] [key|] message|]; [|done..].
  cbn [text_or andb]. assert (text_or (Some key) [] = key) as Hk by (by destruct key). cbn [text_or] in Hk.
  rewrite Hk. destruct (truthy key); [|done]. cbn [fst snd resolvedKeys]. intros i k Hl.
  destruct (decide (i = id)) as [->|Hne].
  - rewrite lookup_insert_eq in Hl. injection Hl as <-. by rewrite <- (Ha key message).
  - rewrite lookup_insert_ne in Hl by done. by apply H.
Qed.

Lemma new_keys_sound keys : (forall id k, keys !! id = Some k -> k = real id) -> sound_keys (sk <$> keys).
Proof. intros Hk id k. rewrite lookup_fmap. destruct (keys !! id) as [j|] eqn:E; [|done]. intros [= <-]. by rewrite (Hk id j). Qed.

Lemma batch_answers_sound t n view ids keys message c :
  sound_keys (resolvedKeys c) -> (forall id k, keys !! id = Some k -> k = real id) ->
  sound_keys (resolvedKeys (batch_answer t n view ids (KeysAnswered true (Some keys) message) c).1.2).
Proof.
  intros H Hk id k. cbn [batch_answer fst snd resolvedKeys]. intros [E|[_ E]]%lookup_union_Some_raw.
  - by apply (new_keys_sound keys Hk).
  - by apply H.
Qed.

(** copying the selected rows puts one line on the clipboard for every row, with the name and the real key
    of the row, in the order of the table, when the cache holds real keys and the server answers the ids it
    was asked for; no row is left out and no key goes to another row, whatever else the answer holds. *)
Theorem batch_copy_complete t n view rows keys c :
  sound_keys view -> (forall id k, keys !! id = Some k -> k = real id) ->
  (forall id, id ∈ uncachedIds view (map ak_id rows) -> is_Some (keys !! id)) ->
  copy_lines (batch_answer t n view (map ak_id rows) (KeysAnswered true (Some keys) None) c).1.1 rows =
  map (fun row => ak_name row ++ [9%N] ++ sk (real (ak_id row))) rows.
Proof.
  intros Hview Hkeys Hall. unfold batch_answer. cbn [fst].
  assert (forall row, row ∈ rows ->
    cached (copy_cached view (map ak_id rows) (sk <$> keys)) (ak_id row) = Some (sk (real (ak_id row)))) as Hrow.
  { intros row Hin. assert (ak_id row ∈ map ak_id rows) as Hid by (by apply list_elem_of_fmap_2).
    assert (copy_cached view (map ak_id rows) (sk <$> keys) !! ak_id row = Some (sk (real (ak_id row)))) as E.
    { rewrite copy_cached_lookup. destruct (cached view (ak_id row)) as [k|] eqn:E.
      - rewrite decide_True by done. by rewrite (cached_sound _ _ _ Hview E).
      - destruct (Hall (ak_id row)) as [k Hk]; [by apply jfilter_elem_of; rewrite E|].
        rewrite lookup_fmap, Hk. cbn. by rewrite (Hkeys _ _ Hk). }
    unfold cached. by rewrite E. }
  clear Hall. revert Hrow. generalize (copy_cached view (map ak_id rows) (sk <$> keys)). intros result.
  unfold copy_lines. induction rows as [|row rows IH]; intros Hrow; [done|].
  cbn [omap list_omap map]. rewrite Hrow by set_solver. f_equal. apply IH. intros r Hr. apply Hrow. set_solver.
Qed.
End Sound.

Definition named_key (i : Z) (name : string) : ApiKey :=
  {| ak_id := i; ak_name := u name; ak_status := 1; ak_remain_quota := zero; ak_unlimited_quota := true;
     ak_expired_time := minus_one; ak_group := None; ak_cross_group_retry := None;
     ak_model_limits_enabled := false; ak_model_limits := None; ak_allow_ips := None |}.

Lemma batch_copy_complete_witness :
  copy_lines (batch_answer id 0 {[1 := sk (string_of_int 1)]} [1; 2] (KeysAnswered true (Some {[2 := string_of_int 2]}) None)
                empty_cache).1.1 [named_key 1 "a"; named_key 2 "b"] =
  [u "a" ++ [9%N] ++ u "sk-1"; u "b" ++ [9%N] ++ u "sk-2"].
Proof.
  apply (batch_copy_complete string_of_int id 0 {[1 := sk (string_of_int 1)]} [named_key 1 "a"; named_key 2 "b"]).
  - intros i k Hk. apply lookup_singleton_Some in Hk as [<- <-]. reflexivity.
  - intros i k Hk. apply lookup_singleton_Some in Hk as [<- <-]. reflexivity.
  - intros i Hi. assert (i ∈ [2]) as Hi' by exact Hi. apply list_elem_of_singleton in Hi' as ->.
    exists (string_of_int 2). apply lookup_singleton_eq.
Defined.
