(* ===== verification/KeyDrawer.v ===== *)
(** * The drawer of one API key

    [web/default/src/features/keys/components/api-keys-mutate-drawer.tsx]: the effect that loads the key when
    the drawer opens, and [onSubmit] with its loop of creations. A request is a step when it is sent and a step
    when it is answered. *)

From S2P Require Import Prelude JsString JsNumber Json Currency FloatBounds Format KeyForms.
Open Scope Z_scope.

(** ** Loading *)

(** The props ([open], [currentRow], the setting of the status), the values of the form, the values
    [form.reset()] goes back to, and the ids of the [getApiKey] requests that are not answered. *)
Record KeyDrawer := {
  kd_open : bool;
  kd_row : option ApiKey;
  kd_auto : bool;
  kd_form : ApiKeyFormValues;
  kd_defaults : ApiKeyFormValues;
  kd_pending : list Z
}.

(** [form.reset(values)] *)
Definition reset_form (values : ApiKeyFormValues) (d : KeyDrawer) : KeyDrawer :=
  {| kd_open := kd_open d; kd_row := kd_row d; kd_auto := kd_auto d; kd_form := values; kd_defaults := values;
     kd_pending := kd_pending d |}.

(** The effect of the drawer, run when a dependency has changed. *)
Definition load_effect (d : KeyDrawer) : KeyDrawer :=
  match kd_open d, kd_row d with
  | true, Some row =>
      {| kd_open := kd_open d; kd_row := kd_row d; kd_auto := kd_auto d; kd_form := kd_form d;
         kd_defaults := kd_defaults d; kd_pending := kd_pending d ++ [ak_id row] |}
  | true, None => reset_form (getApiKeyFormDefaultValues (kd_auto d)) d
  | false, _ => d
  end.

(** A render with new props, and the effect after it. *)
Definition new_props (open : bool) (row : option ApiKey) (auto : bool) (d : KeyDrawer) : KeyDrawer :=
  load_effect {| kd_open := open; kd_row := row; kd_auto := auto; kd_form := kd_form d;
                 kd_defaults := kd_defaults d; kd_pending := kd_pending d |}.

(** The [then] of the [n]-th request in flight; [answer] is [result.data] of a successful result. *)
Definition load_answer (state : option StoredCurrency) (n : nat) (answer : option ApiKey) (d : KeyDrawer)
    : KeyDrawer :=
  let d' := {| kd_open := kd_open d; kd_row := kd_row d; kd_auto := kd_auto d; kd_form := kd_form d;
               kd_defaults := kd_defaults d; kd_pending := delete n (kd_pending d) |} in
  match answer with Some key => reset_form (transformApiKeyToFormDefaults state key) d' | None => d' end.

(** The sheet is closed by the user: the dialog state of the page goes to [null], the form to its defaults. *)
Definition close_sheet (d : KeyDrawer) : KeyDrawer :=
  let d' := new_props false None (kd_auto d) d in
  {| kd_open := kd_open d'; kd_row := kd_row d'; kd_auto := kd_auto d'; kd_form := kd_defaults d';
     kd_defaults := kd_defaults d'; kd_pending := kd_pending d' |}.

Definition edit_form (values : ApiKeyFormValues) (d : KeyDrawer) : KeyDrawer :=
  {| kd_open := kd_open d; kd_row := kd_row d; kd_auto := kd_auto d; kd_form := values;
     kd_defaults := kd_defaults d; kd_pending := kd_pending d |}.

Definition closed_drawer (auto : bool) : KeyDrawer :=
  {| kd_open := false; kd_row := None; kd_auto := auto; kd_form := getApiKeyFormDefaultValues auto;
     kd_defaults := getApiKeyFormDefaultValues auto; kd_pending := [] |}.

(** ** Submission *)

Inductive KeyRequest := CreateKey (p : ApiKeyFormData) | UpdateKey (id : Z) (p : ApiKeyFormData).

(** What a submission did: the requests it sent in order, its toasts, whether it closed the drawer and
    refreshed the table. *)
Record Submission := {
  sent : list KeyRequest;
  toasts : list Toast;
  closed : bool;
  refreshed : bool
}.

Definition rename (name : jstr) (p : ApiKeyFormData) : ApiKeyFormData :=
  {| kp_name := name; kp_remain_quota := kp_remain_quota p; kp_expired_time := kp_expired_time p;
     kp_unlimited_quota := kp_unlimited_quota p; kp_model_limits_enabled := kp_model_limits_enabled p;
     kp_model_limits := kp_model_limits p; kp_allow_ips := kp_allow_ips p; kp_group := kp_group p;
     kp_cross_group_retry := kp_cross_group_retry p |}.

Section Submit.
(** The translations, the random suffix of the [i]-th name, and the answer to the [i]-th request. *)
Context (t : jstr -> jstr) (suffix : nat -> jstr) (respond : nat -> KeyRequest -> Answer).

Definition creation_name (name : jstr) (i : nat) : jstr :=
  if bool_decide (i = 0%nat) && truthy name then name
  else (if truthy name then name else u "default") ++ u "-" ++ suffix i.

Definition creation (base : ApiKeyFormData) (name : jstr) (i : nat) : KeyRequest :=
  CreateKey (rename (creation_name name i) base).

(** How the loop of creations ends: after its last round or a refusal, or by an exception. *)
Inductive LoopEnd := LoopDone (successCount : nat) (errors : list Toast) | LoopThrown.

(** The loop from round [i] on, with [n] successes so far; [None] when the fuel runs out. *)
Fixpoint create_loop (fuel : nat) (count : num) (base : ApiKeyFormData) (name : jstr) (i n : nat)
    : option (list KeyRequest * LoopEnd) :=
  match fuel with
  | O => None
  | S fuel' =>
      if negb (flt (num_of_Z (Z.of_nat i)) count) then Some ([], LoopDone n []) else
      let request := creation base name i in
      match respond i request with
      | Answered a =>
          if success a then
            match create_loop fuel' count base name (S i) (S n) with
            | Some (rs, e) => Some (request :: rs, e)
            | None => None
            end
          else Some ([request],
                     LoopDone n [ToastError (text_or (message a) (t (u "Failed to create API key")))])
      | Rejected _ => Some ([request], LoopThrown)
      end
  end.

Definition unexpected_error : Toast := ToastError (t (u "An unexpected error occurred")).

(** [t('Successfully created {{count}} API Key(s)', { count })]; the text with the count is a parameter. *)
Context (created_text : nat -> jstr).

(** [onSubmit(data)] with the row of the drawer. *)
Definition onSubmit (fuel : nat) (state : option StoredCurrency) (row : option ApiKey) (data : ApiKeyFormValues)
    : option Submission :=
  let base := key_payload state data in
  match row with
  | Some r =>
      let request := UpdateKey (ak_id r) base in
      Some match respond 0 request with
           | Answered a =>
               if success a then
                 {| sent := [request]; toasts := [ToastSuccess (t (u "API Key updated successfully"))];
                    closed := true; refreshed := true |}
               else {| sent := [request];
                       toasts := [ToastError (text_or (message a) (t (u "Failed to update API key")))];
                       closed := false; refreshed := false |}
           | Rejected _ => {| sent := [request]; toasts := [unexpected_error]; closed := false; refreshed := false |}
           end
  | None =>
      match create_loop fuel (num_or (kf_tokenCount data) (num_of_Z 1)) base (kf_name data) 0 0 with
      | None => None
      | Some (rs, LoopThrown) =>
          Some {| sent := rs; toasts := [unexpected_error]; closed := false; refreshed := false |}
      | Some (rs, LoopDone n errors) =>
          Some {| sent := rs;
                  toasts := errors ++ (if bool_decide (0 < n)%nat then [ToastSuccess (created_text n)] else []);
                  closed := bool_decide (0 < n)%nat; refreshed := bool_decide (0 < n)%nat |}
      end
  end.

(** ** The loop *)

Definition accepted (base : ApiKeyFormData) (name : jstr) (i : nat) : bool :=
  match respond i (creation base name i) with Answered a => success a | Rejected _ => false end.

(** What the loop should do for [count] keys: ask for them one after the other up to the first that is not
    created. *)
Fixpoint first_refused (base : ApiKeyFormData) (name : jstr) (count i : nat) : nat :=
  match count with
  | O => i
  | S count' => if accepted base name i then first_refused base name count' (S i) else i
  end.

Definition loop_end (base : ApiKeyFormData) (name : jstr) (count : nat) : LoopEnd :=
  let k := first_refused base name count 0 in
  if bool_decide (k = count) then LoopDone count [] else
  match respond k (creation base name k) with
  | Answered a => LoopDone k [ToastError (text_or (message a) (t (u "Failed to create API key")))]
  | Rejected _ => LoopThrown
  end.

Lemma first_refused_range base name count i : (i <= first_refused base name count i <= i + count)%nat.
Proof.
  revert i. induction count as [|count IH]; intros i; cbn [first_refused]; [lia|].
  destruct (accepted base name i); [|lia]. specialize (IH (S i)). lia.
Qed.

Lemma loop_guard i count :
  Z.of_nat count < 2 ^ 53 -> (0 < count)%nat -> (i <= count)%nat ->
  flt (num_of_Z (Z.of_nat i)) (num_of_Z (Z.of_nat count)) = bool_decide (i < count)%nat.
Proof.
  intros Hc H0 Hi. rewrite flt_integers by lia.
  destruct (Z.ltb_spec (Z.of_nat i) (Z.of_nat count)); symmetry; [apply bool_decide_true|apply bool_decide_false]; lia.
Qed.

Lemma create_loop_from base name count rest i fuel :
  Z.of_nat count < 2 ^ 53 -> (0 < count)%nat -> (i + rest = count)%nat -> (rest < fuel)%nat ->
  let k := first_refused base name rest i in
  create_loop fuel (num_of_Z (Z.of_nat count)) base name i i =
  Some (map (creation base name) (seq i (if bool_decide (k = count) then rest else S (k - i))),
        if bool_decide (k = count) then LoopDone count [] else
        match respond k (creation base name k) with
        | Answered a => LoopDone k [ToastError (text_or (message a) (t (u "Failed to create API key")))]
        | Rejected _ => LoopThrown
        end).
Proof.
  intros Hc H0. revert i fuel. induction rest as [|rest IH]; intros i fuel Hi Hf; (destruct fuel as [|fuel]; [lia|]);
    cbn [create_loop first_refused]; rewrite loop_guard by lia.
  { assert (i = count) as -> by lia. rewrite bool_decide_false by lia. by rewrite bool_decide_true. }
  rewrite bool_decide_true by lia. cbn [negb].
  destruct (accepted base name i) eqn:Hacc; unfold accepted in Hacc;
  destruct (respond i (creation base name i)) as [a|e] eqn:Ha; rewrite ?Hacc; try done.
  - rewrite IH by lia. pose proof (first_refused_range base name rest (S i)) as Hr.
    destruct (bool_decide (first_refused base name rest (S i) = count)) eqn:Hk; [done|].
    replace (S (first_refused base name rest (S i) - i)) with (S (S (first_refused base name rest (S i) - S i))) by lia.
    done.
  - rewrite bool_decide_false by lia. by replace (i - i)%nat with 0%nat by lia.
  - rewrite bool_decide_false by lia. by replace (i - i)%nat with 0%nat by lia.
Qed.

(** C39: creating [n] keys at once ends, and asks for them one after the other up to the first that is not created:
    with [k] the number created, the requests are those of the rounds [0..k] (or all [n]); when all were created
    or one was refused, the drawer closes, the table is refreshed and the count announced as soon as [k] is
    positive, after the message of the refusal; a rejected request leaves the drawer open with one message. *)
Theorem submit_creates fuel state data n :
  kf_tokenCount data = Some (num_of_Z (Z.of_nat n)) -> (0 < n)%nat -> Z.of_nat n < 2 ^ 53 -> (n < fuel)%nat ->
  let base := key_payload state data in
  let k := first_refused base (kf_name data) n 0 in
  let asked := map (creation base (kf_name data)) (seq 0 (Nat.min n (S k))) in
  let some := bool_decide (0 < k)%nat in
  onSubmit fuel state None data =
  Some match loop_end base (kf_name data) n with
       | LoopDone _ errors =>
           {| sent := asked; toasts := errors ++ (if some then [ToastSuccess (created_text k)] else []);
              closed := some; refreshed := some |}
       | LoopThrown => {| sent := asked; toasts := [unexpected_error]; closed := false; refreshed := false |}
       end.
Proof.
  intros Hn H0 Hmax Hf. cbn zeta. unfold onSubmit. rewrite Hn. cbn [num_or].
  assert (f_or (num_of_Z (Z.of_nat n)) (num_of_Z 1) = num_of_Z (Z.of_nat n)) as ->.
  { destruct (Z.of_nat n) as [|p|] eqn:E; [lia| |lia]. unfold f_or.
    by destruct (num_of_Z_integral false p ltac:(lia)) as (m & e & -> & _). }
  set (base := key_payload state data). set (name := kf_name data).
  rewrite (create_loop_from base name n n 0 fuel) by lia. cbn zeta. unfold loop_end.
  pose proof (first_refused_range base name n 0) as Hr. rewrite Nat.sub_0_r.
  case_bool_decide as Hk.
  - rewrite Hk, Nat.min_l by lia. done.
  - rewrite Nat.min_r by lia. by destruct (respond _ _) as [a|e].
Qed.
End Submit.

Definition two_keys : ApiKeyFormValues :=
  {| kf_name := u "ci"; kf_remain_quota_dollars := Some (num_of_Z 10); kf_expired_time := None;
     kf_unlimited_quota := true; kf_model_limits := []; kf_allow_ips := Some []; kf_group := Some [];
     kf_cross_group_retry := Some false; kf_tokenCount := Some (num_of_Z 2) |}.

Definition all_accepted (i : nat) (r : KeyRequest) : Answer := Answered {| success := true; message := None |}.

Lemma submit_creates_witness :
  option_map closed (onSubmit id (fun i => string_of_int (Z.of_nat i)) all_accepted
    (fun n => string_of_int (Z.of_nat n)) 3 None None two_keys) = Some true.
Proof.
  rewrite (submit_creates id (fun i => string_of_int (Z.of_nat i)) all_accepted
    (fun n => string_of_int (Z.of_nat n)) 3 None two_keys 2); [reflexivity|reflexivity|lia|lia|lia].
Defined.

(** A connection that breaks after the first of two keys: one key exists, the drawer stays open and the table is
    not refreshed, so a second submission creates it again. *)
Example created_but_not_shown :
  let respond i (r : KeyRequest) := if bool_decide (i = 0%nat) then all_accepted i r else Rejected None in
  option_map (fun s => (length (sent s), closed s, refreshed s))
    (onSubmit id (fun i => string_of_int (Z.of_nat i)) respond (fun n => []) 3 None None two_keys)
  = Some (2%nat, false, false).
Proof. reflexivity. Qed.

(** ** Which key the form shows *)

(** The requests in flight are answered in the order in which they were sent. *)
Definition answer_in_order (state : option StoredCurrency) (answers : list (option ApiKey)) (d : KeyDrawer)
    : KeyDrawer :=
  fold_left (fun d a => load_answer state 0 a d) answers d.

Lemma answers_keep state answers d later :
  length answers = length (kd_pending d) ->
  forall d', kd_pending d' = kd_pending d ++ later -> kd_row d' = kd_row d ->
  kd_pending (answer_in_order state answers d') = later /\
  kd_row (answer_in_order state answers d') = kd_row d.
Proof.
  generalize (kd_pending d). intros pending. revert pending.
  induction answers as [|a answers IH]; intros pending Hl d' Hp Hr.
  { destruct pending; [|done]. by split. }
  destruct pending as [|i pending]; [done|]. cbn [answer_in_order fold_left].
  apply (IH pending); [by injection Hl|destruct a; cbn; by rewrite Hp|by destruct a].
Qed.

(** When answers come in the order of their requests, the form shows the key of the row the drawer was last
    opened for, and no request is left. *)
Theorem in_order_loads state answers d row auto :
  length answers = length (kd_pending d) ->
  let d' := answer_in_order state (answers ++ [Some row]) (new_props true (Some row) auto d) in
  kd_form d' = transformApiKeyToFormDefaults state row /\ kd_row d' = Some row /\ kd_pending d' = [].
Proof.
  intros Hl. cbn zeta. unfold answer_in_order. rewrite fold_left_app. cbn [fold_left].
  destruct (answers_keep state answers
    {| kd_open := true; kd_row := Some row; kd_auto := auto; kd_form := kd_form d; kd_defaults := kd_defaults d;
       kd_pending := kd_pending d |} [ak_id row] Hl (new_props true (Some row) auto d)) as [Hp Hr]; [done..|].
  unfold answer_in_order in Hp, Hr. unfold load_answer at 1 3 5.
  cbn [reset_form kd_form kd_row kd_pending]. rewrite Hp, Hr. done.
Qed.

Lemma update_sent t suffix respond created fuel state row data :
  option_map sent (onSubmit t suffix respond created fuel state (Some row) data) =
  Some [UpdateKey (ak_id row) (key_payload state data)].
Proof.
  unfold onSubmit. generalize (key_payload state data). intros base.
  destruct (respond 0%nat (UpdateKey (ak_id row) base)) as [a|e]; [by destruct (success a)|done].
Qed.

(** C40: An answer that is late: the drawer was closed and opened for another key in the meantime. The form then shows
    the first key, and saving it writes the values of the first key into the second one. *)
Theorem late_answer_overwrites state auto first second :
  let d := load_answer state 0 (Some first) (load_answer state 1 (Some second)
             (new_props true (Some second) auto (close_sheet
               (new_props true (Some first) auto (closed_drawer auto))))) in
  kd_row d = Some second /\ kd_form d = transformApiKeyToFormDefaults state first /\ kd_pending d = [] /\
  forall t suffix respond created fuel,
    option_map sent (onSubmit t suffix respond created fuel state (kd_row d) (kd_form d)) =
    Some [UpdateKey (ak_id second) (key_payload state (transformApiKeyToFormDefaults state first))].
Proof.
  cbn zeta. split_and!; [reflexivity..|]. intros t suffix respond created fuel. apply update_sent.
Qed.
