(* ===== verification/SettingsForm.v ===== *)
(** * Forms of system settings

    [web/default/src/features/system-settings/hooks/use-settings-form.ts]: settings with dotted names become a
    nested form, the form is flattened again to find what changed, and only changed settings are sent.
    A form value is a JSON value; which fields are dirty is told by the form library. *)

From S2P Require Import Prelude JsString JsNumber Json JsonFacts.
Open Scope Z_scope.

Abbreviation obj := (list (jstr * json)).

(** [typeof value === 'object' && value !== null && !Array.isArray(value)] *)
Definition isPlainObject (v : json) : bool := match v with JObj _ => true | _ => false end.

(** ** Flattening *)

(** [parentKey ? `${parentKey}.${key}` : key] *)
Definition nextKey (parentKey : option jstr) (key : jstr) : jstr :=
  match parentKey with Some p => if truthy p then p ++ u "." ++ key else key | None => key end.

(** The assignments [flattenValues] makes to its result, in order. *)
Fixpoint flatten_entries (parentKey : option jstr) (values : json) : list (jstr * json) :=
  match values with
  | JObj fields =>
      concat (obj_values (map (fun kv =>
        (kv.1, match kv.2 with
               | JObj _ => flatten_entries (Some (nextKey parentKey kv.1)) kv.2
               | x => [(nextKey parentKey kv.1, x)]
               end)) fields))
  | _ => match parentKey with Some p => [(p, values)] | None => [] end
  end.

Definition assign_all (entries : list (jstr * json)) (result : obj) : obj :=
  fold_left (fun r kv => obj_set kv.1 kv.2 r) entries result.

Definition flattenValues (values : json) : obj := assign_all (flatten_entries None values) [].

(** ** Expanding *)

(** [setDeepValue], for the segments of the path. *)
Fixpoint setDeepValue (segments : list jstr) (value : json) (target : obj) : obj :=
  match segments with
  | [] => target
  | [segment] => obj_set segment value target
  | segment :: rest =>
      let next := match obj_get segment target with Some (JObj o) => o | _ => [] end in
      obj_set segment (JObj (setDeepValue rest value next)) target
  end.

(** One entry of the loop: the value and the value with its own paths expanded. *)
Definition expand_entry (result : obj) (kv : jstr * (json * json)) : obj :=
  let '(key, (value, expanded)) := kv in
  if includes (u ".") key then setDeepValue (split_on (ch ".") key) value result
  else obj_set key expanded result.

Fixpoint expandDotPaths (values : json) : json :=
  match values with
  | JObj fields =>
      JObj (fold_left expand_entry (obj_order (map (fun kv => (kv.1, (kv.2, expandDotPaths kv.2))) fields)) [])
  | _ => values
  end.

(** ** Dirty fields *)

(** The marks of the form library: a mark for a field, or the marks of the fields of an object. *)
Unset Elimination Schemes.
Inductive Dirty := Mark (b : bool) | Marks (fields : list (jstr * Dirty)).
Set Elimination Schemes.

(** Induction through the lists of fields. *)
Fixpoint Dirty_ind (P : Dirty -> Prop) (Hmark : forall b, P (Mark b))
    (Hmarks : forall f, Forall (fun kv => P kv.2) f -> P (Marks f)) (d : Dirty) : P d :=
  let rec := Dirty_ind P Hmark Hmarks in
  match d with
  | Mark b => Hmark b
  | Marks f => Hmarks f ((fix go (f : list (jstr * Dirty)) : Forall (fun kv => P kv.2) f :=
      match f with [] => Forall_nil_2 _ | x :: t => Forall_cons_2 _ _ _ (rec x.2) (go t) end) f)
  end.

(** [values[key]] of a plain object or an array, otherwise [undefined]. *)
Definition source_field (values : option json) (key : jstr) : option json :=
  match values with
  | Some (JObj fields) => obj_get key fields
  | Some (JArr items) => if is_index key then nth_error items (Z.to_nat (digits_value key)) else None
  | _ => None
  end.

(** The assignments of [collectDirtyValues]; a value may be [undefined]. *)
Fixpoint dirty_entries (parentKey : option jstr) (dirty : Dirty) (values : option json)
    : list (jstr * option json) :=
  match dirty with
  | Mark true => match parentKey with Some p => [(p, values)] | None => [] end
  | Mark false => []
  | Marks fields =>
      concat (obj_values (map (fun kv =>
        (kv.1, match kv.2 with
               | Mark true => [(nextKey parentKey kv.1, source_field values kv.1)]
               | Mark false => []
               | Marks _ => dirty_entries (Some (nextKey parentKey kv.1)) kv.2 (source_field values kv.1)
               end)) fields))
  end.

Definition collectDirtyValues (dirty : Dirty) (values : json) : list (jstr * option json) :=
  fold_left (fun r kv => obj_set kv.1 kv.2 r) (dirty_entries None dirty (Some values)) [].

(** ** Comparison *)

(** [a === b || ...] of [defaultCompare]; texts, numbers, booleans, [null] and [undefined] by value, arrays and
    objects by their JSON. *)
Definition defaultCompare (a b : option json) : bool :=
  match a, b with
  | None, None => true
  | Some JNull, Some JNull => true
  | Some (JBool x), Some (JBool y) => Bool.eqb x y
  | Some (JNum x), Some (JNum y) => feq x y
  | Some (JStr x), Some (JStr y) => jeqb x y
  | Some ((JArr _ | JObj _) as x), Some ((JArr _ | JObj _) as y) => jeqb (stringify x) (stringify y)
  | _, _ => false
  end.

(** ** The hook *)

(** The refs of the hook and the values of the form. *)
Record SettingsForm := {
  baseline : obj;
  defaultValuesRef : json;
  serializedDefaults : jstr;
  formValues : json
}.

Definition saved_form (values : json) : SettingsForm :=
  {| baseline := flattenValues values; defaultValuesRef := values;
     serializedDefaults := stringify (JObj (flattenValues values)); formValues := values |}.

(** The first rendering with [defaultValues]. *)
Definition mount_form (defaultValues : json) : SettingsForm := saved_form (expandDotPaths defaultValues).

(** The effect of a rendering with other [defaultValues]. *)
Definition defaults_effect (defaultValues : json) (s : SettingsForm) : SettingsForm :=
  let expanded := expandDotPaths defaultValues in
  if jeqb (stringify (JObj (flattenValues expanded))) (serializedDefaults s) then s else saved_form expanded.

Definition edit_values (values : json) (s : SettingsForm) : SettingsForm :=
  {| baseline := baseline s; defaultValuesRef := defaultValuesRef s; serializedDefaults := serializedDefaults s;
     formValues := values |}.

Definition changedFields (dirty : Dirty) (s : SettingsForm) : list (jstr * option json) :=
  jfilter (fun kv => negb (defaultCompare kv.2 (obj_get kv.1 (baseline s))))
    (obj_order (collectDirtyValues dirty (formValues s))).

(** [handleSubmit]: what [onSubmit] is called with, and the form after it; [accepted] tells whether [onSubmit]
    returns or throws. *)
Definition submit_form (dirty : Dirty) (accepted : bool) (s : SettingsForm)
    : list (jstr * option json) * SettingsForm :=
  match changedFields dirty s with
  | [] => ([], s)
  | changed => (changed, if accepted then saved_form (formValues s) else s)
  end.

Definition reset_values (s : SettingsForm) : SettingsForm := edit_values (defaultValuesRef s) s.

(** ** Paths *)

Fixpoint path_get (p : list jstr) (v : json) : option json :=
  match p with
  | [] => Some v
  | k :: r => match v with JObj o => match obj_get k o with Some x => path_get r x | None => None end | _ => None end
  end.

Definition next_object (k : jstr) (o : obj) : obj := match obj_get k o with Some (JObj o') => o' | _ => [] end.

Lemma set_deep_cons k k' p v o :
  setDeepValue (k :: k' :: p) v o = obj_set k (JObj (setDeepValue (k' :: p) v (next_object k o))) o.
Proof. done. Qed.

Lemma path_get_cons k p o :
  path_get (k :: p) (JObj o) = match obj_get k o with Some x => path_get p x | None => None end.
Proof. done. Qed.

Lemma set_deep_get p v o : p <> [] -> path_get p (JObj (setDeepValue p v o)) = Some v.
Proof.
  revert o. induction p as [|k p IH]; intros o Hp; [done|]. destruct p as [|k' p].
  - cbn. by rewrite obj_get_set_eq.
  - rewrite set_deep_cons, path_get_cons, obj_get_set_eq. by apply IH.
Qed.

Lemma set_deep_other p q v o :
  ~ p `prefix_of` q -> ~ q `prefix_of` p -> path_get q (JObj (setDeepValue p v o)) = path_get q (JObj o).
Proof.
  revert q o. induction p as [|k p IH]; intros q o Hpq Hqp; [by destruct Hpq; apply prefix_nil|].
  destruct q as [|k' q]; [by destruct Hqp; apply prefix_nil|].
  destruct (decide (k = k')) as [<-|Hk].
  - assert (~ p `prefix_of` q /\ ~ q `prefix_of` p) as [H1 H2] by (split; intros ?; eauto using prefix_cons).
    destruct p as [|k2 p]; [by destruct H1; apply prefix_nil|].
    destruct q as [|k3 q]; [by destruct H2; apply prefix_nil|].
    rewrite set_deep_cons, !(path_get_cons k), obj_get_set_eq, IH by done. unfold next_object.
    by destruct (obj_get k o) as [[]|].
  - destruct p as [|k2 p]; [cbn [setDeepValue]|rewrite set_deep_cons]; by rewrite !path_get_cons, obj_get_set_ne.
Qed.

(** *** Trees *)

Definition leaf (v : json) : bool := negb (isPlainObject v).

(** A name without a dot. *)
Definition segment (k : jstr) : bool := truthy k && forallb (fun c => negb (c =? ch ".")%N) k.

Inductive tree : json -> Prop :=
| tree_leaf v : leaf v = true -> tree v
| tree_node o :
    NoDup (map fst o) -> (forall k x, (k, x) ∈ o -> segment k = true) -> (forall k x, (k, x) ∈ o -> tree x) ->
    tree (JObj o).

Lemma tree_fields o : tree (JObj o) ->
  NoDup (map fst o) /\ forall k x, (k, x) ∈ o -> segment k = true /\ tree x.
Proof. inversion 1; naive_solver. Qed.

Lemma tree_set k x o : tree (JObj o) -> segment k = true -> tree x -> tree (JObj (obj_set k x o)).
Proof.
  intros [Hn Hf]%tree_fields Hk Hx.
  assert (Forall (fun kv => segment kv.1 = true /\ tree kv.2) (obj_set k x o)) as H.
  { apply obj_set_Forall; [done|]. apply Forall_forall. intros [k' x'] Hin. by apply Hf. }
  rewrite Forall_forall in H. apply tree_node; [|by intros k' x' [? _]%H|by intros k' x' [_ ?]%H].
  rewrite obj_set_keys. case_bool_decide; [done|]. apply NoDup_app. split_and!; [done| |apply NoDup_singleton].
    by intros a Ha ->%list_elem_of_singleton.
Qed.

Lemma tree_next k o : tree (JObj o) -> tree (JObj (next_object k o)).
Proof.
  intros [Hn Hf]%tree_fields. unfold next_object.
  assert (tree (JObj [])) as H0 by (apply tree_node; [constructor|by intros ? ? ?%elem_of_nil..]).
  destruct (obj_get k o) as [[| | | | |o']|] eqn:E; try done. by apply obj_get_in, Hf in E as [_ ?].
Qed.

Lemma tree_set_deep p v o :
  p <> [] -> Forall (fun k => segment k = true) p -> tree v -> tree (JObj o) -> tree (JObj (setDeepValue p v o)).
Proof.
  revert o. induction p as [|k p IH]; intros o Hp Hs Hv Ho; [done|]. apply Forall_cons in Hs as [Hk Hs].
  destruct p as [|k' p]; [by apply tree_set|]. rewrite set_deep_cons. apply tree_set; [done..|].
  apply IH; [done..|]. by apply tree_next.
Qed.

(** *** What a flattened tree holds *)

Definition joined (p : list jstr) : option jstr := match p with [] => None | _ => Some (join (u ".") p) end.

Lemma join_snoc p k : p <> [] -> join (u ".") (p ++ [k]) = join (u ".") p ++ u "." ++ k.
Proof.
  induction p as [|x p IH]; [done|]. intros _. destruct p as [|y p]; [done|].
  cbn [app]. rewrite !join_cons. cbn [app] in IH. rewrite IH by done. by rewrite !app_assoc.
Qed.

Lemma nextKey_joined p k :
  Forall (fun k => segment k = true) p -> nextKey (joined p) k = join (u ".") (p ++ [k]).
Proof.
  intros Hp. destruct p as [|x p]; [done|]. rewrite join_snoc by done. unfold joined, nextKey.
  apply Forall_cons in Hp as [Hx _]. unfold segment in Hx. bool_to_prop.
  destruct x as [|c x]; [done|]. by destruct p.
Qed.

Lemma joined_snoc p k : joined (p ++ [k]) = Some (join (u ".") (p ++ [k])).
Proof. by destruct p. Qed.

Lemma elem_of_values {A B} (f : jstr * A -> list B) (o : list (jstr * A)) y :
  y ∈ concat (obj_values (map (fun kv => (kv.1, f kv)) o)) <-> exists kv, kv ∈ o /\ y ∈ f kv.
Proof.
  unfold obj_values. rewrite obj_order_perm, map_map. cbn [snd].
  change (concat (map f o)) with (concat (map f o)). rewrite <- flat_map_concat_map.
  rewrite list_elem_of_In, in_flat_map. setoid_rewrite list_elem_of_In. done.
Qed.

Lemma flatten_elem v : forall p, tree v -> Forall (fun k => segment k = true) p -> isPlainObject v = true ->
  forall K x, (K, x) ∈ flatten_entries (joined p) v <->
    exists q, q <> [] /\ K = join (u ".") (p ++ q) /\ path_get q v = Some x /\ leaf x = true.
Proof.
  induction v as [| | | | |o IH] using json_ind; try done. intros p [Hn Hf]%tree_fields Hp _ K x.
  cbn [flatten_entries]. rewrite elem_of_values. split.
  - intros ([k y] & Hin & Hy). cbn [fst snd] in Hy. destruct (Hf k y Hin) as [Hk Ht].
    rewrite nextKey_joined in Hy by done. rewrite Forall_forall in IH. specialize (IH _ Hin (p ++ [k]) Ht).
    rewrite joined_snoc in IH. pose proof (obj_get_elem o k y Hn Hin) as Hg.
    assert (forall q, p ++ k :: q = (p ++ [k]) ++ q) as Happ by (intros; by rewrite <- app_assoc).
    assert (leaf y = true -> (K, x) = (join (u ".") (p ++ [k]), y) -> exists q, q <> [] /\
      K = join (u ".") (p ++ q) /\ path_get q (JObj o) = Some x /\ leaf x = true) as Hleaf.
    { intros Hl [= -> ->]. exists [k]. cbn [path_get]. by rewrite Hg. }
    destruct y as [| | | | |o']; try (apply Hleaf; [done|by apply list_elem_of_singleton in Hy]).
    apply IH in Hy as (q & Hq & -> & Hx & Hl); [|by apply Forall_app; split; [|apply Forall_singleton]|done].
    exists (k :: q). split_and!; [done|by rewrite (Happ q)|by rewrite path_get_cons, Hg|done].
  - intros (q & Hq & -> & Hx & Hl). destruct q as [|k q]; [done|]. rewrite path_get_cons in Hx.
    destruct (obj_get k o) as [y|] eqn:Hg; [|done]. apply obj_get_in in Hg as Hin. exists (k, y). split; [done|].
    cbn [fst snd]. destruct (Hf k y Hin) as [Hk Ht]. rewrite nextKey_joined by done.
    destruct q as [|k' q].
    { injection Hx as ->. destruct x; try (by apply list_elem_of_singleton). discriminate Hl. }
    destruct y as [| | | | |o']; try done. rewrite <- joined_snoc. rewrite Forall_forall in IH.
    apply (IH _ Hin); [done|by apply Forall_app; split; [|apply Forall_singleton]|done|].
    exists (k' :: q). rewrite <- app_assoc. done.
Qed.

Lemma path_segments q v x : tree v -> path_get q v = Some x -> Forall (fun k => segment k = true) q.
Proof.
  revert v. induction q as [|k q IH]; intros v Hv Hx; [done|]. destruct v as [| | | | |o]; try done.
  rewrite path_get_cons in Hx. destruct (obj_get k o) as [y|] eqn:Hg; [|done]. apply obj_get_in in Hg.
  apply tree_fields in Hv as [_ Hf]. destruct (Hf k y Hg). constructor; [done|]. by apply (IH y).
Qed.

Lemma split_joined q : q <> [] -> Forall (fun k => segment k = true) q -> split_on (ch ".") (join (u ".") q) = q.
Proof.
  intros Hq Hs. change (u ".") with [ch "."]. apply split_on_join; [done|]. eapply Forall_impl; [exact Hs|].
  unfold segment. cbn beta. intros k Hk. by bool_to_prop.
Qed.

Lemma assign_get K x l r :
  (K, x) ∈ l -> (forall y, (K, y) ∈ l -> y = x) -> obj_get K (assign_all l r) = Some x.
Proof.
  unfold assign_all. induction l as [|[k y] l IH] using rev_ind; [by intros ?%elem_of_nil|]. intros Hin Hall.
  rewrite fold_left_app. cbn [fold_left fst snd]. destruct (decide (k = K)) as [->|Hne].
  - rewrite obj_get_set_eq. f_equal. apply Hall. set_solver.
  - rewrite obj_get_set_ne by done. apply IH; [set_solver|]. intros z Hz. apply Hall. set_solver.
Qed.

Lemma assign_absent K l r : (forall y, (K, y) ∉ l) -> obj_get K (assign_all l r) = obj_get K r.
Proof.
  unfold assign_all. induction l as [|[k y] l IH] using rev_ind; [done|]. intros Hall.
  rewrite fold_left_app. cbn [fold_left fst snd]. destruct (decide (k = K)) as [->|Hne].
  - destruct (Hall y). set_solver.
  - rewrite obj_get_set_ne by done. apply IH. intros z Hz. apply (Hall z). set_solver.
Qed.

(** The flattened form of a tree holds its leaves under their dotted paths, and nothing else. *)
Lemma flatten_get o K :
  tree (JObj o) ->
  obj_get K (flattenValues (JObj o)) =
  match path_get (split_on (ch ".") K) (JObj o) with Some x => if leaf x then Some x else None | None => None end.
Proof.
  intros Ho. unfold flattenValues.
  assert (forall x, (K, x) ∈ flatten_entries None (JObj o) <->
    path_get (split_on (ch ".") K) (JObj o) = Some x /\ leaf x = true) as Hin.
  { intros x. change None with (joined []). rewrite flatten_elem by done. cbn [app]. split.
    - intros (q & Hq & -> & Hx & Hl). rewrite split_joined by (eauto using path_segments). done.
    - intros [Hx Hl]. exists (split_on (ch ".") K). split_and!; [apply split_on_nonempty| |done..].
      change (u ".") with [ch "."]. by rewrite join_split_on. }
  destruct (path_get _ _) as [x|] eqn:E.
  - destruct (leaf x) eqn:Hl.
    + apply assign_get; [by apply Hin|]. by intros y [[= ->] _]%Hin.
    + rewrite assign_absent; [done|]. intros y [[= ->] ?]%Hin. congruence.
  - rewrite assign_absent; [done|]. by intros y [? _]%Hin.
Qed.

(** *** What expanding dotted names gives *)

Definition set_all (l : list (jstr * json)) : obj :=
  fold_left (fun r kv => setDeepValue (split_on (ch ".") kv.1) kv.2 r) l [].

Lemma split_undotted key : includes (u ".") key = false -> split_on (ch ".") key = [key].
Proof.
  change (u ".") with [ch "."]. rewrite includes_char. intros H. apply split_on_plain.
  apply forallb_forall. intros c Hc. apply negb_true_iff. apply N.eqb_neq. intros ->.
  assert (existsb (N.eqb (ch ".")) key = true); [|congruence]. apply existsb_exists. exists (ch ".").
  by rewrite N.eqb_refl.
Qed.

Lemma expand_leaf v : leaf v = true -> expandDotPaths v = v.
Proof. by destruct v. Qed.

Lemma expand_flat flat :
  (forall k v, (k, v) ∈ flat -> leaf v = true) ->
  exists l, l ≡ₚ flat /\ expandDotPaths (JObj flat) = JObj (set_all l).
Proof.
  intros Hleaf. set (M := obj_order (map (fun kv => (kv.1, (kv.2, expandDotPaths kv.2))) flat)).
  exists (map (fun m => (m.1, m.2.1)) M). split.
  - unfold M. rewrite obj_order_perm, map_map. cbn [fst snd]. rewrite (map_ext _ id); [by rewrite map_id|by intros []].
  - cbn [expandDotPaths]. fold M. f_equal. unfold set_all.
    assert (Forall (fun m => leaf m.2.1 = true /\ m.2.2 = m.2.1) M) as HM.
    { unfold M. rewrite obj_order_perm. apply Forall_forall. intros m ([k v] & -> & Hin)%list_elem_of_fmap.
      cbn [fst snd]. pose proof (Hleaf k v Hin). split; [done|by apply expand_leaf]. }
    generalize ([] : obj). induction HM as [|[k [v w]] M' [Hl Hw] _ IH]; intros r; [done|].
    cbn [fold_left map fst snd] in *. subst w. rewrite IH. f_equal. unfold expand_entry.
    destruct (includes (u ".") k) eqn:E; [done|]. by rewrite split_undotted.
Qed.

(** Names none of which is the beginning of another one, with values that are no objects. *)
Definition flat_settings (flat : obj) : bool :=
  bool_decide (NoDup (map fst flat)) &&
  forallb (fun kv => leaf kv.2 && forallb segment (split_on (ch ".") kv.1)) flat &&
  forallb (fun k => forallb (fun k' => jeqb k k' ||
    negb (bool_decide (split_on (ch ".") k `prefix_of` split_on (ch ".") k'))) (map fst flat)) (map fst flat).

Record separated (flat : obj) : Prop := {
  sep_nodup : NoDup (map fst flat);
  sep_leaf k v : (k, v) ∈ flat -> leaf v = true;
  sep_segments k v : (k, v) ∈ flat -> Forall (fun s => segment s = true) (split_on (ch ".") k);
  sep_apart k k' : k ∈ map fst flat -> k' ∈ map fst flat -> k <> k' ->
    ~ split_on (ch ".") k `prefix_of` split_on (ch ".") k'
}.

Lemma flat_separated flat : flat_settings flat = true -> separated flat.
Proof.
  unfold flat_settings. intros H. apply andb_true_iff in H as [[H1 H2]%andb_true_iff H3].
  apply bool_decide_eq_true in H1. rewrite forallb_Forall in H2. rewrite forallb_Forall in H3.
  rewrite Forall_forall in H2. rewrite Forall_forall in H3. split; [done| | |].
  - intros k v Hin. specialize (H2 _ Hin). cbn in H2. by bool_to_prop.
  - intros k v Hin. specialize (H2 _ Hin). cbn [fst snd] in H2. apply andb_true_iff in H2 as [_ H2].
    by rewrite forallb_Forall in H2.
  - intros k k' Hk Hk' Hne. specialize (H3 k Hk). cbn beta in H3. rewrite forallb_Forall, Forall_forall in H3.
    specialize (H3 k' Hk'). cbn beta in H3. rewrite (proj2 (jeqb_neq k k') Hne) in H3. cbn in H3.
    apply negb_true_iff, bool_decide_eq_false in H3. done.
Qed.

Lemma separated_perm l flat : l ≡ₚ flat -> separated flat -> separated l.
Proof.
  intros Hp [H1 H2 H3 H4]. split.
  - by rewrite Hp.
  - intros k v Hin. rewrite Hp in Hin. by apply (H2 k v).
  - intros k v Hin. rewrite Hp in Hin. by apply (H3 k v).
  - intros k k' Hk Hk'. rewrite Hp in Hk. rewrite Hp in Hk'. by apply H4.
Qed.

Lemma set_deep_below p q v o : leaf v = true -> p <> [] -> p `prefix_of` q -> p <> q ->
  path_get q (JObj (setDeepValue p v o)) = None.
Proof.
  intros Hv. revert q o. induction p as [|k p IH]; intros q o Hp Hpre Hne; [done|].
  destruct q as [|k' q]; [by apply prefix_nil_not in Hpre|].
  apply prefix_cons_inv_1 in Hpre as Hk. apply prefix_cons_inv_2 in Hpre. subst k'.
  destruct p as [|k2 p].
  - cbn [setDeepValue]. rewrite path_get_cons, obj_get_set_eq. destruct q; [done|]. by destruct v.
  - rewrite set_deep_cons, path_get_cons, obj_get_set_eq. apply IH; [done..|congruence].
Qed.

Lemma set_deep_above p q v o : q `prefix_of` p -> p <> q ->
  exists o', path_get q (JObj (setDeepValue p v o)) = Some (JObj o').
Proof.
  revert p o. induction q as [|k q IH]; intros p o Hpre Hne; [by eexists|].
  destruct p as [|k' p]; [by apply prefix_nil_not in Hpre|].
  apply prefix_cons_inv_1 in Hpre as Hk. apply prefix_cons_inv_2 in Hpre. subst k'.
  destruct p as [|k2 p]; [destruct q; [done|by apply prefix_nil_not in Hpre]|].
  rewrite set_deep_cons, path_get_cons, obj_get_set_eq. apply IH; [done|congruence].
Qed.

(** A leaf of the result is the value of one of the names. *)
Lemma set_all_spec l :
  separated l ->
  tree (JObj (set_all l)) /\
  forall K x, path_get (split_on (ch ".") K) (JObj (set_all l)) = Some x /\ leaf x = true <-> (K, x) ∈ l.
Proof.
  induction l as [|[k v] l IH] using rev_ind; intros Hs.
  { split; [apply tree_node; [constructor|by intros ? ? ?%elem_of_nil..]|]. intros K x. split; [|by intros ?%elem_of_nil].
    pose proof (split_on_nonempty (ch ".") K). destruct (split_on (ch ".") K); [done|]. cbn. by intros []. }
  destruct Hs as [Hn Hl Hsg Ha].
  assert (separated l) as Hs'.
  { rewrite map_app in Hn, Ha. split; [by apply NoDup_app in Hn as [? _]|..].
    - intros a b Hin. apply (Hl a b). set_solver.
    - intros a b Hin. apply (Hsg a b). set_solver.
    - intros a b Ha' Hb'. apply Ha; set_solver. }
  destruct (IH Hs') as [Htree Hget]. unfold set_all in *. rewrite fold_left_app. cbn [fold_left fst snd].
  set (o := fold_left _ l []) in *. assert ((k, v) ∈ l ++ [(k, v)]) as Hkv by set_solver.
  pose proof (Hl k v Hkv) as Hv. pose proof (Hsg k v Hkv) as Hk. pose proof (split_on_nonempty (ch ".") k) as Hne.
  split; [by apply tree_set_deep; [..|by constructor|]|]. intros K x.
  assert (split_on (ch ".") K = split_on (ch ".") k -> K = k) as Hinj.
  { intros E. rewrite <- (join_split_on (ch ".") K), E. apply join_split_on. }
  destruct (decide (K = k)) as [->|HK].
  - rewrite set_deep_get by done. split; [intros [[= ->] _]; done|]. intros Hin.
    assert (x = v) as ->; [|done]. apply (obj_get_elem _ k x) in Hin; [|done].
    apply (obj_get_elem _ k v) in Hkv; [|done]. congruence.
  - rewrite elem_of_app, list_elem_of_singleton. destruct (decide (split_on (ch ".") k `prefix_of` split_on (ch ".") K)) as [Hp|Hp].
    + rewrite set_deep_below by (try done; intros E; by apply HK, Hinj). split; [by intros []|].
      intros [Hin|[= -> ->]]; [|done]. destruct (Ha k K); [by apply (list_elem_of_fmap_2 fst) in Hkv| |done|done].
      apply (list_elem_of_fmap_2 fst _ (K, x)). set_solver.
    + destruct (decide (split_on (ch ".") K `prefix_of` split_on (ch ".") k)) as [Hp'|Hp'].
      * destruct (set_deep_above (split_on (ch ".") k) (split_on (ch ".") K) v o Hp') as [o' ->];
          [intros E; by apply HK, Hinj|].
        split; [by intros [[= <-] ?]|]. intros [Hin|[= -> ->]]; [|done].
        destruct (Ha K k); [|by apply (list_elem_of_fmap_2 fst) in Hkv|done|done].
        apply (list_elem_of_fmap_2 fst _ (K, x)). set_solver.
      * rewrite set_deep_other by done. rewrite Hget. naive_solver.
Qed.

(** Expanding settings with dotted names and flattening the form gives every setting its value under its own name,
    and no other setting. *)
Lemma flat_get_baseline flat K :
  flat_settings flat = true -> obj_get K (baseline (mount_form (JObj flat))) = obj_get K flat.
Proof.
  unfold mount_form, saved_form. cbn [baseline]. intros Hs%flat_separated. destruct (expand_flat flat (sep_leaf _ Hs)) as (l & Hp & ->).
  destruct (set_all_spec l (separated_perm _ _ Hp Hs)) as [Htree Hget]. rewrite flatten_get by done.
  destruct (path_get _ _) as [x|] eqn:E; [destruct (leaf x) eqn:Hx|].
  - symmetry. apply obj_get_elem; [by apply sep_nodup|]. rewrite <- Hp. by apply Hget.
  - destruct (obj_get K flat) as [y|] eqn:Hy; [|done]. apply obj_get_in in Hy. rewrite <- Hp in Hy.
    apply Hget in Hy as [Hy ?]. congruence.
  - destruct (obj_get K flat) as [y|] eqn:Hy; [|done]. apply obj_get_in in Hy. rewrite <- Hp in Hy.
    apply Hget in Hy as [Hy ?]. congruence.
Qed.

Definition sample_settings : obj :=
  [(u "Notice", JStr (u "hello")); (u "legal.privacy", JStr []); (u "legal.terms.text", JStr (u "ok"));
   (u "theme", JArr [JNum zero])].

(** ** What is sent *)

(** The field at a path is marked. *)
Fixpoint marked (p : list jstr) (d : Dirty) : bool :=
  match p, d with
  | [], Mark b => b
  | k :: r, Marks f => match obj_get k f with Some d' => marked r d' | None => false end
  | _, _ => false
  end.

Definition source_path (p : list jstr) (values : option json) : option json := fold_left source_field p values.

Inductive marks : Dirty -> Prop :=
| marks_mark b : marks (Mark b)
| marks_node f :
    NoDup (map fst f) -> (forall k d, (k, d) ∈ f -> segment k = true) -> (forall k d, (k, d) ∈ f -> marks d) ->
    marks (Marks f).

Lemma dirty_elem d : forall p values, marks d -> Forall (fun k => segment k = true) p ->
  (exists f, d = Marks f) -> forall K x, (K, x) ∈ dirty_entries (joined p) d values <->
    exists q, q <> [] /\ K = join (u ".") (p ++ q) /\ marked q d = true /\ x = source_path q values.
Proof.
  induction d as [b|f IH] using Dirty_ind; intros p values Hd Hp [f' E]; [done|]. clear f' E.
  assert (NoDup (map fst f) /\ forall k d, (k, d) ∈ f -> segment k = true /\ marks d) as [Hn Hf]
    by (inversion Hd; naive_solver).
  intros K x. cbn [dirty_entries]. rewrite elem_of_values. rewrite Forall_forall in IH. split.
  - intros ([k d] & Hin & Hx). cbn [fst snd] in Hx. destruct (Hf k d Hin) as [Hk Hm].
    rewrite nextKey_joined in Hx by done. pose proof (obj_get_elem f k d Hn Hin) as Hg.
    destruct d as [[]|fs]; [|by apply elem_of_nil in Hx|].
    + apply list_elem_of_singleton in Hx as [= -> ->]. exists [k]. split_and!; [done..| |done]. cbn. by rewrite Hg.
    + rewrite <- joined_snoc in Hx.
      apply (IH _ Hin) in Hx as (q & Hq & -> & Hm' & ->);
        [|done|by apply Forall_app; split; [|apply Forall_singleton]|by eexists].
      exists (k :: q). rewrite <- app_assoc. split_and!; [done..| |done]. cbn [marked]. by rewrite Hg.
  - intros (q & Hq & -> & Hm & ->). destruct q as [|k q]; [done|]. cbn [marked] in Hm.
    destruct (obj_get k f) as [d|] eqn:Hg; [|done]. apply obj_get_in in Hg as Hin. exists (k, d). split; [done|].
    cbn [fst snd]. destruct (Hf k d Hin) as [Hk Hmd]. rewrite nextKey_joined by done.
    destruct d as [b|fs].
    + destruct q; [|done]. cbn in Hm. subst b. by apply list_elem_of_singleton.
    + destruct q as [|k' q]; [done|]. rewrite <- joined_snoc.
      apply (IH _ Hin); [done|by apply Forall_app; split; [|apply Forall_singleton]|by eexists|].
      exists (k' :: q). rewrite <- app_assoc. done.
Qed.

Lemma marked_segments q d : marks d -> marked q d = true -> Forall (fun k => segment k = true) q.
Proof.
  revert d. induction q as [|k q IH]; intros d Hd Hm; [done|]. destruct d as [|f]; [done|]. cbn [marked] in Hm.
  destruct (obj_get k f) as [d'|] eqn:Hg; [|done]. apply obj_get_in in Hg. inversion Hd as [|? Hn Hs Hr]; subst.
  constructor; [by apply (Hs k d')|]. apply (IH d'); [by apply (Hr k d')|done].
Qed.

Lemma source_of_path p o x : path_get p (JObj o) = Some x -> source_path p (Some (JObj o)) = Some x.
Proof.
  assert (forall v, path_get p v = Some x -> source_path p (Some v) = Some x) as H; [|apply H].
  induction p as [|k p IH]; intros v Hv; [done|]. destruct v as [| | | | |f]; try done. rewrite path_get_cons in Hv.
  unfold source_path. cbn [fold_left source_field]. destruct (obj_get k f) as [y|]; [|done]. by apply IH.
Qed.

(** The form library marks fields of the form: every mark is at a leaf of the values. *)
Definition marks_leaves (f : list (jstr * Dirty)) (o : obj) : Prop :=
  marks (Marks f) /\
  forall p, marked p (Marks f) = true -> exists x, path_get p (JObj o) = Some x /\ leaf x = true.

Lemma elem_of_set_other {V} k (v : V) K x r : K <> k -> (K, x) ∈ r -> (K, x) ∈ obj_set k v r.
Proof.
  intros Hne. induction r as [|[k' v'] r IH]; [by intros ?%elem_of_nil|]. cbn [obj_set].
  intros [[= <- <-]|H]%elem_of_cons.
  - rewrite (proj2 (jeqb_neq K k) Hne). by left.
  - destruct (jeqb k' k); [by right|]. right. by apply IH.
Qed.

(** Assignments that agree on every name leave exactly these entries. *)
Lemma collected_elem (l : list (jstr * option json)) :
  (forall K a b, (K, a) ∈ l -> (K, b) ∈ l -> a = b) ->
  forall K x, (K, x) ∈ fold_left (fun r kv => obj_set kv.1 kv.2 r) l [] <-> (K, x) ∈ l.
Proof.
  induction l as [|[k v] l IH] using rev_ind; intros Hfun K x; [done|].
  rewrite fold_left_app. cbn [fold_left fst snd]. specialize (IH ltac:(intros K' a b ? ?; apply (Hfun K'); set_solver)).
  set (r := fold_left _ l []) in *. rewrite elem_of_app, list_elem_of_singleton. split.
  - intros H. assert (Forall (fun kv => kv ∈ l \/ kv = (k, v)) (obj_set k v r)) as HF.
    { apply obj_set_Forall; [by right|]. apply Forall_forall. intros [k' v'] H'. left. by apply IH. }
    exact (proj1 (Forall_forall _ _) HF _ H).
  - intros [H|[= -> ->]].
    + destruct (decide (K = k)) as [->|Hne].
      * assert (x = v) as -> by (apply (Hfun k); set_solver). apply obj_get_in, obj_get_set_eq.
      * apply elem_of_set_other; [done|]. by apply IH.
    + apply obj_get_in, obj_get_set_eq.
Qed.

Lemma dirty_values f o K x :
  marks_leaves f o ->
  (K, x) ∈ collectDirtyValues (Marks f) (JObj o) <->
  marked (split_on (ch ".") K) (Marks f) = true /\
  exists y, x = Some y /\ path_get (split_on (ch ".") K) (JObj o) = Some y /\ leaf y = true.
Proof.
  intros [Hm Hleaf].
  assert (forall K x, (K, x) ∈ dirty_entries None (Marks f) (Some (JObj o)) <->
    marked (split_on (ch ".") K) (Marks f) = true /\ x = source_path (split_on (ch ".") K) (Some (JObj o))) as Hin.
  { intros K' x'. change None with (joined []) at 1. rewrite dirty_elem; [|done|done|by eexists]. cbn [app]. split.
    - intros (q & Hq & -> & Hmq & ->). rewrite split_joined by (eauto using marked_segments). done.
    - intros [Hmk ->]. exists (split_on (ch ".") K'). split_and!; [apply split_on_nonempty| |done..].
      change (u ".") with [ch "."]. by rewrite join_split_on. }
  assert (forall K x, (K, x) ∈ collectDirtyValues (Marks f) (JObj o) <->
                      (K, x) ∈ dirty_entries None (Marks f) (Some (JObj o))) as ->.
  { apply collected_elem. intros K' a b [_ ->]%Hin [_ ->]%Hin. done. }
  rewrite Hin. split.
  - intros [H ->]. split; [done|]. destruct (Hleaf _ H) as (y & Hy & Hl). exists y.
    by rewrite (source_of_path _ _ _ Hy).
  - intros (H & y & -> & Hy & Hl). split; [done|]. by rewrite (source_of_path _ _ _ Hy).
Qed.

Lemma changed_elem f o s K x :
  formValues s = JObj o -> marks_leaves f o ->
  (K, x) ∈ changedFields (Marks f) s <->
  marked (split_on (ch ".") K) (Marks f) = true /\
  exists y, x = Some y /\ path_get (split_on (ch ".") K) (JObj o) = Some y /\ leaf y = true /\
    defaultCompare (Some y) (obj_get K (baseline s)) = false.
Proof.
  intros Ho Hm. unfold changedFields. rewrite jfilter_elem_of, obj_order_perm, Ho, dirty_values by done. cbn [fst snd].
  rewrite negb_true_iff. naive_solver.
Qed.

Lemma submit_sends dirty b s : (submit_form dirty b s).1 = changedFields dirty s.
Proof. unfold submit_form. by destruct (changedFields dirty s). Qed.

(** No leaf is [NaN], which is not equal to itself. *)
Definition no_nan (v : json) : bool := match v with JNum x => negb (is_nan x) | _ => true end.

Lemma compare_refl v : no_nan v = true -> defaultCompare (Some v) (Some v) = true.
Proof.
  destruct v as [|b|x|t|l|o]; cbn [defaultCompare no_nan]; intros H.
  - done.
  - apply Bool.eqb_reflx.
  - destruct x as [[]|[]| |[] m e]; try done; cbn; unfold feq, SFeqb, SFcompare.
    + by rewrite Z.compare_refl, Pos.compare_cont_refl.
    + by rewrite Z.compare_refl, Pos.compare_cont_refl.
  - apply jeqb_refl.
  - apply jeqb_refl.
  - apply jeqb_refl.
Qed.

(** A field of the form that has another value than before. *)
Definition differs (o flat : obj) (K : jstr) (y : json) : Prop :=
  path_get (split_on (ch ".") K) (JObj o) = Some y /\ leaf y = true /\
  defaultCompare (Some y) (obj_get K flat) = false.

(** C30: a settings form that was opened on settings with dotted names and edited sends, under their dotted names,
    exactly the fields whose value is another one than the setting had; when the save is accepted, a second
    submission of the same values sends nothing, whatever fields are then marked dirty. *)
Theorem settings_submit flat o f f' b :
  flat_settings flat = true -> tree (JObj o) -> marks_leaves f o -> marks_leaves f' o ->
  (forall K y, differs o flat K y -> marked (split_on (ch ".") K) (Marks f) = true) ->
  (forall K y, path_get (split_on (ch ".") K) (JObj o) = Some y -> leaf y = true -> no_nan y = true) ->
  let s := edit_values (JObj o) (mount_form (JObj flat)) in
  (forall K x, (K, x) ∈ (submit_form (Marks f) true s).1 <-> exists y, x = Some y /\ differs o flat K y) /\
  (submit_form (Marks f') b (submit_form (Marks f) true s).2).1 = [].
Proof.
  intros Hflat Ho Hf Hf' Hmarked Hnan. cbn zeta. set (s := edit_values _ _).
  assert (forall K, obj_get K (baseline s) = obj_get K flat) as Hbase
    by (intros K; apply flat_get_baseline; done).
  assert (forall K x, (K, x) ∈ changedFields (Marks f) s <-> exists y, x = Some y /\ differs o flat K y) as Hsent.
  { intros K x. rewrite (changed_elem f o) by done. rewrite Hbase. unfold differs. split; [naive_solver|].
    intros (y & -> & Hy). split; [by apply (Hmarked K y)|]. naive_solver. }
  split; [intros K x; by rewrite submit_sends|]. rewrite submit_sends.
  destruct (changedFields (Marks f') _) as [|[K x] rest] eqn:E; [done|]. exfalso.
  assert ((K, x) ∈ changedFields (Marks f') (submit_form (Marks f) true s).2) as Hin by (rewrite E; by left).
  unfold submit_form in Hin. destruct (changedFields (Marks f) s) as [|c cs] eqn:E1; cbn [snd] in Hin.
  - apply (changed_elem f' o) in Hin as (_ & y & -> & Hp & Hl & Hc); [|done..]. rewrite Hbase in Hc.
    assert ((K, Some y) ∈ []) as H; [|by apply elem_of_nil in H]. apply Hsent. by exists y.
  - apply (changed_elem f' o) in Hin as (_ & y & -> & Hp & Hl & Hc); [|done..].
    cbn [baseline saved_form formValues s edit_values] in Hc. rewrite flatten_get, Hp, Hl in Hc by done.
    rewrite compare_refl in Hc; [done|]. by apply (Hnan K).
Qed.

(** Boolean forms of the hypotheses, to evaluate them on a concrete form. *)
Fixpoint tree_check (v : json) : bool :=
  match v with
  | JObj o => bool_decide (NoDup (map fst o)) && forallb (fun kv => segment kv.1 && tree_check kv.2) o
  | _ => true
  end.

Lemma tree_check_ok v : tree_check v = true -> tree v.
Proof.
  induction v as [| | | | |o IH] using json_ind; try (intros _; by apply tree_leaf). cbn [tree_check].
  intros [Hn Hf]%andb_true_iff. apply bool_decide_eq_true in Hn. rewrite forallb_Forall in Hf.
  rewrite Forall_forall in Hf. rewrite Forall_forall in IH. apply tree_node; [done|..]; intros k x Hin;
    specialize (Hf _ Hin); cbn [fst snd] in Hf; apply andb_true_iff in Hf as [H1 H2]; [done|]. by apply (IH _ Hin).
Qed.

Fixpoint marks_check (d : Dirty) : bool :=
  match d with
  | Mark _ => true
  | Marks f => bool_decide (NoDup (map fst f)) && forallb (fun kv => segment kv.1 && marks_check kv.2) f
  end.

Lemma marks_check_ok d : marks_check d = true -> marks d.
Proof.
  induction d as [b|f IH] using Dirty_ind; [intros _; apply marks_mark|]. cbn [marks_check].
  intros [Hn Hf]%andb_true_iff. apply bool_decide_eq_true in Hn. rewrite forallb_Forall in Hf.
  rewrite Forall_forall in Hf. rewrite Forall_forall in IH. apply marks_node; [done|..]; intros k x Hin;
    specialize (Hf _ Hin); cbn [fst snd] in Hf; apply andb_true_iff in Hf as [H1 H2]; [done|]. by apply (IH _ Hin).
Qed.

Definition leaf_at (o : obj) (K : jstr) : bool :=
  match path_get (split_on (ch ".") K) (JObj o) with Some x => leaf x | None => false end.

Lemma marks_leaves_check f o :
  marks_check (Marks f) && forallb (fun kv => leaf_at o kv.1) (dirty_entries None (Marks f) None) = true ->
  marks_leaves f o.
Proof.
  intros [Hm Hall]%andb_true_iff. apply marks_check_ok in Hm. split; [done|]. intros p Hp.
  rewrite forallb_Forall, Forall_forall in Hall. assert (p <> []) as Hne by (by destruct p).
  assert ((join (u ".") p, source_path p None) ∈ dirty_entries None (Marks f) None) as Hin.
  { change None with (joined []) at 2. apply dirty_elem; [done|done|by eexists|]. by exists p. }
  specialize (Hall _ Hin). cbn [fst] in Hall. unfold leaf_at in Hall.
  rewrite split_joined in Hall by (eauto using marked_segments).
  destruct (path_get p (JObj o)) as [x|]; [|done]. by exists x.
Qed.

Lemma leaf_entry o K y :
  tree (JObj o) -> path_get (split_on (ch ".") K) (JObj o) = Some y -> leaf y = true -> (K, y) ∈ flattenValues (JObj o).
Proof. intros Ho Hp Hl. apply obj_get_in. by rewrite flatten_get, Hp, Hl. Qed.

Definition edited_settings : obj :=
  [(u "Notice", JStr (u "hello")); (u "theme", JArr [JNum zero]);
   (u "legal", JObj [(u "privacy", JStr (u "new")); (u "terms", JObj [(u "text", JStr (u "ok"))])])].

Definition edited_marks : list (jstr * Dirty) :=
  [(u "theme", Mark true); (u "legal", Marks [(u "privacy", Mark true)])].

Lemma settings_submit_witness :
  let s := edit_values (JObj edited_settings) (mount_form (JObj sample_settings)) in
  (u "legal.privacy", Some (JStr (u "new"))) ∈ (submit_form (Marks edited_marks) true s).1 /\
  (submit_form (Marks edited_marks) true (submit_form (Marks edited_marks) true s).2).1 = [].
Proof.
  assert (tree (JObj edited_settings)) as Ht by (apply tree_check_ok; vm_compute; reflexivity).
  assert (marks_leaves edited_marks edited_settings) as Hm by (apply marks_leaves_check; vm_compute; reflexivity).
  assert (forallb (fun kv => (defaultCompare (Some kv.2) (obj_get kv.1 sample_settings) ||
    marked (split_on (ch ".") kv.1) (Marks edited_marks)) && no_nan kv.2)
    (flattenValues (JObj edited_settings)) = true) as Hc by (vm_compute; reflexivity).
  rewrite forallb_Forall, Forall_forall in Hc.
  destruct (settings_submit sample_settings edited_settings edited_marks edited_marks true) as [H1 H2].
  - vm_compute. reflexivity.
  - exact Ht.
  - exact Hm.
  - exact Hm.
  - intros K y (Hp & Hl & Hd). specialize (Hc (K, y) (leaf_entry _ _ _ Ht Hp Hl)). cbn [fst snd] in Hc.
    rewrite Hd in Hc. apply andb_true_iff in Hc as [Hc _]. exact Hc.
  - intros K y Hp Hl. specialize (Hc (K, y) (leaf_entry _ _ _ Ht Hp Hl)). apply andb_true_iff in Hc as [_ Hc]. exact Hc.
  - split; [|exact H2]. apply H1. exists (JStr (u "new")). split; [reflexivity|]. vm_compute. repeat split.
Defined.

(** Settings that arrive from the server with another value replace what was typed. *)
Theorem defaults_overwrite defaultValues s :
  stringify (JObj (flattenValues (expandDotPaths defaultValues))) <> serializedDefaults s ->
  formValues (defaults_effect defaultValues s) = expandDotPaths defaultValues.
Proof. intros H. unfold defaults_effect. by rewrite (proj2 (jeqb_neq _ _) H). Qed.
